(** * GeoVision: multi-temporal change detection on multispectral bands

    A shallow embedding of [utils/change_detection_real.py]
    ([RealChangeDetectionAnalyzer]) and the properties its specification
    states about it.

    - numpy's [float64] is Rocq's primitive binary64 [float]: the IEEE-754
      operations the arrays are computed with, bit for bit.
    - a numpy array is a shape and a row-major buffer; the rasters the
      repository produces are [uint8] (PIL images) and [float64].
    - a Python dict is an association list in insertion order; the caller's
      T2 mapping, which the engine assigns into, is threaded as state.
    - exceptions are an [outcome] next to the state.
    - OpenCV ([cv2.resize], [cv2.cvtColor]) and numpy's pairwise-summed
      reductions ([np.mean], [np.std]) are external: they are the
      operations of the class [Externals]. *)

From Stdlib Require Import String Ascii Floats ZArith List Bool Lia Uint63
  DecimalString.
Import ListNotations.

Set Warnings "-inexact-float".

Local Open Scope string_scope.
Local Open Scope list_scope.

(** * Exceptions *)

Inductive exn : Type :=
| KeyError (k : string)
| IndexError
| ValueError
| cv2_error.

Inductive outcome (A : Type) : Type :=
| Ok (a : A)
| Raise (e : exn).

Arguments Ok {A} a.
Arguments Raise {A} e.

Definition obind {A B} (c : outcome A) (f : A -> outcome B) : outcome B :=
  match c with
  | Ok a => f a
  | Raise e => Raise e
  end.

Declare Scope outcome_scope.
Delimit Scope outcome_scope with outcome.
Notation "x <- c ; f" := (obind c (fun x => f))
  (at level 61, c at next level, right associativity) : outcome_scope.

Definition raises {A} (c : outcome A) : bool :=
  match c with
  | Ok _ => false
  | Raise _ => true
  end.

(** * numpy arrays *)

Record ndarray (A : Type) : Type := mk_array {
  shape : list nat;
  data : list A
}.

Arguments mk_array {A} shape data.
Arguments shape {A} n.
Arguments data {A} n.

(** [a.size]: the product of the dimensions. *)
Definition prod_shape (s : list nat) : nat := fold_right Nat.mul 1 s.

Definition size {A} (a : ndarray A) : nat := prod_shape (shape a).

(** The buffer holds exactly [size] elements. *)
Definition wf_array {A} (a : ndarray A) : Prop :=
  length (data a) = size a.

Definition shape_eqb (s t : list nat) : bool :=
  if list_eq_dec Nat.eq_dec s t then true else false.

Definition amap {A B} (f : A -> B) (a : ndarray A) : ndarray B :=
  mk_array (shape a) (map f (data a)).

(** [a.shape[i]] *)
Definition shape_at (s : list nat) (i : nat) : outcome nat :=
  match nth_error s i with
  | Some d => Ok d
  | None => Raise IndexError
  end.

(** ** Broadcasting *)

Definition pad_shape (n : nat) (s : list nat) : list nat :=
  repeat 1 (n - length s) ++ s.

Fixpoint broadcast_dims (s t : list nat) : option (list nat) :=
  match s, t with
  | [], [] => Some []
  | d :: s', e :: t' =>
      match broadcast_dims s' t' with
      | None => None
      | Some r =>
          if Nat.eqb d e then Some (d :: r)
          else if Nat.eqb d 1 then Some (e :: r)
          else if Nat.eqb e 1 then Some (d :: r)
          else None
      end
  | _, _ => None
  end.

Definition broadcast_shapes (s t : list nat) : option (list nat) :=
  let n := Nat.max (length s) (length t) in
  broadcast_dims (pad_shape n s) (pad_shape n t).

(** [k] consecutive blocks of [n] elements. *)
Fixpoint chunks {A} (n k : nat) (l : list A) : list (list A) :=
  match k with
  | O => []
  | S k' => firstn n l :: chunks n k' (skipn n l)
  end.

(** The buffer of an array of shape [s] viewed at shape [t] (same rank):
    a dimension of extent 1 is repeated. *)
Fixpoint broadcast_to {A} (s t : list nat) (l : list A) : list A :=
  match s, t with
  | d :: s', e :: t' =>
      let rows := map (broadcast_to s' t') (chunks (prod_shape s') d l) in
      if Nat.eqb d e then concat rows
      else concat (repeat (concat rows) e)
  | _, _ => l
  end.

Definition zip_with {A B C} (f : A -> B -> C) (l1 : list A) (l2 : list B) : list C :=
  map (fun p => f (fst p) (snd p)) (combine l1 l2).

(** An element-wise binary operator on two arrays. *)
Definition binop {A B C} (f : A -> B -> C) (a : ndarray A) (b : ndarray B)
  : outcome (ndarray C) :=
  match broadcast_shapes (shape a) (shape b) with
  | None => Raise ValueError
  | Some s =>
      let n := length s in
      Ok (mk_array s
            (zip_with f
               (broadcast_to (pad_shape n (shape a)) s (data a))
               (broadcast_to (pad_shape n (shape b)) s (data b))))
  end.

(** * float64 *)

Section Float64.

Local Open Scope float_scope.

(** An [int64] (or a [uint8] sample) as a [float64]. *)
Definition Z2float (z : Z) : float := of_uint63 (Uint63.of_Z z).

(** [np.nan_to_num(x, nan=0.0, posinf=0.0, neginf=0.0)] at one element. *)
Definition nan_to_num (x : float) : float :=
  if is_nan x then 0
  else if x =? infinity then 0
  else if x =? neg_infinity then 0
  else x.

(** numpy's [minimum] and [maximum] as a reduction step,
    [(acc <= x || isnan(acc)) ? acc : x] and [(acc >= x || isnan(acc)) ? acc : x]:
    a NaN propagates, and of two equal elements the first is kept. *)
Definition np_minimum (acc x : float) : float :=
  if (acc <=? x) || is_nan acc then acc else x.

Definition np_maximum (acc x : float) : float :=
  if (x <=? acc) || is_nan acc then acc else x.

(** A reduction with no identity: a [ValueError] on an empty array. *)
Definition reduce (f : float -> float -> float) (l : list float) : outcome float :=
  match l with
  | [] => Raise ValueError
  | x :: l' => Ok (fold_left f l' x)
  end.

(** [a.min()], [a.max()] *)
Definition np_min (a : ndarray float) : outcome float :=
  reduce np_minimum (data a).

Definition np_max (a : ndarray float) : outcome float :=
  reduce np_maximum (data a).

(** [np.sum] of a boolean array: the number of [True]. *)
Definition np_sum_bool (a : ndarray bool) : Z :=
  Z.of_nat (length (filter (fun b => b) (data a))).

(** [float(count / total_pixels * 100)] *)
Definition percent (count : Z) (total : nat) : float :=
  Z2float count / Z2float (Z.of_nat total) * 100.

End Float64.

(** * Rasters *)

Inductive raster : Type :=
| U8 (a : ndarray Z)
| F64 (a : ndarray float).

Definition rshape (r : raster) : list nat :=
  match r with
  | U8 a => shape a
  | F64 a => shape a
  end.

Definition rsize (r : raster) : nat := prod_shape (rshape r).

Definition wf_raster (r : raster) : Prop :=
  match r with
  | U8 a => wf_array a /\ Forall (fun z => (0 <= z < 256)%Z) (data a)
  | F64 a => wf_array a
  end.

(** [r.astype(float)] *)
Definition astype_float (r : raster) : ndarray float :=
  match r with
  | U8 a => amap Z2float a
  | F64 a => a
  end.

(** [r.astype(np.uint8)] of a [float64] sample: the C conversion truncates
    towards zero (and wraps modulo 256); it is only ever applied to the
    output of [np.clip(., 0, 255)]. *)
Definition float_trunc (x : float) : Z :=
  match Prim2SF x with
  | S754_finite s m e =>
      let v := if (0 <=? e)%Z then (Zpos m * 2 ^ e)%Z
               else (Zpos m / 2 ^ (- e))%Z in
      if s then (- v)%Z else v
  | _ => 0%Z
  end.

Definition astype_uint8 (x : float) : Z := (float_trunc x mod 256)%Z.

(** [np.clip(x, lo, hi)] at one element: [minimum(maximum(x, lo), hi)]. *)
Definition np_clip (x lo hi : float) : float :=
  if is_nan x then x
  else if (x <? lo)%float then lo
  else if (hi <? x)%float then hi
  else x.

(** [image[:, :, k]] of a three-dimensional array. *)
Fixpoint strided {A} (n c k : nat) (l : list A) : list A :=
  match n with
  | O => []
  | S n' =>
      match nth_error l k with
      | Some x => x :: strided n' c k (skipn c l)
      | None => []
      end
  end.

Definition channel_of {A} (k : nat) (a : ndarray A) : outcome (ndarray A) :=
  match shape a with
  | [h; w; c] =>
      if Nat.ltb k c then Ok (mk_array [h; w] (strided (h * w) c k (data a)))
      else Raise IndexError
  | _ => Raise IndexError
  end.

Definition channel (k : nat) (r : raster) : outcome raster :=
  match r with
  | U8 a => obind (channel_of k a) (fun b => Ok (U8 b))
  | F64 a => obind (channel_of k a) (fun b => Ok (F64 b))
  end.

(** * Band sets: Python dicts from band name to raster *)

Definition dict : Type := list (string * raster).

Fixpoint dict_get (k : string) (d : dict) : outcome raster :=
  match d with
  | [] => Raise (KeyError k)
  | (k', v) :: d' => if String.eqb k k' then Ok v else dict_get k d'
  end.

(** [d[k] = v] *)
Fixpoint dict_set (k : string) (v : raster) (d : dict) : dict :=
  match d with
  | [] => [(k, v)]
  | (k', v') :: d' =>
      if String.eqb k k' then (k, v) :: d' else (k', v') :: dict_set k v d'
  end.

Definition keys (d : dict) : list string := map fst d.

(** A Python dict holds a key once. *)
Definition wf_dict (d : dict) : Prop := NoDup (keys d).

(** * The caller's T2 mapping as state *)

Definition M (A : Type) : Type := dict -> dict * outcome A.

Definition mret {A} (a : A) : M A := fun s => (s, Ok a).

Definition mbind {A B} (c : M A) (f : A -> M B) : M B :=
  fun s =>
    match c s with
    | (s', Ok a) => f a s'
    | (s', Raise e) => (s', Raise e)
    end.

Definition lift {A} (c : outcome A) : M A := fun s => (s, c).

(** [bands2[k]] *)
Definition getitem2 (k : string) : M raster := fun s => (s, dict_get k s).

(** [bands2[k] = v] *)
Definition setitem2 (k : string) (v : raster) : M unit :=
  fun s => (dict_set k v s, Ok tt).

Definition keys2 : M (list string) := fun s => (s, Ok (keys s)).

Fixpoint for_each {A} (l : list A) (body : A -> M unit) : M unit :=
  match l with
  | [] => mret tt
  | x :: l' => mbind (body x) (fun _ => for_each l' body)
  end.

Declare Scope state_scope.
Delimit Scope state_scope with state.
Notation "x <- c ; f" := (mbind c (fun x => f))
  (at level 61, c at next level, right associativity) : state_scope.

(** * External operations *)

Class Externals : Type := {
  (** [cv2.resize(src, (width, height))] *)
  cv2_resize : raster -> nat -> nat -> outcome raster;
  (** [cv2.cvtColor(image, cv2.COLOR_RGB2GRAY)] *)
  cv2_cvtColor_RGB2GRAY : raster -> outcome raster;
  (** [np.mean(a)], [np.std(a)] *)
  np_mean : ndarray float -> float;
  np_std : ndarray float -> float
}.

(** What the properties below use of [cv2.resize] on a single-channel
    raster: the result has [height] rows and [width] columns, and a
    non-empty source resized to a non-empty size is not rejected. *)
Class ResizeSpec (E : Externals) : Prop := {
  resize_shape : forall src w h r,
    length (rshape src) = 2%nat ->
    cv2_resize src w h = Ok r ->
    rshape r = [h; w] /\ wf_raster r;
  resize_ok : forall src w h,
    length (rshape src) = 2%nat -> wf_raster src ->
    rsize src <> 0%nat -> w <> 0%nat -> h <> 0%nat ->
    exists r, cv2_resize src w h = Ok r
}.

(** * Results *)

Module NDVI.
Record stats : Type := {
  mean_change : float;
  max_change : float;
  min_change : float;
  std_change : float;
  vegetation_gain : float;
  vegetation_loss : float
}.
End NDVI.

Module NDMI.
Record stats : Type := {
  mean_change : float;
  max_change : float;
  min_change : float;
  std_change : float;
  moisture_gain : float;
  moisture_loss : float
}.
End NDMI.

Module NDBI.
Record stats : Type := {
  mean_change : float;
  max_change : float;
  min_change : float;
  std_change : float;
  urban_expansion : float;
  urban_reduction : float
}.
End NDBI.

Module CVA.
Record stats : Type := {
  no_change_percent : float;
  moderate_change_percent : float;
  significant_change_percent : float;
  mean_magnitude : float;
  max_magnitude : float
}.
End CVA.

Record statistics_t : Type := {
  ndvi : NDVI.stats;
  ndmi : NDMI.stats;
  ndbi : NDBI.stats;
  cva : CVA.stats
}.

(** The result dict; the key ['warning'] is present or not. *)
Record results : Type := {
  ndvi_change : ndarray float;
  ndmi_change : ndarray float;
  ndbi_change : ndarray float;
  cva_magnitude : ndarray float;
  statistics : statistics_t;
  data_source : string;
  bands_used : string;
  warning : option string
}.

(** * RealChangeDetectionAnalyzer *)

Section Analyzer.

Context {E : Externals}.

Local Open Scope outcome_scope.

(** [np.errstate(divide='ignore', invalid='ignore')] silences warnings only;
    the division itself never raises. *)
Definition calculate_ndvi (nir red : raster) : outcome (ndarray float) :=
  num <- binop PrimFloat.sub (astype_float nir) (astype_float red);
  den <- binop PrimFloat.add (astype_float nir) (astype_float red);
  ndvi <- binop PrimFloat.div num den;
  Ok (amap nan_to_num ndvi).

Definition calculate_ndmi (nir swir : raster) : outcome (ndarray float) :=
  num <- binop PrimFloat.sub (astype_float nir) (astype_float swir);
  den <- binop PrimFloat.add (astype_float nir) (astype_float swir);
  ndmi <- binop PrimFloat.div num den;
  Ok (amap nan_to_num ndmi).

Definition calculate_ndbi (swir nir : raster) : outcome (ndarray float) :=
  num <- binop PrimFloat.sub (astype_float swir) (astype_float nir);
  den <- binop PrimFloat.add (astype_float swir) (astype_float nir);
  ndbi <- binop PrimFloat.div num den;
  Ok (amap nan_to_num ndbi).

(** [np.sum(change > 0.1) / total_pixels * 100] and the like. *)
Definition percent_where (p : float -> bool) (a : ndarray float) (total : nat) : float :=
  percent (np_sum_bool (amap p a)) total.

(** Lines 56-59, the body of the loop:
    [bands2[key] = cv2.resize(bands2[key], (bands1['nir'].shape[1], bands1['nir'].shape[0]))] *)
Definition resize_entry (bands1 : dict) (key : string) : M unit :=
  (src <- getitem2 key;
   n1 <- lift (dict_get "nir" bands1);
   w <- lift (shape_at (rshape n1) 1);
   h <- lift (shape_at (rshape n1) 0);
   r <- lift (cv2_resize src w h);
   setitem2 key r)%state.

(** Lines 54-59: the T2 mapping is resized in place, key by key. *)
Definition ensure_same_size (bands1 : dict) : M unit :=
  (nir1 <- lift (dict_get "nir" bands1);
   nir2 <- getitem2 "nir";
   if negb (shape_eqb (rshape nir1) (rshape nir2)) then
     ks <- keys2;
     for_each ks (resize_entry bands1)
   else mret tt)%state.

(** Lines 61-72, reading the (possibly resized) T2 mapping [bands2]: the
    three index change rasters. *)
Definition index_changes (bands1 bands2 : dict)
  : outcome (ndarray float * ndarray float * ndarray float) :=
  b1nir <- dict_get "nir" bands1;
  b1red <- dict_get "red" bands1;
  ndvi1 <- calculate_ndvi b1nir b1red;
  b2nir <- dict_get "nir" bands2;
  b2red <- dict_get "red" bands2;
  ndvi2 <- calculate_ndvi b2nir b2red;
  ndvi_change <- binop PrimFloat.sub ndvi2 ndvi1;
  b1nir <- dict_get "nir" bands1;
  b1swir <- dict_get "swir" bands1;
  ndmi1 <- calculate_ndmi b1nir b1swir;
  b2nir <- dict_get "nir" bands2;
  b2swir <- dict_get "swir" bands2;
  ndmi2 <- calculate_ndmi b2nir b2swir;
  ndmi_change <- binop PrimFloat.sub ndmi2 ndmi1;
  b1swir <- dict_get "swir" bands1;
  b1nir <- dict_get "nir" bands1;
  ndbi1 <- calculate_ndbi b1swir b1nir;
  b2swir <- dict_get "swir" bands2;
  b2nir <- dict_get "nir" bands2;
  ndbi2 <- calculate_ndbi b2swir b2nir;
  ndbi_change <- binop PrimFloat.sub ndbi2 ndbi1;
  Ok (ndvi_change, ndmi_change, ndbi_change).

(** Lines 74-124: magnitude, normalization, tiers and statistics. *)
Definition change_statistics (ndvi_change ndmi_change ndbi_change : ndarray float)
  : outcome results :=
  let square := amap (fun x => x * x)%float in
  s12 <- binop PrimFloat.add (square ndvi_change) (square ndmi_change);
  s123 <- binop PrimFloat.add s12 (square ndbi_change);
  let cva_magnitude := amap PrimFloat.sqrt s123 in
  lo <- np_min cva_magnitude;
  hi <- np_max cva_magnitude;
  lo' <- np_min cva_magnitude;
  let cva_normalized :=
    amap (fun m => (m - lo) / (hi - lo' + 1e-8))%float cva_magnitude in
  let no_change := np_sum_bool (amap (fun x => x <? 0.2)%float cva_normalized) in
  let moderate_change :=
    np_sum_bool (amap (fun x => (0.2 <=? x) && (x <? 0.5))%float cva_normalized) in
  let significant_change :=
    np_sum_bool (amap (fun x => 0.5 <=? x)%float cva_normalized) in
  let total_pixels := size cva_normalized in
  ndvi_max <- np_max ndvi_change;
  ndvi_min <- np_min ndvi_change;
  ndmi_max <- np_max ndmi_change;
  ndmi_min <- np_min ndmi_change;
  ndbi_max <- np_max ndbi_change;
  ndbi_min <- np_min ndbi_change;
  norm_max <- np_max cva_normalized;
  Ok {|
    ndvi_change := ndvi_change;
    ndmi_change := ndmi_change;
    ndbi_change := ndbi_change;
    cva_magnitude := cva_normalized;
    statistics := {|
      ndvi := {|
        NDVI.mean_change := np_mean ndvi_change;
        NDVI.max_change := ndvi_max;
        NDVI.min_change := ndvi_min;
        NDVI.std_change := np_std ndvi_change;
        NDVI.vegetation_gain :=
          percent_where (fun x => 0.1 <? x)%float ndvi_change total_pixels;
        NDVI.vegetation_loss :=
          percent_where (fun x => x <? -0.1)%float ndvi_change total_pixels |};
      ndmi := {|
        NDMI.mean_change := np_mean ndmi_change;
        NDMI.max_change := ndmi_max;
        NDMI.min_change := ndmi_min;
        NDMI.std_change := np_std ndmi_change;
        NDMI.moisture_gain :=
          percent_where (fun x => 0.1 <? x)%float ndmi_change total_pixels;
        NDMI.moisture_loss :=
          percent_where (fun x => x <? -0.1)%float ndmi_change total_pixels |};
      ndbi := {|
        NDBI.mean_change := np_mean ndbi_change;
        NDBI.max_change := ndbi_max;
        NDBI.min_change := ndbi_min;
        NDBI.std_change := np_std ndbi_change;
        NDBI.urban_expansion :=
          percent_where (fun x => 0.1 <? x)%float ndbi_change total_pixels;
        NDBI.urban_reduction :=
          percent_where (fun x => x <? -0.1)%float ndbi_change total_pixels |};
      cva := {|
        CVA.no_change_percent := percent no_change total_pixels;
        CVA.moderate_change_percent := percent moderate_change total_pixels;
        CVA.significant_change_percent := percent significant_change total_pixels;
        CVA.mean_magnitude := np_mean cva_normalized;
        CVA.max_magnitude := norm_max |}
    |};
    data_source := "Real Satellite Bands (Landsat/Sentinel)";
    bands_used := "NIR, Red, SWIR (multispectral)";
    warning := None
  |}.

(** Lines 61-126. *)
Definition compute_changes (bands1 bands2 : dict) : outcome results :=
  changes <- index_changes bands1 bands2;
  let '(ndvi_change, ndmi_change, ndbi_change) := changes in
  change_statistics ndvi_change ndmi_change ndbi_change.

(** The method: run on the caller's T2 mapping, it yields that mapping as
    the call leaves it and the value returned or the exception raised. *)
Definition detect_changes_with_real_bands (bands1 : dict) : M results :=
  (_ <- ensure_same_size bands1;
   fun bands2 => (bands2, compute_changes bands1 bands2))%state.

(** LEGACY: bands simulated from an RGB image. *)
Definition simulate_bands_from_rgb (image : raster) : outcome dict :=
  let ndim := length (rshape image) in
  gray <- (if Nat.eqb ndim 2 then Ok image else cv2_cvtColor_RGB2GRAY image);
  red <- (if Nat.eqb ndim 3 then channel 0 image else Ok gray);
  green <- (if Nat.eqb ndim 3 then channel 1 image else Ok gray);
  blue <- (if Nat.eqb ndim 3 then channel 2 image else Ok gray);
  let nir :=
    U8 (amap (fun g => astype_uint8 (np_clip (g * 1.2 + 20) 0 255))%float
          (astype_float green)) in
  mix <- binop PrimFloat.add
           (amap (fun r => r * 0.8)%float (astype_float red))
           (amap (fun b => b * 0.3)%float (astype_float blue));
  let swir := U8 (amap (fun x => astype_uint8 (np_clip x 0 255)%float) mix) in
  Ok [("red", red); ("green", green); ("blue", blue);
      ("nir", nir); ("swir", swir)].

(** LEGACY: change detection from RGB images (demo mode). *)
Definition detect_changes (image1 image2 : raster) : outcome results :=
  image2 <- (if negb (shape_eqb (rshape image1) (rshape image2)) then
               w <- shape_at (rshape image1) 1;
               h <- shape_at (rshape image1) 0;
               cv2_resize image2 w h
             else Ok image2);
  bands1 <- simulate_bands_from_rgb image1;
  bands2 <- simulate_bands_from_rgb image2;
  results <- snd (detect_changes_with_real_bands bands1 bands2);
  Ok {|
    ndvi_change := ndvi_change results;
    ndmi_change := ndmi_change results;
    ndbi_change := ndbi_change results;
    cva_magnitude := cva_magnitude results;
    statistics := statistics results;
    data_source := "Simulated Bands (Demo Mode - NOT ACCURATE)";
    bands_used := "RGB-derived (not real multispectral)";
    warning := Some "âš ï¸ Results use simulated bands and may not be scientifically accurate"
  |}.

End Analyzer.

(** * The per-pixel formulas, for stating properties *)

(** One pixel of an index raster: [nan_to_num((a - b) / (a + b))]. *)
Definition index_px (a b : float) : float :=
  nan_to_num ((a - b) / (a + b))%float.

(** One pixel of the change-vector magnitude. *)
Definition magnitude_px (c1 c2 c3 : float) : float :=
  PrimFloat.sqrt (c1 * c1 + c2 * c2 + c3 * c3)%float.

(** One pixel of the min-max normalization. *)
Definition normalize_px (lo hi m : float) : float :=
  ((m - lo) / (hi - lo + 1e-8))%float.

(** The three tiers. *)
Definition tier_none (x : float) : bool := (x <? 0.2)%float.
Definition tier_moderate (x : float) : bool := ((0.2 <=? x) && (x <? 0.5))%float.
Definition tier_significant (x : float) : bool := (0.5 <=? x)%float.

(** A sample that is a number, and one that is neither NaN nor infinite. *)
Definition finite (x : float) : Prop := is_nan x = false /\ is_infinity x = false.

(** A band set holding the three required bands, all of one shape. *)
Record band_set (s : list nat) (d : dict) (nir red swir : raster) : Prop := {
  bs_nir : dict_get "nir" d = Ok nir;
  bs_red : dict_get "red" d = Ok red;
  bs_swir : dict_get "swir" d = Ok swir;
  bs_nir_shape : rshape nir = s;
  bs_red_shape : rshape red = s;
  bs_swir_shape : rshape swir = s;
  bs_nir_wf : wf_raster nir;
  bs_red_wf : wf_raster red;
  bs_swir_wf : wf_raster swir
}.

(** * A sample instance of the external operations

    Nearest-neighbour resampling, integer luma, sequential mean and
    standard deviation: one concrete [Externals] on which the engine can be
    run, and which satisfies [ResizeSpec]. *)

Definition resample_nearest {A} (d : A) (h0 w0 h w : nat) (l : list A) : list A :=
  flat_map (fun i =>
    map (fun j => nth ((i * h0 / h) * w0 + j * w0 / w) l d) (seq 0 w))
    (seq 0 h).

Definition sample_resize (src : raster) (w h : nat) : outcome raster :=
  match rshape src with
  | [h0; w0] =>
      if Nat.eqb (h0 * w0) 0 || Nat.eqb w 0 || Nat.eqb h 0 then Raise cv2_error
      else
        match src with
        | U8 a =>
            Ok (U8 (mk_array [h; w]
                  (map (fun z => Z.max 0 (Z.min 255 z))
                     (resample_nearest 0%Z h0 w0 h w (data a)))))
        | F64 a => Ok (F64 (mk_array [h; w] (resample_nearest 0%float h0 w0 h w (data a))))
        end
  | _ => Raise cv2_error
  end.

Fixpoint luma (n : nat) (l : list Z) : list Z :=
  match n with
  | O => []
  | S n' =>
      match l with
      | r :: g :: b :: l' => ((299 * r + 587 * g + 114 * b + 500) / 1000)%Z :: luma n' l'
      | _ => []
      end
  end.

Definition sample_cvtColor (image : raster) : outcome raster :=
  match image with
  | U8 a =>
      match shape a with
      | [h; w; 3%nat] => Ok (U8 (mk_array [h; w] (luma (h * w) (data a))))
      | _ => Raise cv2_error
      end
  | F64 _ => Raise cv2_error
  end.

Definition sample_mean (a : ndarray float) : float :=
  (fold_left PrimFloat.add (data a) 0 / Z2float (Z.of_nat (length (data a))))%float.

Definition sample_std (a : ndarray float) : float :=
  let m := sample_mean a in
  PrimFloat.sqrt (sample_mean (amap (fun x => (x - m) * (x - m))%float a)).

#[export] Instance sample_externals : Externals := {
  cv2_resize := sample_resize;
  cv2_cvtColor_RGB2GRAY := sample_cvtColor;
  np_mean := sample_mean;
  np_std := sample_std
}.

(** ** Small band sets used as running examples *)

Definition u8 (s : list nat) (l : list Z) : raster := U8 (mk_array s l).
Definition f64 (s : list nat) (l : list float) : raster := F64 (mk_array s l).

Definition bands_of (nir red swir : raster) : dict :=
  [("red", red); ("nir", nir); ("swir", swir)].

(** * Arrays: broadcasting two arrays of one shape is the identity *)

Lemma broadcast_dims_same (s : list nat) : broadcast_dims s s = Some s.
Proof.
  induction s as [| d s IH]; simpl; [reflexivity |].
  now rewrite IH, Nat.eqb_refl.
Qed.

Lemma pad_shape_same (s : list nat) : pad_shape (length s) s = s.
Proof.
  unfold pad_shape. now rewrite Nat.sub_diag.
Qed.

Lemma broadcast_shapes_same (s : list nat) : broadcast_shapes s s = Some s.
Proof.
  unfold broadcast_shapes.
  rewrite Nat.max_id, pad_shape_same.
  apply broadcast_dims_same.
Qed.

Lemma chunks_length {A} (n k : nat) (l : list A) :
  length l = k * n ->
  Forall (fun c => length c = n) (chunks n k l).
Proof.
  revert l; induction k as [| k IH]; intros l Hl; simpl; constructor.
  - rewrite length_firstn. simpl in Hl. lia.
  - apply IH. rewrite length_skipn. simpl in Hl. lia.
Qed.

Lemma concat_chunks {A} (n k : nat) (l : list A) :
  length l = k * n -> concat (chunks n k l) = l.
Proof.
  revert l; induction k as [| k IH]; intros l Hl; simpl.
  - destruct l; [reflexivity | discriminate].
  - rewrite IH.
    + apply firstn_skipn.
    + rewrite length_skipn. simpl in Hl. lia.
Qed.

Lemma map_id_on {A} (f : A -> A) (l : list A) :
  Forall (fun x => f x = x) l -> map f l = l.
Proof.
  induction 1; simpl; congruence.
Qed.

Lemma broadcast_to_same {A} (s : list nat) (l : list A) :
  length l = prod_shape s -> broadcast_to s s l = l.
Proof.
  revert l; induction s as [| d s IH]; intros l Hl; simpl; [reflexivity |].
  rewrite Nat.eqb_refl.
  simpl in Hl.
  rewrite map_id_on.
  - now apply concat_chunks.
  - eapply Forall_impl; [| apply chunks_length; exact Hl].
    intros c Hc. now apply IH.
Qed.

Lemma binop_same_shape {A B C} (f : A -> B -> C) (a : ndarray A) (b : ndarray B) :
  shape a = shape b -> wf_array a -> wf_array b ->
  binop f a b = Ok (mk_array (shape a) (zip_with f (data a) (data b))).
Proof.
  intros Hs Ha Hb. unfold binop.
  rewrite <- Hs, broadcast_shapes_same, pad_shape_same.
  rewrite !broadcast_to_same; [reflexivity | |].
  - rewrite Hs. exact Hb.
  - exact Ha.
Qed.

Lemma zip_with_length_min {A B C} (f : A -> B -> C) (l1 : list A) (l2 : list B) :
  length (zip_with f l1 l2) = Nat.min (length l1) (length l2).
Proof.
  unfold zip_with. now rewrite length_map, length_combine.
Qed.

Lemma zip_with_length {A B C} (f : A -> B -> C) (l1 : list A) (l2 : list B) :
  length l1 = length l2 -> length (zip_with f l1 l2) = length l1.
Proof.
  intros H. rewrite zip_with_length_min. lia.
Qed.

Lemma zip_with_In {A B C} (f : A -> B -> C) (l1 : list A) (l2 : list B) (z : C) :
  In z (zip_with f l1 l2) ->
  exists x y, In x l1 /\ In y l2 /\ z = f x y.
Proof.
  unfold zip_with. intros H.
  apply in_map_iff in H as [[x y] [Hz Hin]].
  exists x, y. simpl in Hz.
  split; [eapply in_combine_l; eauto |].
  split; [eapply in_combine_r; eauto | congruence].
Qed.

Lemma zip_with_nth {A B C} (f : A -> B -> C) (l1 : list A) (l2 : list B) (i : nat) :
  nth_error (zip_with f l1 l2) i =
  match nth_error l1 i, nth_error l2 i with
  | Some x, Some y => Some (f x y)
  | _, _ => None
  end.
Proof.
  revert l2 i; induction l1 as [| x l1 IH]; intros l2 i.
  - destruct i; reflexivity.
  - destruct l2 as [| y l2].
    + destruct i; simpl; [reflexivity |]. now destruct (nth_error l1 i).
    + destruct i; simpl; [reflexivity |]. apply IH.
Qed.

Lemma zip_with_same {A C} (f : A -> A -> C) (l : list A) :
  zip_with f l l = map (fun x => f x x) l.
Proof.
  unfold zip_with. induction l as [| x l IH]; simpl; congruence.
Qed.

Lemma zip_with_fuse {A B C D E'} (f : A -> B -> C) (g : A -> B -> D) (h : C -> D -> E')
    (l1 : list A) (l2 : list B) :
  zip_with h (zip_with f l1 l2) (zip_with g l1 l2) =
  zip_with (fun x y => h (f x y) (g x y)) l1 l2.
Proof.
  unfold zip_with.
  revert l2; induction l1 as [| x l1 IH]; intros [| y l2]; simpl; try reflexivity.
  now rewrite IH.
Qed.

Lemma map_zip_with {A B C D} (f : A -> B -> C) (g : C -> D) (l1 : list A) (l2 : list B) :
  map g (zip_with f l1 l2) = zip_with (fun x y => g (f x y)) l1 l2.
Proof.
  unfold zip_with. now rewrite map_map.
Qed.

(** * Rasters as float arrays *)

Lemma astype_float_shape (r : raster) : shape (astype_float r) = rshape r.
Proof. now destruct r. Qed.

Lemma astype_float_wf (r : raster) : wf_raster r -> wf_array (astype_float r).
Proof.
  destruct r as [a | a]; simpl; [| easy].
  intros [H _]. unfold wf_array, amap, size in *; simpl.
  now rewrite length_map.
Qed.

(** The samples of a raster, as the engine reads them. *)
Definition samples (r : raster) : list float := data (astype_float r).

Lemma samples_length (r : raster) : wf_raster r -> length (samples r) = rsize r.
Proof.
  intros H. apply astype_float_wf in H.
  unfold samples, rsize. unfold wf_array, size in H.
  now rewrite H, astype_float_shape.
Qed.

(** * The index computations on rasters of one shape *)

Section IndexLemmas.

Variables (a b : raster).
Hypothesis Hshape : rshape a = rshape b.
Hypothesis Ha : wf_raster a.
Hypothesis Hb : wf_raster b.

Lemma normalized_difference_same :
  obind (binop PrimFloat.sub (astype_float a) (astype_float b)) (fun num =>
  obind (binop PrimFloat.add (astype_float a) (astype_float b)) (fun den =>
  obind (binop PrimFloat.div num den) (fun q =>
  Ok (amap nan_to_num q)))) =
  Ok (mk_array (rshape a) (zip_with index_px (samples a) (samples b))).
Proof.
  assert (Hs : shape (astype_float a) = shape (astype_float b))
    by now rewrite !astype_float_shape.
  pose proof (astype_float_wf a Ha) as Wa.
  pose proof (astype_float_wf b Hb) as Wb.
  assert (Hlen : length (samples a) = length (samples b)).
  { unfold samples. unfold wf_array, size in Wa, Wb. now rewrite Wa, Wb, Hs. }
  rewrite !(binop_same_shape _ _ _ Hs Wa Wb). simpl.
  rewrite binop_same_shape; simpl; try reflexivity.
  - unfold amap; simpl. rewrite zip_with_fuse, map_zip_with.
    now rewrite astype_float_shape.
  - unfold wf_array, size; simpl. now rewrite zip_with_length.
  - unfold wf_array, size; simpl. now rewrite zip_with_length.
Qed.

Lemma calculate_ndvi_same :
  calculate_ndvi a b = Ok (mk_array (rshape a) (zip_with index_px (samples a) (samples b))).
Proof. exact normalized_difference_same. Qed.

Lemma calculate_ndmi_same :
  calculate_ndmi a b = Ok (mk_array (rshape a) (zip_with index_px (samples a) (samples b))).
Proof. exact normalized_difference_same. Qed.

Lemma calculate_ndbi_same :
  calculate_ndbi a b = Ok (mk_array (rshape a) (zip_with index_px (samples a) (samples b))).
Proof. exact normalized_difference_same. Qed.

End IndexLemmas.

(** * The change rasters and their statistics on band sets of one shape *)

Definition change_of (a1 b1 a2 b2 : raster) : list float :=
  zip_with PrimFloat.sub
    (zip_with index_px (samples a2) (samples b2))
    (zip_with index_px (samples a1) (samples b1)).

Definition magnitudes (dv dm db : list float) : list float :=
  map PrimFloat.sqrt
    (zip_with PrimFloat.add
       (zip_with PrimFloat.add
          (map (fun x => x * x)%float dv) (map (fun x => x * x)%float dm))
       (map (fun x => x * x)%float db)).

Definition count (p : float -> bool) (l : list float) : Z :=
  Z.of_nat (length (filter p l)).

Lemma np_sum_bool_amap (p : float -> bool) (a : ndarray float) :
  np_sum_bool (amap p a) = count p (data a).
Proof.
  unfold np_sum_bool, count, amap; simpl. f_equal.
  induction (data a) as [| x l IH]; simpl; [reflexivity |].
  destruct (p x); simpl; congruence.
Qed.

Lemma reduce_ok (f : float -> float -> float) (l : list float) :
  length l <> 0%nat -> exists x, reduce f l = Ok x.
Proof.
  destruct l as [| x l]; simpl; [congruence | eauto].
Qed.

Lemma change_of_length (s : list nat) (a1 b1 a2 b2 : raster) :
  wf_raster a1 -> wf_raster b1 -> wf_raster a2 -> wf_raster b2 ->
  rshape a1 = s -> rshape b1 = s -> rshape a2 = s -> rshape b2 = s ->
  length (change_of a1 b1 a2 b2) = prod_shape s.
Proof.
  intros W1 W2 W3 W4 S1 S2 S3 S4. unfold change_of.
  pose proof (samples_length _ W1). pose proof (samples_length _ W2).
  pose proof (samples_length _ W3). pose proof (samples_length _ W4).
  unfold rsize in *. rewrite S1, S2, S3, S4 in *.
  rewrite !zip_with_length_min. lia.
Qed.

Lemma magnitudes_length (dv dm db : list float) :
  length dm = length dv -> length db = length dv ->
  length (magnitudes dv dm db) = length dv.
Proof.
  intros H1 H2. unfold magnitudes.
  rewrite length_map, !zip_with_length_min, !length_map. lia.
Qed.

Section Pipeline.

Context {E : Externals}.

Lemma index_changes_same (s : list nat) (bands1 bands2 : dict)
    (n1 r1 s1 n2 r2 s2 : raster) :
  band_set s bands1 n1 r1 s1 ->
  band_set s bands2 n2 r2 s2 ->
  index_changes bands1 bands2 =
  Ok (mk_array s (change_of n1 r1 n2 r2),
      mk_array s (change_of n1 s1 n2 s2),
      mk_array s (change_of s1 n1 s2 n2)).
Proof.
  intros [G1 G2 G3 S1 S2 S3 W1 W2 W3] [G4 G5 G6 S4 S5 S6 W4 W5 W6].
  unfold index_changes.
  rewrite G1, G2, G3, G4, G5, G6; simpl.
  rewrite (calculate_ndvi_same n1 r1), (calculate_ndvi_same n2 r2); try congruence; simpl.
  rewrite (calculate_ndmi_same n1 s1), (calculate_ndmi_same n2 s2); try congruence; simpl.
  rewrite (calculate_ndbi_same s1 n1), (calculate_ndbi_same s2 n2); try congruence; simpl.
  assert (L : forall a b, wf_raster a -> wf_raster b -> rshape a = s -> rshape b = s ->
              length (zip_with index_px (samples a) (samples b)) = prod_shape s).
  { intros a b Wa Wb Sa Sb.
    pose proof (samples_length _ Wa). pose proof (samples_length _ Wb).
    unfold rsize in *. rewrite Sa, Sb in *. rewrite zip_with_length; congruence. }
  rewrite !binop_same_shape; simpl;
    unfold wf_array, size; simpl; rewrite ?L; try congruence.
  unfold change_of. congruence.
Qed.

Lemma change_statistics_same (s : list nat) (dv dm db : list float) :
  length dv = prod_shape s -> length dm = prod_shape s -> length db = prod_shape s ->
  prod_shape s <> 0%nat ->
  exists lo hi r,
    reduce np_minimum (magnitudes dv dm db) = Ok lo /\
    reduce np_maximum (magnitudes dv dm db) = Ok hi /\
    change_statistics (mk_array s dv) (mk_array s dm) (mk_array s db) = Ok r /\
    ndvi_change r = mk_array s dv /\
    ndmi_change r = mk_array s dm /\
    ndbi_change r = mk_array s db /\
    cva_magnitude r =
      mk_array s (map (normalize_px lo hi) (magnitudes dv dm db)) /\
    CVA.no_change_percent (cva (statistics r)) =
      percent (count tier_none (map (normalize_px lo hi) (magnitudes dv dm db)))
        (prod_shape s) /\
    CVA.moderate_change_percent (cva (statistics r)) =
      percent (count tier_moderate (map (normalize_px lo hi) (magnitudes dv dm db)))
        (prod_shape s) /\
    CVA.significant_change_percent (cva (statistics r)) =
      percent (count tier_significant (map (normalize_px lo hi) (magnitudes dv dm db)))
        (prod_shape s) /\
    data_source r = "Real Satellite Bands (Landsat/Sentinel)"%string /\
    warning r = None.
Proof.
  intros Lv Lm Lb Hne.
  assert (Lmag : length (magnitudes dv dm db) = prod_shape s)
    by (rewrite magnitudes_length; congruence).
  destruct (reduce_ok np_minimum (magnitudes dv dm db)) as [lo Hlo]; [congruence |].
  destruct (reduce_ok np_maximum (magnitudes dv dm db)) as [hi Hhi]; [congruence |].
  destruct (reduce_ok np_maximum dv) as [x1 H1]; [congruence |].
  destruct (reduce_ok np_minimum dv) as [x2 H2]; [congruence |].
  destruct (reduce_ok np_maximum dm) as [x3 H3]; [congruence |].
  destruct (reduce_ok np_minimum dm) as [x4 H4]; [congruence |].
  destruct (reduce_ok np_maximum db) as [x5 H5]; [congruence |].
  destruct (reduce_ok np_minimum db) as [x6 H6]; [congruence |].
  destruct (reduce_ok np_maximum (map (normalize_px lo hi) (magnitudes dv dm db)))
    as [x7 H7]; [rewrite length_map; congruence |].
  exists lo, hi.
  unfold change_statistics.
  rewrite binop_same_shape; simpl; try reflexivity;
    try (unfold wf_array, size; simpl; rewrite length_map; congruence).
  rewrite binop_same_shape; simpl; try reflexivity;
    try (unfold wf_array, size; simpl;
         rewrite ?length_map, ?zip_with_length; rewrite ?length_map; congruence).
  unfold np_min, np_max; simpl.
  fold (magnitudes dv dm db).
  rewrite Hlo, Hhi; simpl.
  rewrite H1, H2, H3, H4, H5, H6; simpl.
  fold (normalize_px lo hi).
  change (fun m : float => ((m - lo) / (hi - lo + 1e-8))%float) with (normalize_px lo hi).
  rewrite H7; simpl.
  eexists; split; [reflexivity |]; split; [reflexivity |]; split; [reflexivity |].
  simpl. rewrite !np_sum_bool_amap. simpl.
  repeat split; reflexivity.
Qed.

End Pipeline.

(** * Dicts *)

Lemma dict_get_raise (k : string) (d : dict) (e : exn) :
  dict_get k d = Raise e -> e = KeyError k.
Proof.
  induction d as [| [k' v] d IH]; simpl.
  - congruence.
  - destruct (String.eqb k k'); [discriminate | exact IH].
Qed.

Lemma dict_get_set (k k' : string) (v : raster) (d : dict) :
  dict_get k (dict_set k' v d) =
  if String.eqb k k' then Ok v else dict_get k d.
Proof.
  induction d as [| [k'' v''] d IH]; simpl.
  - now destruct (String.eqb k k').
  - destruct (String.eqb k' k'') eqn:E1; simpl.
    + apply String.eqb_eq in E1. subst k''.
      now destruct (String.eqb k k').
    + destruct (String.eqb k k'') eqn:E2.
      * apply String.eqb_eq in E2. subst k''.
        rewrite String.eqb_sym in E1. now rewrite E1.
      * exact IH.
Qed.

Lemma dict_get_app_fresh (k : string) (d1 d2 : dict) :
  ~ In k (keys d1) -> dict_get k (d1 ++ d2) = dict_get k d2.
Proof.
  induction d1 as [| [k' v] d1 IH]; simpl; [reflexivity |].
  intros H. destruct (String.eqb k k') eqn:E.
  - apply String.eqb_eq in E. simpl in H. intuition congruence.
  - apply IH. tauto.
Qed.

Lemma dict_set_app_fresh (k : string) (v : raster) (d1 d2 : dict) :
  ~ In k (keys d1) -> dict_set k v (d1 ++ d2) = d1 ++ dict_set k v d2.
Proof.
  induction d1 as [| [k' v'] d1 IH]; simpl; [reflexivity |].
  intros H. destruct (String.eqb k k') eqn:E.
  - apply String.eqb_eq in E. simpl in H. intuition congruence.
  - f_equal. apply IH. tauto.
Qed.

(** * The resampling step *)

(** An entry of the T2 mapping and what the loop leaves in its place. *)
Definition resized `{Externals} (w h : nat) (old new : string * raster) : Prop :=
  fst new = fst old /\ cv2_resize (snd old) w h = Ok (snd new).

Section Resampling.

Context {E : Externals}.

Variables (bands1 : dict) (nir1 : raster) (w h : nat).
Hypothesis Hnir1 : dict_get "nir" bands1 = Ok nir1.
Hypothesis Hw : shape_at (rshape nir1) 1 = Ok w.
Hypothesis Hh : shape_at (rshape nir1) 0 = Ok h.

Lemma resize_entry_step (key : string) (st : dict) (src : raster) :
  dict_get key st = Ok src ->
  resize_entry bands1 key st =
  match cv2_resize src w h with
  | Ok r => (dict_set key r st, Ok tt)
  | Raise e => (st, Raise e)
  end.
Proof.
  intros Hget. unfold resize_entry, mbind, getitem2, lift, setitem2.
  rewrite Hget, Hnir1, Hw, Hh.
  now destruct (cv2_resize src w h).
Qed.

Lemma resize_loop_spec (todo done : dict) (st' : dict) :
  NoDup (keys (done ++ todo)) ->
  for_each (keys todo) (resize_entry bands1) (done ++ todo) = (st', Ok tt) <->
  exists todo', st' = done ++ todo' /\ Forall2 (resized w h) todo todo'.
Proof.
  revert done; induction todo as [| [k v] todo IH]; intros done Hnd.
  - simpl. unfold mret. split.
    + intros H. exists []. split; [congruence | constructor].
    + intros [todo' [-> H]]. inversion H. reflexivity.
  - assert (Hfresh : ~ In k (keys done)).
    { unfold keys in *. rewrite map_app in Hnd. simpl in Hnd.
      apply NoDup_remove_2 in Hnd. rewrite in_app_iff in Hnd. tauto. }
    assert (Hget : dict_get k (done ++ (k, v) :: todo) = Ok v).
    { rewrite dict_get_app_fresh by exact Hfresh. simpl. now rewrite String.eqb_refl. }
    simpl. unfold mbind at 1.
    rewrite (resize_entry_step _ _ _ Hget).
    destruct (cv2_resize v w h) as [r |] eqn:Hr.
    + rewrite dict_set_app_fresh by exact Hfresh. simpl.
      rewrite String.eqb_refl.
      change (done ++ (k, r) :: todo) with (done ++ [(k, r)] ++ todo).
      rewrite app_assoc, IH.
      * split.
        -- intros [todo' [-> HF]]. exists ((k, r) :: todo').
           rewrite <- app_assoc. split; [reflexivity |].
           constructor; [split; simpl; auto | exact HF].
        -- intros [todo' [-> HF]]. inversion HF as [| x y l l' [Hk Hres] HF']; subst.
           destruct y as [k' r']. simpl in *. subst k'.
           exists l'. rewrite <- app_assoc. simpl. split; [congruence | exact HF'].
      * unfold keys in *. rewrite !map_app in *. simpl in *.
        now rewrite <- app_assoc.
    + split; [discriminate |].
      intros [todo' [_ HF]]. inversion HF as [| x y l l' [_ Hres] _]; subst.
      simpl in Hres. congruence.
Qed.

End Resampling.

Section ResamplingGeneral.

Context {E : Externals}.

Lemma resize_entry_cases (bands1 : dict) (key : string) (st : dict) :
  (exists e, resize_entry bands1 key st = (st, Raise e)) \/
  (exists src r, dict_get key st = Ok src /\
                 resize_entry bands1 key st = (dict_set key r st, Ok tt)).
Proof.
  unfold resize_entry, mbind, getitem2, lift, setitem2.
  destruct (dict_get key st) as [src | e]; [| left; eauto].
  destruct (dict_get "nir" bands1) as [n1 | e]; [| left; eauto].
  destruct (shape_at (rshape n1) 1) as [w | e]; [| left; eauto].
  destruct (shape_at (rshape n1) 0) as [h | e]; [| left; eauto].
  destruct (cv2_resize src w h) as [r | e]; [| left; eauto].
  right; eauto.
Qed.

Lemma for_each_keeps_missing (bands1 : dict) (k : string) (ks : list string)
    (st st' : dict) (o : outcome unit) :
  for_each ks (resize_entry bands1) st = (st', o) ->
  raises (dict_get k st) = true -> raises (dict_get k st') = true.
Proof.
  revert st; induction ks as [| key ks IH]; intros st; simpl.
  - unfold mret. congruence.
  - unfold mbind at 1. intros Hrun Hmiss.
    destruct (resize_entry_cases bands1 key st) as [[e He] | [src [r [Hget He]]]];
      rewrite He in Hrun.
    + congruence.
    + apply IH in Hrun; [exact Hrun |].
      rewrite dict_get_set.
      destruct (String.eqb k key) eqn:Ek; [| exact Hmiss].
      apply String.eqb_eq in Ek. subst. rewrite Hget in Hmiss. discriminate.
Qed.

Lemma ensure_same_size_keeps_missing (bands1 bands2 st' : dict) (k : string)
    (o : outcome unit) :
  ensure_same_size bands1 bands2 = (st', o) ->
  raises (dict_get k bands2) = true -> raises (dict_get k st') = true.
Proof.
  unfold ensure_same_size, mbind, lift, getitem2, keys2, mret.
  destruct (dict_get "nir" bands1) as [n1 |]; [| congruence].
  destruct (dict_get "nir" bands2) as [n2 |]; [| congruence].
  destruct (negb (shape_eqb (rshape n1) (rshape n2))); [| congruence].
  apply for_each_keeps_missing.
Qed.

Lemma shape_eqb_eq (s t : list nat) : shape_eqb s t = true <-> s = t.
Proof.
  unfold shape_eqb. destruct (list_eq_dec Nat.eq_dec s t); split; congruence.
Qed.

Lemma ensure_same_size_equal (bands1 bands2 : dict) (nir1 nir2 : raster) :
  dict_get "nir" bands1 = Ok nir1 ->
  dict_get "nir" bands2 = Ok nir2 ->
  rshape nir1 = rshape nir2 ->
  ensure_same_size bands1 bands2 = (bands2, Ok tt).
Proof.
  intros H1 H2 Hs.
  unfold ensure_same_size, mbind, lift, getitem2, mret.
  rewrite H1, H2.
  apply shape_eqb_eq in Hs. now rewrite Hs.
Qed.

Lemma ensure_same_size_differ (bands1 bands2 : dict) (nir1 nir2 : raster) :
  dict_get "nir" bands1 = Ok nir1 ->
  dict_get "nir" bands2 = Ok nir2 ->
  rshape nir1 <> rshape nir2 ->
  ensure_same_size bands1 bands2 =
  for_each (keys bands2) (resize_entry bands1) bands2.
Proof.
  intros H1 H2 Hs.
  unfold ensure_same_size, mbind, lift, getitem2, keys2.
  rewrite H1, H2.
  destruct (shape_eqb (rshape nir1) (rshape nir2)) eqn:Eq; [| reflexivity].
  apply shape_eqb_eq in Eq. contradiction.
Qed.

Lemma ensure_same_size_resized (bands1 bands2 : dict) (nir1 nir2 : raster) (w h : nat) :
  dict_get "nir" bands1 = Ok nir1 ->
  dict_get "nir" bands2 = Ok nir2 ->
  rshape nir1 <> rshape nir2 ->
  shape_at (rshape nir1) 1 = Ok w ->
  shape_at (rshape nir1) 0 = Ok h ->
  wf_dict bands2 ->
  forall bands2',
    ensure_same_size bands1 bands2 = (bands2', Ok tt) <->
    Forall2 (resized w h) bands2 bands2'.
Proof.
  intros H1 H2 Hs Hw Hh Hnd bands2'.
  rewrite (ensure_same_size_differ _ _ _ _ H1 H2 Hs).
  pose proof (resize_loop_spec bands1 nir1 w h H1 Hw Hh bands2 [] bands2' Hnd) as L.
  simpl in L. rewrite L. split.
  - intros [t [-> HF]]. exact HF.
  - intros HF. eauto.
Qed.

Lemma detect_run (bands1 bands2 : dict) :
  detect_changes_with_real_bands bands1 bands2 =
  match ensure_same_size bands1 bands2 with
  | (st, Ok _) => (st, compute_changes bands1 st)
  | (st, Raise e) => (st, Raise e)
  end.
Proof.
  unfold detect_changes_with_real_bands, mbind.
  now destruct (ensure_same_size bands1 bands2) as [st [[] | e]].
Qed.

End ResamplingGeneral.

(** * Shape mismatch is decided on the 'nir' rasters alone *)

(** C10. The engine compares the shapes of the two 'nir' rasters and nothing
    else. When they are equal the T2 mapping is left as it is, whatever the
    external [cv2.resize] would do and whatever the shapes of the other
    rasters: no resampling takes place, and the indices are computed on the
    mapping as given. When they differ, the call gets past the loop exactly
    when every entry of the T2 mapping has been replaced, under its key and
    in place, by [cv2.resize] of the raster it held, to the width and height
    of the T1 'nir' raster. *)
Theorem nir_shape_decides_resampling :
  forall (E : Externals) (bands1 bands2 : dict) (nir1 nir2 : raster),
    dict_get "nir" bands1 = Ok nir1 ->
    dict_get "nir" bands2 = Ok nir2 ->
    (rshape nir1 = rshape nir2 ->
     ensure_same_size bands1 bands2 = (bands2, Ok tt) /\
     detect_changes_with_real_bands bands1 bands2 =
       (bands2, compute_changes bands1 bands2)) /\
    (rshape nir1 <> rshape nir2 ->
     wf_dict bands2 ->
     forall w h,
       shape_at (rshape nir1) 1 = Ok w ->
       shape_at (rshape nir1) 0 = Ok h ->
       forall bands2',
         ensure_same_size bands1 bands2 = (bands2', Ok tt) <->
         Forall2 (resized w h) bands2 bands2').
Proof.
  intros E bands1 bands2 nir1 nir2 H1 H2. split.
  - intros Hs.
    pose proof (ensure_same_size_equal _ _ _ _ H1 H2 Hs) as He.
    split; [exact He |].
    now rewrite detect_run, He.
  - intros Hs Hnd w h Hw Hh.
    now apply (ensure_same_size_resized _ _ nir1 nir2).
Qed.

(** ** Running examples: a 2x2 scene at T1, three scenes at T2 *)

Definition ex_bands1 : dict :=
  bands_of (u8 [2; 2] [10; 20; 30; 40]%Z) (u8 [2; 2] [5; 20; 3; 4]%Z) (u8 [2; 2] [1; 2; 3; 4]%Z).

(** Same 'nir' shape as T1, but a 'red' raster of another shape. *)
Definition ex_bands2_ragged : dict :=
  bands_of (u8 [2; 2] [10; 20; 30; 40]%Z) (u8 [1; 2] [5; 20]%Z) (u8 [2; 2] [1; 2; 3; 4]%Z).

(** A 1x1 scene. *)
Definition ex_bands2_small : dict :=
  bands_of (u8 [1; 1] [10]%Z) (u8 [1; 1] [5]%Z) (u8 [1; 1] [1]%Z).

(** The 1x1 scene resampled to 2x2. *)
Definition ex_bands2_resized : dict :=
  bands_of (u8 [2; 2] [10; 10; 10; 10]%Z) (u8 [2; 2] [5; 5; 5; 5]%Z) (u8 [2; 2] [1; 1; 1; 1]%Z).

Lemma ex_bands2_small_wf : wf_dict ex_bands2_small.
Proof.
  unfold wf_dict; simpl.
  repeat constructor; simpl; intuition discriminate.
Defined.

Lemma nir_shape_decides_resampling_witness :
  ensure_same_size (E := sample_externals) ex_bands1 ex_bands2_ragged
    = (ex_bands2_ragged, Ok tt) /\
  (ensure_same_size (E := sample_externals) ex_bands1 ex_bands2_small
     = (ex_bands2_resized, Ok tt) <->
   Forall2 (resized 2 2) ex_bands2_small ex_bands2_resized).
Proof.
  split.
  - apply (proj1 (nir_shape_decides_resampling sample_externals
                    ex_bands1 ex_bands2_ragged _ _ eq_refl eq_refl)).
    reflexivity.
  - apply (proj2 (nir_shape_decides_resampling sample_externals
                    ex_bands1 ex_bands2_small _ _ eq_refl eq_refl)).
    + simpl. intros H. discriminate H.
    + exact ex_bands2_small_wf.
    + reflexivity.
    + reflexivity.
Defined.

(** * The call assigns into the caller's T2 mapping *)

(** C4, as stated: the T2 mapping is the same after every call. It is not:
    a 1x1 scene passed as T2 next to a 2x2 scene holds 2x2 rasters when the
    call returns. *)
Lemma inputs_unchanged_counterexample :
  ~ (forall (E : Externals) (bands1 bands2 : dict),
       fst (detect_changes_with_real_bands bands1 bands2) = bands2).
Proof.
  intros H.
  specialize (H sample_externals ex_bands1 ex_bands2_small).
  vm_compute in H. discriminate H.
Qed.

(** C4, amended. The T1 mapping is never assigned to (it is not part of
    the state the engine threads). The T2 mapping is left as it was whenever
    the two 'nir' rasters have one shape. When their shapes differ and the
    call returns, the T2 mapping holds the same keys in the same order, each
    now bound to the raster [cv2.resize] built from the one it held; no
    raster is written to, and the result is computed from the two mappings
    alone. *)
Theorem t2_mapping_after_call :
  forall (E : Externals) (bands1 bands2 : dict) (nir1 nir2 : raster),
    dict_get "nir" bands1 = Ok nir1 ->
    dict_get "nir" bands2 = Ok nir2 ->
    (rshape nir1 = rshape nir2 ->
     fst (detect_changes_with_real_bands bands1 bands2) = bands2) /\
    (rshape nir1 <> rshape nir2 ->
     wf_dict bands2 ->
     forall w h,
       shape_at (rshape nir1) 1 = Ok w ->
       shape_at (rshape nir1) 0 = Ok h ->
       forall bands2' r,
         detect_changes_with_real_bands bands1 bands2 = (bands2', Ok r) ->
         Forall2 (resized w h) bands2 bands2' /\
         compute_changes bands1 bands2' = Ok r).
Proof.
  intros E bands1 bands2 nir1 nir2 H1 H2. split.
  - intros Hs.
    now rewrite detect_run, (ensure_same_size_equal _ _ _ _ H1 H2 Hs).
  - intros Hs Hnd w h Hw Hh bands2' r Hrun.
    rewrite detect_run in Hrun.
    destruct (ensure_same_size bands1 bands2) as [st [[] | e]] eqn:He;
      [| discriminate].
    injection Hrun as -> Hr.
    split; [| exact Hr].
    now apply (ensure_same_size_resized _ _ nir1 nir2 w h H1 H2 Hs Hw Hh Hnd).
Qed.

Lemma t2_mapping_after_call_witness :
  fst (detect_changes_with_real_bands (E := sample_externals) ex_bands1 ex_bands1)
    = ex_bands1 /\
  Forall2 (resized 2 2) ex_bands2_small ex_bands2_resized.
Proof.
  split.
  - apply (proj1 (t2_mapping_after_call sample_externals
                    ex_bands1 ex_bands1 _ _ eq_refl eq_refl)).
    reflexivity.
  - eapply (proj2 (t2_mapping_after_call sample_externals
                     ex_bands1 ex_bands2_small _ _ eq_refl eq_refl)).
    + simpl. intros H. discriminate H.
    + exact ex_bands2_small_wf.
    + reflexivity.
    + reflexivity.
    + vm_compute. reflexivity.
Defined.

(** * Missing bands, and numeric content *)

Definition required_keys : list string := ["nir"; "red"; "swir"].

Ltac step_outcome :=
  match goal with
  | |- context [obind ?c _] =>
      let H := fresh "Hstep" in
      destruct c eqn:H; simpl; try reflexivity; try discriminate
  end.

Section MissingKeys.

Context {E : Externals}.

Lemma index_changes_missing (bands1 bands2 : dict) (k : string) :
  In k required_keys ->
  raises (dict_get k bands1) = true \/ raises (dict_get k bands2) = true ->
  raises (index_changes bands1 bands2) = true.
Proof.
  intros Hk Hmiss. unfold index_changes.
  simpl in Hk.
  destruct Hk as [<- | [<- | [<- | []]]]; destruct Hmiss as [Hm | Hm];
    repeat (step_outcome; try (simpl in Hm; discriminate Hm)).
Qed.

Lemma compute_changes_missing (bands1 bands2 : dict) (k : string) :
  In k required_keys ->
  raises (dict_get k bands1) = true \/ raises (dict_get k bands2) = true ->
  raises (compute_changes bands1 bands2) = true.
Proof.
  intros Hk Hmiss. unfold compute_changes.
  pose proof (index_changes_missing bands1 bands2 k Hk Hmiss) as H.
  destruct (index_changes bands1 bands2); [discriminate | reflexivity].
Qed.

Lemma detect_missing (bands1 bands2 : dict) (k : string) :
  In k required_keys ->
  raises (dict_get k bands1) = true \/ raises (dict_get k bands2) = true ->
  raises (snd (detect_changes_with_real_bands bands1 bands2)) = true.
Proof.
  intros Hk Hmiss. rewrite detect_run.
  destruct (ensure_same_size bands1 bands2) as [st [[] | e]] eqn:He; simpl;
    [| reflexivity].
  apply (compute_changes_missing bands1 st k Hk).
  destruct Hmiss as [Hm | Hm]; [now left | right].
  exact (ensure_same_size_keeps_missing _ _ _ _ _ He Hm).
Qed.

Lemma compute_changes_same (s : list nat) (bands1 bands2 : dict)
    (n1 r1 s1 n2 r2 s2 : raster) :
  band_set s bands1 n1 r1 s1 ->
  band_set s bands2 n2 r2 s2 ->
  prod_shape s <> 0%nat ->
  compute_changes bands1 bands2 =
  change_statistics
    (mk_array s (change_of n1 r1 n2 r2))
    (mk_array s (change_of n1 s1 n2 s2))
    (mk_array s (change_of s1 n1 s2 n2)).
Proof.
  intros B1 B2 Hne. unfold compute_changes.
  now rewrite (index_changes_same s _ _ _ _ _ _ _ _ B1 B2).
Qed.

Lemma detect_same (s : list nat) (bands1 bands2 : dict)
    (n1 r1 s1 n2 r2 s2 : raster) :
  band_set s bands1 n1 r1 s1 ->
  band_set s bands2 n2 r2 s2 ->
  prod_shape s <> 0%nat ->
  detect_changes_with_real_bands bands1 bands2 =
  (bands2,
   change_statistics
     (mk_array s (change_of n1 r1 n2 r2))
     (mk_array s (change_of n1 s1 n2 s2))
     (mk_array s (change_of s1 n1 s2 n2))).
Proof.
  intros B1 B2 Hne.
  rewrite detect_run.
  rewrite (ensure_same_size_equal bands1 bands2 n1 n2);
    try (apply B1 || apply B2).
  - now rewrite (compute_changes_same s _ _ _ _ _ _ _ _ B1 B2 Hne).
  - destruct B1, B2. congruence.
Qed.

End MissingKeys.

(** C9. When one of the keys 'nir', 'red', 'swir' is absent from either
    mapping the call raises: no band is substituted. And on two band sets
    that hold the three bands, all of one non-empty shape, the call returns
    a result whatever the numeric content of the rasters (NaN and
    infinities included): no arithmetic step raises. *)
Theorem missing_band_raises_numeric_content_does_not :
  forall (E : Externals) (bands1 bands2 : dict),
    (forall k,
       In k required_keys ->
       raises (dict_get k bands1) = true \/ raises (dict_get k bands2) = true ->
       raises (snd (detect_changes_with_real_bands bands1 bands2)) = true) /\
    (forall s n1 r1 s1 n2 r2 s2,
       band_set s bands1 n1 r1 s1 ->
       band_set s bands2 n2 r2 s2 ->
       prod_shape s <> 0%nat ->
       exists r,
         detect_changes_with_real_bands bands1 bands2 = (bands2, Ok r)).
Proof.
  intros E bands1 bands2. split.
  - intros k. apply detect_missing.
  - intros s n1 r1 s1 n2 r2 s2 B1 B2 Hne.
    rewrite (detect_same s _ _ _ _ _ _ _ _ B1 B2 Hne).
    destruct (change_statistics_same s
                (change_of n1 r1 n2 r2) (change_of n1 s1 n2 s2)
                (change_of s1 n1 s2 n2))
      as [lo [hi [r [_ [_ [Hr _]]]]]]; try exact Hne.
    + destruct B1, B2. now apply change_of_length.
    + destruct B1, B2. now apply change_of_length.
    + destruct B1, B2. now apply change_of_length.
    + exists r. now rewrite Hr.
Qed.

Definition ex_bands_missing_swir : dict :=
  [("red", u8 [2; 2] [5; 20; 3; 4]%Z); ("nir", u8 [2; 2] [10; 20; 30; 40]%Z)].

(** Rasters holding NaN, both infinities and zeros. *)
Definition ex_bands_nan : dict :=
  bands_of (f64 [1; 3] [nan; infinity; 0]%float)
           (f64 [1; 3] [0; 1; 0]%float)
           (f64 [1; 3] [neg_infinity; nan; 0]%float).

Lemma ex_bands_nan_set :
  band_set [1; 3]%nat ex_bands_nan
    (f64 [1; 3] [nan; infinity; 0]%float)
    (f64 [1; 3] [0; 1; 0]%float)
    (f64 [1; 3] [neg_infinity; nan; 0]%float).
Proof.
  constructor; reflexivity.
Defined.

Lemma missing_band_raises_numeric_content_does_not_witness :
  raises (snd (detect_changes_with_real_bands (E := sample_externals)
                 ex_bands1 ex_bands_missing_swir)) = true /\
  exists r,
    detect_changes_with_real_bands (E := sample_externals) ex_bands_nan ex_bands_nan
    = (ex_bands_nan, Ok r).
Proof.
  split.
  - apply (proj1 (missing_band_raises_numeric_content_does_not
                    sample_externals ex_bands1 ex_bands_missing_swir) "swir").
    + simpl. tauto.
    + right. reflexivity.
  - apply (proj2 (missing_band_raises_numeric_content_does_not
                    sample_externals ex_bands_nan ex_bands_nan)
             [1; 3]%nat _ _ _ _ _ _ ex_bands_nan_set ex_bands_nan_set).
    simpl. discriminate.
Defined.

(** * Resampling a T2 scene of another shape *)

Section Resample.

Context {E : Externals} {RS : ResizeSpec E}.

(** A single-channel, well-formed, non-empty raster: what [cv2.resize] accepts. *)
Definition resizable (r : raster) : Prop :=
  length (rshape r) = 2%nat /\ wf_raster r /\ rsize r <> 0%nat.

Lemma resized_exists (w h : nat) (d : dict) :
  w <> 0%nat -> h <> 0%nat ->
  Forall (fun kv => resizable (snd kv)) d ->
  exists d', Forall2 (resized w h) d d'.
Proof.
  intros Hw Hh. induction 1 as [| [k v] d [H2 [Hwf Hne]] _ [d' IH]].
  - exists []. constructor.
  - destruct (resize_ok v w h H2 Hwf Hne Hw Hh) as [r Hr].
    exists ((k, r) :: d'). constructor; [split; simpl; auto | exact IH].
Qed.

Lemma resized_get (w h : nat) (d d' : dict) (k : string) (v : raster) :
  Forall2 (resized w h) d d' ->
  dict_get k d = Ok v ->
  exists v', dict_get k d' = Ok v' /\ cv2_resize v w h = Ok v'.
Proof.
  induction 1 as [| [k1 v1] [k2 v2] d d' [Hk Hr] _ IH]; simpl.
  - discriminate.
  - simpl in Hk, Hr. subst k2.
    destruct (String.eqb k k1).
    + intros [= ->]. eauto.
    + exact IH.
Qed.

Lemma resized_shapes (w h : nat) (d d' : dict) :
  Forall (fun kv => resizable (snd kv)) d ->
  Forall2 (resized w h) d d' ->
  Forall (fun kv => rshape (snd kv) = [h; w] /\ wf_raster (snd kv)) d'.
Proof.
  intros HF H2. induction H2 as [| [k1 v1] [k2 v2] d d' [Hk Hr] _ IH].
  - constructor.
  - inversion HF as [| ? ? [Hd _] HF']; subst.
    constructor; [| apply IH; exact HF'].
    simpl in *. exact (resize_shape v1 w h v2 Hd Hr).
Qed.

Lemma dict_get_In (k : string) (d : dict) (v : raster) :
  dict_get k d = Ok v -> In (k, v) d.
Proof.
  induction d as [| [k' v'] d IH]; simpl; [discriminate |].
  destruct (String.eqb k k') eqn:Ek.
  - apply String.eqb_eq in Ek. intros [= ->]. left. congruence.
  - intros H. right. auto.
Qed.

End Resample.

(** C3. Two band sets of single-channel rasters, T1 of shape [h x w] and
    T2 with a 'nir' raster of another shape: the call returns; when it
    does the caller's T2 mapping holds, under every key, [cv2.resize] of
    the raster it held, of shape [h x w]; the result is the one computed
    from T1 and those resampled rasters; and the three change rasters and
    the normalized magnitude raster have shape [h x w]. *)
Theorem mismatched_shapes_are_resampled :
  forall (E : Externals) (RS : ResizeSpec E) (h w : nat)
         (bands1 bands2 : dict) (n1 r1 s1 n2 r2 s2 : raster),
    band_set [h; w] bands1 n1 r1 s1 ->
    dict_get "nir" bands2 = Ok n2 ->
    dict_get "red" bands2 = Ok r2 ->
    dict_get "swir" bands2 = Ok s2 ->
    rshape n2 <> [h; w] ->
    (h * w <> 0)%nat ->
    wf_dict bands2 ->
    Forall (fun kv => resizable (snd kv)) bands2 ->
    exists bands2' r,
      detect_changes_with_real_bands bands1 bands2 = (bands2', Ok r) /\
      Forall2 (resized w h) bands2 bands2' /\
      Forall (fun kv => rshape (snd kv) = [h; w]) bands2' /\
      compute_changes bands1 bands2' = Ok r /\
      shape (ndvi_change r) = [h; w] /\
      shape (ndmi_change r) = [h; w] /\
      shape (ndbi_change r) = [h; w] /\
      shape (cva_magnitude r) = [h; w].
Proof.
  intros E RS h w bands1 bands2 n1 r1 s1 n2 r2 s2 B1 G1 G2 G3 Hs Hne Hnd HF.
  assert (Hw : w <> 0%nat) by lia.
  assert (Hh : h <> 0%nat) by lia.
  destruct (resized_exists w h bands2 Hw Hh HF) as [bands2' H2].
  pose proof (resized_shapes w h _ _ HF H2) as Hshapes.
  destruct (resized_get w h _ _ _ _ H2 G1) as [n2' [G1' _]].
  destruct (resized_get w h _ _ _ _ H2 G2) as [r2' [G2' _]].
  destruct (resized_get w h _ _ _ _ H2 G3) as [s2' [G3' _]].
  assert (Hin : forall k v, dict_get k bands2' = Ok v ->
                            rshape v = [h; w] /\ wf_raster v).
  { intros k v Hg. apply dict_get_In in Hg.
    rewrite Forall_forall in Hshapes. exact (Hshapes _ Hg). }
  assert (B2 : band_set [h; w] bands2' n2' r2' s2').
  { constructor; auto; apply (Hin _ _ G1') || apply (Hin _ _ G2') || apply (Hin _ _ G3'). }
  assert (Hp : prod_shape [h; w] <> 0%nat) by (simpl; lia).
  assert (Hens : ensure_same_size bands1 bands2 = (bands2', Ok tt)).
  { apply (ensure_same_size_resized bands1 bands2 n1 n2 w h); auto.
    - apply B1.
    - destruct B1 as [_ _ _ Sn _ _ _ _ _]. rewrite Sn. congruence.
    - destruct B1 as [_ _ _ Sn _ _ _ _ _]. now rewrite Sn.
    - destruct B1 as [_ _ _ Sn _ _ _ _ _]. now rewrite Sn. }
  pose proof (compute_changes_same _ _ _ _ _ _ _ _ _ B1 B2 Hp) as Hc.
  destruct (change_statistics_same [h; w]
              (change_of n1 r1 n2' r2') (change_of n1 s1 n2' s2')
              (change_of s1 n1 s2' n2'))
    as [lo [hi [r [_ [_ [Hr [Ev [Em [Eb [Ec _]]]]]]]]]]; try exact Hp;
    try (destruct B1, B2; now apply change_of_length).
  exists bands2', r.
  rewrite detect_run, Hens, Hc, Hr.
  split; [reflexivity |]. split; [exact H2 |].
  split; [eapply Forall_impl; [| exact Hshapes]; now intros kv [? _] |].
  split; [reflexivity |].
  now rewrite Ev, Em, Eb, Ec.
Qed.

(** ** The sample instance resamples to the requested shape *)

Lemma flat_map_length_const {A B} (f : A -> list B) (c : nat) (l : list A) :
  (forall x, length (f x) = c) -> length (flat_map f l) = (length l * c)%nat.
Proof.
  intros H. induction l as [| x l IH]; simpl; [reflexivity |].
  now rewrite length_app, H, IH.
Qed.

Lemma resample_nearest_length {A} (d : A) (h0 w0 h w : nat) (l : list A) :
  length (resample_nearest d h0 w0 h w l) = (h * w)%nat.
Proof.
  unfold resample_nearest.
  rewrite (flat_map_length_const _ w).
  - now rewrite length_seq.
  - intros i. now rewrite length_map, length_seq.
Qed.

#[export] Instance sample_resize_spec : ResizeSpec sample_externals.
Proof.
  split.
  - intros src w h r H2. simpl. unfold sample_resize.
    destruct (rshape src) as [| h0 [| w0 [| ? ?]]]; try discriminate.
    destruct (Nat.eqb (h0 * w0) 0 || Nat.eqb w 0 || Nat.eqb h 0); [discriminate |].
    destruct src as [a | a]; intros [= <-]; simpl; (split; [reflexivity |]).
    + split.
      * unfold wf_array, size; simpl.
        rewrite length_map, resample_nearest_length. lia.
      * apply Forall_forall. intros z Hz.
        apply in_map_iff in Hz as [z0 [<- _]]. lia.
    + unfold wf_array, size; simpl.
      rewrite resample_nearest_length. lia.
  - intros src w h H2 Hwf Hne Hw Hh. simpl. unfold sample_resize.
    unfold rsize in Hne.
    destruct (rshape src) as [| h0 [| w0 [| ? ?]]]; try discriminate.
    simpl in Hne.
    destruct (Nat.eqb_spec (h0 * w0) 0) as [Hz | _]; [lia |].
    destruct (Nat.eqb_spec w 0) as [Hz | _]; [lia |].
    destruct (Nat.eqb_spec h 0) as [Hz | _]; [lia |].
    simpl. destruct src; eauto.
Qed.

Lemma ex_bands1_set :
  band_set [2; 2]%nat ex_bands1
    (u8 [2; 2] [10; 20; 30; 40]%Z) (u8 [2; 2] [5; 20; 3; 4]%Z)
    (u8 [2; 2] [1; 2; 3; 4]%Z).
Proof.
  constructor; try reflexivity;
    (split; [reflexivity | repeat constructor; lia]).
Defined.

Lemma ex_bands2_small_resizable :
  Forall (fun kv => resizable (snd kv)) ex_bands2_small.
Proof.
  repeat constructor; simpl; try lia; discriminate.
Defined.

Lemma mismatched_shapes_are_resampled_witness :
  exists bands2' r,
    detect_changes_with_real_bands (E := sample_externals) ex_bands1 ex_bands2_small
      = (bands2', Ok r) /\
    Forall2 (resized 2 2) ex_bands2_small bands2' /\
    Forall (fun kv => rshape (snd kv) = [2; 2]%nat) bands2' /\
    compute_changes ex_bands1 bands2' = Ok r /\
    shape (ndvi_change r) = [2; 2]%nat /\
    shape (ndmi_change r) = [2; 2]%nat /\
    shape (ndbi_change r) = [2; 2]%nat /\
    shape (cva_magnitude r) = [2; 2]%nat.
Proof.
  apply (mismatched_shapes_are_resampled sample_externals sample_resize_spec
           2 2 ex_bands1 ex_bands2_small _ _ _ _ _ _
           ex_bands1_set eq_refl eq_refl eq_refl).
  - simpl. discriminate.
  - discriminate.
  - exact ex_bands2_small_wf.
  - exact ex_bands2_small_resizable.
Defined.

(** * The legacy path and the provenance of a result *)

Lemma strided_length {A} (n c k : nat) (l : list A) :
  (k < c)%nat -> length l = (n * c)%nat -> length (strided n c k l) = n.
Proof.
  intros Hk. revert l; induction n as [| n IH]; intros l Hl; simpl; [reflexivity |].
  destruct (nth_error l k) as [x |] eqn:Hx.
  - simpl. f_equal. apply IH. rewrite length_skipn. simpl in Hl. lia.
  - apply nth_error_None in Hx. simpl in Hl. lia.
Qed.

Lemma strided_In {A} (n c k : nat) (l : list A) (x : A) :
  In x (strided n c k l) -> In x l.
Proof.
  revert l; induction n as [| n IH]; intros l; simpl; [tauto |].
  destruct (nth_error l k) as [y |] eqn:Hy; [| simpl; tauto].
  intros [<- | H].
  - eapply nth_error_In; eauto.
  - apply IH in H. rewrite <- (firstn_skipn c l). apply in_or_app. now right.
Qed.

Lemma astype_uint8_range (x : float) : (0 <= astype_uint8 x < 256)%Z.
Proof.
  unfold astype_uint8. apply Z.mod_pos_bound. lia.
Qed.

Lemma channel_plane (k h w c : nat) (image : raster) :
  rshape image = [h; w; c] -> wf_raster image -> (k < c)%nat ->
  exists r, channel k image = Ok r /\ rshape r = [h; w] /\ wf_raster r.
Proof.
  intros Hs Hwf Hk.
  destruct image as [a | a]; simpl in *; unfold channel_of; rewrite Hs;
    (destruct (Nat.ltb_spec k c) as [_ | ?]; [| lia]); simpl;
    eexists; (split; [reflexivity |]); (split; [reflexivity |]).
  - destruct Hwf as [Hlen Hrange]. unfold wf_array, size in Hlen.
    rewrite Hs in Hlen. simpl in *. split.
    + unfold wf_array, size; simpl.
      rewrite strided_length; [lia | exact Hk | lia].
    + rewrite Forall_forall in *. intros z Hz. apply Hrange.
      eapply strided_In; eauto.
  - unfold wf_array, size in Hwf. rewrite Hs in Hwf. simpl in Hwf.
    unfold wf_raster, wf_array, size; simpl.
    rewrite strided_length; [lia | exact Hk | lia].
Qed.

Section Legacy.

Context {E : Externals}.

Lemma simulated_band_set (h w : nat) (red green blue : raster) :
  rshape red = [h; w] -> rshape green = [h; w] -> rshape blue = [h; w] ->
  wf_raster red -> wf_raster green -> wf_raster blue ->
  exists mix,
    binop PrimFloat.add
      (amap (fun r => r * 0.8)%float (astype_float red))
      (amap (fun b => b * 0.3)%float (astype_float blue)) = Ok mix /\
    band_set [h; w]
      [("red", red); ("green", green); ("blue", blue);
       ("nir", U8 (amap (fun g => astype_uint8 (np_clip (g * 1.2 + 20) 0 255))%float
                     (astype_float green)));
       ("swir", U8 (amap (fun x => astype_uint8 (np_clip x 0 255)%float) mix))]
      (U8 (amap (fun g => astype_uint8 (np_clip (g * 1.2 + 20) 0 255))%float
             (astype_float green)))
      red
      (U8 (amap (fun x => astype_uint8 (np_clip x 0 255)%float) mix)).
Proof.
  intros Sr Sg Sb Wr Wg Wb.
  pose proof (samples_length _ Wr) as Lr.
  pose proof (samples_length _ Wg) as Lg.
  pose proof (samples_length _ Wb) as Lb.
  unfold samples, rsize in *. rewrite Sr in Lr. rewrite Sg in Lg. rewrite Sb in Lb.
  eexists. split.
  - apply binop_same_shape; unfold amap; simpl.
    + now rewrite !astype_float_shape, Sr, Sb.
    + unfold wf_array, size; simpl. now rewrite length_map, astype_float_shape, Sr.
    + unfold wf_array, size; simpl. now rewrite length_map, astype_float_shape, Sb.
  - constructor; try reflexivity; simpl; rewrite ?astype_float_shape; auto.
    + split.
      * unfold wf_array, size; simpl. now rewrite length_map, astype_float_shape, Sg.
      * apply Forall_forall. intros z Hz. apply in_map_iff in Hz as [x [<- _]].
        apply astype_uint8_range.
    + split.
      * unfold wf_array, size; simpl.
        rewrite length_map, zip_with_length_min, !length_map, ?astype_float_shape, Sr.
        simpl in *. lia.
      * apply Forall_forall. intros z Hz. apply in_map_iff in Hz as [x [<- _]].
        apply astype_uint8_range.
Qed.

(** The bands simulated from a colour image of three channels, and from a
    grey image. *)
Lemma simulate_rgb (h w : nat) (image gray : raster) :
  rshape image = [h; w; 3%nat] -> wf_raster image ->
  cv2_cvtColor_RGB2GRAY image = Ok gray ->
  exists d nir red swir,
    simulate_bands_from_rgb image = Ok d /\ band_set [h; w] d nir red swir.
Proof.
  intros Hs Hwf Hg. unfold simulate_bands_from_rgb.
  rewrite Hs. simpl. rewrite Hg. simpl.
  destruct (channel_plane 0 h w 3 image Hs Hwf) as [red [-> [Sr Wr]]]; [lia |].
  destruct (channel_plane 1 h w 3 image Hs Hwf) as [green [-> [Sg Wg]]]; [lia |].
  destruct (channel_plane 2 h w 3 image Hs Hwf) as [blue [-> [Sb Wb]]]; [lia |].
  simpl.
  destruct (simulated_band_set h w red green blue Sr Sg Sb Wr Wg Wb) as [mix [-> B]].
  simpl. do 4 eexists. split; [reflexivity | exact B].
Qed.

Lemma simulate_gray (h w : nat) (image : raster) :
  rshape image = [h; w] -> wf_raster image ->
  exists d nir red swir,
    simulate_bands_from_rgb image = Ok d /\ band_set [h; w] d nir red swir.
Proof.
  intros Hs Hwf. unfold simulate_bands_from_rgb.
  rewrite Hs. simpl.
  destruct (simulated_band_set h w image image image Hs Hs Hs Hwf Hwf Hwf) as [mix [-> B]].
  simpl. do 4 eexists. split; [reflexivity | exact B].
Qed.

Lemma change_statistics_tags (dv dm db : ndarray float) (r : results) :
  change_statistics dv dm db = Ok r ->
  data_source r = "Real Satellite Bands (Landsat/Sentinel)" /\ warning r = None.
Proof.
  unfold change_statistics.
  repeat (match goal with
          | |- context [obind ?c _] => destruct c; simpl; try discriminate
          end).
  intros [= <-]. split; reflexivity.
Qed.

Lemma real_bands_tags (bands1 bands2 st : dict) (r : results) :
  detect_changes_with_real_bands bands1 bands2 = (st, Ok r) ->
  data_source r = "Real Satellite Bands (Landsat/Sentinel)" /\ warning r = None.
Proof.
  rewrite detect_run.
  destruct (ensure_same_size bands1 bands2) as [st' [[] | e]]; [| discriminate].
  intros [= _ H]. unfold compute_changes in H.
  destruct (index_changes bands1 st') as [[[dv dm] db] |]; [| discriminate].
  simpl in H. exact (change_statistics_tags _ _ _ _ H).
Qed.

Lemma legacy_tags (image1 image2 : raster) (r : results) :
  detect_changes image1 image2 = Ok r ->
  data_source r = "Simulated Bands (Demo Mode - NOT ACCURATE)" /\
  exists w, warning r = Some w /\ w <> "".
Proof.
  unfold detect_changes.
  repeat (match goal with
          | |- context [obind ?c _] => destruct c; simpl; try discriminate
          end).
  intros [= <-]. simpl. split; [reflexivity |].
  eexists. split; [reflexivity | discriminate].
Qed.

Lemma legacy_returns (s : list nat) (image1 image2 : raster)
    (d1 d2 : dict) (n1 r1 s1 n2 r2 s2 : raster) :
  rshape image1 = rshape image2 ->
  simulate_bands_from_rgb image1 = Ok d1 -> band_set s d1 n1 r1 s1 ->
  simulate_bands_from_rgb image2 = Ok d2 -> band_set s d2 n2 r2 s2 ->
  prod_shape s <> 0%nat ->
  exists r, detect_changes image1 image2 = Ok r.
Proof.
  intros Hs H1 B1 H2 B2 Hne. unfold detect_changes.
  apply shape_eqb_eq in Hs. rewrite Hs. simpl.
  rewrite H1. simpl. rewrite H2. simpl.
  rewrite (detect_same s _ _ _ _ _ _ _ _ B1 B2 Hne). simpl.
  destruct (change_statistics_same s
              (change_of n1 r1 n2 r2) (change_of n1 s1 n2 s2)
              (change_of s1 n1 s2 n2))
    as [lo [hi [r [_ [_ [Hr _]]]]]]; try exact Hne;
    try (destruct B1, B2; now apply change_of_length).
  rewrite Hr. simpl. eauto.
Qed.

End Legacy.

(** C8. Whatever the legacy path [detect_changes] returns is tagged as
    simulated data and carries a non-empty warning, and it does return on
    two well-formed, non-empty images of one shape, colour (three channels,
    converted by [cv2.cvtColor]) or grey; whatever the real-band path
    returns is tagged as real satellite bands and has no warning field. *)
Theorem provenance_tags :
  forall (E : Externals),
    (forall image1 image2 r,
       detect_changes image1 image2 = Ok r ->
       data_source r = "Simulated Bands (Demo Mode - NOT ACCURATE)" /\
       exists w, warning r = Some w /\ w <> "") /\
    (forall h w image1 image2,
       wf_raster image1 -> wf_raster image2 -> (h * w <> 0)%nat ->
       (rshape image1 = [h; w; 3%nat] /\ rshape image2 = [h; w; 3%nat] /\
        raises (cv2_cvtColor_RGB2GRAY image1) = false /\
        raises (cv2_cvtColor_RGB2GRAY image2) = false) \/
       (rshape image1 = [h; w] /\ rshape image2 = [h; w]) ->
       exists r, detect_changes image1 image2 = Ok r) /\
    (forall bands1 bands2 st r,
       detect_changes_with_real_bands bands1 bands2 = (st, Ok r) ->
       data_source r = "Real Satellite Bands (Landsat/Sentinel)" /\
       warning r = None).
Proof.
  intros E. split; [| split].
  - apply legacy_tags.
  - intros h w image1 image2 W1 W2 Hne [[S1 [S2 [C1 C2]]] | [S1 S2]].
    + destruct (cv2_cvtColor_RGB2GRAY image1) as [g1 |] eqn:G1; [| discriminate].
      destruct (cv2_cvtColor_RGB2GRAY image2) as [g2 |] eqn:G2; [| discriminate].
      destruct (simulate_rgb h w image1 g1 S1 W1 G1) as [d1 [n1 [r1 [s1 [H1 B1]]]]].
      destruct (simulate_rgb h w image2 g2 S2 W2 G2) as [d2 [n2 [r2 [s2 [H2 B2]]]]].
      apply (legacy_returns [h; w] _ _ _ _ _ _ _ _ _ _ (eq_trans S1 (eq_sym S2)) H1 B1 H2 B2).
      simpl. lia.
    + destruct (simulate_gray h w image1 S1 W1) as [d1 [n1 [r1 [s1 [H1 B1]]]]].
      destruct (simulate_gray h w image2 S2 W2) as [d2 [n2 [r2 [s2 [H2 B2]]]]].
      apply (legacy_returns [h; w] _ _ _ _ _ _ _ _ _ _ (eq_trans S1 (eq_sym S2)) H1 B1 H2 B2).
      simpl. lia.
  - apply real_bands_tags.
Qed.

Definition ex_image1 : raster := u8 [1; 2; 3] [10; 20; 30; 40; 50; 60]%Z.
Definition ex_image2 : raster := u8 [1; 2; 3] [10; 20; 31; 40; 50; 90]%Z.

Lemma provenance_tags_witness :
  exists r, detect_changes (E := sample_externals) ex_image1 ex_image2 = Ok r.
Proof.
  apply (proj1 (proj2 (provenance_tags sample_externals)) 1%nat 2%nat).
  - split; [reflexivity | repeat constructor; lia].
  - split; [reflexivity | repeat constructor; lia].
  - discriminate.
  - left. repeat split; reflexivity.
Defined.

(** * binary64: elementary facts

    The primitive operations are specified on [spec_float] by the
    standard library ([add_spec], [div_spec], [eqb_spec] and the like);
    [Prim2SF] is injective. *)

Lemma SFcompare_refl (X : spec_float) :
  X <> S754_nan -> SFcompare X X = Some Eq.
Proof.
  destruct X as [s | s | | s m e]; simpl; try congruence; intros _.
  - now destruct s.
  - rewrite Z.compare_refl.
    assert (Hm : Pos.compare_cont Eq m m = Eq) by apply Pos.compare_refl.
    rewrite Hm. now destruct s.
Qed.

Lemma is_nan_spec (x : float) : is_nan x = true <-> Prim2SF x = S754_nan.
Proof.
  unfold is_nan. rewrite FloatAxioms.eqb_spec. unfold SFeqb.
  destruct (Prim2SF x) as [s | s | | s m e] eqn:Hx.
  - split; [now destruct s | discriminate].
  - split; [now destruct s | discriminate].
  - split; [reflexivity | reflexivity].
  - rewrite SFcompare_refl by discriminate. split; discriminate.
Qed.

Lemma is_nan_false (x : float) : is_nan x = false <-> Prim2SF x <> S754_nan.
Proof.
  rewrite <- is_nan_spec. now destruct (is_nan x).
Qed.

Lemma eqb_infinity (x : float) :
  (x =? infinity)%float = true <-> Prim2SF x = S754_infinity false.
Proof.
  rewrite FloatAxioms.eqb_spec. change (Prim2SF infinity) with (S754_infinity false).
  unfold SFeqb. destruct (Prim2SF x) as [s | s | | s m e]; simpl;
    try (destruct s); split; congruence.
Qed.

Lemma eqb_neg_infinity (x : float) :
  (x =? neg_infinity)%float = true <-> Prim2SF x = S754_infinity true.
Proof.
  rewrite FloatAxioms.eqb_spec. change (Prim2SF neg_infinity) with (S754_infinity true).
  unfold SFeqb. destruct (Prim2SF x) as [s | s | | s m e]; simpl;
    try (destruct s); split; congruence.
Qed.

Lemma is_infinity_spec (x : float) :
  is_infinity x = true <-> exists s, Prim2SF x = S754_infinity s.
Proof.
  unfold is_infinity. rewrite FloatAxioms.eqb_spec, FloatAxioms.abs_spec.
  change (Prim2SF infinity) with (S754_infinity false).
  unfold SFeqb. destruct (Prim2SF x) as [s | s | | s m e]; simpl.
  - split; [discriminate | intros [? ?]; discriminate].
  - split; eauto.
  - split; [discriminate | intros [? ?]; discriminate].
  - split; [discriminate | intros [? ?]; discriminate].
Qed.

Lemma eqb_zero (x : float) :
  (x =? 0)%float = true <-> exists s, Prim2SF x = S754_zero s.
Proof.
  rewrite FloatAxioms.eqb_spec. change (Prim2SF 0) with (S754_zero false).
  unfold SFeqb. destruct (Prim2SF x) as [s | s | | s m e]; simpl.
  - split; eauto.
  - split; [now destruct s | intros [? ?]; discriminate].
  - split; [discriminate | intros [? ?]; discriminate].
  - split; [now destruct s | intros [? ?]; discriminate].
Qed.

(** A finite float is a zero or a signed mantissa and exponent. *)
Lemma finite_spec (x : float) :
  finite x <->
  (exists s, Prim2SF x = S754_zero s) \/ (exists s m e, Prim2SF x = S754_finite s m e).
Proof.
  unfold finite. split.
  - intros [Hn Hi]. apply is_nan_false in Hn.
    destruct (Prim2SF x) as [s | s | | s m e] eqn:Hx; eauto.
    + assert (is_infinity x = true) by (apply is_infinity_spec; eauto). congruence.
    + congruence.
  - intros H. split.
    + apply is_nan_false. destruct H as [[s H] | [s [m [e H]]]]; congruence.
    + destruct (is_infinity x) eqn:Hi; [| reflexivity].
      apply is_infinity_spec in Hi as [s' Hi].
      destruct H as [[s H] | [s [m [e H]]]]; congruence.
Qed.

Lemma finite_zero : finite 0%float.
Proof. split; reflexivity. Qed.

(** [nan_to_num] keeps the finite values and sends the others to [0.0]. *)
Lemma nan_to_num_cases (x : float) :
  (finite x /\ nan_to_num x = x) \/ (~ finite x /\ nan_to_num x = 0%float).
Proof.
  unfold nan_to_num, finite.
  destruct (is_nan x) eqn:Hn; [right; split; [intros [? ?]; congruence | reflexivity] |].
  destruct (x =? infinity)%float eqn:Hp.
  { right. split; [| reflexivity]. intros [_ Hi].
    apply eqb_infinity in Hp.
    assert (is_infinity x = true) by (apply is_infinity_spec; eauto). congruence. }
  destruct (x =? neg_infinity)%float eqn:Hm.
  { right. split; [| reflexivity]. intros [_ Hi].
    apply eqb_neg_infinity in Hm.
    assert (is_infinity x = true) by (apply is_infinity_spec; eauto). congruence. }
  left. split; [| reflexivity]. split; [reflexivity |].
  destruct (is_infinity x) eqn:Hi; [| reflexivity].
  apply is_infinity_spec in Hi as [[|] Hi].
  - apply eqb_neg_infinity in Hi. congruence.
  - apply eqb_infinity in Hi. congruence.
Qed.

Lemma nan_to_num_finite (x : float) : finite (nan_to_num x).
Proof.
  destruct (nan_to_num_cases x) as [[H ->] | [_ ->]]; [exact H | exact finite_zero].
Qed.

(** A quotient by a zero is a NaN or an infinity. *)
Lemma div_by_zero_not_finite (n d : float) :
  (d =? 0)%float = true -> ~ finite (n / d)%float.
Proof.
  intros Hd. apply eqb_zero in Hd as [sd Hd].
  intros Hf. apply finite_spec in Hf.
  rewrite FloatAxioms.div_spec, Hd in Hf. unfold SF64div, SFdiv in Hf.
  destruct (Prim2SF n) as [s | s | | s m e];
    destruct Hf as [[? Hf] | [? [? [? Hf]]]]; discriminate.
Qed.

Lemma index_px_zero_denominator (a b : float) :
  (a + b =? 0)%float = true -> index_px a b = 0%float.
Proof.
  intros Hd. unfold index_px.
  destruct (nan_to_num_cases ((a - b) / (a + b))%float) as [[Hf _] | [_ H]];
    [| exact H].
  now apply div_by_zero_not_finite in Hf.
Qed.

Lemma index_px_finite (a b : float) : finite (index_px a b).
Proof. apply nan_to_num_finite. Qed.

(** * The index rasters hold finite values, zero where the denominator is zero *)

(** What an index computation [calc] guarantees on the rasters [a] and [b]:
    it returns, the raster has the common shape, no element is a NaN or an
    infinity, and wherever the two samples sum to zero the element is
    [0.0]. *)
Definition index_guarantee
    (calc : raster -> raster -> outcome (ndarray float)) (a b : raster) : Prop :=
  exists r,
    calc a b = Ok r /\
    shape r = rshape a /\
    wf_array r /\
    Forall finite (data r) /\
    forall i x y,
      nth_error (samples a) i = Some x ->
      nth_error (samples b) i = Some y ->
      (x + y =? 0)%float = true ->
      nth_error (data r) i = Some 0%float.

Lemma index_raster_guarantee (a b : raster) :
  wf_raster a -> wf_raster b -> rshape a = rshape b ->
  let r := mk_array (rshape a) (zip_with index_px (samples a) (samples b)) in
  shape r = rshape a /\
  wf_array r /\
  Forall finite (data r) /\
  forall i x y,
    nth_error (samples a) i = Some x ->
    nth_error (samples b) i = Some y ->
    (x + y =? 0)%float = true ->
    nth_error (data r) i = Some 0%float.
Proof.
  intros Wa Wb Hs r. subst r. simpl.
  split; [reflexivity |]. split; [| split].
  - unfold wf_array, size; simpl.
    pose proof (samples_length _ Wa). pose proof (samples_length _ Wb).
    unfold rsize in *. rewrite zip_with_length_min. rewrite <- Hs in *. lia.
  - apply Forall_forall. intros z Hz.
    apply zip_with_In in Hz as [x [y [_ [_ ->]]]]. apply index_px_finite.
  - intros i x y Hx Hy Hz.
    rewrite zip_with_nth, Hx, Hy. f_equal.
    now apply index_px_zero_denominator.
Qed.

(** C1. On two well-formed rasters of one shape, each of [calculate_ndvi],
    [calculate_ndmi] and [calculate_ndbi] returns (nothing is raised, a
    zero denominator included) a raster of that shape none of whose
    elements is a NaN or an infinity, and whose element is exactly [0.0]
    at every pixel where the sum of the two samples is zero. *)
Theorem index_rasters_are_finite :
  forall (a b : raster),
    wf_raster a -> wf_raster b -> rshape a = rshape b ->
    index_guarantee calculate_ndvi a b /\
    index_guarantee calculate_ndmi a b /\
    index_guarantee calculate_ndbi a b.
Proof.
  intros a b Wa Wb Hs.
  pose proof (index_raster_guarantee a b Wa Wb Hs) as G.
  repeat split; eexists;
    (split; [first [ apply calculate_ndvi_same | apply calculate_ndmi_same
                   | apply calculate_ndbi_same ]; assumption | exact G]).
Qed.

Definition ex_nir_zeros : raster := f64 [1; 3] [0; 1; 0.5]%float.
Definition ex_red_zeros : raster := f64 [1; 3] [0; -1; 0.1]%float.

Lemma index_rasters_are_finite_witness :
  index_guarantee calculate_ndvi ex_nir_zeros ex_red_zeros /\
  index_guarantee calculate_ndmi ex_nir_zeros ex_red_zeros /\
  index_guarantee calculate_ndbi ex_nir_zeros ex_red_zeros.
Proof.
  apply index_rasters_are_finite; reflexivity.
Defined.

(** * binary64: rounding

    The operations on [spec_float] round through [binary_round_aux]. A
    float is ranked by the integer [rank]: its value scaled by [2^bias],
    the infinities beyond every finite float. On valid floats the order of
    the floats is the order of their ranks, and the rounded result of an
    operation lies on the same side of every representable value as the
    exact result does. *)

Module Rounding.

Local Open Scope Z_scope.

(** ** Digits *)

Lemma digits2_pos_size (p : positive) : digits2_pos p = Pos.size p.
Proof. induction p; simpl; congruence. Qed.

Lemma Zdigits2_bounds (p : positive) :
  2 ^ (Zdigits2 (Zpos p) - 1) <= Zpos p < 2 ^ Zdigits2 (Zpos p).
Proof.
  unfold Zdigits2. rewrite digits2_pos_size.
  pose proof (Pos.size_gt p) as Hgt.
  pose proof (Pos.size_le p) as Hle.
  apply Pos2Z.pos_lt_pos in Hgt. apply Pos2Z.pos_le_pos in Hle.
  rewrite Pos2Z.inj_pow in Hgt, Hle.
  change (Zpos p~0) with (2 * Zpos p) in Hle.
  replace (Zpos (Pos.size p)) with (Z.succ (Zpos (Pos.size p) - 1)) in Hle at 1 by lia.
  rewrite Z.pow_succ_r in Hle by lia.
  lia.
Qed.

Lemma Zdigits2_nonneg (m : Z) : 0 <= Zdigits2 m.
Proof. destruct m; simpl; lia. Qed.

Lemma pow2_lt_mono (a b : Z) : 0 <= a -> 2 ^ a < 2 ^ b -> a < b.
Proof.
  intros Ha H. destruct (Z_lt_le_dec a b) as [|Hle]; [assumption|].
  destruct (Z_lt_le_dec b 0) as [Hb|Hb].
  - rewrite (Z.pow_neg_r 2 b) in H by lia.
    pose proof (Z.pow_pos_nonneg 2 a ltac:(lia) Ha). lia.
  - pose proof (Z.pow_le_mono_r 2 b a ltac:(lia) Hle). lia.
Qed.

Lemma Zdigits2_unique (m d : Z) :
  0 < m -> 2 ^ (d - 1) <= m < 2 ^ d -> Zdigits2 m = d.
Proof.
  intros Hm [H1 H2].
  destruct m as [| p | p]; try lia.
  pose proof (Zdigits2_bounds p) as [B1 B2].
  pose proof (Zdigits2_nonneg (Zpos p)) as Hn.
  assert (Hd : 0 < d).
  { destruct (Z_lt_le_dec 0 d); [assumption|].
    assert (2 ^ d <= 1).
    { destruct (Z.eq_dec d 0) as [->|]; [simpl; lia|]. rewrite Z.pow_neg_r by lia. lia. }
    lia. }
  assert (Zdigits2 (Zpos p) > 0) by (simpl; lia).
  assert (Zdigits2 (Zpos p) - 1 < d).
  { apply pow2_lt_mono; [lia|]. lia. }
  assert (d - 1 < Zdigits2 (Zpos p)).
  { apply pow2_lt_mono; [lia|]. lia. }
  lia.
Qed.

(** ** Shifting right *)

Lemma shr_1_m (mrs : shr_record) :
  0 <= shr_m mrs -> shr_m (shr_1 mrs) = shr_m mrs / 2.
Proof.
  destruct mrs as [m r s]. simpl. intros Hm.
  destruct m as [| [p | p |] | p]; simpl; try lia; try reflexivity.
  - rewrite Pos2Z.inj_xI. apply Z.div_unique with 1; lia.
  - rewrite Pos2Z.inj_xO. apply Z.div_unique with 0; lia.
Qed.

Lemma pow2_xO (n : positive) : 2 ^ Zpos n~0 = 2 ^ Zpos n * 2 ^ Zpos n.
Proof.
  change (Zpos n~0) with (2 * Zpos n).
  replace (2 * Zpos n) with (Zpos n + Zpos n) by lia.
  apply Z.pow_add_r; lia.
Qed.

Lemma pow2_xI (n : positive) : 2 ^ Zpos n~1 = 2 * (2 ^ Zpos n * 2 ^ Zpos n).
Proof.
  change (Zpos n~1) with (2 * Zpos n + 1).
  replace (2 * Zpos n + 1) with (Z.succ (Zpos n + Zpos n)) by lia.
  rewrite Z.pow_succ_r by lia.
  now rewrite Z.pow_add_r by lia.
Qed.

Lemma iter_pos_shr_m (n : positive) (mrs : shr_record) :
  0 <= shr_m mrs ->
  shr_m (SpecFloat.iter_pos shr_1 n mrs) = shr_m mrs / 2 ^ Zpos n.
Proof.
  revert mrs; induction n as [n IH | n IH |]; intros mrs Hm; simpl SpecFloat.iter_pos.
  - assert (H1 : 0 <= shr_m (shr_1 mrs)).
    { rewrite shr_1_m by assumption. apply Z.div_pos; lia. }
    assert (H2 : 0 <= shr_m (SpecFloat.iter_pos shr_1 n (shr_1 mrs))).
    { rewrite IH by assumption. apply Z.div_pos; lia. }
    rewrite IH, IH, shr_1_m by assumption.
    rewrite !Z.div_div by lia.
    now rewrite pow2_xI, Z.mul_assoc.
  - assert (H2 : 0 <= shr_m (SpecFloat.iter_pos shr_1 n mrs)).
    { rewrite IH by assumption. apply Z.div_pos; lia. }
    rewrite IH, IH by assumption.
    rewrite !Z.div_div by lia.
    now rewrite pow2_xO.
  - rewrite shr_1_m by assumption. reflexivity.
Qed.

Lemma shr_record_of_loc_m (m : Z) (l : location) : shr_m (shr_record_of_loc m l) = m.
Proof. destruct l as [| []]; reflexivity. Qed.

Lemma shr_spec (mrs : shr_record) (e n : Z) :
  0 <= shr_m mrs ->
  shr_m (fst (shr mrs e n)) = shr_m mrs / 2 ^ Z.max n 0 /\
  snd (shr mrs e n) = e + Z.max n 0.
Proof.
  intros Hm. destruct n as [| p | p]; simpl.
  - rewrite Z.div_1_r. lia.
  - rewrite iter_pos_shr_m by assumption. split; [reflexivity | lia].
  - rewrite Z.div_1_r. lia.
Qed.

Lemma round_nearest_even_bounds (m : Z) (l : location) :
  m <= round_nearest_even m l <= m + 1.
Proof.
  destruct l as [| []]; simpl; try lia.
  destruct (Z.even m); lia.
Qed.

Definition bias : Z := 2200.
Definition pow2 (e : Z) : Z := 2 ^ (e + bias).
Definition val (m e : Z) : Z := m * pow2 e.
Definition INF : Z := pow2 1024.

Arguments pow2 : simpl never.
Arguments val : simpl never.
Arguments INF : simpl never.

Definition rank (X : spec_float) : Z :=
  match X with
  | S754_zero _ => 0
  | S754_nan => 0
  | S754_infinity s => if s then - INF else INF
  | S754_finite s m e => if s then - val (Zpos m) e else val (Zpos m) e
  end.

Lemma fexp_eq (x : Z) : fexp prec emax x = Z.max (x - 53) (-1074).
Proof. reflexivity. Qed.

Lemma pow2_pos (e : Z) : - bias <= e -> 0 < pow2 e.
Proof. intros H. unfold pow2. apply Z.pow_pos_nonneg; lia. Qed.

Lemma pow2_add (e k : Z) : - bias <= e -> 0 <= k -> pow2 (e + k) = pow2 e * 2 ^ k.
Proof.
  intros He Hk. unfold pow2.
  replace (e + k + bias) with (e + bias + k) by lia.
  apply Z.pow_add_r; lia.
Qed.

Lemma pow2_le (e e' : Z) : - bias <= e -> e <= e' -> pow2 e <= pow2 e'.
Proof.
  intros He Hle. unfold pow2. apply Z.pow_le_mono_r; lia.
Qed.

(** ** Canonical mantissas *)

Lemma bounded_spec (m : positive) (e : Z) :
  bounded prec emax m e = true <->
  Z.max (Zdigits2 (Zpos m) + e - 53) (-1074) = e /\ e <= 971.
Proof.
  unfold bounded, canonical_mantissa.
  rewrite andb_true_iff, Z.eqb_eq, Z.leb_le, fexp_eq.
  change (emax - prec) with 971. simpl Zdigits2. reflexivity.
Qed.

Lemma bounded_facts (m : positive) (e : Z) :
  bounded prec emax m e = true ->
  -1074 <= e <= 971 /\ Zpos m < 2 ^ 53 /\ (-1074 < e -> 2 ^ 52 <= Zpos m).
Proof.
  intros H. apply bounded_spec in H as [Hc He].
  pose proof (Zdigits2_bounds m) as [B1 B2].
  assert (Hd : 0 < Zdigits2 (Zpos m)) by (simpl; lia).
  split; [lia |]. split.
  - assert (Zdigits2 (Zpos m) <= 53) by lia.
    pose proof (Z.pow_le_mono_r 2 (Zdigits2 (Zpos m)) 53 ltac:(lia) ltac:(lia)). lia.
  - intros Hn. assert (Hd53 : Zdigits2 (Zpos m) = 53) by lia.
    rewrite Hd53 in B1. exact B1.
Qed.

Lemma val_pos (m : positive) (e : Z) : - bias <= e -> 0 < val (Zpos m) e.
Proof. intros H. unfold val. pose proof (pow2_pos e H). nia. Qed.

Lemma val_lt_INF (m : positive) (e : Z) :
  bounded prec emax m e = true -> val (Zpos m) e < INF.
Proof.
  intros H. apply bounded_facts in H as [He [Hm _]].
  unfold val, INF.
  assert (Hle : pow2 e <= pow2 971) by (apply pow2_le; unfold bias; lia).
  replace 1024 with (971 + 53) by lia.
  rewrite pow2_add by (unfold bias; lia).
  pose proof (pow2_pos e ltac:(unfold bias; lia)).
  pose proof (pow2_pos 971 ltac:(unfold bias; lia)).
  nia.
Qed.

Lemma Zdigits2_53 (m : Z) : 2 ^ 52 <= m < 2 ^ 53 -> Zdigits2 m = 53.
Proof. intros H. apply Zdigits2_unique; [lia | exact H]. Qed.

Lemma Zdigits2_small (m : Z) : 0 < m < 2 ^ 52 -> 0 < Zdigits2 m <= 52.
Proof.
  intros [H0 H1]. destruct m as [| p | p]; try lia.
  pose proof (Zdigits2_bounds p) as [B1 B2].
  split; [simpl; lia |].
  destruct (Z_le_gt_dec (Zdigits2 (Zpos p)) 52) as [| Hgt]; [assumption |].
  pose proof (Z.pow_le_mono_r 2 52 (Zdigits2 (Zpos p) - 1) ltac:(lia) ltac:(lia)).
  lia.
Qed.

(** The quotient of the first shift. *)
Lemma first_shift (mx ex : Z) :
  0 <= mx -> ex <= fexp prec emax (Zdigits2 mx + ex) ->
  let e1 := fexp prec emax (Zdigits2 mx + ex) in
  let m1 := mx / 2 ^ (e1 - ex) in
  0 <= m1 < 2 ^ 53 /\ (-1074 < e1 -> 2 ^ 52 <= m1) /\ -1074 <= e1.
Proof.
  intros Hmx Hpre e1 m1. subst e1 m1. rewrite fexp_eq in *.
  set (d := Zdigits2 mx) in *.
  set (e1 := Z.max (d + ex - 53) (-1074)) in *.
  assert (Hn : 0 <= e1 - ex) by lia.
  assert (Hp : 0 < 2 ^ (e1 - ex)) by (apply Z.pow_pos_nonneg; lia).
  split; [| split; [| lia]].
  - split; [apply Z.div_pos; lia |].
    destruct mx as [| p | p]; [rewrite Zdiv_0_l; lia | | lia].
    pose proof (Zdigits2_bounds p) as [B1 B2]. fold d in B1, B2.
    apply Z.div_lt_upper_bound; [lia |].
    rewrite <- Z.pow_add_r by lia.
    assert (d <= e1 - ex + 53) by lia.
    pose proof (Z.pow_le_mono_r 2 d (e1 - ex + 53) ltac:(lia) ltac:(lia)). lia.
  - intros Hnorm.
    assert (He1 : e1 = d + ex - 53) by lia.
    destruct mx as [| p | p]; [| | lia].
    + subst d. simpl in *. lia.
    + pose proof (Zdigits2_bounds p) as [B1 B2]. fold d in B1, B2.
      apply Z.div_le_lower_bound; [lia |].
      rewrite <- Z.pow_add_r by lia.
      replace (e1 - ex + 52) with (d - 1) by lia. exact B1.
Qed.

Lemma shr_fexp_spec (m e : Z) (l : location) :
  0 <= m -> e <= fexp prec emax (Zdigits2 m + e) ->
  shr_m (fst (shr_fexp prec emax m e l)) = m / 2 ^ (fexp prec emax (Zdigits2 m + e) - e) /\
  snd (shr_fexp prec emax m e l) = fexp prec emax (Zdigits2 m + e).
Proof.
  intros Hm Hpre. unfold shr_fexp.
  destruct (shr_spec (shr_record_of_loc m l) e (fexp prec emax (Zdigits2 m + e) - e))
    as [H1 H2].
  - now rewrite shr_record_of_loc_m.
  - rewrite H1, H2, shr_record_of_loc_m.
    rewrite Z.max_l by lia. split; [reflexivity | lia].
Qed.

(** The shape of a rounded result: [m2] is the mantissa after rounding to
    nearest even at exponent [e1]. *)
Lemma round_aux_spec (sx : bool) (mx ex : Z) (lx : location) :
  0 <= mx -> - bias <= ex -> ex <= fexp prec emax (Zdigits2 mx + ex) ->
  let e1 := fexp prec emax (Zdigits2 mx + ex) in
  let m1 := mx / 2 ^ (e1 - ex) in
  exists m2,
    m1 <= m2 <= m1 + 1 /\
    ((m2 = 0 /\ binary_round_aux prec emax sx mx ex lx = S754_zero sx) \/
     (0 < m2 /\ exists m3 e3,
        val (Zpos m3) e3 = val m2 e1 /\ bounded prec emax m3 e3 = true /\
        binary_round_aux prec emax sx mx ex lx = S754_finite sx m3 e3) \/
     (0 < m2 /\ INF <= val m2 e1 /\
      binary_round_aux prec emax sx mx ex lx = S754_infinity sx)).
Proof.
  intros Hmx Hex Hpre e1 m1.
  destruct (first_shift mx ex Hmx Hpre) as [[Hm1a Hm1b] [Hnorm He1]].
  fold e1 in Hm1a, Hm1b, Hnorm, He1. fold m1 in Hm1a, Hm1b, Hnorm.
  destruct (shr_fexp_spec mx ex lx Hmx Hpre) as [S1 S2].
  destruct (shr_fexp prec emax mx ex lx) as [mrs1 e1'] eqn:E1.
  simpl in S1, S2. fold e1 in S1, S2. fold m1 in S1. subst e1'.
  set (m2 := round_nearest_even (shr_m mrs1) (loc_of_shr_record mrs1)).
  assert (Hres : binary_round_aux prec emax sx mx ex lx =
                 let '(mrs2, e2) := shr_fexp prec emax m2 e1 loc_Exact in
                 match shr_m mrs2 with
                 | 0 => S754_zero sx
                 | Zpos m => if e2 <=? emax - prec then S754_finite sx m e2
                             else S754_infinity sx
                 | Zneg _ => S754_nan
                 end).
  { unfold binary_round_aux. rewrite E1. reflexivity. }
  pose proof (round_nearest_even_bounds (shr_m mrs1) (loc_of_shr_record mrs1)) as Hm2.
  fold m2 in Hm2. rewrite S1 in Hm2.
  clearbody m2. clear E1 S1 mrs1.
  exists m2. split; [exact Hm2 |].
  assert (Hbias : - bias <= e1) by (unfold bias in *; lia).
  assert (Hsub : m2 < 2 ^ 52 -> e1 = -1074).
  { intros Hs. destruct (Z.eq_dec e1 (-1074)); [assumption |].
    assert (2 ^ 52 <= m1) by (apply Hnorm; lia). lia. }
  assert (Hcases : m2 = 0 \/ 0 < m2 < 2 ^ 53 \/ m2 = 2 ^ 53) by lia.
  destruct Hcases as [Hz | [Hmid | Htop]].
  - (* zero *)
    left. split; [exact Hz |].
    rewrite Hres, Hz. unfold shr_fexp. simpl Zdigits2.
    rewrite (Hsub ltac:(lia)). reflexivity.
  - (* no carry out of the mantissa *)
    assert (Hfexp : fexp prec emax (Zdigits2 m2 + e1) = e1).
    { rewrite fexp_eq.
      destruct (Z_lt_le_dec m2 (2 ^ 52)) as [Hsmall | Hbig].
      - pose proof (Hsub Hsmall).
        pose proof (Zdigits2_small m2 ltac:(lia)). lia.
      - rewrite (Zdigits2_53 m2) by lia. lia. }
    assert (Hshr : shr_fexp prec emax m2 e1 loc_Exact =
                   (Build_shr_record m2 false false, e1)).
    { unfold shr_fexp. rewrite Hfexp, Z.sub_diag. reflexivity. }
    rewrite Hshr in Hres. simpl in Hres.
    destruct m2 as [| p | p] eqn:Ep; try lia.
    change (emax - prec) with 971 in Hres.
    destruct (Z.leb_spec e1 971) as [Hle | Hgt].
    + right. left. split; [lia |].
      exists p, e1. split; [reflexivity |]. split; [| exact Hres].
      apply bounded_spec. split; [| exact Hle].
      rewrite fexp_eq in Hfexp. lia.
    + right. right. split; [lia |]. split; [| exact Hres].
      assert (2 ^ 52 <= m1) by (apply Hnorm; lia).
      unfold INF, val.
      replace 1024 with (972 + 52) by lia.
      rewrite pow2_add by (unfold bias; lia).
      pose proof (pow2_le 972 e1 ltac:(unfold bias; lia) ltac:(lia)).
      pose proof (pow2_pos 972 ltac:(unfold bias; lia)).
      nia.
  - (* the mantissa carried into a 54th digit *)
    assert (Hshr : shr_fexp prec emax m2 e1 loc_Exact =
                   (Build_shr_record (2 ^ 52) false false, e1 + 1)).
    { unfold shr_fexp. rewrite fexp_eq, Htop.
      change (Zdigits2 (2 ^ 53)) with 54.
      replace (Z.max (54 + e1 - 53) (-1074) - e1) with 1 by lia.
      reflexivity. }
    rewrite Hshr in Hres. simpl shr_m in Hres.
    change (2 ^ 52) with (Zpos (2 ^ 52)) in Hres. cbv iota beta in Hres.
    change (emax - prec) with 971 in Hres.
    destruct (Z.leb_spec (e1 + 1) 971) as [Hle | Hgt].
    + right. left. split; [lia |].
      exists (2 ^ 52)%positive, (e1 + 1). split; [| split; [| exact Hres]].
      * unfold val. rewrite Htop, pow2_add by lia.
        change (Zpos (2 ^ 52)) with (2 ^ 52). change (2 ^ 53) with (2 ^ 52 * 2). lia.
      * apply bounded_spec. split; [| exact Hle].
        change (Zdigits2 (Zpos (2 ^ 52))) with 53. lia.
    + right. right. split; [lia |]. split; [| exact Hres].
      unfold INF, val. rewrite Htop.
      replace 1024 with (971 + 53) by lia.
      rewrite pow2_add by (unfold bias; lia).
      pose proof (pow2_le 971 e1 ltac:(unfold bias; lia) ltac:(lia)).
      pose proof (pow2_pos 971 ltac:(unfold bias; lia)).
      nia.
Qed.

(** The magnitude of a float, and the magnitudes of the floats. *)
Definition mag (X : spec_float) : Z := Z.abs (rank X).

Definition representable (g : Z) : Prop :=
  g = 0 \/ exists m e, bounded prec emax m e = true /\ g = val (Zpos m) e.

Lemma representable_bounds (g : Z) : representable g -> 0 <= g < INF.
Proof.
  intros [-> | [m [e [Hb ->]]]].
  - unfold INF. pose proof (pow2_pos 1024 ltac:(unfold bias; lia)). lia.
  - pose proof (val_lt_INF m e Hb).
    pose proof (bounded_facts m e Hb) as [He _].
    pose proof (val_pos m e ltac:(unfold bias; lia)). lia.
Qed.

(** A representable magnitude lies on the grid of step [2^e1] from
    [m1 * 2^e1] on, when [m1] is normalized for [e1]. *)
Lemma grid_from (g m1 e1 : Z) :
  representable g -> 0 <= m1 -> - bias <= e1 -> (-1074 < e1 -> 2 ^ 52 <= m1) ->
  (g < val (m1 + 1) e1 -> g <= val m1 e1) /\
  (val m1 e1 < g -> val (m1 + 1) e1 <= g).
Proof.
  intros Hg Hm1 He1 Hnorm.
  assert (Hp1 : 0 < pow2 e1) by (apply pow2_pos; lia).
  destruct Hg as [-> | [mg [eg [Hb ->]]]].
  { unfold val. split; nia. }
  pose proof (bounded_facts mg eg Hb) as [Heg [Hmg _]].
  assert (Hpg : 0 < pow2 eg) by (apply pow2_pos; unfold bias; lia).
  destruct (Z_le_gt_dec e1 eg) as [Hle | Hgt].
  - (* g is a multiple of 2^e1 *)
    assert (Hpow : pow2 eg = pow2 e1 * 2 ^ (eg - e1)).
    { rewrite <- pow2_add by lia. f_equal. lia. }
    assert (Hk : 0 < 2 ^ (eg - e1)) by (apply Z.pow_pos_nonneg; lia).
    unfold val. rewrite Hpow.
    set (K := Zpos mg * 2 ^ (eg - e1)).
    replace (Zpos mg * (pow2 e1 * 2 ^ (eg - e1))) with (K * pow2 e1) by (unfold K; ring).
    split; intros H.
    + assert (K < m1 + 1) by nia. nia.
    + assert (m1 < K) by nia. nia.
  - (* g is below the normalized range of e1 *)
    assert (Hm52 : 2 ^ 52 <= m1) by (apply Hnorm; lia).
    assert (Hlt : val (Zpos mg) eg < val m1 e1).
    { unfold val.
      assert (Hpow : pow2 e1 = pow2 eg * 2 ^ (e1 - eg)).
      { rewrite <- pow2_add by (unfold bias; lia). f_equal. lia. }
      assert (2 ^ 1 <= 2 ^ (e1 - eg)) by (apply Z.pow_le_mono_r; lia).
      rewrite Hpow. change (2 ^ 1) with 2 in *. nia. }
    split; intros H; [lia |].
    lia.
Qed.

Lemma grid (g m1 e1 : Z) :
  representable g -> 0 <= m1 -> -1074 <= e1 -> (-1074 < e1 -> 2 ^ 52 <= m1) ->
  (g < val (m1 + 1) e1 -> g <= val m1 e1) /\
  (val m1 e1 < g -> val (m1 + 1) e1 <= g).
Proof.
  intros Hg Hm1 He1 Hnorm. apply grid_from; auto. unfold bias. lia.
Qed.

Lemma trunc_bounds (mx ex e1 : Z) :
  0 <= mx -> - bias <= ex -> ex <= e1 ->
  val (mx / 2 ^ (e1 - ex)) e1 <= val mx ex /\
  val mx ex < val (mx / 2 ^ (e1 - ex) + 1) e1.
Proof.
  intros Hmx Hex Hle.
  assert (Hp : 0 < 2 ^ (e1 - ex)) by (apply Z.pow_pos_nonneg; lia).
  assert (Hpow : pow2 e1 = pow2 ex * 2 ^ (e1 - ex)).
  { rewrite <- pow2_add by lia. f_equal. lia. }
  pose proof (pow2_pos ex Hex) as Hpe.
  pose proof (Z.mul_div_le mx (2 ^ (e1 - ex)) Hp) as D1.
  pose proof (Z.mul_succ_div_gt mx (2 ^ (e1 - ex)) Hp) as D2.
  unfold val. rewrite Hpow. split; nia.
Qed.

(** Rounding: the result is a float of the given sign, and its magnitude
    is on the same side as the exact value of every representable bound. *)
Lemma round_aux_mag (sx : bool) (mx ex : Z) (lx : location) :
  0 <= mx -> - bias <= ex -> ex <= fexp prec emax (Zdigits2 mx + ex) ->
  let f := binary_round_aux prec emax sx mx ex lx in
  valid_binary f = true /\
  f <> S754_nan /\
  rank f = (if sx then - mag f else mag f) /\
  forall g, representable g ->
    (g <= val mx ex -> g <= mag f) /\
    (val mx ex < g -> mag f <= g).
Proof.
  intros Hmx Hex Hpre f.
  destruct (round_aux_spec sx mx ex lx Hmx Hex Hpre) as [m2 [Hm2 Hcases]].
  destruct (first_shift mx ex Hmx Hpre) as [[Hm1a Hm1b] [Hnorm He1]].
  set (e1 := fexp prec emax (Zdigits2 mx + ex)) in *.
  set (m1 := mx / 2 ^ (e1 - ex)) in *.
  destruct (trunc_bounds mx ex e1 Hmx Hex Hpre) as [T1 T2]. fold m1 in T1, T2.
  assert (Hp1 : 0 < pow2 e1) by (apply pow2_pos; unfold bias; lia).
  assert (Hpx : 0 < pow2 ex) by (apply pow2_pos; lia).
  assert (Hv12 : val m1 e1 <= val m2 e1 <= val (m1 + 1) e1) by (unfold val; nia).
  fold f in Hcases.
  destruct Hcases as [[Hz Hf] | [[Hpos [m3 [e3 [Hv [Hb Hf]]]]] | [Hpos [Hinf Hf]]]];
    rewrite Hf; unfold mag; cbn [rank].
  - (* zero *)
    split; [reflexivity |]. split; [discriminate |].
    split; [now destruct sx |].
    intros g Hg. pose proof (representable_bounds g Hg).
    destruct (grid g m1 e1 Hg Hm1a He1 Hnorm) as [G1 G2].
    rewrite Hz in Hv12. unfold val in Hv12 at 2. simpl in Hv12.
    split; intros Hb0; simpl; lia.
  - (* finite *)
    pose proof (bounded_facts m3 e3 Hb) as [He3 _].
    pose proof (val_pos m3 e3 ltac:(unfold bias; lia)) as Hv3.
    split; [exact Hb |]. split; [discriminate |].
    split; [destruct sx; lia |].
    intros g Hg. pose proof (representable_bounds g Hg).
    destruct (grid g m1 e1 Hg Hm1a He1 Hnorm) as [G1 G2].
    replace (Z.abs (if sx then - val (Zpos m3) e3 else val (Zpos m3) e3))
      with (val m2 e1) by (destruct sx; lia).
    split; intros Hb0; lia.
  - (* overflow *)
    assert (0 < INF) by (unfold INF; apply pow2_pos; unfold bias; lia).
    split; [reflexivity |]. split; [discriminate |].
    split; [destruct sx; lia |].
    intros g Hg. pose proof (representable_bounds g Hg).
    destruct (grid g m1 e1 Hg Hm1a He1 Hnorm) as [G1 G2].
    replace (Z.abs (if sx then - INF else INF)) with INF by (destruct sx; lia).
    split; intros Hb0; lia.
Qed.

(** ** The order of the floats is the order of their ranks *)

Lemma canonical_compare (m1 m2 : positive) (e1 e2 : Z) :
  bounded prec emax m1 e1 = true -> bounded prec emax m2 e2 = true ->
  (val (Zpos m1) e1 ?= val (Zpos m2) e2) =
  match e1 ?= e2 with
  | Lt => Lt
  | Gt => Gt
  | Eq => Pos.compare_cont Eq m1 m2
  end.
Proof.
  intros B1 B2.
  pose proof (bounded_facts m1 e1 B1) as [He1 [Hm1 Hn1]].
  pose proof (bounded_facts m2 e2 B2) as [He2 [Hm2 Hn2]].
  assert (Hlt : forall ma mb ea eb,
            -1074 <= ea -> ea < eb -> Zpos ma < 2 ^ 53 -> 2 ^ 52 <= Zpos mb ->
            val (Zpos ma) ea < val (Zpos mb) eb).
  { intros ma mb ea eb Ha Hab Hma Hmb. unfold val.
    assert (Hpow : pow2 eb = pow2 ea * 2 ^ (eb - ea)).
    { rewrite <- pow2_add by (unfold bias; lia). f_equal. lia. }
    assert (2 ^ 1 <= 2 ^ (eb - ea)) by (apply Z.pow_le_mono_r; lia).
    pose proof (pow2_pos ea ltac:(unfold bias; lia)).
    rewrite Hpow. change (2 ^ 1) with 2 in *.
    change (2 ^ 53) with (2 * 2 ^ 52) in Hma.
    assert (HA : 0 < 2 ^ 52) by lia.
    generalize dependent (2 ^ 52). intros A. intros.
    generalize dependent (2 ^ (eb - ea)). intros K. intros.
    assert (Zpos ma * pow2 ea < 2 * A * pow2 ea) by nia.
    assert (2 * A * pow2 ea <= Zpos mb * K * pow2 ea).
    { apply Z.mul_le_mono_nonneg_r; [lia |]. nia. }
    lia. }
  destruct (Z.compare_spec e1 e2) as [Heq | Hl | Hg].
  - subst e2. unfold val.
    pose proof (pow2_pos e1 ltac:(unfold bias; lia)).
    rewrite <- Zmult_compare_compat_r by lia.
    reflexivity.
  - apply Z.compare_lt_iff. apply Hlt; lia.
  - apply Z.compare_gt_iff. apply Hlt; lia.
Qed.

Lemma INF_pos : 0 < INF.
Proof. unfold INF. apply pow2_pos. unfold bias. lia. Qed.

Lemma rank_compare (X Y : spec_float) :
  valid_binary X = true -> valid_binary Y = true ->
  X <> S754_nan -> Y <> S754_nan ->
  SFcompare X Y = Some (rank X ?= rank Y).
Proof.
  pose proof INF_pos as HI.
  intros VX VY NX NY.
  destruct X as [sx | sx | | sx mx ex]; try congruence;
    destruct Y as [sy | sy | | sy my ey]; try congruence; simpl in VX, VY;
    try (pose proof (val_lt_INF mx ex VX));
    try (pose proof (val_lt_INF my ey VY));
    try (pose proof (bounded_facts mx ex VX) as [Hex _];
         pose proof (val_pos mx ex ltac:(unfold bias; lia)));
    try (pose proof (bounded_facts my ey VY) as [Hey _];
         pose proof (val_pos my ey ltac:(unfold bias; lia)));
    cbn [SFcompare rank].
  - reflexivity.
  - f_equal. symmetry. destruct sy; [apply Z.compare_gt_iff | apply Z.compare_lt_iff]; lia.
  - f_equal. symmetry. destruct sy; [apply Z.compare_gt_iff | apply Z.compare_lt_iff]; lia.
  - f_equal. symmetry. destruct sx; [apply Z.compare_lt_iff | apply Z.compare_gt_iff]; lia.
  - f_equal. symmetry. destruct sx, sy;
      first [apply Z.compare_eq_iff | apply Z.compare_lt_iff | apply Z.compare_gt_iff]; lia.
  - f_equal. symmetry. destruct sx, sy;
      first [apply Z.compare_lt_iff; lia | apply Z.compare_gt_iff; lia].
  - f_equal. symmetry. destruct sx; [apply Z.compare_lt_iff | apply Z.compare_gt_iff]; lia.
  - f_equal. symmetry. destruct sx, sy;
      first [apply Z.compare_lt_iff; lia | apply Z.compare_gt_iff; lia].
  - f_equal. destruct sx, sy.
    + rewrite Z.compare_opp, (canonical_compare my mx ey ex VY VX).
      rewrite (Z.compare_antisym ey ex).
      destruct (ey ?= ex); simpl; try reflexivity.
      now rewrite Pos.compare_cont_antisym.
    + symmetry. apply Z.compare_lt_iff. lia.
    + symmetry. apply Z.compare_gt_iff. lia.
    + now rewrite (canonical_compare mx my ex ey VX VY).
Qed.

(** ** Aligning and normalizing *)

Lemma pos_iter_xO (p d : positive) : Zpos (Pos.iter xO p d) = Zpos p * 2 ^ Zpos d.
Proof.
  induction d as [| d IH] using Pos.peano_ind.
  - simpl. lia.
  - rewrite Pos.iter_succ, Pos2Z.inj_succ, Z.pow_succ_r by lia.
    change (Zpos (Pos.iter xO p d)~0) with (2 * Zpos (Pos.iter xO p d)).
    rewrite IH. ring.
Qed.

Lemma shl_align_spec (mx : positive) (ex ez : Z) :
  Zpos (fst (shl_align mx ex ez)) = Zpos mx * 2 ^ (ex - Z.min ex ez) /\
  snd (shl_align mx ex ez) = Z.min ex ez.
Proof.
  unfold shl_align.
  destruct (ez - ex) as [| d | d] eqn:Hd; cbn [fst snd].
  - replace (ex - Z.min ex ez) with 0 by lia. rewrite Z.pow_0_r. lia.
  - replace (ex - Z.min ex ez) with 0 by lia. rewrite Z.pow_0_r. lia.
  - rewrite pos_iter_xO. replace (ex - Z.min ex ez) with (Zpos d) by lia. lia.
Qed.

Lemma shl_align_val (mx : positive) (ex ez : Z) :
  - bias <= ex -> - bias <= ez ->
  val (Zpos (fst (shl_align mx ex ez))) (snd (shl_align mx ex ez)) = val (Zpos mx) ex.
Proof.
  intros Hex Hez.
  destruct (shl_align_spec mx ex ez) as [-> ->].
  unfold val.
  replace (pow2 ex) with (pow2 (Z.min ex ez + (ex - Z.min ex ez))) by (f_equal; lia).
  rewrite pow2_add by lia. ring.
Qed.

Lemma Zdigits2_shift (p : positive) (k : Z) :
  0 <= k -> Zdigits2 (Zpos p * 2 ^ k) = Zdigits2 (Zpos p) + k.
Proof.
  intros Hk.
  pose proof (Zdigits2_bounds p) as [B1 B2].
  assert (Hd : 0 < Zdigits2 (Zpos p)) by (simpl; lia).
  assert (Hp : 0 < 2 ^ k) by (apply Z.pow_pos_nonneg; lia).
  apply Zdigits2_unique; [nia |].
  replace (Zdigits2 (Zpos p) + k - 1) with (Zdigits2 (Zpos p) - 1 + k) by lia.
  rewrite !Z.pow_add_r by lia. nia.
Qed.

Lemma binary_round_mag (sx : bool) (mx : positive) (ex : Z) :
  - bias <= ex ->
  let f := binary_round prec emax sx mx ex in
  valid_binary f = true /\
  f <> S754_nan /\
  rank f = (if sx then - mag f else mag f) /\
  forall g, representable g ->
    (g <= val (Zpos mx) ex -> g <= mag f) /\
    (val (Zpos mx) ex < g -> mag f <= g).
Proof.
  intros Hex f. subst f. unfold binary_round.
  set (t := fexp prec emax (Zpos (digits2_pos mx) + ex)).
  assert (Ht : -1074 <= t) by (unfold t; rewrite fexp_eq; lia).
  pose proof (shl_align_spec mx ex t) as [Hm He].
  pose proof (shl_align_val mx ex t Hex ltac:(unfold bias; lia)) as Hv.
  destruct (shl_align mx ex t) as [mz ez]. cbn [fst snd] in Hm, He, Hv.
  rewrite <- Hv.
  apply round_aux_mag.
  - lia.
  - unfold bias in *. lia.
  - rewrite Hm, Zdigits2_shift by lia.
    change (Zdigits2 (Zpos mx)) with (Zpos (digits2_pos mx)).
    replace (Zpos (digits2_pos mx) + (ex - Z.min ex t) + ez)
      with (Zpos (digits2_pos mx) + ex) by lia.
    fold t. lia.
Qed.

Lemma binary_normalize_mag (M e : Z) (sz : bool) :
  - bias <= e ->
  let f := binary_normalize prec emax M e sz in
  valid_binary f = true /\
  f <> S754_nan /\
  (0 <= M -> 0 <= rank f) /\
  (M <= 0 -> rank f <= 0) /\
  forall g, representable g ->
    (g <= val (Z.abs M) e -> g <= mag f) /\
    (val (Z.abs M) e < g -> mag f <= g).
Proof.
  intros He f. subst f.
  destruct M as [| p | p]; simpl binary_normalize.
  - split; [reflexivity |]. split; [discriminate |].
    split; [simpl; lia |]. split; [simpl; lia |].
    intros g Hg. pose proof (representable_bounds g Hg).
    unfold mag, val; simpl. split; lia.
  - destruct (binary_round_mag false p e He) as [V [N [S B]]].
    split; [exact V |]. split; [exact N |].
    split; [intros _; rewrite S; unfold mag; lia |].
    split; [lia |]. exact B.
  - destruct (binary_round_mag true p e He) as [V [N [S B]]].
    split; [exact V |]. split; [exact N |].
    split; [lia |].
    split; [intros _; rewrite S; unfold mag; lia |]. exact B.
Qed.

(** ** Addition and subtraction *)

(** A float that is a zero or finite, and valid. *)
Definition fin (X : spec_float) : Prop :=
  valid_binary X = true /\
  match X with
  | S754_zero _ | S754_finite _ _ _ => True
  | _ => False
  end.

Lemma rank_aligned (s : bool) (m : positive) (e ez : Z) :
  -1074 <= e -> -1074 <= ez ->
  cond_Zopp s (Zpos (fst (shl_align m e (Z.min e ez)))) * pow2 (Z.min e ez) =
  rank (S754_finite s m e).
Proof.
  intros He Hez.
  pose proof (shl_align_spec m e (Z.min e ez)) as [Hm Hs].
  pose proof (shl_align_val m e (Z.min e ez) ltac:(unfold bias; lia) ltac:(unfold bias; lia)) as Hv.
  rewrite Hs in Hv.
  replace (Z.min e (Z.min e ez)) with (Z.min e ez) in Hv by lia.
  unfold val in Hv. cbn [rank]. unfold val, cond_Zopp.
  destruct s; lia.
Qed.

Definition sandwich (v : Z) (f : spec_float) : Prop :=
  valid_binary f = true /\
  f <> S754_nan /\
  (0 <= v -> 0 <= rank f) /\
  (v <= 0 -> rank f <= 0) /\
  forall g, representable g ->
    (g <= Z.abs v -> g <= mag f) /\
    (Z.abs v < g -> mag f <= g).

Lemma sandwich_exact (f : spec_float) : fin f -> sandwich (rank f) f.
Proof.
  intros [V F]. unfold sandwich, mag.
  split; [exact V |]. split; [destruct f; try discriminate; contradiction |].
  split; [lia |]. split; [lia |]. intros g _. lia.
Qed.

Lemma sandwich_normalize (M e : Z) (sz : bool) :
  - bias <= e ->
  sandwich (M * pow2 e) (binary_normalize prec emax M e sz).
Proof.
  intros He.
  destruct (binary_normalize_mag M e sz He) as [V [N [S1 [S2 B]]]].
  pose proof (pow2_pos e He) as Hp.
  unfold sandwich.
  split; [exact V |]. split; [exact N |].
  split; [intros H; apply S1; nia |].
  split; [intros H; apply S2; nia |].
  replace (Z.abs (M * pow2 e)) with (val (Z.abs M) e); [exact B |].
  unfold val. rewrite Z.abs_mul. f_equal. lia.
Qed.

Lemma SFadd_sandwich (X Y : spec_float) :
  fin X -> fin Y -> sandwich (rank X + rank Y) (SFadd prec emax X Y).
Proof.
  intros [VX FX] [VY FY].
  destruct X as [sx | sx | | sx mx ex]; try contradiction;
    destruct Y as [sy | sy | | sy my ey]; try contradiction.
  - replace (rank (S754_zero sx) + rank (S754_zero sy))
      with (rank (SFadd prec emax (S754_zero sx) (S754_zero sy)))
      by (destruct sx, sy; reflexivity).
    apply sandwich_exact. destruct sx, sy; split; simpl; auto.
  - simpl SFadd. cbn [rank]. rewrite Z.add_0_l.
    apply sandwich_exact. split; simpl; auto.
  - simpl SFadd. cbn [rank]. rewrite Z.add_0_r.
    apply sandwich_exact. split; simpl; auto.
  - simpl in VX, VY.
    pose proof (bounded_facts mx ex VX) as [Hex _].
    pose proof (bounded_facts my ey VY) as [Hey _].
    cbn [SFadd].
    rewrite <- (rank_aligned sx mx ex ey) by lia.
    rewrite <- (rank_aligned sy my ey ex) by lia.
    rewrite (Z.min_comm ey ex), <- Z.mul_add_distr_r.
    apply sandwich_normalize. unfold bias. lia.
Qed.

Lemma SFsub_sandwich (X Y : spec_float) :
  fin X -> fin Y -> sandwich (rank X - rank Y) (SFsub prec emax X Y).
Proof.
  intros [VX FX] [VY FY].
  destruct X as [sx | sx | | sx mx ex]; try contradiction;
    destruct Y as [sy | sy | | sy my ey]; try contradiction.
  - replace (rank (S754_zero sx) - rank (S754_zero sy))
      with (rank (SFsub prec emax (S754_zero sx) (S754_zero sy)))
      by (destruct sx, sy; reflexivity).
    apply sandwich_exact. destruct sx, sy; split; simpl; auto.
  - simpl SFsub.
    replace (rank (S754_zero sx) - rank (S754_finite sy my ey))
      with (rank (S754_finite (negb sy) my ey))
      by (destruct sy; simpl; lia).
    apply sandwich_exact. split; simpl; auto.
  - simpl SFsub. cbn [rank]. rewrite Z.sub_0_r.
    apply sandwich_exact. split; simpl; auto.
  - simpl in VX, VY.
    pose proof (bounded_facts mx ex VX) as [Hex _].
    pose proof (bounded_facts my ey VY) as [Hey _].
    cbn [SFsub].
    rewrite <- (rank_aligned sx mx ex ey) by lia.
    rewrite <- (rank_aligned sy my ey ex) by lia.
    rewrite (Z.min_comm ey ex), <- Z.mul_sub_distr_r.
    apply sandwich_normalize. unfold bias. lia.
Qed.

(** ** Division *)

Lemma Zdigits2_ge_53 (q : Z) : 2 ^ 52 <= q -> 53 <= Zdigits2 q.
Proof.
  intros H. destruct q as [| p | p]; try lia.
  pose proof (Zdigits2_bounds p) as [_ B2].
  assert (52 < Zdigits2 (Zpos p)).
  { apply pow2_lt_mono; [lia |]. lia. }
  lia.
Qed.

Lemma div_core_spec (mx my : positive) (ex ey : Z) :
  -1074 <= ex <= 971 -> -1074 <= ey <= 971 ->
  exists q e' l,
    SFdiv_core_binary prec emax (Zpos mx) ex (Zpos my) ey = (q, e', l) /\
    0 <= q /\ - bias <= e' /\
    e' <= fexp prec emax (Zdigits2 q + e') /\
    q * Zpos my <= Zpos mx * 2 ^ (ex - ey - e') /\
    0 <= ex - ey - e' /\
    Zpos mx * 2 ^ (ex - ey - e') < (q + 1) * Zpos my.
Proof.
  intros Hex Hey. unfold SFdiv_core_binary.
  set (d1 := Zdigits2 (Zpos mx)). set (d2 := Zdigits2 (Zpos my)).
  set (e' := Z.min (fexp prec emax (d1 + ex - (d2 + ey))) (ex - ey)).
  set (s := ex - ey - e').
  assert (Hs : 0 <= s) by (unfold s, e'; lia).
  set (m' := match s with
             | 0 => Zpos mx
             | Zpos _ => Z.shiftl (Zpos mx) s
             | Zneg _ => 0
             end).
  assert (Hm' : m' = Zpos mx * 2 ^ s).
  { unfold m'. clearbody s. destruct s as [| p | p]; try lia.
    now rewrite Z.shiftl_mul_pow2 by lia. }
  clearbody m'.
  destruct (Z.div_eucl m' (Zpos my)) as [q r] eqn:Ediv.
  assert (Hq : q = m' / Zpos my) by (unfold Z.div; now rewrite Ediv).
  exists q, e', (new_location (Zpos my) r).
  assert (Hp : 0 < 2 ^ s) by (apply Z.pow_pos_nonneg; lia).
  split; [reflexivity |].
  split; [rewrite Hq; apply Z.div_pos; nia |].
  split; [unfold e', bias; rewrite fexp_eq; lia |].
  split; [| split; [| split; [exact Hs |]]].
  - rewrite fexp_eq.
    destruct (Z_le_gt_dec e' (-1074)) as [Hlow | Hhigh]; [lia |].
    assert (Ht : e' <= d1 + ex - (d2 + ey) - 53).
    { unfold e' in *. rewrite fexp_eq in *. lia. }
    assert (Hs53 : d2 - d1 + 53 <= s) by (unfold s; lia).
    pose proof (Zdigits2_bounds mx) as [A1 A2]. fold d1 in A1, A2.
    pose proof (Zdigits2_bounds my) as [B1 B2]. fold d2 in B1, B2.
    assert (Hd1 : 0 < d1) by (unfold d1; simpl; lia).
    assert (Hd2 : 0 < d2) by (unfold d2; simpl; lia).
    assert (Hq52 : 2 ^ 52 <= q).
    { rewrite Hq, Hm'. apply Z.div_le_lower_bound; [lia |].
      assert (Hpow : 2 ^ (d2 + 52) <= 2 ^ (d1 - 1) * 2 ^ s).
      { rewrite <- Z.pow_add_r by lia. apply Z.pow_le_mono_r; lia. }
      rewrite Z.pow_add_r in Hpow by lia.
      nia. }
    pose proof (Zdigits2_ge_53 q Hq52). lia.
  - fold s. rewrite <- Hm', Hq, Z.mul_comm. apply Z.mul_div_le. lia.
  - fold s. rewrite <- Hm', Hq, Z.mul_comm.
    apply (Z.mul_succ_div_gt m' (Zpos my)). lia.
Qed.

Lemma SFdiv_bound (X Y : spec_float) :
  fin X -> fin Y -> rank Y <> 0 ->
  let f := SFdiv prec emax X Y in
  valid_binary f = true /\
  f <> S754_nan /\
  (0 <= rank X * rank Y -> 0 <= rank f) /\
  (rank X * rank Y <= 0 -> rank f <= 0) /\
  forall g, representable g ->
    (g * Z.abs (rank Y) <= Z.abs (rank X) * 2 ^ bias -> g <= mag f) /\
    (Z.abs (rank X) * 2 ^ bias < g * Z.abs (rank Y) -> mag f <= g).
Proof.
  intros [VX FX] [VY FY] HY f. subst f.
  destruct X as [sx | sx | | sx mx ex]; try contradiction;
    destruct Y as [sy | sy | | sy my ey]; try contradiction;
    try (cbn [rank] in HY; congruence).
  - cbn [SFdiv]. unfold mag. cbn [rank].
    split; [reflexivity |]. split; [discriminate |].
    split; [lia |]. split; [lia |].
    intros g Hg. pose proof (representable_bounds g Hg).
    pose proof (val_pos my ey ltac:(simpl in VY; pose proof (bounded_facts my ey VY); unfold bias; lia)).
    simpl. split; intros Hb0; [| lia].
    destruct sy; nia.
  - simpl in VX, VY.
    pose proof (bounded_facts mx ex VX) as [Hex _].
    pose proof (bounded_facts my ey VY) as [Hey _].
    pose proof (val_pos mx ex ltac:(unfold bias; lia)) as Hvx.
    pose proof (val_pos my ey ltac:(unfold bias; lia)) as Hvy.
    destruct (div_core_spec mx my ex ey Hex Hey)
      as [q [e' [l [Hcore [Hq [He' [Hpre [Hquot [Hs Hup]]]]]]]]].
    cbn [SFdiv]. rewrite Hcore.
    destruct (round_aux_mag (xorb sx sy) q e' l Hq He' Hpre) as [V [N [S B]]].
    split; [exact V |]. split; [exact N |].
    assert (Hmag : 0 <= mag (binary_round_aux prec emax (xorb sx sy) q e' l))
      by (unfold mag; lia).
    cbn [rank].
    split; [| split].
    + intros Hsign. rewrite S.
      destruct sx, sy; cbn [xorb] in *; cbv iota in *; try lia; nia.
    + intros Hsign. rewrite S.
      destruct sx, sy; cbn [xorb] in *; cbv iota in *; try lia; nia.
    + intros g Hg.
      replace (Z.abs (if sx then - val (Zpos mx) ex else val (Zpos mx) ex))
        with (val (Zpos mx) ex) by (destruct sx; lia).
      replace (Z.abs (if sy then - val (Zpos my) ey else val (Zpos my) ey))
        with (val (Zpos my) ey) by (destruct sy; lia).
      (* val q e' * val my ey <= val mx ex * 2^bias < val (q+1) e' * val my ey *)
      assert (Hpw : pow2 e' * pow2 ey * 2 ^ (ex - ey - e') = pow2 ex * 2 ^ bias).
      { unfold pow2. rewrite <- !Z.pow_add_r by (unfold bias in *; lia).
        f_equal. lia. }
      assert (Hp1 : 0 < pow2 e') by (apply pow2_pos; lia).
      assert (Hp2 : 0 < pow2 ey) by (apply pow2_pos; unfold bias; lia).
      assert (Hp3 : 0 < 2 ^ (ex - ey - e')) by (apply Z.pow_pos_nonneg; lia).
      assert (E : val (Zpos mx) ex * 2 ^ bias =
                  Zpos mx * 2 ^ (ex - ey - e') * (pow2 e' * pow2 ey)).
      { unfold val. transitivity (Zpos mx * (pow2 ex * 2 ^ bias)); [ring |].
        rewrite <- Hpw. ring. }
      assert (Hkey : val q e' * val (Zpos my) ey <= val (Zpos mx) ex * 2 ^ bias).
      { rewrite E. unfold val.
        replace (q * pow2 e' * (Zpos my * pow2 ey))
          with (q * Zpos my * (pow2 e' * pow2 ey)) by ring.
        apply Z.mul_le_mono_nonneg_r; [nia | exact Hquot]. }
      assert (Hkey' : val (Zpos mx) ex * 2 ^ bias < val (q + 1) e' * val (Zpos my) ey).
      { rewrite E. unfold val.
        replace ((q + 1) * pow2 e' * (Zpos my * pow2 ey))
          with ((q + 1) * Zpos my * (pow2 e' * pow2 ey)) by ring.
        apply Z.mul_lt_mono_pos_r; [nia | exact Hup]. }
      split; intros Hb0.
      * apply (proj1 (B g Hg)).
        assert (Hnorm : -1074 < e' -> 2 ^ 52 <= q).
        { intros Hgt. rewrite fexp_eq in Hpre.
          assert (Hd : 53 <= Zdigits2 q) by lia.
          destruct q as [| pq | pq]; try (simpl in Hd; lia).
          pose proof (Zdigits2_bounds pq) as [B1 _].
          assert (2 ^ 52 <= 2 ^ (Zdigits2 (Zpos pq) - 1))
            by (apply Z.pow_le_mono_r; lia).
          lia. }
        apply (proj1 (grid_from g q e' Hg Hq He' Hnorm)).
        assert (g * val (Zpos my) ey < val (q + 1) e' * val (Zpos my) ey) by lia.
        nia.
      * apply (proj2 (B g Hg)). nia.
Qed.

(** A float divided by a float of the same magnitude is one, or minus one. *)
Lemma SFdiv_same_magnitude (sx sy : bool) (m : positive) (e : Z) :
  SFdiv prec emax (S754_finite sx m e) (S754_finite sy m e) =
  S754_finite (xorb sx sy) 4503599627370496 (-52).
Proof.
  cbn [SFdiv]. unfold SFdiv_core_binary.
  replace (Zdigits2 (Zpos m) + e - (Zdigits2 (Zpos m) + e)) with 0 by lia.
  replace (e - e) with 0 by lia.
  change (Z.min (fexp prec emax 0) 0) with (-53).
  change (0 - -53) with 53.
  cbv iota beta.
  rewrite Z.shiftl_mul_pow2 by lia.
  assert (Hdiv : Z.div_eucl (Zpos m * 2 ^ 53) (Zpos m) = (2 ^ 53, 0)).
  { pose proof (Z_div_mod (Zpos m * 2 ^ 53) (Zpos m) ltac:(lia)) as H.
    destruct (Z.div_eucl (Zpos m * 2 ^ 53) (Zpos m)) as [q r].
    destruct H as [H1 H2].
    assert (q = 2 ^ 53) by nia.
    assert (r = 0) by nia.
    congruence. }
  rewrite Hdiv.
  assert (Hloc : new_location (Zpos m) 0 = loc_Exact).
  { unfold new_location, new_location_even, new_location_odd.
    now destruct (Z.even (Zpos m)). }
  rewrite Hloc.
  reflexivity.
Qed.

(** ** Multiplication *)

Lemma SFmul_bound (X Y : spec_float) :
  fin X -> fin Y ->
  let f := SFmul prec emax X Y in
  valid_binary f = true /\
  f <> S754_nan /\
  (0 <= rank X * rank Y -> 0 <= rank f) /\
  forall g, representable g ->
    (g * 2 ^ bias <= Z.abs (rank X) * Z.abs (rank Y) -> g <= mag f) /\
    (Z.abs (rank X) * Z.abs (rank Y) < g * 2 ^ bias -> mag f <= g).
Proof.
  intros [VX FX] [VY FY] f. subst f.
  assert (Hb : 0 < 2 ^ bias) by (apply Z.pow_pos_nonneg; unfold bias; lia).
  destruct X as [sx | sx | | sx mx ex]; try contradiction;
    destruct Y as [sy | sy | | sy my ey]; try contradiction;
    try (cbn [SFmul]; unfold mag; cbn [rank];
         split; [reflexivity |]; split; [discriminate |]; split; [lia |];
         intros g Hg; pose proof (representable_bounds g Hg); simpl;
         split; intros Hb0; [nia | lia]).
  simpl in VX, VY.
  pose proof (bounded_facts mx ex VX) as [Hex [Hmx Hnx]].
  pose proof (bounded_facts my ey VY) as [Hey [Hmy Hny]].
  pose proof (val_pos mx ex ltac:(unfold bias; lia)) as Hvx.
  pose proof (val_pos my ey ltac:(unfold bias; lia)) as Hvy.
  cbn [SFmul].
  assert (Hpre : ex + ey <= fexp prec emax (Zdigits2 (Zpos (mx * my)) + (ex + ey))).
  { rewrite fexp_eq.
    destruct (Z_le_gt_dec (ex + ey) (-1074)) as [Hlow | Hhigh]; [lia |].
    assert (H52 : 2 ^ 52 <= Zpos (mx * my)).
    { rewrite Pos2Z.inj_mul.
      destruct (Z.eq_dec ex (-1074)) as [Hx | Hx].
      - assert (2 ^ 52 <= Zpos my) by (apply Hny; lia). nia.
      - assert (2 ^ 52 <= Zpos mx) by (apply Hnx; lia). nia. }
    pose proof (Zdigits2_ge_53 _ H52). lia. }
  destruct (round_aux_mag (xorb sx sy) (Zpos (mx * my)) (ex + ey) loc_Exact
              ltac:(lia) ltac:(unfold bias; lia) Hpre) as [V [N [S B]]].
  split; [exact V |]. split; [exact N |].
  assert (Hmag : 0 <= mag (binary_round_aux prec emax (xorb sx sy)
                             (Zpos (mx * my)) (ex + ey) loc_Exact))
    by (unfold mag; lia).
  assert (Hval : val (Zpos (mx * my)) (ex + ey) * 2 ^ bias =
                 val (Zpos mx) ex * val (Zpos my) ey).
  { unfold val, pow2. rewrite Pos2Z.inj_mul.
    replace (ex + ey + bias) with ((ex + bias) + ey) by lia.
    replace (Zpos mx * 2 ^ (ex + bias) * (Zpos my * 2 ^ (ey + bias)))
      with (Zpos mx * Zpos my * (2 ^ (ex + bias) * 2 ^ (ey + bias))) by ring.
    rewrite <- (Z.pow_add_r 2 (ex + bias) (ey + bias)) by (unfold bias; lia).
    rewrite <- Z.mul_assoc, <- Z.pow_add_r by (unfold bias; lia).
    f_equal. f_equal. lia. }
  cbn [rank]. split.
  - intros Hsign. rewrite S.
    destruct sx, sy; cbn [xorb] in *; cbv iota in *; try lia; nia.
  - intros g Hg.
    replace (Z.abs (if sx then - val (Zpos mx) ex else val (Zpos mx) ex))
      with (val (Zpos mx) ex) by (destruct sx; lia).
    replace (Z.abs (if sy then - val (Zpos my) ey else val (Zpos my) ey))
      with (val (Zpos my) ey) by (destruct sy; lia).
    rewrite <- Hval.
    split; intros Hb0.
    + apply (proj1 (B g Hg)). nia.
    + apply (proj2 (B g Hg)). nia.
Qed.

(** ** Square root *)

Lemma sqrt_core_spec (mx : positive) (ex : Z) :
  -1074 <= ex <= 971 ->
  exists q e' l,
    SFsqrt_core_binary prec emax (Zpos mx) ex = (q, e', l) /\
    0 <= q /\ - bias <= e' /\
    e' <= fexp prec emax (Zdigits2 q + e') /\
    0 <= ex - 2 * e' /\
    q * q <= Zpos mx * 2 ^ (ex - 2 * e').
Proof.
  intros Hex. unfold SFsqrt_core_binary.
  set (d := Zdigits2 (Zpos mx)).
  set (e' := Z.min (fexp prec emax (Z.div2 (d + ex + 1))) (Z.div2 ex)).
  set (s := ex - 2 * e').
  assert (Hdiv2 : forall z, 2 * Z.div2 z <= z <= 2 * Z.div2 z + 1).
  { intros z. rewrite Z.div2_div. pose proof (Z_div_mod_eq_full z 2).
    pose proof (Z.mod_pos_bound z 2 ltac:(lia)). lia. }
  pose proof (Hdiv2 ex) as He2. pose proof (Hdiv2 (d + ex + 1)) as Hd2.
  assert (Hs : 0 <= s) by (unfold s, e'; lia).
  set (m' := match s with
             | 0 => Zpos mx
             | Zpos _ => Z.shiftl (Zpos mx) s
             | Zneg _ => 0
             end).
  assert (Hm' : m' = Zpos mx * 2 ^ s).
  { unfold m'. clearbody s. destruct s as [| p | p]; try lia.
    now rewrite Z.shiftl_mul_pow2 by lia. }
  clearbody m'.
  assert (Hp : 0 < 2 ^ s) by (apply Z.pow_pos_nonneg; lia).
  assert (Hm0 : 0 <= m') by nia.
  pose proof (Z.sqrtrem_sqrt m') as Hsq.
  destruct (Z.sqrtrem m') as [q r] eqn:Esq. simpl in Hsq. subst q.
  pose proof (Z.sqrt_spec m' Hm0) as [Q1 Q2].
  pose proof (Z.sqrt_nonneg m') as Q0.
  eexists (Z.sqrt m'), e', _.
  split; [reflexivity |].
  split; [exact Q0 |].
  split; [unfold e', bias; rewrite fexp_eq; lia |].
  split; [| split; [exact Hs |]].
  - rewrite fexp_eq.
    destruct (Z_le_gt_dec e' (-1074)) as [Hlow | Hhigh]; [lia |].
    assert (Ht : e' <= Z.div2 (d + ex + 1) - 53).
    { unfold e' in *. rewrite fexp_eq in *. lia. }
    assert (Hs105 : 105 - d <= s) by (unfold s; lia).
    pose proof (Zdigits2_bounds mx) as [A1 A2]. fold d in A1, A2.
    assert (Hd : 0 < d) by (unfold d; simpl; lia).
    assert (H104 : 2 ^ 104 <= m').
    { rewrite Hm'.
      assert (Hpow : 2 ^ 104 <= 2 ^ (d - 1) * 2 ^ s).
      { rewrite <- Z.pow_add_r by lia. apply Z.pow_le_mono_r; lia. }
      nia. }
    assert (Hq52 : 2 ^ 52 <= Z.sqrt m').
    { change (2 ^ 52) with (Z.sqrt (2 ^ 104)). apply Z.sqrt_le_mono. exact H104. }
    pose proof (Zdigits2_ge_53 _ Hq52). lia.
  - fold s. rewrite <- Hm'. exact Q1.
Qed.

Lemma SFsqrt_bound (X : spec_float) :
  fin X -> 0 <= rank X ->
  let f := SFsqrt prec emax X in
  valid_binary f = true /\
  f <> S754_nan /\
  0 <= rank f /\
  forall g, representable g ->
    rank X * 2 ^ bias < g * g -> mag f <= g.
Proof.
  intros [VX FX] HX f. subst f.
  destruct X as [sx | sx | | sx mx ex]; try contradiction.
  - cbn [SFsqrt]. unfold mag. cbn [rank].
    split; [reflexivity |]. split; [discriminate |]. split; [lia |].
    intros g Hg _. pose proof (representable_bounds g Hg). simpl. lia.
  - simpl in VX.
    pose proof (bounded_facts mx ex VX) as [Hex _].
    pose proof (val_pos mx ex ltac:(unfold bias; lia)) as Hvx.
    cbn [rank] in HX.
    destruct sx; [lia |].
    cbn [SFsqrt rank].
    destruct (sqrt_core_spec mx ex Hex)
      as [q [e' [l [Hcore [Hq [He' [Hpre [Hs Hsq]]]]]]]].
    rewrite Hcore.
    destruct (round_aux_mag false q e' l Hq He' Hpre) as [V [N [S B]]].
    split; [exact V |]. split; [exact N |].
    split; [rewrite S; unfold mag; lia |].
    intros g Hg Hlt. pose proof (representable_bounds g Hg) as [Hg0 _].
    apply (proj2 (B g Hg)).
    assert (Hkey : val q e' * val q e' <= val (Zpos mx) ex * 2 ^ bias).
    { unfold val.
      assert (Hpw : pow2 e' * pow2 e' * 2 ^ (ex - 2 * e') = pow2 ex * 2 ^ bias).
      { unfold pow2. rewrite <- !Z.pow_add_r by (unfold bias in *; lia).
        f_equal. lia. }
      assert (Hp1 : 0 < pow2 e') by (apply pow2_pos; lia).
      assert (E : Zpos mx * pow2 ex * 2 ^ bias =
                  Zpos mx * 2 ^ (ex - 2 * e') * (pow2 e' * pow2 e')).
      { transitivity (Zpos mx * (pow2 ex * 2 ^ bias)); [ring |].
        rewrite <- Hpw. ring. }
      rewrite E.
      replace (q * pow2 e' * (q * pow2 e')) with (q * q * (pow2 e' * pow2 e')) by ring.
      apply Z.mul_le_mono_nonneg_r; [nia | exact Hsq]. }
    assert (Hv0 : 0 <= val q e').
    { unfold val. pose proof (pow2_pos e' He'). nia. }
    nia.
Qed.

(** ** Ranks of valid floats *)

Lemma fin_mag_representable (X : spec_float) : fin X -> representable (mag X).
Proof.
  intros [V F]. destruct X as [s | s | | s m e]; try contradiction.
  - left. reflexivity.
  - right. exists m, e. split; [exact V |].
    simpl in V. pose proof (bounded_facts m e V) as [He _].
    pose proof (val_pos m e ltac:(unfold bias; lia)).
    unfold mag. cbn [rank]. destruct s; lia.
Qed.

Lemma fin_rank_bounds (X : spec_float) : fin X -> - INF < rank X < INF.
Proof.
  intros H. pose proof (representable_bounds _ (fin_mag_representable X H)).
  unfold mag in *. lia.
Qed.

Lemma rank_inj (X Y : spec_float) :
  fin X -> fin Y -> rank X = rank Y -> rank X <> 0 -> X = Y.
Proof.
  intros [VX FX] [VY FY] Heq Hnz.
  destruct X as [sx | sx | | sx mx ex]; try contradiction;
    destruct Y as [sy | sy | | sy my ey]; try contradiction;
    cbn [rank] in *; try congruence.
  simpl in VX, VY.
  pose proof (bounded_facts mx ex VX) as [Hex _].
  pose proof (bounded_facts my ey VY) as [Hey _].
  pose proof (val_pos mx ex ltac:(unfold bias; lia)).
  pose proof (val_pos my ey ltac:(unfold bias; lia)).
  assert (Hs : sx = sy) by (destruct sx, sy; try reflexivity; lia).
  subst sy.
  assert (Hv : val (Zpos mx) ex = val (Zpos my) ey) by (destruct sx; lia).
  apply Z.compare_eq_iff in Hv.
  rewrite (canonical_compare mx my ex ey VX VY) in Hv.
  destruct (Z.compare_spec ex ey) as [He | He | He]; try discriminate.
  apply Pos.compare_eq in Hv. congruence.
Qed.

Lemma sandwich_fin (v : Z) (F : spec_float) (g : Z) :
  sandwich v F -> representable g -> Z.abs v < g -> fin F /\ mag F <= g.
Proof.
  intros [V [N [_ [_ B]]]] Hg Hlt.
  pose proof (proj2 (B g Hg) Hlt) as Hm.
  pose proof (representable_bounds g Hg) as [_ Hgi].
  split; [| exact Hm]. split; [exact V |].
  destruct F as [s | s | | s m e]; auto.
  unfold mag in Hm. cbn [rank] in Hm. pose proof INF_pos. destruct s; lia.
Qed.

Lemma sandwich_sign_nonneg (v : Z) (F : spec_float) :
  sandwich v F -> 0 <= v -> rank F = mag F.
Proof.
  intros [_ [_ [S _]]] Hv. specialize (S Hv). unfold mag. lia.
Qed.

Lemma sandwich_zero (F : spec_float) : sandwich 0 F -> rank F = 0.
Proof.
  intros [_ [_ [S1 [S2 _]]]]. specialize (S1 ltac:(lia)). specialize (S2 ltac:(lia)). lia.
Qed.

(** The powers of two in the normal range are floats. *)
Lemma pow2_representable (k : Z) : -1022 <= k <= 1023 -> representable (pow2 k).
Proof.
  intros Hk. right. exists 4503599627370496%positive, (k - 52). split.
  - apply bounded_spec. change (Zdigits2 (Zpos 4503599627370496)) with 53. lia.
  - unfold val. change (Zpos 4503599627370496) with (2 ^ 52).
    replace k with (k - 52 + 52) at 1 by lia.
    rewrite pow2_add by (unfold bias; lia). ring.
Qed.

Lemma pow2_double (k : Z) : - bias <= k -> pow2 (k + 1) = 2 * pow2 k.
Proof.
  intros Hk. rewrite pow2_add by lia. change (2 ^ 1) with 2. ring.
Qed.

(** ** The floats are dense: one rounding is a relative error of [2^-52] *)

Lemma pow2_representable_low (k : Z) : -1074 <= k <= 1023 -> representable (pow2 k).
Proof.
  intros Hk. destruct (Z_le_gt_dec (-1022) k) as [Hn | Hs].
  { apply pow2_representable. lia. }
  right.
  assert (Hp : 0 < 2 ^ (k + 1074)) by (apply Z.pow_pos_nonneg; lia).
  destruct (2 ^ (k + 1074)) as [| m | m] eqn:Em; try lia.
  exists m, (-1074). split.
  - apply bounded_spec.
    assert (Hd : Zdigits2 (Zpos m) = k + 1075).
    { apply Zdigits2_unique; [lia |]. rewrite <- Em.
      replace (k + 1075 - 1) with (k + 1074) by lia.
      split; [lia |]. apply Z.pow_lt_mono_r; lia. }
    rewrite Hd. lia.
  - unfold val. rewrite <- Em.
    replace k with (-1074 + (k + 1074)) at 1 by lia.
    rewrite pow2_add by (unfold bias; lia). ring.
Qed.

(** Between two consecutive floats of the normal range: every ratio [A / B]
    there has a float below and a float above, one unit in the last place
    apart. *)
Lemma dense (A B : Z) :
  0 < B -> pow2 (-1022) * B <= A < pow2 1023 * B ->
  exists lo hi,
    representable lo /\ representable hi /\
    lo * B <= A < hi * B /\ (hi - lo) * 2 ^ 52 <= lo.
Proof.
  intros HB [Hlow Hhigh].
  pose proof (pow2_pos (-1022) ltac:(unfold bias; lia)) as Hp.
  set (t := A / B).
  assert (Ht1 : t * B <= A) by (unfold t; rewrite Z.mul_comm; apply Z.mul_div_le; lia).
  assert (Ht2 : A < (t + 1) * B).
  { unfold t. rewrite Z.mul_comm. apply (Z.mul_succ_div_gt A B). lia. }
  assert (Ht0 : pow2 (-1022) <= t) by (unfold t; apply Z.div_le_lower_bound; lia).
  assert (Htu : t < pow2 1023) by (unfold t; apply Z.div_lt_upper_bound; lia).
  set (k := Z.log2 t).
  pose proof (Z.log2_spec t ltac:(lia)) as [L1 L2]. fold k in L1, L2.
  assert (Hk1 : -1022 + bias <= k).
  { unfold k. change (-1022 + bias) with (Z.log2 (pow2 (-1022))).
    apply Z.log2_le_mono. exact Ht0. }
  assert (Hk2 : k < 1023 + bias).
  { apply pow2_lt_mono; [unfold bias in *; lia |].
    unfold pow2 in Htu. lia. }
  set (e := k - 52 - bias).
  assert (He : -1074 <= e <= 970) by (unfold e, bias in *; lia).
  assert (Hstep : 0 < pow2 e) by (apply pow2_pos; unfold bias; lia).
  assert (Ek : 2 ^ k = 2 ^ 52 * pow2 e).
  { unfold pow2, e. rewrite <- Z.pow_add_r by (unfold bias in *; lia). f_equal. lia. }
  assert (Ek1 : 2 ^ Z.succ k = 2 ^ 53 * pow2 e).
  { rewrite Z.pow_succ_r by (unfold bias in *; lia). rewrite Ek.
    change (2 ^ 53) with (2 * 2 ^ 52). ring. }
  set (q := A / (B * pow2 e)).
  assert (HBs : 0 < B * pow2 e) by nia.
  assert (Hq1 : q * (B * pow2 e) <= A)
    by (unfold q; rewrite Z.mul_comm; apply Z.mul_div_le; lia).
  assert (Hq2 : A < (q + 1) * (B * pow2 e)).
  { unfold q. rewrite Z.mul_comm. apply (Z.mul_succ_div_gt A (B * pow2 e)). lia. }
  assert (Hq52 : 2 ^ 52 <= q).
  { unfold q. apply Z.div_le_lower_bound; [lia |].
    assert (2 ^ k * B <= A) by nia. rewrite Ek in H. nia. }
  assert (Hq53 : q < 2 ^ 53).
  { unfold q. apply Z.div_lt_upper_bound; [lia |].
    assert (A < 2 ^ Z.succ k * B) by nia. rewrite Ek1 in H. nia. }
  assert (Hrep : forall m, 2 ^ 52 <= m < 2 ^ 53 -> representable (val m e)).
  { intros m Hm. right. destruct m as [| pm | pm]; try lia.
    exists pm, e. split; [| reflexivity].
    apply bounded_spec. rewrite (Zdigits2_53 (Zpos pm) Hm). lia. }
  exists (val q e), (val (q + 1) e).
  split; [apply Hrep; lia |]. split.
  - destruct (Z.eq_dec (q + 1) (2 ^ 53)) as [E | NE].
    + rewrite E. replace (val (2 ^ 53) e) with (pow2 (e + 53)).
      * apply pow2_representable. lia.
      * unfold val. rewrite pow2_add by (unfold bias; lia). ring.
    + apply Hrep. lia.
  - unfold val. split; [split; nia |].
    replace ((q + 1) * pow2 e - q * pow2 e) with (pow2 e) by ring.
    nia.
Qed.

(** [f] is a rounding of the ratio [A / B] when every float is on the same
    side of both. *)
Definition rounds (A B f : Z) : Prop :=
  forall g, representable g -> (g * B <= A -> g <= f) /\ (A < g * B -> f <= g).

(** [a] is [b] to within [b / K]. *)
Definition near (K a b : Z) : Prop := K * Z.abs (a - b) <= b.

Lemma rounds_near (A B f : Z) :
  0 < B -> pow2 (-1022) * B <= A < pow2 1023 * B ->
  rounds A B f -> near (2 ^ 52) (f * B) A.
Proof.
  intros HB Hr Hf.
  destruct (dense A B HB Hr) as [lo [hi [Rl [Rh [[H1 H2] Hu]]]]].
  pose proof (proj1 (Hf lo Rl) H1) as Hlo.
  pose proof (proj2 (Hf hi Rh) H2) as Hhi.
  unfold near.
  assert (Hd : Z.abs (f * B - A) <= (hi - lo) * B) by nia.
  assert ((hi - lo) * B * 2 ^ 52 <= lo * B) by nia.
  nia.
Qed.

Lemma near_weaken (K K' a b : Z) : near K a b -> 0 <= K' <= K -> near K' a b.
Proof. unfold near. intros H HK. nia. Qed.

Lemma near_refl (K a : Z) : 0 <= a -> near K a a.
Proof. unfold near. intros H. replace (a - a) with 0 by lia. simpl. lia. Qed.

Lemma near_scale (K a b s : Z) : near K a b -> 0 <= s -> near K (a * s) (b * s).
Proof.
  unfold near. intros H Hs.
  replace (a * s - b * s) with ((a - b) * s) by ring.
  rewrite Z.abs_mul, (Z.abs_eq s) by lia. nia.
Qed.

Lemma near_unscale (K a b s : Z) : near K (a * s) (b * s) -> 0 < s -> near K a b.
Proof.
  unfold near. intros H Hs.
  replace (a * s - b * s) with ((a - b) * s) in H by ring.
  rewrite Z.abs_mul, (Z.abs_eq s) in H by lia. nia.
Qed.

Lemma near_bounds (K a b : Z) : near K a b -> 2 <= K -> b <= 2 * a /\ 2 * a <= 3 * b.
Proof. unfold near. intros H HK. split; nia. Qed.

Lemma near_sym (K a b : Z) : near (2 * K) a b -> 1 <= K -> near K b a.
Proof.
  unfold near. intros H HK.
  replace (Z.abs (b - a)) with (Z.abs (a - b)) by lia. nia.
Qed.

Lemma near_trans (K a b c : Z) :
  near (4 * K) a b -> near (4 * K) b c -> 1 <= K -> near K a c.
Proof.
  unfold near. intros H1 H2 HK.
  set (d1 := Z.abs (a - b)) in *. set (d2 := Z.abs (b - c)) in *.
  assert (Hd : Z.abs (a - c) <= d1 + d2) by (unfold d1, d2; lia).
  assert (0 <= d1) by (unfold d1; lia). assert (0 <= d2) by (unfold d2; lia).
  assert (b <= c + d2) by (unfold d2; lia).
  nia.
Qed.

Lemma near_add (K a b a' b' : Z) :
  near K a b -> near K a' b' -> 0 <= K -> near K (a + a') (b + b').
Proof.
  unfold near. intros H1 H2 HK.
  assert (Z.abs (a + a' - (b + b')) <= Z.abs (a - b) + Z.abs (a' - b')) by lia.
  nia.
Qed.

(** ** A sum that is not zero is not small against its terms *)

(** Every finite float is a multiple of [2^E] for an [E] no larger than its
    exponent. *)
Lemma rank_multiple (X : spec_float) (E : Z) :
  fin X -> -1074 <= E ->
  (forall s m e, X = S754_finite s m e -> E <= e) ->
  exists K, rank X = K * pow2 E.
Proof.
  intros [V F] HE Hexp.
  destruct X as [s | s | | s m e]; try contradiction.
  - exists 0. reflexivity.
  - simpl in V. pose proof (bounded_facts m e V) as [He _].
    specialize (Hexp s m e eq_refl).
    assert (Hpow : pow2 e = pow2 E * 2 ^ (e - E)).
    { rewrite <- pow2_add by (unfold bias; lia). f_equal. lia. }
    cbn [rank]. unfold val. rewrite Hpow.
    destruct s; [exists (- (Zpos m * 2 ^ (e - E))) | exists (Zpos m * 2 ^ (e - E))]; ring.
Qed.

(** A sum of two floats that is not zero is not small against the first. *)
Lemma sum_not_tiny (sx : bool) (m : positive) (e : Z) (Y : spec_float) :
  bounded prec emax m e = true -> fin Y ->
  rank (S754_finite sx m e) + rank Y <> 0 ->
  let E := Z.max (e - 1) (-1074) in
  pow2 E <= Z.abs (rank (S754_finite sx m e) + rank Y) /\
  val (Zpos m) e < pow2 (E + 54).
Proof.
  intros VX FY Hnz E.
  pose proof (bounded_facts m e VX) as [He [Hm Hnorm]].
  assert (HE : -1074 <= E) by (unfold E; lia).
  pose proof (pow2_pos E ltac:(unfold bias; lia)) as HpE.
  pose proof (pow2_pos e ltac:(unfold bias; lia)) as Hpe.
  assert (Hmul : forall Y', fin Y' ->
            (forall s m' e', Y' = S754_finite s m' e' -> E <= e') ->
            rank (S754_finite sx m e) + rank Y' <> 0 ->
            pow2 E <= Z.abs (rank (S754_finite sx m e) + rank Y')).
  { intros Y' FY' HY' Hnz'.
    destruct (rank_multiple (S754_finite sx m e) E) as [K1 H1].
    - split; [exact VX | exact I].
    - exact HE.
    - intros s m' e' Heq. injection Heq as _ _ <-. unfold E. lia.
    - destruct (rank_multiple Y' E FY' HE HY') as [K2 H2].
      rewrite H1, H2 in *. rewrite <- Z.mul_add_distr_r in *.
      rewrite Z.abs_mul, (Z.abs_eq (pow2 E)) by lia.
      assert (K1 + K2 <> 0) by (intros E0; rewrite E0 in Hnz'; lia).
      nia. }
  split.
  - destruct FY as [VY FY].
    destruct Y as [sy | sy | | sy my ey]; try contradiction.
    + apply Hmul; [split; simpl; auto | discriminate | exact Hnz].
    + simpl in VY. pose proof (bounded_facts my ey VY) as [Hey [Hmy _]].
      destruct (Z_le_gt_dec E ey) as [Hle | Hgt].
      * apply Hmul; [split; [exact VY | exact I] | | exact Hnz].
        intros s m' e' Heq. injection Heq as _ _ <-. exact Hle.
      * (* Y is small against X *)
        assert (He1 : -1074 < e) by (unfold E in *; lia).
        assert (HeE : E = e - 1) by (unfold E; lia).
        specialize (Hnorm He1).
        pose proof (pow2_pos ey ltac:(unfold bias; lia)) as Hpy.
        assert (Hpow : pow2 e = pow2 ey * 2 ^ (e - ey)).
        { rewrite <- pow2_add by (unfold bias; lia). f_equal. lia. }
        assert (Hpow1 : pow2 e = pow2 E * 2).
        { rewrite HeE. replace e with (e - 1 + 1) at 1 by lia.
          rewrite pow2_add by (unfold bias; lia). reflexivity. }
        assert (H4 : 2 ^ 2 <= 2 ^ (e - ey)) by (apply Z.pow_le_mono_r; lia).
        change (2 ^ 2) with 4 in H4.
        assert (Hy : Zpos my * pow2 ey * 2 < Zpos m * pow2 e).
        { rewrite Hpow.
          assert (Zpos my * 2 < Zpos m * 2 ^ (e - ey)) by nia.
          nia. }
        assert (Hx : pow2 E * 2 <= val (Zpos m) e - val (Zpos my) ey).
        { unfold val. nia. }
        cbn [rank]. unfold val in *. destruct sx, sy; lia.
  - unfold val.
    assert (Hle : pow2 (e + 53) <= pow2 (E + 54)) by (apply pow2_le; unfold bias, E; lia).
    rewrite pow2_add in Hle by (unfold bias; lia). nia.
Qed.

Definition fin_shape (X : spec_float) : Prop :=
  match X with
  | S754_zero _ | S754_finite _ _ _ => True
  | _ => False
  end.

(** A quotient that is finite is a zero, or a quotient of a finite float by
    a finite float that is not a zero. *)
Lemma SFdiv_fin_cases (N D : spec_float) :
  fin (SFdiv prec emax N D) ->
  rank (SFdiv prec emax N D) = 0 \/
  (fin_shape N /\ exists s m e, D = S754_finite s m e).
Proof.
  destruct N as [sn | sn | | sn mn en], D as [sd | sd | | sd md ed];
    try (intros _; right; split; [exact I | eauto]; fail);
    cbn [SFdiv]; intros [V F]; try contradiction; left; reflexivity.
Qed.

(** A sum that is finite and not a zero is a sum of finite floats. *)
Lemma SFadd_finite_inv (A B : spec_float) (s : bool) (m : positive) (e : Z) :
  SFadd prec emax A B = S754_finite s m e -> fin_shape A /\ fin_shape B.
Proof.
  destruct A as [sa | sa | | sa ma ea], B as [sb | sb | | sb mb eb];
    try (intros _; split; exact I);
    cbn [SFadd]; intros H; try discriminate;
    repeat match type of H with
           | context [if ?c then _ else _] => destruct c
           end; discriminate.
Qed.

End Rounding.

Import Rounding.

(** * binary64: the primitive operations and their ranks *)

Section PrimRanks.

Local Open Scope Z_scope.

(** The rank of a primitive float. *)
Definition R (x : float) : Z := rank (Prim2SF x).

Lemma finite_fin (x : float) : finite x <-> fin (Prim2SF x).
Proof.
  rewrite finite_spec. unfold fin. rewrite Prim2SF_valid.
  destruct (Prim2SF x) as [s | s | | s m e]; split.
  - intros _. auto.
  - intros _. left. eauto.
  - intros [[? H] | [? [? [? H]]]]; discriminate.
  - intros [_ []].
  - intros [[? H] | [? [? [? H]]]]; discriminate.
  - intros [_ []].
  - intros _. auto.
  - intros _. right. eauto.
Qed.

Lemma fin_finite (x : float) : fin (Prim2SF x) -> finite x.
Proof. apply finite_fin. Qed.

Lemma finite_not_nan (x : float) : finite x -> is_nan x = false.
Proof. now intros [H _]. Qed.

Lemma compare_R (x y : float) :
  is_nan x = false -> is_nan y = false ->
  SFcompare (Prim2SF x) (Prim2SF y) = Some (R x ?= R y).
Proof.
  intros Hx Hy. apply rank_compare; try apply Prim2SF_valid; now apply is_nan_false.
Qed.

Lemma leb_R (x y : float) :
  is_nan x = false -> is_nan y = false ->
  (x <=? y)%float = (R x <=? R y).
Proof.
  intros Hx Hy. rewrite FloatAxioms.leb_spec. unfold SFleb.
  rewrite (compare_R x y Hx Hy). unfold Z.leb.
  now destruct (R x ?= R y).
Qed.

Lemma ltb_R (x y : float) :
  is_nan x = false -> is_nan y = false ->
  (x <? y)%float = (R x <? R y).
Proof.
  intros Hx Hy. rewrite FloatAxioms.ltb_spec. unfold SFltb.
  rewrite (compare_R x y Hx Hy). unfold Z.ltb.
  now destruct (R x ?= R y).
Qed.

Lemma R_representable (g : float) : finite g -> 0 <= R g -> representable (R g).
Proof.
  intros Hg H0. apply finite_fin in Hg.
  pose proof (fin_mag_representable _ Hg) as Hr.
  unfold mag in Hr. fold (R g) in Hr.
  now rewrite Z.abs_eq in Hr.
Qed.

Lemma R_bounds (g : float) : finite g -> - INF < R g < INF.
Proof. intros Hg. apply fin_rank_bounds. now apply finite_fin. Qed.

Lemma add_R (x y : float) :
  finite x -> finite y -> sandwich (R x + R y) (Prim2SF (x + y)).
Proof.
  intros Hx Hy. rewrite FloatAxioms.add_spec.
  apply SFadd_sandwich; now apply finite_fin.
Qed.

Lemma sub_R (x y : float) :
  finite x -> finite y -> sandwich (R x - R y) (Prim2SF (x - y)).
Proof.
  intros Hx Hy. rewrite FloatAxioms.sub_spec.
  apply SFsub_sandwich; now apply finite_fin.
Qed.

(** The difference of a finite float and itself is [+0.0]. *)
Lemma sub_self (x : float) : finite x -> (x - x)%float = 0%float.
Proof.
  intros Hx. apply Prim2SF_inj. rewrite FloatAxioms.sub_spec.
  apply finite_fin in Hx. destruct Hx as [_ F].
  change (Prim2SF 0) with (S754_zero false).
  destruct (Prim2SF x) as [s | s | | s m e]; try contradiction.
  - now destruct s.
  - unfold SF64sub. cbn [SFsub]. now rewrite Z.sub_diag.
Qed.

(** A sandwiched result strictly below a float is finite. *)
Lemma sandwich_finite (v : Z) (z g : float) :
  sandwich v (Prim2SF z) -> finite g -> Z.abs v < R g ->
  finite z /\ Z.abs (R z) <= R g.
Proof.
  intros Hs Hg Hlt.
  assert (H0 : 0 <= R g) by lia.
  destruct (sandwich_fin v _ (R g) Hs (R_representable g Hg H0) Hlt) as [F M].
  split; [now apply fin_finite | exact M].
Qed.

Lemma sandwich_not_nan (v : Z) (z : float) :
  sandwich v (Prim2SF z) -> is_nan z = false.
Proof.
  intros [_ [N _]]. now apply is_nan_false.
Qed.

(** ** Integers as floats *)

Lemma Z2float_sandwich (n : Z) :
  0 <= n < 2 ^ 63 -> sandwich (n * pow2 0) (Prim2SF (Z2float n)).
Proof.
  intros Hn. unfold Z2float. rewrite of_uint63_spec, Uint63.of_Z_spec.
  rewrite Z.mod_small by (change wB with (2 ^ 63); lia).
  apply sandwich_normalize. unfold bias. lia.
Qed.

Lemma Z2float_nonneg (n : Z) :
  0 <= n < 2 ^ 63 -> finite (Z2float n) /\ 0 <= R (Z2float n).
Proof.
  intros Hn. pose proof (Z2float_sandwich n Hn) as Hs.
  pose proof (pow2_pos 0 ltac:(unfold bias; lia)) as Hp.
  assert (Hv : 0 <= n * pow2 0) by nia.
  destruct (sandwich_fin _ _ (pow2 64) Hs (pow2_representable 64 ltac:(lia))) as [F _].
  { rewrite Z.abs_eq by exact Hv.
    replace 64 with (0 + 64) by lia. rewrite pow2_add by (unfold bias; lia).
    change (2 ^ 64) with (2 * 2 ^ 63). nia. }
  split; [now apply fin_finite |].
  destruct Hs as [_ [_ [S _]]]. exact (S Hv).
Qed.

Lemma Z2float_pos (n : Z) :
  0 < n < 2 ^ 63 ->
  exists m e, Prim2SF (Z2float n) = S754_finite false m e.
Proof.
  intros Hn.
  destruct (Z2float_nonneg n ltac:(lia)) as [F H0].
  pose proof (Z2float_sandwich n ltac:(lia)) as Hs.
  pose proof (pow2_pos 0 ltac:(unfold bias; lia)) as Hp.
  destruct Hs as [_ [_ [_ [_ B]]]].
  pose proof (proj1 (B (pow2 0) (pow2_representable 0 ltac:(lia)))) as L.
  assert (Hm : pow2 0 <= mag (Prim2SF (Z2float n))).
  { apply L. rewrite Z.abs_eq by nia. nia. }
  apply finite_fin in F. destruct F as [V F].
  unfold R in H0. unfold mag in Hm.
  destruct (Prim2SF (Z2float n)) as [s | s | | s m e].
  - cbn [rank] in Hm. exfalso. revert Hm. generalize (pow2 0) Hp. intros; lia.
  - destruct F.
  - destruct F.
  - simpl in V. pose proof (bounded_facts m e V) as [He _].
    pose proof (val_pos m e ltac:(unfold bias; lia)).
    cbn [rank] in H0. destruct s; [lia | eauto].
Qed.

(** [float(count / total * 100)] at the two ends. *)
Lemma percent_all (n : nat) :
  0 < Z.of_nat n < 2 ^ 63 -> percent (Z.of_nat n) n = 100%float.
Proof.
  intros Hn. unfold percent.
  destruct (Z2float_pos _ Hn) as [m [e Hx]].
  assert (H1 : (Z2float (Z.of_nat n) / Z2float (Z.of_nat n))%float = 1%float).
  { apply Prim2SF_inj. rewrite FloatAxioms.div_spec, Hx.
    unfold SF64div. rewrite SFdiv_same_magnitude. reflexivity. }
  rewrite H1. reflexivity.
Qed.

Lemma percent_none (n : nat) :
  0 < Z.of_nat n < 2 ^ 63 -> percent 0 n = 0%float.
Proof.
  intros Hn. unfold percent.
  destruct (Z2float_pos _ Hn) as [m [e Hx]].
  assert (H1 : (Z2float 0 / Z2float (Z.of_nat n))%float = 0%float).
  { apply Prim2SF_inj. rewrite FloatAxioms.div_spec, Hx. reflexivity. }
  rewrite H1. reflexivity.
Qed.

End PrimRanks.

(** * Identical band sets *)

Lemma map_sub_self (l : list float) :
  Forall finite l -> map (fun x => x - x)%float l = repeat 0%float (length l).
Proof.
  induction 1 as [| x l Hx _ IH]; simpl; [reflexivity |].
  now rewrite sub_self, IH.
Qed.

Lemma change_of_same (a b : raster) :
  change_of a b a b =
  repeat 0%float (length (zip_with index_px (samples a) (samples b))).
Proof.
  unfold change_of. rewrite zip_with_same. apply map_sub_self.
  apply Forall_forall. intros z Hz.
  apply zip_with_In in Hz as [x [y [_ [_ ->]]]]. apply index_px_finite.
Qed.

Lemma magnitudes_zero (n : nat) :
  magnitudes (repeat 0%float n) (repeat 0%float n) (repeat 0%float n) =
  repeat 0%float n.
Proof.
  unfold magnitudes, zip_with.
  induction n as [| n IH]; simpl; [reflexivity |].
  f_equal. exact IH.
Qed.

Lemma fold_minimum_zero (n : nat) :
  fold_left np_minimum (repeat 0%float n) 0%float = 0%float.
Proof. induction n as [| n IH]; simpl; [reflexivity | exact IH]. Qed.

Lemma fold_maximum_zero (n : nat) :
  fold_left np_maximum (repeat 0%float n) 0%float = 0%float.
Proof. induction n as [| n IH]; simpl; [reflexivity | exact IH]. Qed.

Lemma normalize_zero (n : nat) :
  map (normalize_px 0 0) (repeat 0%float n) = repeat 0%float n.
Proof. induction n as [| n IH]; simpl; [reflexivity | now rewrite IH]. Qed.

Lemma count_zero (p : float -> bool) (n : nat) :
  count p (repeat 0%float n) = if p 0%float then Z.of_nat n else 0%Z.
Proof.
  unfold count. induction n as [| n IH].
  - simpl. now destruct (p 0%float).
  - simpl repeat. simpl filter. destruct (p 0%float) eqn:Hp.
    + simpl length. rewrite Nat2Z.inj_succ, IH, Nat2Z.inj_succ. reflexivity.
    + exact IH.
Qed.

(** C7. Called with one band set as both T1 and T2 (the three bands of one
    non-empty shape), the engine returns change rasters and a normalized
    magnitude raster that are [0.0] at every pixel, and reports
    [no_change_percent = 100.0] and
    [moderate_change_percent = significant_change_percent = 0.0]. *)
Theorem identical_band_sets_show_no_change :
  forall (E : Externals) (s : list nat) (bands : dict) (nir red swir : raster),
    band_set s bands nir red swir ->
    prod_shape s <> 0%nat ->
    (Z.of_nat (prod_shape s) < 2 ^ 63)%Z ->
    exists r,
      detect_changes_with_real_bands bands bands = (bands, Ok r) /\
      ndvi_change r = mk_array s (repeat 0%float (prod_shape s)) /\
      ndmi_change r = mk_array s (repeat 0%float (prod_shape s)) /\
      ndbi_change r = mk_array s (repeat 0%float (prod_shape s)) /\
      cva_magnitude r = mk_array s (repeat 0%float (prod_shape s)) /\
      CVA.no_change_percent (cva (statistics r)) = 100%float /\
      CVA.moderate_change_percent (cva (statistics r)) = 0%float /\
      CVA.significant_change_percent (cva (statistics r)) = 0%float.
Proof.
  intros E s bands nir red swir B Hne Hsize.
  rewrite (detect_same s _ _ _ _ _ _ _ _ B B Hne).
  assert (Hc : forall a b, wf_raster a -> wf_raster b -> rshape a = s -> rshape b = s ->
                 change_of a b a b = repeat 0%float (prod_shape s)).
  { intros a b Wa Wb Sa Sb. rewrite change_of_same. f_equal.
    pose proof (samples_length _ Wa). pose proof (samples_length _ Wb).
    unfold rsize in *. rewrite Sa, Sb in *. rewrite zip_with_length_min. lia. }
  destruct B as [_ _ _ S1 S2 S3 W1 W2 W3].
  rewrite (Hc nir red), (Hc nir swir), (Hc swir nir) by assumption.
  set (n := prod_shape s) in *.
  destruct (change_statistics_same s (repeat 0%float n) (repeat 0%float n)
              (repeat 0%float n))
    as [lo [hi [r [Hlo [Hhi [Hr [Ev [Em [Eb [Ec [P1 [P2 [P3 _]]]]]]]]]]]]];
    try (rewrite repeat_length; reflexivity); try exact Hne.
  rewrite magnitudes_zero in *.
  assert (Hlo0 : lo = 0%float).
  { destruct n as [| n']; [contradiction |]. simpl in Hlo.
    rewrite fold_minimum_zero in Hlo. congruence. }
  assert (Hhi0 : hi = 0%float).
  { destruct n as [| n']; [contradiction |]. simpl in Hhi.
    rewrite fold_maximum_zero in Hhi. congruence. }
  subst lo hi. rewrite normalize_zero in *.
  rewrite count_zero in P1, P2, P3.
  change (tier_none 0) with true in P1.
  change (tier_moderate 0) with false in P2.
  change (tier_significant 0) with false in P3.
  exists r. rewrite Hr, Ev, Em, Eb, Ec, P1, P2, P3.
  repeat split; try reflexivity.
  - apply percent_all. fold n. lia.
  - apply percent_none. fold n. lia.
  - apply percent_none. fold n. lia.
Qed.

Lemma identical_band_sets_show_no_change_witness :
  exists r,
    detect_changes_with_real_bands (E := sample_externals) ex_bands1 ex_bands1
      = (ex_bands1, Ok r) /\
    ndvi_change r = mk_array [2; 2]%nat (repeat 0%float 4) /\
    ndmi_change r = mk_array [2; 2]%nat (repeat 0%float 4) /\
    ndbi_change r = mk_array [2; 2]%nat (repeat 0%float 4) /\
    cva_magnitude r = mk_array [2; 2]%nat (repeat 0%float 4) /\
    CVA.no_change_percent (cva (statistics r)) = 100%float /\
    CVA.moderate_change_percent (cva (statistics r)) = 0%float /\
    CVA.significant_change_percent (cva (statistics r)) = 0%float.
Proof.
  apply (identical_band_sets_show_no_change sample_externals [2; 2]%nat
           ex_bands1 _ _ _ ex_bands1_set).
  - discriminate.
  - reflexivity.
Defined.

(** * A quotient of magnitude at most one *)

Section UnitQuotient.

Local Open Scope Z_scope.

Lemma val_one : val (Zpos 4503599627370496) (-52) = pow2 0.
Proof.
  unfold val. change (Zpos 4503599627370496) with (2 ^ 52).
  replace 0 with (-52 + 52) at 1 by lia.
  rewrite pow2_add by (unfold bias; lia). ring.
Qed.

Lemma pow2_0 : pow2 0 = 2 ^ bias.
Proof. reflexivity. Qed.

Lemma R_one : R 1 = pow2 0.
Proof.
  unfold R. change (Prim2SF 1) with (S754_finite false 4503599627370496 (-52)).
  cbn [rank]. apply val_one.
Qed.

Lemma R_minus_one : R (-1) = - pow2 0.
Proof.
  unfold R. change (Prim2SF (-1)) with (S754_finite true 4503599627370496 (-52)).
  cbn [rank]. now rewrite val_one.
Qed.

Lemma R_zero : R 0 = 0.
Proof. reflexivity. Qed.

Lemma fin_rank_zero (X : spec_float) :
  fin X -> rank X = 0 -> exists s, X = S754_zero s.
Proof.
  intros [V F] H0. destruct X as [s | s | | s m e]; try contradiction; eauto.
  simpl in V. pose proof (bounded_facts m e V) as [He _].
  pose proof (val_pos m e ltac:(unfold bias; lia)).
  cbn [rank] in H0. destruct s; lia.
Qed.

Lemma fin_opp (X : spec_float) : fin X -> fin (SFopp X) /\ rank (SFopp X) = - rank X.
Proof.
  intros [V F]. destruct X as [s | s | | s m e]; try contradiction.
  - split; [split; simpl; auto | reflexivity].
  - split; [split; simpl; auto |]. cbn [SFopp rank]. destruct s; cbn [negb]; lia.
Qed.

(** [N / D] for a finite [N] whose magnitude does not exceed the positive [D]. *)
Lemma SFdiv_unit_bound (N D : spec_float) :
  fin N -> valid_binary D = true -> D <> S754_nan ->
  Z.abs (rank N) <= rank D -> 0 < rank D ->
  fin (SFdiv prec emax N D) /\
  Z.abs (rank (SFdiv prec emax N D)) <= pow2 0 /\
  (0 <= rank N -> 0 <= rank (SFdiv prec emax N D)).
Proof.
  intros HN VD ND Hle Hpos.
  pose proof (pow2_pos 0 ltac:(unfold bias; lia)) as Hp0.
  pose proof INF_pos as HI.
  destruct D as [sd | sd | | sd md ed]; try congruence.
  - cbn [rank] in Hpos. lia.
  - (* an infinite denominator *)
    destruct HN as [VN FN].
    destruct N as [sn | sn | | sn mn en]; try contradiction;
      cbn [SFdiv]; (split; [split; simpl; auto |]); cbn [rank]; simpl Z.abs; lia.
  - (* a finite denominator *)
    assert (HD : fin (S754_finite sd md ed)) by (split; simpl; auto).
    simpl in VD. pose proof (bounded_facts md ed VD) as [Hed _].
    pose proof (val_pos md ed ltac:(unfold bias; lia)) as Hvd.
    assert (Hsd : sd = false).
    { destruct sd; [| reflexivity]. cbn [rank] in Hpos. lia. }
    subst sd.
    destruct (Z_lt_le_dec (Z.abs (rank N)) (rank (S754_finite false md ed)))
      as [Hlt | Hge].
    + (* strictly smaller: the quotient rounds to at most one *)
      destruct (SFdiv_bound N _ HN HD ltac:(lia)) as [V [Nn [S1 [S2 B]]]].
      pose proof (B (pow2 0) (pow2_representable 0 ltac:(lia))) as U.
      assert (Hm : mag (SFdiv prec emax N (S754_finite false md ed)) <= pow2 0).
      { apply U. rewrite pow2_0.
        rewrite (Z.abs_eq (rank (S754_finite false md ed))) by lia.
        assert (0 < 2 ^ bias) by (rewrite <- pow2_0; exact Hp0).
        rewrite (Z.mul_comm (2 ^ bias)).
        apply Z.mul_lt_mono_pos_r; assumption. }
      unfold mag in Hm.
      split; [| split; [exact Hm |]].
      * split; [exact V |].
        destruct (SFdiv prec emax N (S754_finite false md ed)) as [s | s | | s m e];
          auto.
        cbn [rank] in Hm.
        assert (pow2 0 < INF) by (unfold INF; apply Z.pow_lt_mono_r; unfold bias; lia).
        destruct s; lia.
      * intros H0. apply S1. nia.
    + (* the same magnitude: the quotient is one or minus one *)
      assert (Habs : Z.abs (rank N) = rank (S754_finite false md ed)) by lia.
      destruct (Z_le_gt_dec 0 (rank N)) as [Hn0 | Hn0].
      * assert (N = S754_finite false md ed).
        { apply rank_inj; try assumption; lia. }
        subst N. rewrite SFdiv_same_magnitude. cbn [xorb rank].
        rewrite val_one. split; [split; simpl; auto |]. lia.
      * destruct (fin_opp N HN) as [FO RO].
        assert (SFopp N = S754_finite false md ed).
        { apply rank_inj; try assumption; lia. }
        destruct N as [sn | sn | | sn mn en]; try discriminate.
        cbn [SFopp] in H. injection H as Hs Hm He. subst mn en.
        destruct sn; [| discriminate].
        rewrite SFdiv_same_magnitude. cbn [xorb rank].
        rewrite val_one. split; [split; simpl; auto |]. lia.
Qed.

End UnitQuotient.

(** * The range of an index on non-negative rasters *)

(** A sample in a valid range: a number, not negative, not infinite. *)
Definition in_range (x : float) : Prop :=
  (0 <=? x)%float = true /\ (x <? infinity)%float = true.

(** The samples of a raster are in range: a [uint8] raster always is. *)
Definition samples_in_range (r : raster) : Prop :=
  match r with
  | U8 _ => True
  | F64 a => Forall in_range (data a)
  end.

Section IndexRange.

Local Open Scope Z_scope.

Lemma leb_true_not_nan (x y : float) :
  (x <=? y)%float = true -> is_nan x = false /\ is_nan y = false.
Proof.
  rewrite FloatAxioms.leb_spec. unfold SFleb. intros H.
  split; apply is_nan_false; intros E; rewrite E in H.
  - discriminate.
  - destruct (Prim2SF x); discriminate.
Qed.

Lemma ltb_true_not_nan (x y : float) :
  (x <? y)%float = true -> is_nan x = false /\ is_nan y = false.
Proof.
  rewrite FloatAxioms.ltb_spec. unfold SFltb. intros H.
  split; apply is_nan_false; intros E; rewrite E in H.
  - discriminate.
  - destruct (Prim2SF x); discriminate.
Qed.

Lemma R_infinity : R infinity = INF.
Proof. reflexivity. Qed.

Lemma in_range_spec (x : float) : in_range x <-> finite x /\ 0 <= R x.
Proof.
  unfold in_range. split.
  - intros [H0 Hi].
    destruct (leb_true_not_nan _ _ H0) as [_ Hn].
    rewrite (leb_R 0 x eq_refl Hn) in H0. rewrite R_zero in H0.
    rewrite (ltb_R x infinity Hn eq_refl), R_infinity in Hi.
    apply Z.leb_le in H0. apply Z.ltb_lt in Hi.
    split; [| exact H0]. split; [exact Hn |].
    destruct (is_infinity x) eqn:Einf; [| reflexivity].
    apply is_infinity_spec in Einf as [s Hs].
    unfold R in *. rewrite Hs in *. cbn [rank] in *.
    pose proof INF_pos. destruct s; lia.
  - intros [Hf H0]. pose proof (finite_not_nan x Hf) as Hn.
    pose proof (R_bounds x Hf) as [_ Hb].
    rewrite (leb_R 0 x eq_refl Hn), (ltb_R x infinity Hn eq_refl).
    rewrite R_zero, R_infinity.
    split; [apply Z.leb_le | apply Z.ltb_lt]; assumption.
Qed.

Lemma sandwich_zero_is_zero (F : spec_float) :
  sandwich 0 F -> exists s, F = S754_zero s.
Proof.
  intros Hs. pose proof (sandwich_zero F Hs) as H0.
  destruct Hs as [V [N _]].
  pose proof INF_pos.
  destruct F as [s | s | | s m e]; eauto; try congruence.
  - cbn [rank] in H0. destruct s; lia.
  - simpl in V. pose proof (bounded_facts m e V) as [He _].
    pose proof (val_pos m e ltac:(unfold bias; lia)).
    cbn [rank] in H0. destruct s; lia.
Qed.

(** The numerator of an index is finite and no larger than the larger sample. *)
Lemma difference_bound (a b : float) :
  finite a -> finite b -> 0 <= R a -> 0 <= R b ->
  fin (Prim2SF (a - b)) /\ Z.abs (R (a - b)) <= Z.max (R a) (R b).
Proof.
  intros Fa Fb Ha Hb.
  pose proof (proj1 (finite_fin a) Fa) as FA.
  pose proof (proj1 (finite_fin b) Fb) as FB.
  destruct (Z.eq_dec (R b) 0) as [Hb0 | Hb0].
  { (* b is a zero *)
    destruct (fin_rank_zero _ FB Hb0) as [sb Eb].
    unfold R. rewrite FloatAxioms.sub_spec, Eb. unfold SF64sub.
    destruct FA as [VA FA'].
    destruct (Prim2SF a) as [sa | sa | | sa ma ea] eqn:Ea; try contradiction.
    - destruct sa, sb; cbn [SFsub rank]; (split; [split; simpl; auto |]); simpl; lia.
    - cbn [SFsub]. split; [split; simpl; auto |].
      unfold R in *. rewrite Ea in Ha. lia. }
  destruct (Z.eq_dec (R a) 0) as [Ha0 | Ha0].
  { (* a is a zero, b is not *)
    destruct (fin_rank_zero _ FA Ha0) as [sa Ea].
    unfold R in *. rewrite FloatAxioms.sub_spec, Ea. unfold SF64sub.
    destruct FB as [VB FB'].
    destruct (Prim2SF b) as [sb | sb | | sb mb eb] eqn:Eb;
      try contradiction; try (cbn [rank] in Hb0; congruence).
    cbn [SFsub]. split; [split; simpl; auto |].
    cbn [rank] in *. destruct sb; cbn [negb]; lia. }
  (* both are positive *)
  pose proof (sub_R a b Fa Fb) as Hs.
  assert (Hlt : Z.abs (R a - R b) < Z.max (R a) (R b)) by lia.
  assert (Hrep : representable (Z.max (R a) (R b))).
  { destruct (Z.max_spec (R a) (R b)) as [[_ ->] | [_ ->]];
      now apply R_representable. }
  destruct (sandwich_fin _ _ _ Hs Hrep Hlt) as [F M].
  split; [exact F | exact M].
Qed.

(** One pixel of an index on samples in range has magnitude at most one. *)
Lemma index_px_range (a b : float) :
  finite a -> finite b -> 0 <= R a -> 0 <= R b ->
  Z.abs (R (index_px a b)) <= pow2 0.
Proof.
  intros Fa Fb Ha Hb.
  pose proof (pow2_pos 0 ltac:(unfold bias; lia)) as Hp0.
  unfold index_px.
  destruct (nan_to_num_cases ((a - b) / (a + b))%float) as [[Hf ->] | [_ ->]];
    [| rewrite R_zero; simpl; lia].
  pose proof (add_R a b Fa Fb) as HD.
  destruct (Z.eq_dec (R a + R b) 0) as [Hz | Hnz].
  { (* both samples are zeros: the quotient is not finite *)
    rewrite Hz in HD. destruct (sandwich_zero_is_zero _ HD) as [s Hs].
    exfalso. apply (div_by_zero_not_finite (a - b) (a + b)); [| exact Hf].
    apply eqb_zero. eauto. }
  destruct (difference_bound a b Fa Fb Ha Hb) as [FN HN].
  assert (Hrep : representable (Z.max (R a) (R b))).
  { destruct (Z.max_spec (R a) (R b)) as [[_ ->] | [_ ->]];
      now apply R_representable. }
  assert (HDge : Z.max (R a) (R b) <= rank (Prim2SF (a + b))).
  { rewrite (sandwich_sign_nonneg _ _ HD) by lia.
    destruct HD as [_ [_ [_ [_ B]]]].
    apply (proj1 (B _ Hrep)). lia. }
  destruct HD as [VD [ND _]].
  destruct (SFdiv_unit_bound _ _ FN VD ND) as [_ [Hq _]].
  - fold (R (a - b)). lia.
  - lia.
  - unfold R. rewrite FloatAxioms.div_spec. exact Hq.
Qed.

Lemma index_px_unit_interval (a b : float) :
  in_range a -> in_range b ->
  (-1 <=? index_px a b)%float = true /\ (index_px a b <=? 1)%float = true.
Proof.
  intros Ia Ib.
  apply in_range_spec in Ia as [Fa Ha]. apply in_range_spec in Ib as [Fb Hb].
  pose proof (index_px_range a b Fa Fb Ha Hb) as Hr.
  pose proof (finite_not_nan _ (index_px_finite a b)) as Hn.
  rewrite (leb_R (-1) _ eq_refl Hn), (leb_R _ 1 Hn eq_refl).
  rewrite R_minus_one, R_one.
  split; apply Z.leb_le; lia.
Qed.

Lemma uint8_in_range (z : Z) : 0 <= z < 256 -> in_range (Z2float z).
Proof.
  intros Hz. apply in_range_spec. apply Z2float_nonneg. lia.
Qed.

End IndexRange.

Lemma samples_of_in_range (r : raster) :
  wf_raster r -> samples_in_range r -> Forall in_range (samples r).
Proof.
  destruct r as [a | a]; simpl; unfold samples; simpl.
  - intros [_ Hr] _. apply Forall_forall. intros x Hx.
    apply in_map_iff in Hx as [z [<- Hz]].
    rewrite Forall_forall in Hr. apply uint8_in_range. auto.
  - auto.
Qed.

(** C6. On two well-formed rasters of one shape whose samples are in a
    valid range (not negative, not infinite, no NaN; any [uint8] raster),
    [calculate_ndvi] returns a raster of that shape each of whose elements
    is finite (no NaN, no infinity) and lies in [-1, 1]. *)
Theorem ndvi_is_in_unit_interval :
  forall (nir red : raster),
    wf_raster nir -> wf_raster red -> rshape nir = rshape red ->
    samples_in_range nir -> samples_in_range red ->
    exists r,
      calculate_ndvi nir red = Ok r /\
      shape r = rshape nir /\
      Forall (fun v => finite v /\
                       (-1 <=? v)%float = true /\ (v <=? 1)%float = true)
             (data r).
Proof.
  intros nir red Wn Wr Hs In Ir.
  eexists. split; [now apply calculate_ndvi_same |].
  split; [reflexivity |]. simpl.
  pose proof (samples_of_in_range nir Wn In) as Hn.
  pose proof (samples_of_in_range red Wr Ir) as Hr.
  rewrite Forall_forall in *. intros v Hv.
  apply zip_with_In in Hv as [x [y [Hx [Hy ->]]]].
  split; [apply index_px_finite |].
  apply index_px_unit_interval; auto.
Qed.

Definition ex_nir_unit : raster := f64 [2; 2] [0.5; 0; 1; 0.25]%float.
Definition ex_red_unit : raster := f64 [2; 2] [0.1; 0; 0; 1]%float.

Lemma ndvi_is_in_unit_interval_witness :
  exists r,
    calculate_ndvi ex_nir_unit ex_red_unit = Ok r /\
    shape r = [2; 2]%nat /\
    Forall (fun v => finite v /\
                     (-1 <=? v)%float = true /\ (v <=? 1)%float = true)
           (data r).
Proof.
  apply (ndvi_is_in_unit_interval ex_nir_unit ex_red_unit).
  - reflexivity.
  - reflexivity.
  - reflexivity.
  - repeat constructor.
  - repeat constructor.
Defined.

(** * Bounds through the arithmetic of the magnitude *)

Section Bounds.

Local Open Scope Z_scope.

Lemma pow2_mono_lt (a b : Z) : - bias <= a -> a < b -> pow2 a < pow2 b.
Proof.
  intros Ha Hab. unfold pow2. apply Z.pow_lt_mono_r; lia.
Qed.

Lemma pow2_mul (a b : Z) :
  0 <= a -> 0 <= b -> pow2 a * pow2 b = pow2 (a + b) * 2 ^ bias.
Proof.
  intros Ha Hb. unfold pow2.
  rewrite <- !Z.pow_add_r by (unfold bias; lia). f_equal. lia.
Qed.

Lemma bounded_mag_fin (F : spec_float) (g : Z) :
  valid_binary F = true -> F <> S754_nan -> representable g -> mag F <= g -> fin F.
Proof.
  intros V N Hg Hm. split; [exact V |].
  pose proof (representable_bounds g Hg) as [_ Hgi].
  destruct F as [s | s | | s m e]; auto.
  unfold mag in Hm. cbn [rank] in Hm. pose proof INF_pos. destruct s; lia.
Qed.

(** A sum of two finite floats whose exact value is below [2^k]. *)
Lemma add_bound (x y : float) (k : Z) :
  finite x -> finite y -> -1022 <= k <= 1023 ->
  Z.abs (R x + R y) < pow2 k ->
  finite (x + y) /\ Z.abs (R (x + y)) <= pow2 k /\
  (0 <= R x + R y -> 0 <= R (x + y)).
Proof.
  intros Fx Fy Hk Hlt.
  pose proof (add_R x y Fx Fy) as Hs.
  destruct (sandwich_fin _ _ _ Hs (pow2_representable k Hk) Hlt) as [F M].
  split; [now apply fin_finite |]. split; [exact M |].
  destruct Hs as [_ [_ [S _]]]. exact S.
Qed.

Lemma sub_bound (x y : float) (k : Z) :
  finite x -> finite y -> -1022 <= k <= 1023 ->
  Z.abs (R x - R y) < pow2 k ->
  finite (x - y) /\ Z.abs (R (x - y)) <= pow2 k /\
  (R y <= R x -> 0 <= R (x - y)).
Proof.
  intros Fx Fy Hk Hlt.
  pose proof (sub_R x y Fx Fy) as Hs.
  destruct (sandwich_fin _ _ _ Hs (pow2_representable k Hk) Hlt) as [F M].
  split; [now apply fin_finite |]. split; [exact M |].
  destruct Hs as [_ [_ [S _]]]. intros H. apply S. lia.
Qed.

Lemma mul_bound (x y : float) (k : Z) :
  finite x -> finite y -> -1022 <= k <= 1023 ->
  Z.abs (R x) * Z.abs (R y) < pow2 k * 2 ^ bias ->
  finite (x * y) /\ Z.abs (R (x * y)) <= pow2 k /\
  (0 <= R x * R y -> 0 <= R (x * y)).
Proof.
  intros Fx Fy Hk Hlt.
  apply finite_fin in Fx. apply finite_fin in Fy.
  destruct (SFmul_bound _ _ Fx Fy) as [V [N [S B]]].
  pose proof (proj2 (B _ (pow2_representable k Hk)) Hlt) as M.
  unfold R. rewrite FloatAxioms.mul_spec. unfold SF64mul.
  split; [| split; [exact M | exact S]].
  apply fin_finite. rewrite FloatAxioms.mul_spec.
  exact (bounded_mag_fin _ _ V N (pow2_representable k Hk) M).
Qed.

Lemma sqrt_bound (x : float) (k : Z) :
  finite x -> 0 <= R x -> -1022 <= k <= 1023 ->
  R x * 2 ^ bias < pow2 k * pow2 k ->
  finite (PrimFloat.sqrt x) /\ 0 <= R (PrimFloat.sqrt x) <= pow2 k.
Proof.
  intros Fx H0 Hk Hlt.
  apply finite_fin in Fx.
  destruct (SFsqrt_bound _ Fx H0) as [V [N [S B]]].
  pose proof (B _ (pow2_representable k Hk) Hlt) as M.
  unfold R. rewrite FloatAxioms.sqrt_spec. unfold SF64sqrt.
  split.
  - apply fin_finite. rewrite FloatAxioms.sqrt_spec.
    exact (bounded_mag_fin _ _ V N (pow2_representable k Hk) M).
  - unfold mag in M. lia.
Qed.

(** The powers of two that bound the pipeline, against one another. *)
Lemma pow2_step (a b : Z) :
  - bias <= b -> b <= a -> pow2 a = pow2 b * 2 ^ (a - b).
Proof.
  intros Hb Hab. rewrite <- pow2_add by lia. f_equal. lia.
Qed.

(** A float of magnitude at most [2^k], and one in [[0, 2^k]]. *)
Definition within (k : Z) (x : float) : Prop :=
  finite x /\ Z.abs (R x) <= pow2 k.

Definition between (k : Z) (x : float) : Prop :=
  finite x /\ 0 <= R x <= pow2 k.

(** The change of an index, its square, the sum of three squares and its
    root. *)
Lemma change_px_bound (i1 i2 : float) :
  within 56 i1 -> within 56 i2 -> within 58 (i2 - i1).
Proof.
  intros [F1 H1] [F2 H2].
  pose proof (pow2_pos 56 ltac:(unfold bias; lia)) as Hp.
  pose proof (pow2_step 58 56 ltac:(unfold bias; lia) ltac:(lia)) as E.
  change (2 ^ (58 - 56)) with 4 in E.
  destruct (sub_bound i2 i1 58 F2 F1 ltac:(lia)) as [F [M _]]; [lia |].
  split; assumption.
Qed.

Lemma square_bound (c : float) : within 58 c -> between 117 (c * c).
Proof.
  intros [F M].
  pose proof (pow2_pos 58 ltac:(unfold bias; lia)) as Hp.
  pose proof (pow2_pos 116 ltac:(unfold bias; lia)) as Hp116.
  assert (Hb : 0 < 2 ^ bias) by (apply Z.pow_pos_nonneg; unfold bias; lia).
  pose proof (pow2_step 117 116 ltac:(unfold bias; lia) ltac:(lia)) as E.
  change (2 ^ (117 - 116)) with 2 in E.
  destruct (mul_bound c c 117 F F ltac:(lia)) as [Ff [Mf S]].
  - assert (Z.abs (R c) * Z.abs (R c) <= pow2 58 * pow2 58) by nia.
    rewrite pow2_mul in H by lia.
    change (58 + 58) with 116 in H. nia.
  - split; [exact Ff |].
    assert (0 <= R (c * c)) by (apply S; nia). lia.
Qed.

Lemma sum2_bound (x y : float) :
  between 117 x -> between 117 y -> between 119 (x + y).
Proof.
  intros [Fx [Lx Ux]] [Fy [Ly Uy]].
  pose proof (pow2_pos 117 ltac:(unfold bias; lia)) as Hp.
  pose proof (pow2_step 119 117 ltac:(unfold bias; lia) ltac:(lia)) as E.
  change (2 ^ (119 - 117)) with 4 in E.
  destruct (add_bound x y 119 Fx Fy ltac:(lia)) as [F [M S]]; [lia |].
  specialize (S ltac:(lia)). split; [exact F | lia].
Qed.

Lemma sum3_bound (x y : float) :
  between 119 x -> between 117 y -> between 120 (x + y).
Proof.
  intros [Fx [Lx Ux]] [Fy [Ly Uy]].
  pose proof (pow2_pos 117 ltac:(unfold bias; lia)) as Hp.
  pose proof (pow2_step 119 117 ltac:(unfold bias; lia) ltac:(lia)) as E1.
  pose proof (pow2_step 120 117 ltac:(unfold bias; lia) ltac:(lia)) as E2.
  change (2 ^ (119 - 117)) with 4 in E1. change (2 ^ (120 - 117)) with 8 in E2.
  destruct (add_bound x y 120 Fx Fy ltac:(lia)) as [F [M S]]; [lia |].
  specialize (S ltac:(lia)). split; [exact F | lia].
Qed.

Lemma root_bound (x : float) : between 120 x -> between 61 (PrimFloat.sqrt x).
Proof.
  intros [Fx [Lx Ux]].
  pose proof (pow2_pos 120 ltac:(unfold bias; lia)) as Hp.
  assert (Hb : 0 < 2 ^ bias) by (apply Z.pow_pos_nonneg; unfold bias; lia).
  pose proof (pow2_step 122 120 ltac:(unfold bias; lia) ltac:(lia)) as E.
  change (2 ^ (122 - 120)) with 4 in E.
  apply sqrt_bound; try assumption; try lia.
  rewrite pow2_mul by lia. change (61 + 61) with 122. nia.
Qed.

Lemma magnitude_px_bound (c1 c2 c3 : float) :
  within 58 c1 -> within 58 c2 -> within 58 c3 ->
  between 61 (magnitude_px c1 c2 c3).
Proof.
  intros H1 H2 H3. unfold magnitude_px.
  apply root_bound, sum3_bound; [apply sum2_bound |]; now apply square_bound.
Qed.

End Bounds.

(** * Minimum, maximum and normalization *)

Section Normalization.

Local Open Scope Z_scope.

Lemma R_eps : 0 < R 1e-8 < pow2 0.
Proof.
  split.
  - unfold R.
    change (Prim2SF 1e-8) with (S754_finite false 6044629098073146 (-79)).
    cbn [rank]. apply val_pos. unfold bias. lia.
  - rewrite <- R_one. apply Z.ltb_lt.
    now rewrite <- (ltb_R 1e-8 1 eq_refl eq_refl).
Qed.

Lemma np_minimum_spec (acc x : float) :
  finite acc -> finite x ->
  finite (np_minimum acc x) /\
  (np_minimum acc x = acc \/ np_minimum acc x = x) /\
  R (np_minimum acc x) = Z.min (R acc) (R x).
Proof.
  intros Fa Fx. unfold np_minimum.
  rewrite (leb_R acc x (finite_not_nan _ Fa) (finite_not_nan _ Fx)).
  rewrite (finite_not_nan _ Fa), orb_false_r.
  destruct (Z.leb_spec (R acc) (R x)); (split; [assumption |]); split; auto; lia.
Qed.

Lemma np_maximum_spec (acc x : float) :
  finite acc -> finite x ->
  finite (np_maximum acc x) /\
  (np_maximum acc x = acc \/ np_maximum acc x = x) /\
  R (np_maximum acc x) = Z.max (R acc) (R x).
Proof.
  intros Fa Fx. unfold np_maximum.
  rewrite (leb_R x acc (finite_not_nan _ Fx) (finite_not_nan _ Fa)).
  rewrite (finite_not_nan _ Fa), orb_false_r.
  destruct (Z.leb_spec (R x) (R acc)); (split; [assumption |]); split; auto; lia.
Qed.

Lemma fold_minimum_spec (l : list float) (acc : float) :
  finite acc -> Forall finite l ->
  finite (fold_left np_minimum l acc) /\
  (fold_left np_minimum l acc = acc \/ In (fold_left np_minimum l acc) l) /\
  R (fold_left np_minimum l acc) <= R acc /\
  Forall (fun x => R (fold_left np_minimum l acc) <= R x) l.
Proof.
  intros Fa Fl. revert acc Fa.
  induction Fl as [| x l Fx Fl IH]; intros acc Fa; simpl.
  - split; [exact Fa |]. split; [now left |]. split; [lia | constructor].
  - destruct (np_minimum_spec acc x Fa Fx) as [Fm [Hm Rm]].
    destruct (IH _ Fm) as [Ff [Hin [Hle Hall]]].
    split; [exact Ff |]. split; [| split].
    + destruct Hin as [-> | Hin]; [| auto].
      destruct Hm as [-> | ->]; auto.
    + lia.
    + constructor; [lia | exact Hall].
Qed.

Lemma fold_maximum_spec (l : list float) (acc : float) :
  finite acc -> Forall finite l ->
  finite (fold_left np_maximum l acc) /\
  (fold_left np_maximum l acc = acc \/ In (fold_left np_maximum l acc) l) /\
  R acc <= R (fold_left np_maximum l acc) /\
  Forall (fun x => R x <= R (fold_left np_maximum l acc)) l.
Proof.
  intros Fa Fl. revert acc Fa.
  induction Fl as [| x l Fx Fl IH]; intros acc Fa; simpl.
  - split; [exact Fa |]. split; [now left |]. split; [lia | constructor].
  - destruct (np_maximum_spec acc x Fa Fx) as [Fm [Hm Rm]].
    destruct (IH _ Fm) as [Ff [Hin [Hle Hall]]].
    split; [exact Ff |]. split; [| split].
    + destruct Hin as [-> | Hin]; [| auto].
      destruct Hm as [-> | ->]; auto.
    + lia.
    + constructor; [lia | exact Hall].
Qed.

(** The minimum of a raster of finite values is one of them and below all. *)
Lemma reduce_minimum_spec (l : list float) (lo : float) :
  Forall finite l -> reduce np_minimum l = Ok lo ->
  finite lo /\ In lo l /\ Forall (fun x => R lo <= R x) l.
Proof.
  intros Fl H. destruct l as [| x l]; [discriminate |].
  simpl in H. injection H as <-.
  inversion Fl as [| ? ? Fx Fl']; subst.
  destruct (fold_minimum_spec l x Fx Fl') as [Ff [Hin [Hle Hall]]].
  split; [exact Ff |]. split.
  - destruct Hin as [-> | Hin]; [now left | now right].
  - constructor; assumption.
Qed.

Lemma reduce_maximum_spec (l : list float) (hi : float) :
  Forall finite l -> reduce np_maximum l = Ok hi ->
  finite hi /\ In hi l /\ Forall (fun x => R x <= R hi) l.
Proof.
  intros Fl H. destruct l as [| x l]; [discriminate |].
  simpl in H. injection H as <-.
  inversion Fl as [| ? ? Fx Fl']; subst.
  destruct (fold_maximum_spec l x Fx Fl') as [Ff [Hin [Hle Hall]]].
  split; [exact Ff |]. split.
  - destruct Hin as [-> | Hin]; [now left | now right].
  - constructor; assumption.
Qed.

(** The denominator [max - min + 1e-8] is a positive finite float, no
    smaller than [max - min] and no smaller than [1e-8]. *)
Lemma denominator_spec (lo hi : float) :
  finite lo -> finite hi -> 0 <= R lo -> R lo <= R hi -> R hi <= pow2 61 ->
  finite (hi - lo) /\ 0 <= R (hi - lo) /\
  finite (hi - lo + 1e-8) /\ R (hi - lo) <= R (hi - lo + 1e-8) /\
  R 1e-8 <= R (hi - lo + 1e-8).
Proof.
  intros Fl Fh H0 Hle H5.
  pose proof (pow2_pos 0 ltac:(unfold bias; lia)) as Hp0.
  pose proof (pow2_step 61 0 ltac:(unfold bias; lia) ltac:(lia)) as E61.
  pose proof (pow2_step 62 0 ltac:(unfold bias; lia) ltac:(lia)) as E62.
  pose proof (pow2_step 63 0 ltac:(unfold bias; lia) ltac:(lia)) as E63.
  change (2 ^ (61 - 0)) with 2305843009213693952 in E61.
  change (2 ^ (62 - 0)) with 4611686018427387904 in E62.
  change (2 ^ (63 - 0)) with 9223372036854775808 in E63.
  pose proof R_eps as [He0 He1].
  destruct (sub_bound hi lo 62 Fh Fl ltac:(lia) ltac:(lia)) as [Fd0 [Md0 Sd0]].
  specialize (Sd0 Hle).
  assert (Feps : finite 1e-8) by (split; reflexivity).
  pose proof (add_R (hi - lo) 1e-8 Fd0 Feps) as Hs.
  assert (Hv : 0 <= R (hi - lo) + R 1e-8) by lia.
  destruct (sandwich_fin _ _ (pow2 63) Hs (pow2_representable 63 ltac:(lia)))
    as [Fd _]; [lia |].
  pose proof (sandwich_sign_nonneg _ _ Hs Hv) as Hsign.
  destruct Hs as [_ [_ [_ [_ B]]]].
  pose proof (proj1 (B _ (R_representable _ Fd0 Sd0)) ltac:(lia)) as L0.
  pose proof (proj1 (B _ (R_representable _ Feps ltac:(lia))) ltac:(lia)) as L1.
  fold (R (hi - lo + 1e-8)) in Hsign.
  split; [exact Fd0 |]. split; [exact Sd0 |].
  split; [now apply fin_finite |]. lia.
Qed.

(** Every pixel of the normalized raster is a finite float, not negative. *)
Lemma normalize_px_finite (lo hi m : float) :
  finite lo -> finite hi -> finite m ->
  0 <= R lo -> R lo <= R m -> R m <= R hi -> R hi <= pow2 61 ->
  finite (normalize_px lo hi m) /\ 0 <= R (normalize_px lo hi m).
Proof.
  intros Fl Fh Fm H0 Hlm Hmh H5.
  pose proof (pow2_pos 0 ltac:(unfold bias; lia)) as Hp0.
  pose proof (pow2_pos (-27) ltac:(unfold bias; lia)) as Hp27.
  pose proof (pow2_step 61 0 ltac:(unfold bias; lia) ltac:(lia)) as E61.
  pose proof (pow2_step 62 0 ltac:(unfold bias; lia) ltac:(lia)) as E62.
  pose proof (pow2_step 0 (-27) ltac:(unfold bias; lia) ltac:(lia)) as E0.
  pose proof (pow2_step 90 (-27) ltac:(unfold bias; lia) ltac:(lia)) as E90.
  change (2 ^ (61 - 0)) with 2305843009213693952 in E61.
  change (2 ^ (62 - 0)) with 4611686018427387904 in E62.
  change (2 ^ (0 - -27)) with 134217728 in E0.
  change (2 ^ (90 - -27)) with (2 ^ 117) in E90.
  assert (Heps : pow2 (-27) <= R 1e-8) by (vm_compute; discriminate).
  destruct (denominator_spec lo hi Fl Fh H0 ltac:(lia) H5)
    as [_ [_ [Fd [_ Hd]]]].
  destruct (sub_bound m lo 62 Fm Fl ltac:(lia) ltac:(lia)) as [Fn [Mn Sn]].
  specialize (Sn Hlm).
  unfold normalize_px.
  apply finite_fin in Fn. apply finite_fin in Fd.
  destruct (SFdiv_bound _ _ Fn Fd ltac:(fold (R (hi - lo + 1e-8)); lia))
    as [V [N [S [_ B]]]].
  fold (R (m - lo)) (R (hi - lo + 1e-8)) in S, B.
  pose proof (proj2 (B _ (pow2_representable 90 ltac:(lia)))) as U.
  assert (Hb : 0 < 2 ^ bias) by (apply Z.pow_pos_nonneg; unfold bias; lia).
  assert (M : mag (SFdiv prec emax (Prim2SF (m - lo)) (Prim2SF (hi - lo + 1e-8)))
              <= pow2 90).
  { apply U. rewrite <- pow2_0.
    rewrite (Z.abs_eq (R (hi - lo + 1e-8))) by lia.
    assert (Z.abs (R (m - lo)) * pow2 0 <= pow2 62 * pow2 0)
      by (apply Z.mul_le_mono_nonneg_r; lia).
    assert (pow2 90 * pow2 (-27) <= pow2 90 * R (hi - lo + 1e-8))
      by (apply Z.mul_le_mono_nonneg_l; lia).
    assert (pow2 62 * pow2 0 < pow2 90 * pow2 (-27)).
    { rewrite E62, E0, E90.
      assert (4611686018427387904 * 134217728 * 134217728 < 2 ^ 117) by (vm_compute; reflexivity).
      nia. }
    lia. }
  split.
  - apply fin_finite. rewrite FloatAxioms.div_spec.
    exact (bounded_mag_fin _ _ V N (pow2_representable 90 ltac:(lia)) M).
  - unfold R at 1. rewrite FloatAxioms.div_spec. unfold SF64div.
    apply S. nia.
Qed.

Lemma normalize_px_not_nan (lo hi m : float) :
  finite lo -> finite hi -> finite m ->
  0 <= R lo -> R lo <= R m -> R m <= R hi -> R hi <= pow2 61 ->
  is_nan (normalize_px lo hi m) = false /\ 0 <= R (normalize_px lo hi m).
Proof.
  intros Fl Fh Fm H0 Hlm Hmh H5.
  destruct (normalize_px_finite lo hi m Fl Fh Fm H0 Hlm Hmh H5) as [F H].
  split; [now apply finite_not_nan | exact H].
Qed.

(** A pixel of minimal magnitude is normalized to [0.0]. *)
Lemma normalize_px_min (lo hi : float) :
  finite lo -> finite hi -> 0 <= R lo -> R lo <= R hi -> R hi <= pow2 61 ->
  normalize_px lo hi lo = 0%float.
Proof.
  intros Fl Fh H0 Hle H5.
  destruct (denominator_spec lo hi Fl Fh H0 Hle H5) as [_ [_ [Fd [_ Hd']]]].
  pose proof R_eps as [He0 _].
  assert (Hd : 0 < R (hi - lo + 1e-8)) by lia. clear Hd' He0.
  unfold normalize_px. rewrite (sub_self lo Fl).
  apply Prim2SF_inj. rewrite FloatAxioms.div_spec.
  apply finite_fin in Fd. destruct Fd as [V F].
  unfold R in Hd.
  destruct (Prim2SF (hi - lo + 1e-8)) as [s | s | | s md ed]; try contradiction.
  - cbn [rank] in Hd. lia.
  - simpl in V. pose proof (bounded_facts md ed V) as [He _].
    pose proof (val_pos md ed ltac:(unfold bias; lia)).
    cbn [rank] in Hd. destruct s; [lia | reflexivity].
Qed.

(** A pixel of maximal magnitude is normalized into [0, 1]. *)
Lemma normalize_px_max (lo hi : float) :
  finite lo -> finite hi -> 0 <= R lo -> R lo <= R hi -> R hi <= pow2 61 ->
  (0 <=? normalize_px lo hi hi)%float = true /\
  (normalize_px lo hi hi <=? 1)%float = true.
Proof.
  intros Fl Fh H0 Hle H5.
  destruct (denominator_spec lo hi Fl Fh H0 Hle H5) as [Fd0 [Hd0 [Fd [Hdd Hd]]]].
  pose proof R_eps as [He0 _].
  pose proof (proj1 (finite_fin _) Fd0) as FN.
  pose proof (proj1 (finite_fin _) Fd) as [VD _].
  assert (ND : Prim2SF (hi - lo + 1e-8) <> S754_nan)
    by (apply is_nan_false; apply (finite_not_nan _ Fd)).
  destruct (SFdiv_unit_bound _ _ FN VD ND) as [FQ [HQ SQ]].
  - fold (R (hi - lo)) (R (hi - lo + 1e-8)). lia.
  - fold (R (hi - lo + 1e-8)). lia.
  - specialize (SQ Hd0).
    assert (Fq : finite (normalize_px lo hi hi)).
    { apply fin_finite. unfold normalize_px. rewrite FloatAxioms.div_spec. exact FQ. }
    pose proof (finite_not_nan _ Fq) as Hn.
    rewrite (leb_R 0 _ eq_refl Hn), (leb_R _ 1 Hn eq_refl), R_zero, R_one.
    unfold R, normalize_px. rewrite FloatAxioms.div_spec. unfold SF64div.
    split; apply Z.leb_le; lia.
Qed.

(** A flat raster is normalized to [0.0] everywhere. *)
Lemma normalize_px_flat (m : float) : finite m -> normalize_px m m m = 0%float.
Proof.
  intros Fm. unfold normalize_px. now rewrite (sub_self m Fm).
Qed.

(** ** The three tiers partition the floats that are numbers *)

Lemma tiers_partition (x : float) :
  is_nan x = false ->
  Z.b2z (tier_none x) + Z.b2z (tier_moderate x) + Z.b2z (tier_significant x) = 1.
Proof.
  intros Hn. unfold tier_none, tier_moderate, tier_significant.
  rewrite (ltb_R x 0.2 Hn eq_refl), (leb_R 0.2 x eq_refl Hn).
  rewrite (ltb_R x 0.5 Hn eq_refl), (leb_R 0.5 x eq_refl Hn).
  assert (Hc : R 0.2 < R 0.5).
  { apply Z.ltb_lt. now rewrite <- (ltb_R 0.2 0.5 eq_refl eq_refl). }
  destruct (Z.ltb_spec (R x) (R 0.2)); destruct (Z.leb_spec (R 0.2) (R x));
    destruct (Z.ltb_spec (R x) (R 0.5)); destruct (Z.leb_spec (R 0.5) (R x));
    simpl; lia.
Qed.

Lemma count_cons (p : float -> bool) (x : float) (l : list float) :
  count p (x :: l) = Z.b2z (p x) + count p l.
Proof.
  unfold count. simpl. destruct (p x); simpl Z.b2z; [| lia].
  simpl length. lia.
Qed.

Lemma count_partition (l : list float) :
  Forall (fun x => is_nan x = false) l ->
  count tier_none l + count tier_moderate l + count tier_significant l =
  Z.of_nat (length l).
Proof.
  induction 1 as [| x l Hx _ IH].
  - reflexivity.
  - rewrite !count_cons. pose proof (tiers_partition x Hx).
    simpl length. lia.
Qed.

Lemma count_bounds (p : float -> bool) (l : list float) :
  0 <= count p l <= Z.of_nat (length l).
Proof.
  unfold count. pose proof (filter_length_le p l). lia.
Qed.

End Normalization.

(** * Tolerances: the percentages of a partition sum to 100 *)

Section Tolerance.

Local Open Scope Z_scope.

Lemma sandwich_rounds (v : Z) (F : spec_float) :
  sandwich v F -> rounds (Z.abs v) 1 (mag F).
Proof.
  intros [_ [_ [_ [_ B]]]] g Hg. rewrite Z.mul_1_r. exact (B g Hg).
Qed.

Lemma rounds_fin (A B : Z) (F : spec_float) :
  valid_binary F = true -> F <> S754_nan ->
  0 < B -> pow2 (-1022) * B <= A < pow2 1023 * B ->
  rounds A B (mag F) -> fin F /\ near (2 ^ 52) (mag F * B) A.
Proof.
  intros V N HB Hr Hf. split; [| now apply rounds_near].
  destruct (dense A B HB Hr) as [lo [hi [Rl [Rh [[H1 H2] Hu]]]]].
  pose proof (proj2 (Hf hi Rh) H2) as Hhi.
  exact (bounded_mag_fin F hi V N Rh Hhi).
Qed.

Lemma R_hundred : R 100 = 100 * pow2 0.
Proof. vm_compute. reflexivity. Qed.

(** A sum of two non-negative floats, in the normal range. *)
Lemma add_near (x y : float) :
  finite x -> finite y -> 0 <= R x -> 0 <= R y ->
  pow2 (-1022) <= R x + R y < pow2 1023 ->
  finite (x + y) /\ 0 <= R (x + y) /\ near (2 ^ 52) (R (x + y)) (R x + R y).
Proof.
  intros Fx Fy Hx Hy Hr.
  pose proof (add_R x y Fx Fy) as Hs.
  pose proof (sandwich_rounds _ _ Hs) as Hro.
  rewrite Z.abs_eq in Hro by lia.
  pose proof (sandwich_sign_nonneg _ _ Hs ltac:(lia)) as Hsg.
  fold (R (x + y)) in Hsg.
  destruct Hs as [V [N _]].
  destruct (rounds_fin (R x + R y) 1 _ V N ltac:(lia) ltac:(lia) Hro) as [F Hn].
  rewrite Z.mul_1_r, <- Hsg in Hn.
  split; [now apply fin_finite |]. split; [| exact Hn].
  rewrite Hsg. unfold mag. lia.
Qed.

Lemma Z2float_near (n : Z) :
  0 < n < 2 ^ 63 ->
  finite (Z2float n) /\ 0 <= R (Z2float n) /\
  near (2 ^ 52) (R (Z2float n)) (n * pow2 0).
Proof.
  intros Hn.
  pose proof (Z2float_sandwich n ltac:(lia)) as Hs.
  pose proof (pow2_pos 0 ltac:(unfold bias; lia)) as Hp.
  destruct (Z2float_nonneg n ltac:(lia)) as [F H0].
  split; [exact F |]. split; [exact H0 |].
  pose proof (sandwich_rounds _ _ Hs) as Hro.
  rewrite Z.abs_eq in Hro by nia.
  assert (Hr : pow2 (-1022) * 1 <= n * pow2 0 < pow2 1023 * 1).
  { assert (pow2 (-1022) <= pow2 0) by (apply pow2_le; unfold bias; lia).
    assert (E : pow2 1023 = pow2 0 * 2 ^ 1023)
      by (rewrite <- pow2_add by (unfold bias; lia); reflexivity).
    assert (2 ^ 63 < 2 ^ 1023) by (apply Z.pow_lt_mono_r; lia).
    rewrite E. split; nia. }
  pose proof (rounds_near _ 1 _ ltac:(lia) Hr Hro) as Hn'.
  rewrite Z.mul_1_r in Hn'. unfold R. unfold mag in Hn'.
  fold (R (Z2float n)) in *. rewrite Z.abs_eq in Hn' by lia. exact Hn'.
Qed.

(** A quotient of two positive floats, in the normal range. *)
Lemma div_near (x y : float) :
  finite x -> finite y -> 0 <= R x -> 0 < R y ->
  pow2 (-1022) * R y <= R x * pow2 0 < pow2 1023 * R y ->
  finite (x / y) /\ 0 <= R (x / y) /\
  near (2 ^ 52) (R (x / y) * R y) (R x * pow2 0).
Proof.
  intros Fx Fy Hx Hy Hr.
  apply finite_fin in Fx. apply finite_fin in Fy.
  destruct (SFdiv_bound _ _ Fx Fy ltac:(fold (R y); lia)) as [V [N [S1 [_ B]]]].
  fold (R x) (R y) in S1, B.
  assert (Hro : rounds (R x * pow2 0) (R y) (mag (SFdiv prec emax (Prim2SF x) (Prim2SF y)))).
  { intros g Hg. specialize (B g Hg).
    rewrite (Z.abs_eq (R x)), (Z.abs_eq (R y)) in B by lia.
    rewrite pow2_0. exact B. }
  destruct (rounds_fin _ _ _ V N Hy Hr Hro) as [F Hn].
  specialize (S1 ltac:(nia)).
  unfold R at 1 2 4. rewrite FloatAxioms.div_spec. unfold SF64div.
  unfold mag in Hn. rewrite Z.abs_eq in Hn by exact S1.
  split; [| split; [exact S1 | exact Hn]].
  apply fin_finite. rewrite FloatAxioms.div_spec. exact F.
Qed.

(** A product of two non-negative floats, in the normal range. *)
Lemma mul_near (x y : float) :
  finite x -> finite y -> 0 <= R x -> 0 <= R y ->
  pow2 (-1022) * pow2 0 <= R x * R y < pow2 1023 * pow2 0 ->
  finite (x * y) /\ 0 <= R (x * y) /\
  near (2 ^ 52) (R (x * y) * pow2 0) (R x * R y).
Proof.
  intros Fx Fy Hx Hy Hr.
  apply finite_fin in Fx. apply finite_fin in Fy.
  destruct (SFmul_bound _ _ Fx Fy) as [V [N [S1 B]]].
  fold (R x) (R y) in S1, B.
  pose proof (pow2_pos 0 ltac:(unfold bias; lia)) as Hp.
  assert (Hro : rounds (R x * R y) (pow2 0) (mag (SFmul prec emax (Prim2SF x) (Prim2SF y)))).
  { intros g Hg. specialize (B g Hg).
    rewrite (Z.abs_eq (R x)), (Z.abs_eq (R y)) in B by lia.
    rewrite pow2_0. exact B. }
  destruct (rounds_fin _ _ _ V N Hp Hr Hro) as [F Hn].
  specialize (S1 ltac:(nia)).
  unfold R at 1 2 4. rewrite FloatAxioms.mul_spec. unfold SF64mul.
  unfold mag in Hn. rewrite Z.abs_eq in Hn by exact S1.
  split; [| split; [exact S1 | exact Hn]].
  apply fin_finite. rewrite FloatAxioms.mul_spec. exact F.
Qed.

Lemma percent_near (c : Z) (N : nat) :
  0 < c <= Z.of_nat N -> Z.of_nat N < 2 ^ 63 ->
  finite (percent c N) /\ 0 <= R (percent c N) /\
  near (2 ^ 45) (R (percent c N) * Z.of_nat N) (100 * c * pow2 0).
Proof.
  intros Hc HN. set (n := Z.of_nat N) in *.
  pose proof (pow2_pos 0 ltac:(unfold bias; lia)) as Hp.
  pose proof (pow2_pos (-1022) ltac:(unfold bias; lia)) as Hpl.
  assert (EP : pow2 0 = pow2 (-1022) * 2 ^ 1022)
    by (rewrite <- pow2_add by (unfold bias; lia); reflexivity).
  assert (ET : pow2 1023 = pow2 0 * 2 ^ 1023)
    by (rewrite <- pow2_add by (unfold bias; lia); reflexivity).
  set (P := pow2 0) in *. set (a := pow2 (-1022)) in *. set (T := pow2 1023) in *.
  unfold percent. fold n.
  set (x := Z2float c). set (y := Z2float n).
  destruct (Z2float_near c ltac:(lia)) as [Fx [Hx0 E1]].
  destruct (Z2float_near n ltac:(lia)) as [Fy [Hy0 E2]].
  fold x in Fx, Hx0, E1. fold y in Fy, Hy0, E2. fold P in E1, E2.
  destruct (near_bounds _ _ _ E1 ltac:(lia)) as [X1 X2].
  destruct (near_bounds _ _ _ E2 ltac:(lia)) as [Y1 Y2].
  set (X := R x) in *. set (Y := R y) in *.
  assert (HXlo : P <= 2 * X) by nia.
  assert (HXhi : X < 2 ^ 64 * P) by nia.
  assert (HYlo : P <= 2 * Y) by nia.
  assert (HYhi : Y < 2 ^ 64 * P) by nia.
  assert (Hr3 : a * Y <= X * P < T * Y).
  { split.
    - assert (a * Y <= a * (2 ^ 64 * P)) by (apply Z.mul_le_mono_nonneg_l; lia).
      assert (P * P <= 2 * X * P) by (apply Z.mul_le_mono_nonneg_r; lia).
      assert (a * (2 ^ 64 * P) * 2 <= P * P).
      { rewrite EP at 2. 
        replace (a * (2 ^ 64 * P) * 2) with (a * 2 ^ 65 * P) by ring.
        replace (a * 2 ^ 1022 * P) with (a * 2 ^ 1022 * P) by ring.
        apply Z.mul_le_mono_nonneg_r; [lia |].
        apply Z.mul_le_mono_nonneg_l; [lia |].
        apply Z.pow_le_mono_r; lia. }
      lia.
    - assert (X * P <= 2 ^ 64 * P * P) by (apply Z.mul_le_mono_nonneg_r; lia).
      assert (T * P <= T * (2 * Y)) by (apply Z.mul_le_mono_nonneg_l; lia).
      assert (2 ^ 64 * P * P * 2 < T * P).
      { rewrite ET.
        replace (2 ^ 64 * P * P * 2) with (P * 2 ^ 65 * P) by ring.
        apply Z.mul_lt_mono_pos_r; [lia |].
        apply Z.mul_lt_mono_pos_l; [lia |].
        apply Z.pow_lt_mono_r; lia. }
      lia. }
  destruct (div_near x y Fx Fy Hx0 ltac:(fold Y; lia) Hr3) as [Fq [Hq0 E3]].
  fold X Y P in E3.
  set (q := (x / y)%float) in *. set (Q := R q) in *.
  destruct (near_bounds _ _ _ E3 ltac:(lia)) as [Q1 Q2].
  (* P <= 2^67 * Q and Q <= 2^67 * P *)
  assert (HQlo : P <= 2 ^ 67 * Q).
  { assert (Q * Y <= Q * (2 ^ 64 * P)) by (apply Z.mul_le_mono_nonneg_l; lia).
    assert (P * P <= 2 * X * P) by (apply Z.mul_le_mono_nonneg_r; lia).
    assert (P * P <= 2 ^ 67 * Q * P) by nia.
    apply (Z.mul_le_mono_pos_r _ _ P); assumption. }
  assert (HQhi : Q <= 2 ^ 67 * P).
  { assert (Q * P <= Q * (2 * Y)) by (apply Z.mul_le_mono_nonneg_l; lia).
    assert (X * P <= 2 ^ 64 * P * P) by (apply Z.mul_le_mono_nonneg_r; lia).
    assert (Q * P <= 2 ^ 67 * P * P) by nia.
    apply (Z.mul_le_mono_pos_r _ _ P); assumption. }
  assert (F100 : finite 100) by (split; reflexivity).
  assert (Hr4 : a * P <= Q * R 100 < T * P).
  { rewrite R_hundred. fold P. split.
    - assert (a * 2 ^ 1022 <= 2 ^ 67 * Q) by lia.
      assert (a * 2 ^ 67 <= a * 2 ^ 1022).
      { apply Z.mul_le_mono_nonneg_l; [lia |]. apply Z.pow_le_mono_r; lia. }
      assert (a <= Q) by nia. nia.
    - rewrite ET.
      assert (Q * 100 < P * 2 ^ 1023).
      { assert (2 ^ 67 * P * 100 < P * 2 ^ 1023).
        { replace (2 ^ 67 * P * 100) with (P * (2 ^ 67 * 100)) by ring.
          apply Z.mul_lt_mono_pos_l; [lia |].
          assert (2 ^ 67 * 100 < 2 ^ 67 * 2 ^ 7) by (apply Z.mul_lt_mono_pos_l; lia).
          assert (2 ^ 67 * 2 ^ 7 <= 2 ^ 1023).
          { rewrite <- Z.pow_add_r by lia. apply Z.pow_le_mono_r; lia. }
          lia. }
        lia. }
      nia. }
  destruct (mul_near q 100 Fq F100 Hq0 ltac:(rewrite R_hundred; lia) Hr4)
    as [Fp [Hp0 E4]].
  fold Q P in E4. rewrite R_hundred in E4. fold P in E4.
  split; [exact Fp |]. split; [exact Hp0 |].
  set (p := R (q * 100)) in *.
  assert (Hn0 : 0 < n) by lia.
  (* p * N ~ 100 * Q * N *)
  assert (G4 : near (2 ^ 52) (p * n) (100 * Q * n)).
  { apply near_scale; [| lia].
    apply (near_unscale _ _ _ P); [| lia].
    replace (100 * Q * P) with (Q * (100 * P)) by ring. exact E4. }
  (* Q * N * P ~ Q * Y *)
  assert (G2 : near (2 ^ 51) (Q * (n * P)) (Q * Y)).
  { apply near_sym; [| lia].
    rewrite !(Z.mul_comm Q). apply near_scale; [| lia].
    change (2 * 2 ^ 51) with (2 ^ 52). exact E2. }
  (* X * P ~ c * P * P *)
  assert (G1 : near (2 ^ 52) (X * P) (c * P * P)) by (apply near_scale; [exact E1 | lia]).
  assert (G23 : near (2 ^ 49) (Q * (n * P)) (X * P)).
  { apply (near_trans _ _ (Q * Y)); [| | lia].
    - apply (near_weaken (2 ^ 51)); [exact G2 | lia].
    - apply (near_weaken (2 ^ 52)); [exact E3 | lia]. }
  assert (G123 : near (2 ^ 47) (Q * (n * P)) (c * P * P)).
  { apply (near_trans _ _ (X * P)); [| | lia].
    - exact G23.
    - apply (near_weaken (2 ^ 52)); [exact G1 | lia]. }
  assert (G : near (2 ^ 47) (100 * Q * n) (100 * c * P)).
  { apply (near_unscale _ _ _ P); [| lia].
    replace (100 * Q * n * P) with (Q * (n * P) * 100) by ring.
    replace (100 * c * P * P) with (c * P * P * 100) by ring.
    apply near_scale; [exact G123 | lia]. }
  apply (near_trans _ _ (100 * Q * n)); [| | lia].
  - apply (near_weaken (2 ^ 52)); [exact G4 | lia].
  - exact G.
Qed.

(** One tier percentage: a float within [2^-45] of the exact share. *)
Lemma percent_tol (c : Z) (N : nat) :
  0 <= c <= Z.of_nat N -> 0 < Z.of_nat N < 2 ^ 63 ->
  finite (percent c N) /\ 0 <= R (percent c N) /\
  near (2 ^ 45) (R (percent c N) * Z.of_nat N) (100 * c * pow2 0) /\
  (R (percent c N) = 0 \/ pow2 (-60) <= R (percent c N)) /\
  R (percent c N) <= 150 * pow2 0.
Proof.
  intros Hc HN.
  pose proof (pow2_pos 0 ltac:(unfold bias; lia)) as Hp.
  pose proof (pow2_pos (-60) ltac:(unfold bias; lia)) as Hp60.
  assert (EP : pow2 0 = pow2 (-60) * 2 ^ 60)
    by (rewrite <- pow2_add by (unfold bias; lia); reflexivity).
  destruct (Z.eq_dec c 0) as [-> | Hnz].
  - rewrite (percent_none N HN). rewrite R_zero.
    split; [exact finite_zero |]. split; [lia |].
    split; [unfold near; simpl; lia |]. split; [now left | lia].
  - destruct (percent_near c N ltac:(lia) ltac:(lia)) as [F [H0 Hn]].
    split; [exact F |]. split; [exact H0 |]. split; [exact Hn |].
    destruct (near_bounds _ _ _ Hn ltac:(lia)) as [B1 B2].
    set (p := R (percent c N)) in *. set (n := Z.of_nat N) in *.
    set (P := pow2 0) in *. set (u := pow2 (-60)) in *.
    split.
    + right.
      assert (p * n <= p * 2 ^ 63) by (apply Z.mul_le_mono_nonneg_l; lia).
      assert (100 * P <= 100 * c * P) by nia.
      assert (u * 2 ^ 60 * 100 <= p * 2 ^ 64) by lia.
      lia.
    + assert (100 * c * P <= 100 * n * P) by nia.
      assert (p * n <= 150 * P * n) by lia.
      apply (Z.mul_le_mono_pos_r _ _ n); lia.
Qed.

Lemma add_near0 (x y : float) :
  finite x -> finite y -> 0 <= R x -> 0 <= R y ->
  R x + R y = 0 \/ pow2 (-1022) <= R x + R y < pow2 1023 ->
  finite (x + y) /\ 0 <= R (x + y) /\ near (2 ^ 52) (R (x + y)) (R x + R y).
Proof.
  intros Fx Fy Hx Hy [Hz | Hr]; [| now apply add_near].
  pose proof (add_R x y Fx Fy) as Hs. rewrite Hz in *.
  pose proof (sandwich_zero _ Hs) as H0. fold (R (x + y)) in H0.
  destruct (sandwich_fin _ _ (pow2 0) Hs (pow2_representable 0 ltac:(lia))) as [F _].
  { pose proof (pow2_pos 0 ltac:(unfold bias; lia)). simpl. lia. }
  split; [now apply fin_finite |]. rewrite H0. split; [lia |].
  unfold near. simpl. lia.
Qed.

(** The three tier percentages of a partition of the pixels: their exact
    sum is 100 to within [100 / 2^45], and the sum computed in [float64]
    is 100 to within [1e-9]. *)
Lemma percentages_sum (c0 c1 c2 : Z) (N : nat) :
  0 <= c0 -> 0 <= c1 -> 0 <= c2 -> c0 + c1 + c2 = Z.of_nat N ->
  0 < Z.of_nat N < 2 ^ 63 ->
  let p0 := percent c0 N in
  let p1 := percent c1 N in
  let p2 := percent c2 N in
  near (2 ^ 45) (R p0 + R p1 + R p2) (100 * pow2 0) /\
  (99.999999999 <=? p0 + p1 + p2)%float = true /\
  (p0 + p1 + p2 <=? 100.000000001)%float = true.
Proof.
  intros H0 H1 H2 Hsum HN p0 p1 p2.
  pose proof (pow2_pos 0 ltac:(unfold bias; lia)) as Hp.
  pose proof (pow2_pos (-60) ltac:(unfold bias; lia)) as Hp60.
  pose proof (pow2_le (-1022) (-60) ltac:(unfold bias; lia) ltac:(lia)) as Hlow.
  assert (EP : pow2 0 = pow2 (-60) * 2 ^ 60)
    by (rewrite <- pow2_add by (unfold bias; lia); reflexivity).
  assert (ET : pow2 1023 = pow2 0 * 2 ^ 1023)
    by (rewrite <- pow2_add by (unfold bias; lia); reflexivity).
  destruct (percent_tol c0 N ltac:(lia) HN) as [F0 [Z0 [N0 [L0 U0]]]].
  destruct (percent_tol c1 N ltac:(lia) HN) as [F1 [Z1 [N1 [L1 U1]]]].
  destruct (percent_tol c2 N ltac:(lia) HN) as [F2 [Z2 [N2 [L2 U2]]]].
  fold p0 in F0, Z0, N0, L0, U0. fold p1 in F1, Z1, N1, L1, U1.
  fold p2 in F2, Z2, N2, L2, U2.
  set (n := Z.of_nat N) in *. set (P := pow2 0) in *.
  assert (Hex : near (2 ^ 45) (R p0 + R p1 + R p2) (100 * P)).
  { apply (near_unscale _ _ _ n); [| lia].
    replace ((R p0 + R p1 + R p2) * n) with (R p0 * n + R p1 * n + R p2 * n) by ring.
    replace (100 * P * n) with (100 * c0 * P + 100 * c1 * P + 100 * c2 * P)
      by (rewrite <- Hsum; ring).
    apply near_add; [apply near_add | | lia]; try assumption; lia. }
  split; [exact Hex |].
  assert (H1023 : 2 ^ 10 < 2 ^ 1023) by (apply Z.pow_lt_mono_r; lia).
  (* the first addition *)
  destruct (add_near0 p0 p1 F0 F1 Z0 Z1) as [Fs1 [Zs1 Ns1]].
  { destruct L0 as [L0 | L0], L1 as [L1 | L1]; [left; lia | right | right | right];
      (split; [lia |]); rewrite ET; nia. }
  set (s1 := (p0 + p1)%float) in *.
  (* the second addition *)
  assert (Nmid : near (2 ^ 52) (R s1 + R p2) (R p0 + R p1 + R p2)).
  { apply near_add; [exact Ns1 | apply near_refl; lia | lia]. }
  destruct (near_bounds _ _ _ Hex ltac:(lia)) as [B1 B2].
  destruct (near_bounds _ _ _ Nmid ltac:(lia)) as [B3 B4].
  destruct (add_near0 s1 p2 Fs1 F2 Zs1 Z2) as [Fs2 [Zs2 Ns2]].
  { right. split; [lia |]. rewrite ET. fold P. nia. }
  set (s2 := (s1 + p2)%float) in *.
  assert (Hs2 : near (2 ^ 43) (R s2) (100 * P)).
  { apply (near_trans _ _ (R p0 + R p1 + R p2)); [| | lia].
    - apply (near_trans _ _ (R s1 + R p2)); [| | lia].
      + apply (near_weaken (2 ^ 52)); [exact Ns2 | lia].
      + apply (near_weaken (2 ^ 52)); [exact Nmid | lia].
    - exact Hex. }
  pose proof (finite_not_nan _ Fs2) as Hnan.
  rewrite (leb_R 99.999999999 s2 eq_refl Hnan), (leb_R s2 100.000000001 Hnan eq_refl).
  unfold near in Hs2.
  assert (Clo : 2 ^ 43 * (100 * P - R 99.999999999) >= 100 * P)
    by (vm_compute; discriminate).
  assert (Chi : 2 ^ 43 * (R 100.000000001 - 100 * P) >= 100 * P)
    by (vm_compute; discriminate).
  split; apply Z.leb_le; lia.
Qed.

End Tolerance.

(** * An index pixel on any two floats *)

Section AnyFloats.

Local Open Scope Z_scope.

Lemma fin_of_shape (x : float) : fin_shape (Prim2SF x) -> fin (Prim2SF x).
Proof.
  intros H. split; [apply Prim2SF_valid | exact H].
Qed.

(** One pixel of an index, on any two floats: at most [2^56] in magnitude. *)
Lemma index_px_bound (a b : float) : Z.abs (R (index_px a b)) <= pow2 56.
Proof.
  pose proof (pow2_pos 56 ltac:(unfold bias; lia)) as Hp56.
  unfold index_px.
  destruct (nan_to_num_cases ((a - b) / (a + b))%float) as [[Hf ->] | [_ ->]];
    [| rewrite R_zero; simpl; lia].
  apply finite_fin in Hf. rewrite FloatAxioms.div_spec in Hf. unfold SF64div in Hf.
  unfold R at 1. rewrite FloatAxioms.div_spec. unfold SF64div.
  destruct (SFdiv_fin_cases _ _ Hf) as [H0 | [HN [sd [md [ed HD]]]]].
  { rewrite H0. simpl. lia. }
  pose proof HD as HD'. rewrite FloatAxioms.add_spec in HD'. unfold SF64add in HD'.
  destruct (SFadd_finite_inv _ _ _ _ _ HD') as [SA SB].
  pose proof (fin_of_shape a SA) as FA. pose proof (fin_of_shape b SB) as FB.
  pose proof (fin_finite a FA) as Fa. pose proof (fin_finite b FB) as Fb.
  pose proof (add_R a b Fa Fb) as HsD.
  pose proof (sub_R a b Fa Fb) as HsN.
  pose proof (fin_of_shape _ HN) as FN.
  assert (FD : fin (Prim2SF (a + b))) by (rewrite HD; split; [rewrite <- HD; apply Prim2SF_valid | exact I]).
  assert (VD : bounded prec emax md ed = true).
  { pose proof (Prim2SF_valid (a + b)) as V. rewrite HD in V. exact V. }
  pose proof (bounded_facts md ed VD) as [Hed _].
  pose proof (val_pos md ed ltac:(unfold bias; lia)) as Hvd.
  assert (HrD : rank (Prim2SF (a + b)) <> 0).
  { rewrite HD. cbn [rank]. destruct sd; lia. }
  assert (Hu : R a + R b <> 0).
  { intros E0. rewrite E0 in HsD. apply HrD. now apply sandwich_zero. }
  assert (HE : exists E, -1074 <= E <= 970 /\ pow2 E <= Z.abs (R a + R b) /\
                         Z.abs (R a) < pow2 (E + 54) /\ Z.abs (R b) < pow2 (E + 54)).
  { destruct (Z_le_gt_dec (Z.abs (R b)) (Z.abs (R a))) as [Hle | Hgt].
    - unfold R in *. destruct FA as [VA _].
      destruct (Prim2SF a) as [sa | sa | | sa ma ea]; try contradiction.
      + cbn [rank] in *. lia.
      + simpl in VA. pose proof (bounded_facts ma ea VA) as [Hea _].
        destruct (sum_not_tiny sa ma ea _ VA FB Hu) as [L U].
        exists (Z.max (ea - 1) (-1074)). split; [lia |]. split; [exact L |].
        pose proof (val_pos ma ea ltac:(unfold bias; lia)).
        assert (Z.abs (rank (S754_finite sa ma ea)) = val (Zpos ma) ea)
          by (cbn [rank]; destruct sa; lia).
        lia.
    - unfold R in *. destruct FB as [VB _].
      destruct (Prim2SF b) as [sb | sb | | sb mb eb]; try contradiction.
      + cbn [rank] in Hgt. lia.
      + simpl in VB. pose proof (bounded_facts mb eb VB) as [Heb _].
        rewrite Z.add_comm in Hu.
        destruct (sum_not_tiny sb mb eb _ VB FA Hu) as [L U].
        exists (Z.max (eb - 1) (-1074)). split; [lia |].
        rewrite Z.add_comm in L. split; [exact L |].
        pose proof (val_pos mb eb ltac:(unfold bias; lia)).
        assert (Z.abs (rank (S754_finite sb mb eb)) = val (Zpos mb) eb)
          by (cbn [rank]; destruct sb; lia).
        lia. }
  destruct HE as [E [HE [Hlow [Ha Hb]]]].
  pose proof (pow2_pos E ltac:(unfold bias; lia)) as HpE.
  assert (E55 : pow2 (E + 55) = pow2 E * 2 ^ 55) by (apply pow2_add; unfold bias; lia).
  assert (E54 : pow2 (E + 54) = pow2 E * 2 ^ 54) by (apply pow2_add; unfold bias; lia).
  assert (HmD : pow2 E <= mag (Prim2SF (a + b))).
  { destruct HsD as [_ [_ [_ [_ B]]]].
    apply (proj1 (B _ (pow2_representable_low E ltac:(lia)))). exact Hlow. }
  assert (HmN : mag (Prim2SF (a - b)) <= pow2 (E + 55)).
  { destruct (Z_le_gt_dec (E + 55) 1023) as [Hin | Hout].
    - destruct HsN as [_ [_ [_ [_ B]]]].
      apply (proj2 (B _ (pow2_representable_low (E + 55) ltac:(lia)))).
      rewrite E55. rewrite E54 in Ha, Hb. lia.
    - pose proof (fin_rank_bounds _ FN) as Hb'.
      assert (INF <= pow2 (E + 55)) by (unfold INF; apply pow2_le; unfold bias; lia).
      unfold mag. lia. }
  destruct (SFdiv_bound _ _ FN FD HrD) as [_ [_ [_ [_ B]]]].
  apply (proj2 (B _ (pow2_representable 56 ltac:(lia)))).
  assert (E56 : pow2 56 = pow2 0 * 2 ^ 56)
    by (rewrite <- pow2_add by (unfold bias; lia); reflexivity).
  rewrite E56, pow2_0.
  assert (Hb0 : 0 < 2 ^ bias) by (apply Z.pow_pos_nonneg; unfold bias; lia).
  unfold mag in HmD, HmN.
  set (n := Z.abs (rank (Prim2SF (a - b)))) in *.
  set (d := Z.abs (rank (Prim2SF (a + b)))) in *.
  assert (n <= d * 2 ^ 55) by nia.
  assert (n * 2 ^ bias <= d * 2 ^ 55 * 2 ^ bias) by (apply Z.mul_le_mono_nonneg_r; lia).
  assert (0 < d * 2 ^ bias) by nia.
  nia.
Qed.

End AnyFloats.

(** * Broadcasting in general *)

(** The buffer of [a] viewed at the broadcast shape [s]. *)
Definition bcast {A} (s : list nat) (a : ndarray A) : list A :=
  broadcast_to (pad_shape (length s) (shape a)) s (data a).

Lemma binop_inv {A B C} (f : A -> B -> C) (a : ndarray A) (b : ndarray B)
    (r : ndarray C) :
  binop f a b = Ok r ->
  exists s, broadcast_shapes (shape a) (shape b) = Some s /\
            r = mk_array s (zip_with f (bcast s a) (bcast s b)).
Proof.
  unfold binop. destruct (broadcast_shapes (shape a) (shape b)) as [s |];
    [| discriminate].
  intros H. injection H as <-. exists s. split; reflexivity.
Qed.

(** A shape fits a broadcast shape: each extent is the same, or is 1. *)
Inductive fits : list nat -> list nat -> Prop :=
| fits_nil : fits [] []
| fits_cons (d e : nat) (s t : list nat) :
    d = e \/ d = 1%nat -> fits s t -> fits (d :: s) (e :: t).

Lemma broadcast_dims_fits (s t r : list nat) :
  broadcast_dims s t = Some r -> fits s r /\ fits t r.
Proof.
  revert t r. induction s as [| d s IH]; intros [| e t] r; simpl; try discriminate.
  - intros H. injection H as <-. split; constructor.
  - destruct (broadcast_dims s t) as [r' |] eqn:Hr; [| discriminate].
    destruct (IH t r' Hr) as [F1 F2].
    destruct (Nat.eqb_spec d e) as [-> | Hde].
    { intros H. injection H as <-. split; constructor; auto. }
    destruct (Nat.eqb_spec d 1) as [-> | Hd1].
    { intros H. injection H as <-. split; constructor; auto. }
    destruct (Nat.eqb_spec e 1) as [-> | He1]; [| discriminate].
    intros H. injection H as <-. split; constructor; auto.
Qed.

Lemma fits_length (s t : list nat) : fits s t -> length s = length t.
Proof. induction 1; simpl; congruence. Qed.

Lemma prod_shape_pad (n : nat) (s : list nat) :
  prod_shape (pad_shape n s) = prod_shape s.
Proof.
  unfold pad_shape. induction (n - length s)%nat as [| k IH]; simpl; [reflexivity |].
  unfold prod_shape in *. simpl. rewrite IH. lia.
Qed.

Lemma chunks_count {A} (n k : nat) (l : list A) : length (chunks n k l) = k.
Proof.
  revert l; induction k as [| k IH]; intros l; simpl; [reflexivity |].
  now rewrite IH.
Qed.

Lemma chunks_In {A} (n k : nat) (l c : list A) (x : A) :
  In c (chunks n k l) -> In x c -> In x l.
Proof.
  revert l; induction k as [| k IH]; intros l; simpl; [contradiction |].
  intros [<- | Hc] Hx.
  - rewrite <- (firstn_skipn n l). apply in_or_app. now left.
  - rewrite <- (firstn_skipn n l). apply in_or_app. right. eauto.
Qed.

Lemma concat_length_const {A} (n : nat) (ll : list (list A)) :
  Forall (fun c => length c = n) ll -> length (concat ll) = (length ll * n)%nat.
Proof.
  induction 1 as [| c ll Hc _ IH]; simpl; [reflexivity |].
  rewrite length_app, IH, Hc. reflexivity.
Qed.

Lemma broadcast_to_length {A} (s t : list nat) (l : list A) :
  fits s t -> length l = prod_shape s ->
  length (broadcast_to s t l) = prod_shape t.
Proof.
  intros F. revert l. induction F as [| d e s t Hde F IH]; intros l Hl.
  - exact Hl.
  - simpl broadcast_to.
    change (prod_shape (d :: s)) with (d * prod_shape s)%nat in Hl.
    change (prod_shape (e :: t)) with (e * prod_shape t)%nat.
    assert (Hrows : Forall (fun c => length c = prod_shape t)
                      (map (broadcast_to s t) (chunks (prod_shape s) d l))).
    { apply Forall_map. eapply Forall_impl; [| apply chunks_length; exact Hl].
      intros c Hc. now apply IH. }
    pose proof (concat_length_const _ _ Hrows) as Hcat.
    rewrite length_map, chunks_count in Hcat.
    destruct (Nat.eqb_spec d e) as [<- | Hne].
    + exact Hcat.
    + destruct Hde as [-> | ->]; [contradiction |].
      rewrite (concat_length_const (prod_shape t)).
      * rewrite repeat_length. reflexivity.
      * apply Forall_forall. intros c Hc. apply repeat_spec in Hc. subst c.
        rewrite Hcat. lia.
Qed.

Lemma broadcast_to_In {A} (s t : list nat) (l : list A) (x : A) :
  In x (broadcast_to s t l) -> In x l.
Proof.
  revert t l. induction s as [| d s IH]; intros [| e t] l; simpl; auto.
  assert (Hrows : In x (concat (map (broadcast_to s t) (chunks (prod_shape s) d l)))
                  -> In x l).
  { intros H. apply in_concat in H as [row [Hrow Hx]].
    apply in_map_iff in Hrow as [c [<- Hc]].
    apply IH in Hx. eapply chunks_In; eauto. }
  destruct (Nat.eqb d e); [exact Hrows |].
  intros H. apply in_concat in H as [blk [Hblk Hx]].
  apply repeat_spec in Hblk. subst blk. auto.
Qed.

Lemma pad_shape_length (n : nat) (s : list nat) :
  (length s <= n)%nat -> length (pad_shape n s) = n.
Proof.
  intros H. unfold pad_shape. rewrite length_app, repeat_length. lia.
Qed.

Lemma bcast_length {A B} (a : ndarray A) (b : ndarray B) (s : list nat) :
  broadcast_shapes (shape a) (shape b) = Some s ->
  (wf_array a -> length (bcast s a) = prod_shape s) /\
  (wf_array b -> length (bcast s b) = prod_shape s).
Proof.
  unfold broadcast_shapes. intros H.
  destruct (broadcast_dims_fits _ _ _ H) as [F1 F2].
  pose proof (fits_length _ _ F1) as L1.
  rewrite pad_shape_length in L1 by lia.
  unfold bcast. rewrite <- L1.
  split; intros W; apply broadcast_to_length; auto;
    rewrite prod_shape_pad; exact W.
Qed.

Lemma bcast_In {A} (s : list nat) (a : ndarray A) (x : A) :
  In x (bcast s a) -> In x (data a).
Proof. apply broadcast_to_In. Qed.

Lemma binop_wf {A B C} (f : A -> B -> C) (a : ndarray A) (b : ndarray B)
    (r : ndarray C) :
  binop f a b = Ok r -> wf_array a -> wf_array b -> wf_array r.
Proof.
  intros H Wa Wb. apply binop_inv in H as [s [Hs ->]].
  destruct (bcast_length a b s Hs) as [La Lb].
  unfold wf_array, size. simpl.
  rewrite zip_with_length_min, (La Wa), (Lb Wb). lia.
Qed.

Lemma binop_Forall {A B C} (f : A -> B -> C) (a : ndarray A) (b : ndarray B)
    (r : ndarray C) (P : A -> Prop) (Q : B -> Prop) (S : C -> Prop) :
  binop f a b = Ok r ->
  Forall P (data a) -> Forall Q (data b) ->
  (forall x y, P x -> Q y -> S (f x y)) ->
  Forall S (data r).
Proof.
  intros H Pa Qb Hf. apply binop_inv in H as [s [_ ->]]. simpl.
  rewrite Forall_forall in *. intros z Hz.
  apply zip_with_In in Hz as [x [y [Hx [Hy ->]]]].
  apply bcast_In in Hx. apply bcast_In in Hy. auto.
Qed.

Lemma amap_wf {A B} (f : A -> B) (a : ndarray A) : wf_array a -> wf_array (amap f a).
Proof.
  unfold wf_array, size, amap. simpl. now rewrite length_map.
Qed.

Lemma amap_Forall {A B} (f : A -> B) (a : ndarray A) (P : A -> Prop) (Q : B -> Prop) :
  Forall P (data a) -> (forall x, P x -> Q (f x)) -> Forall Q (data (amap f a)).
Proof.
  intros H Hf. unfold amap. simpl. apply Forall_map.
  eapply Forall_impl; [| exact H]. exact Hf.
Qed.

(** An index raster, on any two rasters that broadcast: it is well formed
    and each of its elements is one pixel of the index. *)
Lemma normalized_difference_inv (a b : ndarray float) (r : ndarray float) :
  obind (binop PrimFloat.sub a b) (fun num =>
  obind (binop PrimFloat.add a b) (fun den =>
  obind (binop PrimFloat.div num den) (fun q =>
  Ok (amap nan_to_num q)))) = Ok r ->
  wf_array a -> wf_array b ->
  wf_array r /\ Forall (fun v => exists x y, v = index_px x y) (data r).
Proof.
  intros H Wa Wb.
  destruct (binop PrimFloat.sub a b) as [num | e] eqn:Hnum; [| discriminate].
  simpl in H.
  destruct (binop PrimFloat.add a b) as [den | e] eqn:Hden; [| discriminate].
  simpl in H.
  apply binop_inv in Hnum as [s [Hs ->]].
  apply binop_inv in Hden as [s' [Hs' ->]].
  assert (s' = s) by congruence. subst s'.
  destruct (bcast_length a b s Hs) as [La Lb].
  specialize (La Wa). specialize (Lb Wb).
  rewrite binop_same_shape in H; simpl;
    try reflexivity;
    try (unfold wf_array, size; simpl; rewrite zip_with_length_min; lia).
  simpl in H. injection H as <-.
  unfold amap; simpl. rewrite zip_with_fuse, map_zip_with.
  split.
  - unfold wf_array, size. simpl. rewrite zip_with_length_min. lia.
  - apply Forall_forall. intros v Hv.
    apply zip_with_In in Hv as [x [y [_ [_ ->]]]]. exists x, y. reflexivity.
Qed.

(** * Every run that returns *)

(** Line 75: [np.sqrt(ndvi_change**2 + ndmi_change**2 + ndbi_change**2)],
    the magnitude raster before it is normalized. *)
Definition change_vector_magnitude (ndvi_change ndmi_change ndbi_change : ndarray float)
  : outcome (ndarray float) :=
  let square := amap (fun x => x * x)%float in
  obind (binop PrimFloat.add (square ndvi_change) (square ndmi_change)) (fun s12 =>
  obind (binop PrimFloat.add s12 (square ndbi_change)) (fun s123 =>
  Ok (amap PrimFloat.sqrt s123))).

(** Every raster of a band mapping is well formed. *)
Definition rasters_wf (d : dict) : Prop :=
  Forall (fun kv => wf_raster (snd kv)) d.

Lemma rasters_wf_get (d : dict) (k : string) (v : raster) :
  rasters_wf d -> dict_get k d = Ok v -> wf_raster v.
Proof.
  intros W H. apply dict_get_In in H.
  unfold rasters_wf in W. rewrite Forall_forall in W. exact (W _ H).
Qed.

Lemma obind_Ok_inv {A B} (c : outcome A) (f : A -> outcome B) (r : B) :
  obind c f = Ok r -> exists x, c = Ok x /\ f x = Ok r.
Proof.
  destruct c as [x | e]; simpl; [eauto | discriminate].
Qed.

Ltac inv_bind H :=
  let x := fresh "v" in
  let Hx := fresh "Hv" in
  apply obind_Ok_inv in H as [x [Hx H]]; cbv beta zeta in H.

Section GeneralRun.

Context {E : Externals}.

Lemma index_raster_inv (a b : raster) (r : ndarray float) :
  obind (binop PrimFloat.sub (astype_float a) (astype_float b)) (fun num =>
  obind (binop PrimFloat.add (astype_float a) (astype_float b)) (fun den =>
  obind (binop PrimFloat.div num den) (fun q =>
  Ok (amap nan_to_num q)))) = Ok r ->
  wf_raster a -> wf_raster b ->
  wf_array r /\ Forall (within 56) (data r).
Proof.
  intros H Wa Wb.
  destruct (normalized_difference_inv _ _ _ H (astype_float_wf a Wa) (astype_float_wf b Wb))
    as [W F].
  split; [exact W |].
  eapply Forall_impl; [| exact F].
  intros v [x [y ->]]. split; [apply index_px_finite | apply index_px_bound].
Qed.

Lemma calculate_ndvi_inv (a b : raster) (r : ndarray float) :
  calculate_ndvi a b = Ok r -> wf_raster a -> wf_raster b ->
  wf_array r /\ Forall (within 56) (data r).
Proof. apply index_raster_inv. Qed.

Lemma calculate_ndmi_inv (a b : raster) (r : ndarray float) :
  calculate_ndmi a b = Ok r -> wf_raster a -> wf_raster b ->
  wf_array r /\ Forall (within 56) (data r).
Proof. apply index_raster_inv. Qed.

Lemma calculate_ndbi_inv (a b : raster) (r : ndarray float) :
  calculate_ndbi a b = Ok r -> wf_raster a -> wf_raster b ->
  wf_array r /\ Forall (within 56) (data r).
Proof. apply index_raster_inv. Qed.

Lemma change_raster_inv (i2 i1 d : ndarray float) :
  binop PrimFloat.sub i2 i1 = Ok d ->
  wf_array i2 /\ Forall (within 56) (data i2) ->
  wf_array i1 /\ Forall (within 56) (data i1) ->
  wf_array d /\ Forall (within 58) (data d).
Proof.
  intros H [W2 F2] [W1 F1]. split.
  - exact (binop_wf _ _ _ _ H W2 W1).
  - apply (binop_Forall _ _ _ _ _ _ _ H F2 F1).
    intros x y Hx Hy. now apply change_px_bound.
Qed.

(** The three change rasters of any run that returns. *)
Lemma index_changes_inv (bands1 bands2 : dict) (dv dm db : ndarray float) :
  index_changes bands1 bands2 = Ok (dv, dm, db) ->
  rasters_wf bands1 -> rasters_wf bands2 ->
  (wf_array dv /\ Forall (within 58) (data dv)) /\
  (wf_array dm /\ Forall (within 58) (data dm)) /\
  (wf_array db /\ Forall (within 58) (data db)).
Proof.
  intros H W1 W2. unfold index_changes in H.
  do 21 inv_bind H.
  injection H as <- <- <-.
  repeat split;
    try (eapply binop_wf; [eassumption | |]);
    try (eapply change_raster_inv; [eassumption | |]);
    first [ eapply calculate_ndvi_inv | eapply calculate_ndmi_inv
          | eapply calculate_ndbi_inv ];
    eauto using rasters_wf_get.
Qed.

(** The magnitude raster of changes within bounds. *)
Lemma change_vector_magnitude_inv (dv dm db mag : ndarray float) :
  change_vector_magnitude dv dm db = Ok mag ->
  wf_array dv /\ Forall (within 58) (data dv) ->
  wf_array dm /\ Forall (within 58) (data dm) ->
  wf_array db /\ Forall (within 58) (data db) ->
  wf_array mag /\ Forall (between 61) (data mag).
Proof.
  intros H [Wv Fv] [Wm Fm] [Wb Fb]. unfold change_vector_magnitude in H.
  cbv beta zeta in H. do 2 inv_bind H. injection H as <-.
  pose proof (amap_Forall (fun x => x * x)%float dv _ (between 117) Fv square_bound) as Sv.
  pose proof (amap_Forall (fun x => x * x)%float dm _ (between 117) Fm square_bound) as Sm.
  pose proof (amap_Forall (fun x => x * x)%float db _ (between 117) Fb square_bound) as Sb.
  pose proof (binop_Forall _ _ _ _ _ _ (between 119) Hv Sv Sm sum2_bound) as S12.
  pose proof (binop_Forall _ _ _ _ _ _ (between 120) Hv0 S12 Sb sum3_bound) as S123.
  split.
  - apply amap_wf. eapply binop_wf; [exact Hv0 | | now apply amap_wf].
    eapply binop_wf; [exact Hv | |]; now apply amap_wf.
  - eapply amap_Forall; [exact S123 |]. exact root_bound.
Qed.

(** What any run of the statistics that returns has computed. *)
Lemma change_statistics_inv (dv dm db : ndarray float) (r : results) :
  change_statistics dv dm db = Ok r ->
  exists mag lo hi,
    change_vector_magnitude dv dm db = Ok mag /\
    np_min mag = Ok lo /\ np_max mag = Ok hi /\
    ndvi_change r = dv /\ ndmi_change r = dm /\ ndbi_change r = db /\
    cva_magnitude r = amap (normalize_px lo hi) mag /\
    np_max (cva_magnitude r) = Ok (CVA.max_magnitude (cva (statistics r))) /\
    CVA.no_change_percent (cva (statistics r)) =
      percent (count tier_none (data (cva_magnitude r))) (size (cva_magnitude r)) /\
    CVA.moderate_change_percent (cva (statistics r)) =
      percent (count tier_moderate (data (cva_magnitude r))) (size (cva_magnitude r)) /\
    CVA.significant_change_percent (cva (statistics r)) =
      percent (count tier_significant (data (cva_magnitude r))) (size (cva_magnitude r)).
Proof.
  intros H. unfold change_statistics in H. cbv beta zeta in H.
  do 12 inv_bind H.
  injection H as <-.
  assert (v3 = v1) by congruence. subst v3.
  exists (amap PrimFloat.sqrt v0), v1, v2.
  unfold change_vector_magnitude. cbv beta zeta. rewrite Hv. simpl. rewrite Hv0. simpl.
  split; [reflexivity |]. split; [exact Hv1 |]. split; [exact Hv2 |].
  split; [reflexivity |]. split; [reflexivity |]. split; [reflexivity |].
  split; [reflexivity |]. split; [exact Hv10 |].
  rewrite !np_sum_bool_amap. repeat split; reflexivity.
Qed.

Lemma detect_inv (bands1 bands2 st : dict) (r : results) :
  detect_changes_with_real_bands bands1 bands2 = (st, Ok r) ->
  exists dv dm db,
    index_changes bands1 st = Ok (dv, dm, db) /\
    change_statistics dv dm db = Ok r.
Proof.
  rewrite detect_run.
  destruct (ensure_same_size bands1 bands2) as [st' [[] | e]]; [| discriminate].
  intros H. injection H as -> H. unfold compute_changes in H.
  apply obind_Ok_inv in H as [[[dv dm] db] [Hc H]].
  exists dv, dm, db. split; assumption.
Qed.

End GeneralRun.

Section Run.

Context {E : Externals}.

Local Open Scope Z_scope.

Lemma eqb_R (x y : float) :
  is_nan x = false -> is_nan y = false ->
  (x =? y)%float = (R x =? R y).
Proof.
  intros Hx Hy. rewrite FloatAxioms.eqb_spec. unfold SFeqb.
  rewrite (compare_R x y Hx Hy).
  destruct (R x ?= R y) eqn:C.
  - apply Z.compare_eq in C. rewrite C. symmetry. apply Z.eqb_refl.
  - symmetry. apply Z.eqb_neq. intros Heq. rewrite Heq, Z.compare_refl in C. discriminate.
  - symmetry. apply Z.eqb_neq. intros Heq. rewrite Heq, Z.compare_refl in C. discriminate.
Qed.

(** What every run that returns has computed: the magnitude raster, its
    minimum [lo] and maximum [hi], and the normalized raster. *)
Lemma run_spec (bands1 bands2 st : dict) (r : results) :
  rasters_wf bands1 -> rasters_wf st ->
  detect_changes_with_real_bands bands1 bands2 = (st, Ok r) ->
  exists mag lo hi,
    change_vector_magnitude (ndvi_change r) (ndmi_change r) (ndbi_change r) = Ok mag /\
    np_min mag = Ok lo /\ np_max mag = Ok hi /\
    cva_magnitude r = amap (normalize_px lo hi) mag /\
    wf_array mag /\
    Forall (fun m => finite m /\ R lo <= R m <= R hi) (data mag) /\
    finite lo /\ finite hi /\ In lo (data mag) /\ In hi (data mag) /\
    0 <= R lo /\ R lo <= R hi /\ R hi <= pow2 61 /\
    np_max (cva_magnitude r) = Ok (CVA.max_magnitude (cva (statistics r))) /\
    CVA.no_change_percent (cva (statistics r)) =
      percent (count tier_none (data (cva_magnitude r))) (size (cva_magnitude r)) /\
    CVA.moderate_change_percent (cva (statistics r)) =
      percent (count tier_moderate (data (cva_magnitude r))) (size (cva_magnitude r)) /\
    CVA.significant_change_percent (cva (statistics r)) =
      percent (count tier_significant (data (cva_magnitude r))) (size (cva_magnitude r)).
Proof.
  intros W1 W2 Hrun.
  destruct (detect_inv _ _ _ _ Hrun) as [dv [dm [db [Hc Hs]]]].
  destruct (index_changes_inv _ _ _ _ _ Hc W1 W2) as [Bv [Bm Bb]].
  destruct (change_statistics_inv _ _ _ _ Hs)
    as [mag [lo [hi [Hmag [Hlo [Hhi [Ev [Em [Eb [Ec [Hmax [P1 [P2 P3]]]]]]]]]]]]].
  destruct (change_vector_magnitude_inv _ _ _ _ Hmag Bv Bm Bb) as [Wmag Fmag].
  assert (Ffin : Forall finite (data mag))
    by (eapply Forall_impl; [| exact Fmag]; now intros m [F _]).
  destruct (reduce_minimum_spec _ _ Ffin Hlo) as [Flo [Ilo Alo]].
  destruct (reduce_maximum_spec _ _ Ffin Hhi) as [Fhi [Ihi Ahi]].
  rewrite Forall_forall in Fmag, Alo, Ahi.
  destruct (Fmag _ Ilo) as [_ [L0 _]]. destruct (Fmag _ Ihi) as [_ [_ U0]].
  exists mag, lo, hi. rewrite Ev, Em, Eb.
  split; [exact Hmag |]. split; [exact Hlo |]. split; [exact Hhi |].
  split; [exact Ec |]. split; [exact Wmag |].
  split.
  { apply Forall_forall. intros m Hm. destruct (Fmag _ Hm) as [F _].
    split; [exact F |]. split; [exact (Alo _ Hm) | exact (Ahi _ Hm)]. }
  split; [exact Flo |]. split; [exact Fhi |].
  split; [exact Ilo |]. split; [exact Ihi |].
  split; [exact L0 |]. split; [exact (Alo _ Ihi) |]. split; [exact U0 |].
  split; [exact Hmax |]. split; [exact P1 |]. split; [exact P2 | exact P3].
Qed.

End Run.

(** * The tier percentages *)

Lemma normalized_not_nan (mag : list float) (lo hi : float) :
  Forall (fun m => finite m /\ (R lo <= R m <= R hi)%Z) mag ->
  finite lo -> finite hi -> (0 <= R lo)%Z -> (R hi <= pow2 61)%Z ->
  Forall (fun x => finite x /\ (0 <= R x)%Z) (map (normalize_px lo hi) mag).
Proof.
  intros Hm Fl Fh H0 H5. apply Forall_map.
  eapply Forall_impl; [| exact Hm].
  intros m [Fm [L U]]. now apply normalize_px_finite.
Qed.

(** C5. For every run of [detect_changes_with_real_bands] that returns (on
    well-formed rasters, fewer than [2^63] pixels): the three tiers
    partition the pixels of the normalized magnitude raster; the three
    reported percentages are [float(count / total_pixels * 100)] of the
    three tier counts; their exact sum ([R] is the value of a float in
    units of [2^-2200]) is 100 to within [100 / 2^45]; and their sum
    computed in [float64], [no_change + moderate + significant], is within
    [1e-9] of [100.0]. *)
Theorem tier_percentages_sum_to_100 :
  forall (E : Externals) (bands1 bands2 st : dict) (r : results),
    rasters_wf bands1 -> rasters_wf st ->
    detect_changes_with_real_bands bands1 bands2 = (st, Ok r) ->
    (Z.of_nat (size (cva_magnitude r)) < 2 ^ 63)%Z ->
    let px := data (cva_magnitude r) in
    let total := size (cva_magnitude r) in
    let none := CVA.no_change_percent (cva (statistics r)) in
    let moderate := CVA.moderate_change_percent (cva (statistics r)) in
    let significant := CVA.significant_change_percent (cva (statistics r)) in
    (count tier_none px + count tier_moderate px + count tier_significant px
     = Z.of_nat total)%Z /\
    none = percent (count tier_none px) total /\
    moderate = percent (count tier_moderate px) total /\
    significant = percent (count tier_significant px) total /\
    (2 ^ 45 * Z.abs (R none + R moderate + R significant - 100 * pow2 0)
     <= 100 * pow2 0)%Z /\
    (99.999999999 <=? none + moderate + significant)%float = true /\
    (none + moderate + significant <=? 100.000000001)%float = true.
Proof.
  intros E bands1 bands2 st r W1 W2 Hrun Hsize px total none moderate significant.
  destruct (run_spec _ _ _ _ W1 W2 Hrun)
    as (mag & lo & hi & _ & _ & _ & Ec & Wmag & Fmag & Flo & Fhi & Ilo & _
        & L0 & _ & U0 & _ & P1 & P2 & P3).
  pose proof (normalized_not_nan _ _ _ Fmag Flo Fhi L0 U0) as Hn.
  assert (Hpx : px = map (normalize_px lo hi) (data mag)) by (unfold px; now rewrite Ec).
  assert (Htot : total = length px).
  { unfold total, px. rewrite Ec. unfold size, amap. simpl.
    rewrite length_map. symmetry. exact Wmag. }
  assert (Hpart : (count tier_none px + count tier_moderate px
                   + count tier_significant px = Z.of_nat total)%Z).
  { rewrite Htot. apply count_partition. rewrite Hpx.
    eapply Forall_impl; [| exact Hn]. intros x [F _]. now apply finite_not_nan. }
  assert (Hpos : (0 < Z.of_nat total)%Z).
  { rewrite Htot, Hpx, length_map. destruct (data mag); [contradiction | simpl; lia]. }
  pose proof (count_bounds tier_none px) as [B1 _].
  pose proof (count_bounds tier_moderate px) as [B2 _].
  pose proof (count_bounds tier_significant px) as [B3 _].
  destruct (percentages_sum _ _ _ total B1 B2 B3 Hpart (conj Hpos Hsize))
    as [Hex [Hlo Hhi]].
  fold px total in P1, P2, P3. fold none in P1. fold moderate in P2.
  fold significant in P3.
  rewrite <- P1, <- P2, <- P3 in Hex, Hlo, Hhi.
  split; [exact Hpart |]. split; [exact P1 |]. split; [exact P2 |].
  split; [exact P3 |]. split; [exact Hex |]. split; [exact Hlo | exact Hhi].
Qed.

Lemma ex_bands1_rasters : rasters_wf ex_bands1.
Proof.
  repeat constructor; simpl; lia.
Qed.

Lemma ex_bands2_resized_rasters : rasters_wf ex_bands2_resized.
Proof.
  repeat constructor; simpl; lia.
Qed.

Lemma tier_percentages_sum_to_100_witness :
  exists r,
    detect_changes_with_real_bands (E := sample_externals) ex_bands1 ex_bands2_small
      = (ex_bands2_resized, Ok r) /\
    let px := data (cva_magnitude r) in
    let none := CVA.no_change_percent (cva (statistics r)) in
    let moderate := CVA.moderate_change_percent (cva (statistics r)) in
    let significant := CVA.significant_change_percent (cva (statistics r)) in
    (count tier_none px + count tier_moderate px + count tier_significant px = 4)%Z /\
    (99.999999999 <=? none + moderate + significant)%float = true /\
    (none + moderate + significant <=? 100.000000001)%float = true.
Proof.
  eexists. split; [vm_compute; reflexivity |].
  match goal with
  | |- let px := data (cva_magnitude ?r) in _ =>
      pose proof (tier_percentages_sum_to_100 sample_externals
                    ex_bands1 ex_bands2_small ex_bands2_resized r
                    ex_bands1_rasters ex_bands2_resized_rasters eq_refl eq_refl)
        as [H1 [_ [_ [_ [_ [H2 H3]]]]]]
  end.
  split; [exact H1 |]. split; [exact H2 | exact H3].
Defined.

(** * The range of the normalized magnitude *)

Section TopOfRange.

Local Open Scope Z_scope.

Lemma R_zero_eqb (x : float) : finite x -> R x = 0 -> (x =? 0)%float = true.
Proof.
  intros F H. rewrite (eqb_R x 0 (finite_not_nan _ F) eq_refl), H, R_zero.
  reflexivity.
Qed.

(** A pixel whose magnitude equals the minimum is normalized to a zero. *)
Lemma normalize_px_flat_R (lo hi m : float) :
  finite lo -> finite hi -> finite m ->
  0 <= R lo -> R m = R lo -> R lo <= R hi -> R hi <= pow2 61 ->
  (normalize_px lo hi m =? 0)%float = true.
Proof.
  intros Fl Fh Fm H0 Hm Hle H5.
  destruct (normalize_px_finite lo hi m Fl Fh Fm H0 ltac:(lia) ltac:(lia) H5) as [F Hq].
  apply R_zero_eqb; [exact F |].
  destruct (denominator_spec lo hi Fl Fh H0 Hle H5) as [_ [_ [Fd [_ Hd]]]].
  pose proof R_eps as [He0 _].
  pose proof (pow2_pos 0 ltac:(unfold bias; lia)) as Hp0.
  pose proof (sub_R m lo Fm Fl) as Hs.
  replace (R m - R lo) with 0 in Hs by lia.
  pose proof (sandwich_zero _ Hs) as Hn0.
  destruct (sandwich_fin _ _ (pow2 0) Hs (pow2_representable 0 ltac:(lia))) as [Fn _];
    [simpl; lia |].
  apply finite_fin in Fd.
  destruct (SFdiv_bound _ _ Fn Fd ltac:(fold (R (hi - lo + 1e-8)); lia))
    as [_ [_ [S1 [S2 _]]]].
  rewrite Hn0 in S1, S2. simpl in S1, S2.
  unfold R, normalize_px. rewrite FloatAxioms.div_spec. unfold SF64div.
  specialize (S1 ltac:(lia)). specialize (S2 ltac:(lia)). lia.
Qed.

(** When the spread [max - min] is at least [2^-6], the pixels of maximal
    magnitude are normalized to at least [0.999999]. *)
Lemma normalize_px_top (lo hi : float) :
  finite lo -> finite hi -> 0 <= R lo -> R lo <= R hi -> R hi <= pow2 61 ->
  (0.015625 <=? hi - lo)%float = true ->
  (0.999999 <=? normalize_px lo hi hi)%float = true.
Proof.
  intros Fl Fh H0 Hle H5 Hsp.
  destruct (denominator_spec lo hi Fl Fh H0 Hle H5) as [Fd0 [Hd0 [Fd [Hdd Hd]]]].
  destruct (normalize_px_finite lo hi hi Fl Fh Fh H0 Hle ltac:(lia) H5) as [Fq Hq].
  pose proof R_eps as [He0 He1].
  pose proof (pow2_pos 0 ltac:(unfold bias; lia)) as Hp0.
  rewrite (leb_R 0.015625 _ eq_refl (finite_not_nan _ Fd0)) in Hsp.
  apply Z.leb_le in Hsp.
  rewrite (leb_R 0.999999 _ eq_refl (finite_not_nan _ Fq)). apply Z.leb_le.
  set (d := R (hi - lo)) in *. set (n := R (hi - lo + 1e-8)) in *.
  set (e := R 1e-8) in *. set (g := R 0.999999). set (P := pow2 0) in *.
  assert (Cg : g * 2 ^ 20 <= P * (2 ^ 20 - 1)) by (vm_compute; discriminate).
  assert (Ce : e * 2 ^ 20 <= R 0.015625) by (vm_compute; discriminate).
  assert (Cg0 : 0 <= g) by (vm_compute; discriminate).
  (* the denominator, to one rounding *)
  assert (Feps : finite 1e-8) by (split; reflexivity).
  assert (Hr : pow2 (-1022) <= d + e < pow2 1023).
  { assert (pow2 (-1022) <= e) by (vm_compute; discriminate).
    pose proof (pow2_step 1023 0 ltac:(unfold bias; lia) ltac:(lia)) as E1.
    pose proof (pow2_step 62 0 ltac:(unfold bias; lia) ltac:(lia)) as E2.
    assert (2 ^ (62 - 0) + 1 < 2 ^ (1023 - 0)) by (vm_compute; reflexivity).
    destruct (sub_bound hi lo 62 Fh Fl ltac:(lia)) as [_ [Md _]].
    { pose proof (pow2_step 62 61 ltac:(unfold bias; lia) ltac:(lia)) as E3.
      change (2 ^ (62 - 61)) with 2 in E3. fold P in E2. lia. }
    fold d in Md. fold P in E1, E2. split; [lia |]. nia. }
  destruct (add_near (hi - lo) 1e-8 Fd0 Feps Hd0 ltac:(fold e; lia) Hr) as [_ [_ Hn]].
  fold d e n in Hn. unfold near in Hn.
  assert (Bn : n * 2 ^ 52 <= (d + e) * (2 ^ 52 + 1)) by lia.
  assert (Bde : (d + e) * 2 ^ 20 <= d * (2 ^ 20 + 1)) by lia.
  assert (Bn2 : n * 2 ^ 72 <= d * ((2 ^ 20 + 1) * (2 ^ 52 + 1))).
  { assert ((d + e) * 2 ^ 20 * (2 ^ 52 + 1) <= d * (2 ^ 20 + 1) * (2 ^ 52 + 1))
      by (apply Z.mul_le_mono_nonneg_r; lia).
    replace (n * 2 ^ 72) with (n * 2 ^ 52 * 2 ^ 20) by (change (2 ^ 72) with (2 ^ 52 * 2 ^ 20); ring).
    lia. }
  assert (Hn0 : 0 < n) by (unfold n; lia).
  assert (Key : g * n <= d * P).
  { assert (M : (g * 2 ^ 20) * (n * 2 ^ 72)
                <= (P * (2 ^ 20 - 1)) * (d * ((2 ^ 20 + 1) * (2 ^ 52 + 1)))).
    { apply Z.mul_le_mono_nonneg; lia. }
    assert (C : (2 ^ 20 - 1) * ((2 ^ 20 + 1) * (2 ^ 52 + 1)) <= 2 ^ 92)
      by (vm_compute; discriminate).
    assert (Hdp : 0 <= d * P) by nia.
    assert (M' : g * n * 2 ^ 92 <= d * P * ((2 ^ 20 - 1) * ((2 ^ 20 + 1) * (2 ^ 52 + 1)))).
    { replace (g * n * 2 ^ 92) with (g * 2 ^ 20 * (n * 2 ^ 72))
        by (change (2 ^ 92) with (2 ^ 20 * 2 ^ 72); ring).
      replace (d * P * ((2 ^ 20 - 1) * ((2 ^ 20 + 1) * (2 ^ 52 + 1))))
        with (P * (2 ^ 20 - 1) * (d * ((2 ^ 20 + 1) * (2 ^ 52 + 1)))) by ring.
      exact M. }
    assert (d * P * ((2 ^ 20 - 1) * ((2 ^ 20 + 1) * (2 ^ 52 + 1))) <= d * P * 2 ^ 92)
      by (apply Z.mul_le_mono_nonneg_l; lia).
    lia. }
  (* the quotient is at least g *)
  assert (Fg : finite 0.999999) by (split; reflexivity).
  pose proof (R_representable 0.999999 Fg Cg0) as Rg. fold g in Rg.
  apply finite_fin in Fd0. apply finite_fin in Fd.
  destruct (SFdiv_bound _ _ Fd0 Fd ltac:(change (n <> 0); lia)) as [_ [_ [_ [_ B]]]].
  pose proof (proj1 (B g Rg)) as L.
  change (g * Z.abs n <= Z.abs d * 2 ^ bias ->
          g <= mag (SFdiv prec emax (Prim2SF (hi - lo)) (Prim2SF (hi - lo + 1e-8)))) in L.
  rewrite (Z.abs_eq d), (Z.abs_eq n), <- pow2_0 in L by lia. fold P in L.
  specialize (L ltac:(lia)).
  unfold mag in L.
  assert (Eq : R (normalize_px lo hi hi)
               = rank (SFdiv prec emax (Prim2SF (hi - lo)) (Prim2SF (hi - lo + 1e-8)))).
  { unfold R, normalize_px. now rewrite FloatAxioms.div_spec. }
  rewrite Eq in *. lia.
Qed.

End TopOfRange.

(** ** A faint change: the maximum of the normalized raster is not 1.0 *)

(** Reflectances of a 1x2 scene, and the same scene with one 'nir' sample
    larger by [1e-9]. *)
Definition ex_steady : dict :=
  bands_of (f64 [1; 2] [0.5; 0.5]%float) (f64 [1; 2] [0.25; 0.25]%float)
           (f64 [1; 2] [0.25; 0.25]%float).

Definition ex_faint : dict :=
  bands_of (f64 [1; 2] [0.5; 0.500000001]%float) (f64 [1; 2] [0.25; 0.25]%float)
           (f64 [1; 2] [0.25; 0.25]%float).

Lemma ex_steady_rasters : rasters_wf ex_steady.
Proof. repeat constructor. Qed.

Lemma ex_faint_rasters : rasters_wf ex_faint.
Proof. repeat constructor. Qed.

(** C2, as stated: whenever the magnitude raster is not uniform, the
    normalized raster has minimum [0.0] and maximum [1.0] within a floating
    tolerance (here [1e-6]). It does not: on [ex_steady] and [ex_faint] the
    magnitudes are [0.0] and [1.54e-9], and the normalized raster is
    [[0.0; 0.1334...]]: its maximum is [(max - min) / (max - min + 1e-8)],
    far from [1.0] when [max - min] is not large against [1e-8]. *)
Lemma normalized_maximum_counterexample :
  ~ (forall (E : Externals) (bands1 bands2 st : dict) (r : results)
            (mag : ndarray float) (lo hi : float),
       rasters_wf bands1 -> rasters_wf st ->
       detect_changes_with_real_bands bands1 bands2 = (st, Ok r) ->
       change_vector_magnitude (ndvi_change r) (ndmi_change r) (ndbi_change r) = Ok mag ->
       np_min mag = Ok lo -> np_max mag = Ok hi ->
       (lo <? hi)%float = true ->
       exists zmin zmax,
         np_min (cva_magnitude r) = Ok zmin /\
         np_max (cva_magnitude r) = Ok zmax /\
         (zmin =? 0)%float = true /\
         (0.999999 <=? zmax)%float = true).
Proof.
  intros H.
  eassert (Hrun : detect_changes_with_real_bands (E := sample_externals)
                    ex_steady ex_faint = (ex_faint, Ok _))
    by (vm_compute; reflexivity).
  destruct (H sample_externals ex_steady ex_faint ex_faint _
              (mk_array [1; 2]%nat [0; 1.5396007490780023e-09]%float)
              0%float 1.5396007490780023e-09%float
              ex_steady_rasters ex_faint_rasters Hrun)
    as [zmin [zmax [_ [Hmax [_ Hone]]]]]; try (vm_compute; reflexivity).
  vm_compute in Hmax. injection Hmax as <-.
  vm_compute in Hone. discriminate.
Qed.

(** The same on [uint8] rasters: both pixels of this 1x2 scene change by
    0.4 in NDVI, the two magnitudes differ in their last bit, and the
    normalized raster is [[0.0; 5.55e-9]]: a uniform change is reported as
    100 percent "no change". *)
Definition ex_even1 : dict :=
  bands_of (u8 [1; 2] [3; 1]%Z) (u8 [1; 2] [2; 1]%Z) (u8 [1; 2] [3; 1]%Z).

Definition ex_even2 : dict :=
  bands_of (u8 [1; 2] [4; 7]%Z) (u8 [1; 2] [1; 3]%Z) (u8 [1; 2] [4; 7]%Z).

Example uniform_change_reads_as_no_change :
  exists r,
    detect_changes_with_real_bands (E := sample_externals) ex_even1 ex_even2
      = (ex_even2, Ok r) /\
    change_vector_magnitude (ndvi_change r) (ndmi_change r) (ndbi_change r)
      = Ok (mk_array [1; 2]%nat [0.39999999999999997; 0.40000000000000002]%float) /\
    data (cva_magnitude r) = [0; 5.5511150923109036e-09]%float /\
    CVA.no_change_percent (cva (statistics r)) = 100%float.
Proof.
  eexists. split; [vm_compute; reflexivity |].
  repeat split; vm_compute; reflexivity.
Qed.

(** * The normalized magnitude is at most one *)

Section UpperBound.

Local Open Scope Z_scope.

(** The multiples of [2^e] with a factor below [2^53] are floats. *)
Lemma multiple_representable (K e : Z) :
  0 < K < 2 ^ 53 -> -1074 <= e <= 971 -> representable (K * pow2 e).
Proof.
  intros HK He.
  pose proof (Z.log2_spec K ltac:(lia)) as [L1 L2].
  pose proof (Z.log2_nonneg K) as L0.
  assert (L3 : Z.log2 K < 53) by (apply Z.log2_lt_pow2; lia).
  set (j := Z.min (52 - Z.log2 K) (e + 1074)).
  assert (Hj : 0 <= j) by (unfold j; lia).
  assert (Hp : 0 < 2 ^ j) by (apply Z.pow_pos_nonneg; lia).
  assert (Hlo : 2 ^ (Z.log2 K + j) <= K * 2 ^ j)
    by (rewrite Z.pow_add_r by lia; nia).
  assert (Hhi : K * 2 ^ j < 2 ^ (Z.succ (Z.log2 K) + j))
    by (rewrite Z.pow_add_r by lia; nia).
  right. destruct (K * 2 ^ j) as [| pm | pm] eqn:Em; try lia.
  exists pm, (e - j). split.
  - apply bounded_spec.
    rewrite (Zdigits2_unique (Zpos pm) (Z.log2 K + j + 1)); [unfold j; lia | lia |].
    split; [replace (Z.log2 K + j + 1 - 1) with (Z.log2 K + j) by lia; exact Hlo |].
    replace (Z.log2 K + j + 1) with (Z.succ (Z.log2 K) + j) by lia. exact Hhi.
  - unfold val. rewrite <- Em.
    replace e with (e - j + j) at 1 by lia.
    rewrite pow2_add by (unfold bias; lia). ring.
Qed.

(** Above a non-negative float [m] the next float is at least one unit of
    its last place away: some [p] divides the rank of [m] with a quotient
    below [2^53], and [R m + p <= R g] for every float [g] above [m]. *)
Lemma gap_above (m : float) :
  finite m -> 0 <= R m ->
  exists mm em,
    R m = mm * pow2 em /\ 0 <= mm < 2 ^ 53 /\ -1074 <= em <= 971 /\
    forall g, representable g -> R m < g -> R m + pow2 em <= g.
Proof.
  intros Fm H0. apply finite_fin in Fm. destruct Fm as [V F].
  unfold R in *.
  destruct (Prim2SF m) as [s | s | | s mm em]; try contradiction.
  - exists 0, (-1074). cbn [rank]. split; [ring |]. split; [lia |]. split; [lia |].
    intros g Hg Hlt.
    pose proof (proj2 (grid g 0 (-1074) Hg ltac:(lia) ltac:(lia) ltac:(lia))) as G.
    unfold val in G. specialize (G ltac:(lia)). lia.
  - simpl in V. pose proof (bounded_facts mm em V) as [He [Hm Hn]].
    pose proof (val_pos mm em ltac:(unfold bias; lia)) as Hv.
    assert (s = false) by (destruct s; [cbn [rank] in H0; lia | reflexivity]).
    subst s. cbn [rank cond_Zopp] in *.
    exists (Zpos mm), em. split; [reflexivity |]. split; [lia |]. split; [lia |].
    intros g Hg Hlt.
    pose proof (proj2 (grid g (Zpos mm) em Hg ltac:(lia) ltac:(lia) Hn)) as G.
    specialize (G Hlt). unfold val in *. lia.
Qed.

(** A difference grows with the float it is taken from. *)
Lemma sub_mono (lo m hi : float) :
  finite lo -> finite m -> finite hi ->
  0 <= R lo -> R lo <= R m -> R m <= R hi ->
  R (m - lo) <= R (hi - lo).
Proof.
  intros Fl Fm Fh H0 Hlm Hmh.
  pose proof (sub_R m lo Fm Fl) as S1. pose proof (sub_R hi lo Fh Fl) as S2.
  pose proof (sandwich_sign_nonneg _ _ S1 ltac:(lia)) as N1.
  pose proof (sandwich_sign_nonneg _ _ S2 ltac:(lia)) as N2.
  fold (R (m - lo)) in N1. fold (R (hi - lo)) in N2.
  destruct (Z.eq_dec (R m) (R hi)) as [Heq | Hne].
  { (* one float, or two zeros *)
    destruct (Z.eq_dec (R m) 0) as [Hz | Hnz].
    - assert (R lo = 0) by lia.
      replace (R m - R lo) with 0 in S1 by lia.
      replace (R hi - R lo) with 0 in S2 by lia.
      apply sandwich_zero in S1. apply sandwich_zero in S2.
      unfold R. lia.
    - assert (m = hi).
      { apply Prim2SF_inj. apply rank_inj; try (now apply finite_fin); assumption. }
      subst m. lia. }
  assert (Hlt : R m < R hi) by lia.
  assert (Hg : exists g, representable g /\ R m - R lo < g /\ g <= R hi - R lo).
  { destruct (Z.eq_dec (R lo) 0) as [Hl0 | Hl0].
    - exists (R hi). split; [apply R_representable; [exact Fh | lia] | lia].
    - destruct (gap_above m Fm ltac:(lia)) as (mm & em & Em & Hmm & Hem & G).
      pose proof (pow2_pos em ltac:(unfold bias; lia)) as Hp.
      specialize (G (R hi) (R_representable hi Fh ltac:(lia)) Hlt).
      set (v := R m - R lo) in *.
      assert (Hv : 0 <= v < mm * pow2 em) by (unfold v; lia).
      pose proof (Z.mul_div_le v (pow2 em) Hp) as D1.
      pose proof (Z.mul_succ_div_gt v (pow2 em) Hp) as D2.
      assert (D0 : 0 <= v / pow2 em) by (apply Z.div_pos; lia).
      assert (D3 : v / pow2 em < mm).
      { apply Z.div_lt_upper_bound; [exact Hp |]. lia. }
      exists ((v / pow2 em + 1) * pow2 em). split.
      + apply multiple_representable; lia.
      + split; nia. }
  destruct Hg as (g & Rg & G1 & G2).
  destruct S1 as (_ & _ & _ & _ & B1). destruct S2 as (_ & _ & _ & _ & B2).
  pose proof (proj2 (B1 g Rg)) as U. pose proof (proj1 (B2 g Rg)) as L.
  rewrite Z.abs_eq in U, L by lia.
  specialize (U G1). specialize (L G2).
  unfold mag in *. fold (R (m - lo)) in *. fold (R (hi - lo)) in *. lia.
Qed.

(** Every pixel of the normalized raster is at most [1.0]. *)
Lemma normalize_px_le_one (lo hi m : float) :
  finite lo -> finite hi -> finite m ->
  0 <= R lo -> R lo <= R m -> R m <= R hi -> R hi <= pow2 61 ->
  (normalize_px lo hi m <=? 1)%float = true.
Proof.
  intros Fl Fh Fm H0 Hlm Hmh H5.
  pose proof (pow2_pos 0 ltac:(unfold bias; lia)) as Hp0.
  pose proof (pow2_step 61 0 ltac:(unfold bias; lia) ltac:(lia)) as E61.
  pose proof (pow2_step 62 0 ltac:(unfold bias; lia) ltac:(lia)) as E62.
  change (2 ^ (61 - 0)) with 2305843009213693952 in E61.
  change (2 ^ (62 - 0)) with 4611686018427387904 in E62.
  destruct (denominator_spec lo hi Fl Fh H0 ltac:(lia) H5) as [_ [_ [Fd [Hdd Hd]]]].
  pose proof R_eps as [He0 _].
  destruct (sub_bound m lo 62 Fm Fl ltac:(lia) ltac:(lia)) as [Fn [_ Sn]].
  specialize (Sn Hlm).
  pose proof (sub_mono lo m hi Fl Fm Fh H0 Hlm Hmh) as Hmono.
  pose proof (proj1 (finite_fin _) Fn) as FN.
  pose proof (proj1 (finite_fin _) Fd) as [VD _].
  assert (ND : Prim2SF (hi - lo + 1e-8) <> S754_nan)
    by (apply is_nan_false; apply (finite_not_nan _ Fd)).
  destruct (SFdiv_unit_bound _ _ FN VD ND) as [FQ [HQ _]].
  - fold (R (m - lo)) (R (hi - lo + 1e-8)). lia.
  - fold (R (hi - lo + 1e-8)). lia.
  - assert (Fq : finite (normalize_px lo hi m)).
    { apply fin_finite. unfold normalize_px. rewrite FloatAxioms.div_spec. exact FQ. }
    rewrite (leb_R _ 1 (finite_not_nan _ Fq) eq_refl), R_one.
    unfold R, normalize_px. rewrite FloatAxioms.div_spec. unfold SF64div.
    apply Z.leb_le. lia.
Qed.

End UpperBound.

(** C2, amended. For every run that returns (on well-formed rasters), with
    [mag] the magnitude raster and [lo], [hi] its minimum and maximum:
    the normalized raster is [(m - lo) / (hi - lo + 1e-8)] at each pixel;
    each of its values is a finite float between [0.0] and [1.0]; its
    minimum is [0.0]; its maximum, reported as [max_magnitude], is at most
    [1.0] and at least the value [(hi - lo) / (hi - lo + 1e-8)] that the
    pixels of maximal magnitude hold, so it is within [1e-6] of [1.0] once
    [hi - lo >= 2^-6]; and on a flat magnitude raster ([lo = hi]) every
    value is a zero. *)
Theorem normalized_magnitude_range :
  forall (E : Externals) (bands1 bands2 st : dict) (r : results),
    rasters_wf bands1 -> rasters_wf st ->
    detect_changes_with_real_bands bands1 bands2 = (st, Ok r) ->
    exists mag lo hi zmin,
      change_vector_magnitude (ndvi_change r) (ndmi_change r) (ndbi_change r) = Ok mag /\
      np_min mag = Ok lo /\ np_max mag = Ok hi /\
      cva_magnitude r = amap (normalize_px lo hi) mag /\
      Forall (fun x => finite x /\ (0 <=? x)%float = true /\ (x <=? 1)%float = true)
        (data (cva_magnitude r)) /\
      np_min (cva_magnitude r) = Ok zmin /\ (zmin =? 0)%float = true /\
      np_max (cva_magnitude r) = Ok (CVA.max_magnitude (cva (statistics r))) /\
      (CVA.max_magnitude (cva (statistics r)) <=? 1)%float = true /\
      In (normalize_px lo hi hi) (data (cva_magnitude r)) /\
      (normalize_px lo hi hi <=? 1)%float = true /\
      (normalize_px lo hi hi <=? CVA.max_magnitude (cva (statistics r)))%float = true /\
      ((0.015625 <=? hi - lo)%float = true ->
       (0.999999 <=? normalize_px lo hi hi)%float = true /\
       (0.999999 <=? CVA.max_magnitude (cva (statistics r)))%float = true) /\
      ((lo =? hi)%float = true ->
       Forall (fun x => (x =? 0)%float = true) (data (cva_magnitude r))).
Proof.
  intros E bands1 bands2 st r W1 W2 Hrun.
  destruct (run_spec _ _ _ _ W1 W2 Hrun)
    as (mag & lo & hi & Hmag & Hlo & Hhi & Ec & Wmag & Fmag & Flo & Fhi & Ilo & Ihi
        & L0 & Hle & U0 & Hmax & _).
  pose proof (normalized_not_nan _ _ _ Fmag Flo Fhi L0 U0) as Hn.
  assert (Hpx : data (cva_magnitude r) = map (normalize_px lo hi) (data mag))
    by now rewrite Ec.
  assert (Ffin : Forall finite (data (cva_magnitude r))).
  { rewrite Hpx. eapply Forall_impl; [| exact Hn]. now intros x [F _]. }
  destruct (reduce_ok np_minimum (data (cva_magnitude r))) as [zmin Hzmin].
  { rewrite Hpx, length_map. destruct (data mag); [contradiction | discriminate]. }
  destruct (reduce_minimum_spec _ _ Ffin Hzmin) as [Fz [Iz Az]].
  destruct (reduce_maximum_spec _ _ Ffin Hmax) as [Fzmax [Izmax Azmax]].
  assert (Itop : In (normalize_px lo hi hi) (data (cva_magnitude r)))
    by (rewrite Hpx; now apply in_map).
  assert (Ibot : In (normalize_px lo hi lo) (data (cva_magnitude r)))
    by (rewrite Hpx; now apply in_map).
  rewrite (normalize_px_min lo hi Flo Fhi L0 Hle U0) in Ibot.
  rewrite Forall_forall in Hn, Az, Azmax, Ffin, Fmag.
  assert (Hone : forall x, In x (data (cva_magnitude r)) -> (x <=? 1)%float = true).
  { intros x Hx. rewrite Hpx in Hx.
    apply in_map_iff in Hx as [m [<- Hm]].
    destruct (Fmag _ Hm) as [Fm [Lm Um]].
    now apply normalize_px_le_one. }
  assert (Htop : (normalize_px lo hi hi <=? CVA.max_magnitude (cva (statistics r)))%float
                 = true).
  { rewrite (leb_R _ _ (finite_not_nan _ (Ffin _ Itop)) (finite_not_nan _ Fzmax)).
    apply Z.leb_le. exact (Azmax _ Itop). }
  exists mag, lo, hi, zmin.
  split; [exact Hmag |]. split; [exact Hlo |]. split; [exact Hhi |].
  split; [exact Ec |].
  split.
  { apply Forall_forall. intros x Hx. pose proof (Hone x Hx) as H1.
    rewrite Hpx in Hx.
    destruct (Hn _ Hx) as [F H0]. split; [exact F |]. split; [| exact H1].
    rewrite (leb_R 0 x eq_refl (finite_not_nan _ F)), R_zero.
    now apply Z.leb_le. }
  split; [exact Hzmin |].
  split.
  { apply R_zero_eqb; [exact Fz |].
    pose proof (Az _ Ibot) as Hz0. rewrite R_zero in Hz0.
    rewrite Hpx in Iz. destruct (Hn _ Iz) as [_ Hz1]. lia. }
  split; [exact Hmax |].
  split; [exact (Hone _ Izmax) |].
  split; [exact Itop |].
  split; [exact (proj2 (normalize_px_max lo hi Flo Fhi L0 Hle U0)) |].
  split; [exact Htop |].
  split.
  { intros Hspread.
    pose proof (normalize_px_top lo hi Flo Fhi L0 Hle U0 Hspread) as Ht.
    split; [exact Ht |].
    pose proof (finite_not_nan _ (Ffin _ Itop)) as Nt.
    pose proof (finite_not_nan _ Fzmax) as Nz.
    rewrite (leb_R 0.999999 _ eq_refl Nt) in Ht. rewrite (leb_R _ _ Nt Nz) in Htop.
    rewrite (leb_R 0.999999 _ eq_refl Nz).
    apply Z.leb_le in Ht, Htop. apply Z.leb_le. lia. }
  intros Hflat.
  rewrite (eqb_R lo hi (finite_not_nan _ Flo) (finite_not_nan _ Fhi)) in Hflat.
  apply Z.eqb_eq in Hflat.
  apply Forall_forall. intros x Hx. rewrite Hpx in Hx.
  apply in_map_iff in Hx as [m [<- Hm]].
  destruct (Fmag _ Hm) as [Fm [Lm Um]].
  apply normalize_px_flat_R; try assumption. lia.
Qed.

Lemma normalized_magnitude_range_witness :
  exists r,
    detect_changes_with_real_bands (E := sample_externals) ex_steady ex_faint
      = (ex_faint, Ok r) /\
    exists zmin,
      Forall (fun x => finite x /\ (0 <=? x)%float = true /\ (x <=? 1)%float = true)
        (data (cva_magnitude r)) /\
      np_min (cva_magnitude r) = Ok zmin /\ (zmin =? 0)%float = true /\
      (CVA.max_magnitude (cva (statistics r)) <=? 1)%float = true.
Proof.
  eexists. split; [vm_compute; reflexivity |].
  match goal with
  | |- exists zmin, Forall _ (data (cva_magnitude ?r)) /\ _ =>
      destruct (normalized_magnitude_range sample_externals
                  ex_steady ex_faint ex_faint r
                  ex_steady_rasters ex_faint_rasters eq_refl)
        as (mag & lo & hi & zmin & _ & _ & _ & _ & Hall & Hmin & Hzero & _ & Hmax & _)
  end.
  exists zmin. split; [exact Hall |]. split; [exact Hmin |].
  split; [exact Hzero | exact Hmax].
Defined.

(** * Further properties of the code *)

(** * Swapping the two bands of an index *)

(** [Y] is [X] with the other sign; two zeros are mirrored whatever their
    signs, and a NaN is mirrored by a NaN. *)
Definition mirrored (X Y : spec_float) : Prop :=
  match X, Y with
  | S754_zero _, S754_zero _ => True
  | S754_infinity s, S754_infinity s' => s' = negb s
  | S754_nan, S754_nan => True
  | S754_finite s m e, S754_finite s' m' e' => s' = negb s /\ m' = m /\ e' = e
  | _, _ => False
  end.

Lemma mirrored_sym (X Y : spec_float) : mirrored X Y -> mirrored Y X.
Proof.
  destruct X as [s | s | | s m e], Y as [s' | s' | | s' m' e']; simpl; auto.
  - intros ->. now rewrite negb_involutive.
  - intros [-> [-> ->]]. now rewrite negb_involutive.
Qed.

Lemma mirrored_opp (X : spec_float) : mirrored X (SFopp X).
Proof. destruct X; simpl; auto. Qed.

Lemma binary_round_aux_mirrored (s : bool) (m e : Z) (l : location) :
  mirrored (binary_round_aux prec emax s m e l)
           (binary_round_aux prec emax (negb s) m e l).
Proof.
  unfold binary_round_aux.
  destruct (shr_fexp prec emax m e l) as [mrs' e'].
  destruct (shr_fexp prec emax _ e' loc_Exact) as [mrs'' e''].
  destruct (shr_m mrs'') as [| p | p]; try exact I.
  destruct (e'' <=? emax - prec)%Z; simpl; repeat split.
Qed.

Lemma binary_round_mirrored (s : bool) (m : positive) (e : Z) :
  mirrored (binary_round prec emax s m e) (binary_round prec emax (negb s) m e).
Proof.
  unfold binary_round.
  destruct (shl_align m e _) as [mz ez]. apply binary_round_aux_mirrored.
Qed.

Lemma binary_normalize_mirrored (M e : Z) (sz sz' : bool) :
  mirrored (binary_normalize prec emax M e sz)
           (binary_normalize prec emax (- M) e sz').
Proof.
  destruct M as [| p | p]; simpl.
  - exact I.
  - apply (binary_round_mirrored false).
  - apply (binary_round_mirrored true).
Qed.

Lemma SFsub_mirrored (X X' Y Y' : spec_float) :
  mirrored X X' -> mirrored Y Y' ->
  mirrored (SFsub prec emax X Y) (SFsub prec emax X' Y').
Proof.
  intros HX HY.
  destruct X as [sx | sx | | sx mx ex], X' as [sx' | sx' | | sx' mx' ex'];
    simpl in HX; try contradiction;
    destruct Y as [sy | sy | | sy my ey], Y' as [sy' | sy' | | sy' my' ey'];
    simpl in HY; try contradiction;
    repeat match goal with H : _ /\ _ |- _ => destruct H end; subst;
    try exact I;
    try (cbn [SFsub mirrored]; repeat split; now rewrite ?negb_involutive);
    try (destruct sx, sx', sy, sy'; exact I);
    try (destruct sx, sy; cbn; auto; fail).
  (* two finite floats *)
  cbn [SFsub]. cbn zeta.
  set (a := Z.pos (fst (shl_align mx ex (Z.min ex ey)))).
  set (b := Z.pos (fst (shl_align my ey (Z.min ex ey)))).
  clearbody a b.
  replace (cond_Zopp (negb sx) a - cond_Zopp (negb sy) b)%Z
    with (- (cond_Zopp sx a - cond_Zopp sy b))%Z
    by (destruct sx, sy; simpl; lia).
  apply binary_normalize_mirrored.
Qed.

Lemma SFsub_swap (X Y : spec_float) :
  mirrored (SFsub prec emax X Y) (SFsub prec emax Y X).
Proof.
  destruct X as [sx | sx | | sx mx ex], Y as [sy | sy | | sy my ey];
    simpl; auto;
    try (destruct sx, sy; simpl; auto; fail);
    try (now rewrite negb_involutive).
  cbn zeta. rewrite (Z.min_comm ey ex).
  set (a := Z.pos (fst (shl_align mx ex (Z.min ex ey)))).
  set (b := Z.pos (fst (shl_align my ey (Z.min ex ey)))).
  clearbody a b.
  replace (cond_Zopp sy b - cond_Zopp sx a)%Z
    with (- (cond_Zopp sx a - cond_Zopp sy b))%Z by lia.
  apply binary_normalize_mirrored.
Qed.

Lemma SFadd_comm (X Y : spec_float) : SFadd prec emax X Y = SFadd prec emax Y X.
Proof.
  destruct X as [sx | sx | | sx mx ex], Y as [sy | sy | | sy my ey];
    simpl; auto;
    try (destruct sx, sy; reflexivity).
  cbn zeta. rewrite (Z.min_comm ey ex). f_equal. apply Z.add_comm.
Qed.

Lemma SFdiv_mirrored (N N' D : spec_float) :
  mirrored N N' -> mirrored (SFdiv prec emax N D) (SFdiv prec emax N' D).
Proof.
  intros H.
  destruct N as [sn | sn | | sn mn en], N' as [sn' | sn' | | sn' mn' en'];
    simpl in H; try contradiction;
    repeat match goal with H : _ /\ _ |- _ => destruct H end; subst;
    destruct D as [sd | sd | | sd md ed];
    try exact I;
    try (cbn [SFdiv mirrored]; destruct sn, sd; reflexivity).
  cbn [SFdiv].
  destruct (SFdiv_core_binary prec emax (Z.pos mn) en (Z.pos md) ed) as [[mz ez] lz].
  replace (xorb (negb sn) sd) with (negb (xorb sn sd)) by (destruct sn, sd; reflexivity).
  apply binary_round_aux_mirrored.
Qed.

Lemma mirrored_rank (X Y : spec_float) :
  mirrored X Y -> X <> S754_nan -> (rank Y = - rank X)%Z.
Proof.
  destruct X as [s | s | | s m e], Y as [s' | s' | | s' m' e'];
    cbn [mirrored]; try contradiction; try congruence; intros H _; cbn [rank].
  - reflexivity.
  - subst. destruct s; cbn [negb]; lia.
  - destruct H as (-> & -> & ->). destruct s; cbn [negb]; lia.
Qed.

Lemma mirrored_fin (X Y : spec_float) : mirrored X Y -> fin X -> fin Y.
Proof.
  destruct X as [s | s | | s m e], Y as [s' | s' | | s' m' e'];
    simpl; try contradiction; unfold fin; simpl; try tauto.
  intros [-> [-> ->]]. tauto.
Qed.

(** The same on primitive floats. *)
Definition opposite (x y : float) : Prop := mirrored (Prim2SF x) (Prim2SF y).

Lemma opposite_finite (x y : float) : opposite x y -> finite x -> finite y.
Proof.
  intros H F. apply finite_fin. apply finite_fin in F. exact (mirrored_fin _ _ H F).
Qed.

Lemma opposite_R (x y : float) : opposite x y -> finite x -> (R y = - R x)%Z.
Proof.
  intros H F. apply mirrored_rank; [exact H |].
  apply is_nan_false. now apply finite_not_nan.
Qed.

Lemma opposite_sym (x y : float) : opposite x y -> opposite y x.
Proof. apply mirrored_sym. Qed.

Lemma opposite_zero : opposite 0 0.
Proof. exact I. Qed.

Lemma nan_to_num_opposite (x y : float) :
  opposite x y -> opposite (nan_to_num x) (nan_to_num y).
Proof.
  intros H.
  destruct (nan_to_num_cases x) as [[Fx ->] | [Nx ->]];
    destruct (nan_to_num_cases y) as [[Fy ->] | [Ny ->]].
  - exact H.
  - elim Ny. exact (opposite_finite _ _ H Fx).
  - elim Nx. exact (opposite_finite _ _ (opposite_sym _ _ H) Fy).
  - exact opposite_zero.
Qed.

(** One pixel: [index(b, a)] is the opposite of [index(a, b)]. *)
Lemma index_px_swap (a b : float) : opposite (index_px a b) (index_px b a).
Proof.
  unfold index_px. apply nan_to_num_opposite. unfold opposite.
  rewrite !FloatAxioms.div_spec, !FloatAxioms.sub_spec, !FloatAxioms.add_spec.
  unfold SF64div, SF64sub, SF64add.
  rewrite (SFadd_comm (Prim2SF b) (Prim2SF a)).
  apply SFdiv_mirrored, SFsub_swap.
Qed.

Lemma sub_opposite (x x' y y' : float) :
  opposite x x' -> opposite y y' -> opposite (x - y) (x' - y').
Proof.
  unfold opposite. rewrite !FloatAxioms.sub_spec. apply SFsub_mirrored.
Qed.

Lemma opp_opposite (x : float) : opposite x (- x).
Proof.
  unfold opposite. rewrite FloatAxioms.opp_spec. apply mirrored_opp.
Qed.

(** ** Broadcasting keeps a pointwise relation *)

Lemma broadcast_dims_comm (s t : list nat) :
  broadcast_dims s t = broadcast_dims t s.
Proof.
  revert t. induction s as [| d s IH]; intros [| e t]; simpl; try reflexivity.
  rewrite (IH t). destruct (broadcast_dims t s) as [r |]; [| reflexivity].
  destruct (Nat.eqb_spec d e) as [Hde | Hde], (Nat.eqb_spec e d) as [Hed | Hed],
    (Nat.eqb_spec d 1) as [Hd | Hd], (Nat.eqb_spec e 1) as [He | He];
    subst; try reflexivity; congruence.
Qed.

Lemma broadcast_shapes_comm (s t : list nat) :
  broadcast_shapes s t = broadcast_shapes t s.
Proof.
  unfold broadcast_shapes. rewrite (Nat.max_comm (length t)).
  apply broadcast_dims_comm.
Qed.

Lemma Forall2_firstn {A B} (P : A -> B -> Prop) (n : nat) (l : list A) (l' : list B) :
  Forall2 P l l' -> Forall2 P (firstn n l) (firstn n l').
Proof.
  intros H. revert n. induction H; intros [| n]; simpl; constructor; auto.
Qed.

Lemma Forall2_skipn {A B} (P : A -> B -> Prop) (n : nat) (l : list A) (l' : list B) :
  Forall2 P l l' -> Forall2 P (skipn n l) (skipn n l').
Proof.
  intros H. revert n. induction H; intros [| n]; simpl; try constructor; auto.
Qed.

Lemma Forall2_chunks {A B} (P : A -> B -> Prop) (n k : nat) (l : list A) (l' : list B) :
  Forall2 P l l' -> Forall2 (Forall2 P) (chunks n k l) (chunks n k l').
Proof.
  revert l l'. induction k as [| k IH]; intros l l' H; simpl; constructor.
  - now apply Forall2_firstn.
  - apply IH. now apply Forall2_skipn.
Qed.

Lemma Forall2_concat {A B} (P : A -> B -> Prop) (ll : list (list A)) (ll' : list (list B)) :
  Forall2 (Forall2 P) ll ll' -> Forall2 P (concat ll) (concat ll').
Proof.
  induction 1; simpl; [constructor |]. now apply Forall2_app.
Qed.

Lemma Forall2_repeat {A B} (P : A -> B -> Prop) (x : A) (y : B) (n : nat) :
  P x y -> Forall2 P (repeat x n) (repeat y n).
Proof.
  intros H. induction n; simpl; constructor; auto.
Qed.

Lemma Forall2_map2 {A B C D} (P : A -> B -> Prop) (Q : C -> D -> Prop)
    (f : A -> C) (g : B -> D) (l : list A) (l' : list B) :
  (forall x y, P x y -> Q (f x) (g y)) ->
  Forall2 P l l' -> Forall2 Q (map f l) (map g l').
Proof.
  intros Hf. induction 1; simpl; constructor; auto.
Qed.

Lemma broadcast_to_Forall2 {A B} (P : A -> B -> Prop) (s t : list nat)
    (l : list A) (l' : list B) :
  Forall2 P l l' -> Forall2 P (broadcast_to s t l) (broadcast_to s t l').
Proof.
  revert t l l'. induction s as [| d s IH]; intros [| e t] l l' H; simpl; auto.
  assert (Hrows : Forall2 P
            (concat (map (broadcast_to s t) (chunks (prod_shape s) d l)))
            (concat (map (broadcast_to s t) (chunks (prod_shape s) d l')))).
  { apply Forall2_concat.
    apply (Forall2_map2 (Forall2 P) (Forall2 P)); [intros; now apply IH |].
    now apply Forall2_chunks. }
  destruct (Nat.eqb d e); [exact Hrows |].
  apply Forall2_concat, Forall2_repeat. exact Hrows.
Qed.

Lemma zip_with_Forall2 {A B C D} (P : A -> B -> Prop) (Q : A -> B -> Prop)
    (S : C -> D -> Prop) (f : A -> A -> C) (g : B -> B -> D)
    (l1 l2 : list A) (l1' l2' : list B) :
  (forall x1 x2 y1 y2, P x1 y1 -> Q x2 y2 -> S (f x1 x2) (g y1 y2)) ->
  Forall2 P l1 l1' -> Forall2 Q l2 l2' ->
  Forall2 S (zip_with f l1 l2) (zip_with g l1' l2').
Proof.
  intros Hf H1. revert l2 l2'.
  induction H1 as [| x y l1 l1' Hxy _ IH]; intros l2 l2' H2.
  - constructor.
  - destruct H2 as [| x2 y2 l2 l2' H2 H2']; [constructor |].
    unfold zip_with in *. simpl. constructor; auto.
Qed.

Lemma zip_with_swap_Forall2 {A C} (S : C -> C -> Prop) (f : A -> A -> C)
    (l1 l2 : list A) :
  (forall x y, S (f x y) (f y x)) ->
  Forall2 S (zip_with f l1 l2) (zip_with f l2 l1).
Proof.
  intros Hf. revert l2. induction l1 as [| x l1 IH]; intros [| y l2];
    unfold zip_with in *; simpl; constructor; auto.
Qed.

(** ** The index of two rasters, and of the same two swapped *)

(** The raster an index computation returns. *)
Lemma index_raster_form (a b : ndarray float) (r : ndarray float) :
  obind (binop PrimFloat.sub a b) (fun num =>
  obind (binop PrimFloat.add a b) (fun den =>
  obind (binop PrimFloat.div num den) (fun q =>
  Ok (amap nan_to_num q)))) = Ok r ->
  wf_array a -> wf_array b ->
  exists s,
    broadcast_shapes (shape a) (shape b) = Some s /\
    r = mk_array s (zip_with index_px (bcast s a) (bcast s b)).
Proof.
  intros H Wa Wb.
  destruct (binop PrimFloat.sub a b) as [num | e] eqn:Hnum; [| discriminate].
  simpl in H.
  destruct (binop PrimFloat.add a b) as [den | e] eqn:Hden; [| discriminate].
  simpl in H.
  apply binop_inv in Hnum as [s [Hs ->]].
  apply binop_inv in Hden as [s' [Hs' ->]].
  assert (s' = s) by congruence. subst s'.
  destruct (bcast_length a b s Hs) as [La Lb].
  specialize (La Wa). specialize (Lb Wb).
  rewrite binop_same_shape in H; simpl;
    try reflexivity;
    try (unfold wf_array, size; simpl; rewrite zip_with_length_min; lia).
  simpl in H. injection H as <-.
  exists s. split; [exact Hs |].
  unfold amap; simpl. now rewrite zip_with_fuse, map_zip_with.
Qed.

Lemma index_raster_swap (a b : ndarray float) (r r' : ndarray float) :
  obind (binop PrimFloat.sub a b) (fun num =>
  obind (binop PrimFloat.add a b) (fun den =>
  obind (binop PrimFloat.div num den) (fun q =>
  Ok (amap nan_to_num q)))) = Ok r ->
  obind (binop PrimFloat.sub b a) (fun num =>
  obind (binop PrimFloat.add b a) (fun den =>
  obind (binop PrimFloat.div num den) (fun q =>
  Ok (amap nan_to_num q)))) = Ok r' ->
  wf_array a -> wf_array b ->
  shape r' = shape r /\ Forall2 opposite (data r) (data r').
Proof.
  intros H H' Wa Wb.
  destruct (index_raster_form a b r H Wa Wb) as [s [Hs ->]].
  destruct (index_raster_form b a r' H' Wb Wa) as [s' [Hs' ->]].
  rewrite broadcast_shapes_comm in Hs'.
  assert (s' = s) by congruence. subst s'. simpl.
  split; [reflexivity |].
  apply zip_with_swap_Forall2. exact index_px_swap.
Qed.

Ltac step_bind H :=
  match type of H with
  | obind ?c _ = Ok _ =>
      let x := fresh "x" in
      let Hx := fresh "Hx" in
      destruct c as [x |] eqn:Hx; [cbn [obind] in H | discriminate H]
  end.

Section Mirror.

Context {E : Externals}.

Local Open Scope Z_scope.

(** The statistics fields of the three indices, as the code computes them. *)
Lemma index_statistics_inv (dv dm db : ndarray float) (r : results) :
  change_statistics dv dm db = Ok r ->
  let n := size (cva_magnitude r) in
  let gain := (fun x => 0.1 <? x)%float in
  let loss := (fun x => x <? -0.1)%float in
  ndvi_change r = dv /\ ndmi_change r = dm /\ ndbi_change r = db /\
  (np_max dv = Ok (NDVI.max_change (ndvi (statistics r))) /\
   np_min dv = Ok (NDVI.min_change (ndvi (statistics r))) /\
   NDVI.vegetation_gain (ndvi (statistics r)) = percent (count gain (data dv)) n /\
   NDVI.vegetation_loss (ndvi (statistics r)) = percent (count loss (data dv)) n) /\
  (np_max dm = Ok (NDMI.max_change (ndmi (statistics r))) /\
   np_min dm = Ok (NDMI.min_change (ndmi (statistics r))) /\
   NDMI.moisture_gain (ndmi (statistics r)) = percent (count gain (data dm)) n /\
   NDMI.moisture_loss (ndmi (statistics r)) = percent (count loss (data dm)) n) /\
  (np_max db = Ok (NDBI.max_change (ndbi (statistics r))) /\
   np_min db = Ok (NDBI.min_change (ndbi (statistics r))) /\
   NDBI.urban_expansion (ndbi (statistics r)) = percent (count gain (data db)) n /\
   NDBI.urban_reduction (ndbi (statistics r)) = percent (count loss (data db)) n).
Proof.
  intros H. unfold change_statistics in H. cbv beta zeta in H.
  do 12 inv_bind H.
  injection H as <-. cbn.
  unfold percent_where. rewrite !np_sum_bool_amap.
  repeat split; assumption.
Qed.


Lemma bcast_Forall2 {A B} (P : A -> B -> Prop) (s : list nat)
    (a : ndarray A) (b : ndarray B) :
  shape b = shape a -> Forall2 P (data a) (data b) ->
  Forall2 P (bcast s a) (bcast s b).
Proof.
  intros Hs H. unfold bcast. rewrite Hs. now apply broadcast_to_Forall2.
Qed.

(** The change of two mirrored index rasters is mirrored. *)
Lemma change_raster_mirror (m2 m1 b2 b1 dm db : ndarray float) :
  binop PrimFloat.sub m2 m1 = Ok dm ->
  binop PrimFloat.sub b2 b1 = Ok db ->
  shape b2 = shape m2 /\ Forall2 opposite (data m2) (data b2) ->
  shape b1 = shape m1 /\ Forall2 opposite (data m1) (data b1) ->
  shape db = shape dm /\ Forall2 opposite (data dm) (data db).
Proof.
  intros Hm Hb [S2 F2] [S1 F1].
  apply binop_inv in Hm as [s [Hs ->]].
  apply binop_inv in Hb as [s' [Hs' ->]].
  rewrite S2, S1 in Hs'. assert (s' = s) by congruence. subst s'.
  simpl. split; [reflexivity |].
  apply (zip_with_Forall2 opposite opposite opposite).
  - intros. now apply sub_opposite.
  - now apply bcast_Forall2.
  - now apply bcast_Forall2.
Qed.

Lemma ndbi_mirrors_ndmi (nir swir : raster) (m b : ndarray float) :
  calculate_ndmi nir swir = Ok m -> calculate_ndbi swir nir = Ok b ->
  wf_raster nir -> wf_raster swir ->
  shape b = shape m /\ Forall2 opposite (data m) (data b).
Proof.
  intros Hm Hb Wn Ws.
  exact (index_raster_swap _ _ _ _ Hm Hb (astype_float_wf _ Wn) (astype_float_wf _ Ws)).
Qed.

(** In any run, the NDBI change raster mirrors the NDMI change raster. *)
Lemma index_changes_mirror (bands1 bands2 : dict) (dv dm db : ndarray float) :
  index_changes bands1 bands2 = Ok (dv, dm, db) ->
  rasters_wf bands1 -> rasters_wf bands2 ->
  shape db = shape dm /\ Forall2 opposite (data dm) (data db).
Proof.
  intros H W1 W2. unfold index_changes in H.
  repeat step_bind H.
  injection H as <- <- <-.
  match goal with
  | M1 : calculate_ndmi ?n1 ?s1 = Ok ?m1, B1 : calculate_ndbi ?s1 ?n1 = Ok ?b1,
    M2 : calculate_ndmi ?n2 ?s2 = Ok ?m2, B2 : calculate_ndbi ?s2 ?n2 = Ok ?b2,
    DM : binop PrimFloat.sub ?m2 ?m1 = Ok ?dm,
    DB : binop PrimFloat.sub ?b2 ?b1 = Ok ?db |- shape ?db = shape ?dm /\ _ =>
      apply (change_raster_mirror m2 m1 b2 b1 dm db DM DB);
      [ apply (ndbi_mirrors_ndmi n2 s2 m2 b2 M2 B2)
      | apply (ndbi_mirrors_ndmi n1 s1 m1 b1 M1 B1) ];
      eauto using rasters_wf_get
  end.
Qed.

(** Counting over two mirrored rasters. *)
Lemma opposite_ltb (x y a b : float) :
  opposite x y -> opposite a b -> finite x -> finite a ->
  (a <? y)%float = (x <? b)%float.
Proof.
  intros Hxy Hab Fx Fa.
  pose proof (opposite_finite _ _ Hxy Fx) as Fy.
  pose proof (opposite_finite _ _ Hab Fa) as Fb.
  rewrite (ltb_R a y), (ltb_R x b) by now apply finite_not_nan.
  rewrite (opposite_R _ _ Hxy Fx), (opposite_R _ _ Hab Fa).
  destruct (Z.ltb_spec (R a) (- R x)), (Z.ltb_spec (R x) (- R a)); try reflexivity; lia.
Qed.

Lemma opposite_tenth : opposite 0.1 (-0.1).
Proof. unfold opposite. vm_compute. repeat split. Qed.

Lemma finite_tenth : finite 0.1.
Proof. split; reflexivity. Qed.

Lemma count_mirror (l l' : list float) :
  Forall2 opposite l l' -> Forall finite l ->
  count (fun x => 0.1 <? x)%float l' = count (fun x => x <? -0.1)%float l /\
  count (fun x => x <? -0.1)%float l' = count (fun x => 0.1 <? x)%float l.
Proof.
  intros H F. induction H as [| x y l l' Hxy H IH].
  - split; reflexivity.
  - inversion F as [| ? ? Fx Fl]; subst. destruct (IH Fl) as [IH1 IH2].
    rewrite !count_cons, IH1, IH2.
    rewrite (opposite_ltb x y 0.1 (-0.1) Hxy opposite_tenth Fx finite_tenth).
    pose proof (opposite_finite _ _ Hxy Fx) as Fy.
    rewrite <- (opposite_ltb y x 0.1 (-0.1) (opposite_sym _ _ Hxy) opposite_tenth
                  Fy finite_tenth).
    split; reflexivity.
Qed.

Lemma Forall2_In_l {A B} (P : A -> B -> Prop) (l : list A) (l' : list B) (x : A) :
  Forall2 P l l' -> In x l -> exists y, In y l' /\ P x y.
Proof.
  induction 1 as [| a b l l' Hab H IH]; simpl; [contradiction |].
  intros [<- | Hin]; [eauto |].
  destruct (IH Hin) as [y [Hy Py]]. eauto.
Qed.

Lemma Forall2_In_r {A B} (P : A -> B -> Prop) (l : list A) (l' : list B) (y : B) :
  Forall2 P l l' -> In y l' -> exists x, In x l /\ P x y.
Proof.
  induction 1 as [| a b l l' Hab H IH]; simpl; [contradiction |].
  intros [<- | Hin]; [eauto |].
  destruct (IH Hin) as [x [Hx Px]]. eauto.
Qed.

Lemma Forall2_finite_r (l l' : list float) :
  Forall2 opposite l l' -> Forall finite l -> Forall finite l'.
Proof.
  induction 1 as [| x y l l' Hxy H IH]; intros F; [constructor |].
  inversion F; subst. constructor; [eapply opposite_finite; eauto | auto].
Qed.

(** The largest value of one raster is the smallest of its mirror, negated. *)
Lemma extremes_mirror (l l' : list float) (lo hi' : float) :
  Forall2 opposite l l' -> Forall finite l ->
  reduce np_minimum l = Ok lo -> reduce np_maximum l' = Ok hi' ->
  finite lo /\ finite hi' /\ R hi' = - R lo.
Proof.
  intros H F Hlo Hhi.
  pose proof (Forall2_finite_r _ _ H F) as F'.
  destruct (reduce_minimum_spec _ _ F Hlo) as [Flo [Ilo Alo]].
  destruct (reduce_maximum_spec _ _ F' Hhi) as [Fhi [Ihi Ahi]].
  split; [exact Flo |]. split; [exact Fhi |].
  rewrite Forall_forall in Alo, Ahi, F.
  destruct (Forall2_In_l _ _ _ _ H Ilo) as [y [Iy Oy]].
  destruct (Forall2_In_r _ _ _ _ H Ihi) as [x [Ix Ox]].
  pose proof (opposite_R _ _ Oy Flo). pose proof (opposite_R _ _ Ox (F _ Ix)).
  pose proof (Alo _ Ix). pose proof (Ahi _ Iy). lia.
Qed.

Lemma extremes_mirror' (l l' : list float) (hi lo' : float) :
  Forall2 opposite l l' -> Forall finite l ->
  reduce np_maximum l = Ok hi -> reduce np_minimum l' = Ok lo' ->
  finite hi /\ finite lo' /\ R lo' = - R hi.
Proof.
  intros H F Hhi Hlo.
  pose proof (Forall2_finite_r _ _ H F) as F'.
  destruct (reduce_maximum_spec _ _ F Hhi) as [Fhi [Ihi Ahi]].
  destruct (reduce_minimum_spec _ _ F' Hlo) as [Flo [Ilo Alo]].
  split; [exact Fhi |]. split; [exact Flo |].
  rewrite Forall_forall in Alo, Ahi, F.
  destruct (Forall2_In_l _ _ _ _ H Ihi) as [y [Iy Oy]].
  destruct (Forall2_In_r _ _ _ _ H Ilo) as [x [Ix Ox]].
  pose proof (opposite_R _ _ Oy Fhi). pose proof (opposite_R _ _ Ox (F _ Ix)).
  pose proof (Ahi _ Ix). pose proof (Alo _ Iy). lia.
Qed.

(** Two finite floats of opposite ranks: one equals the other negated. *)
Lemma eqb_opp (x y : float) :
  finite x -> finite y -> R y = - R x -> (y =? - x)%float = true.
Proof.
  intros Fx Fy H.
  pose proof (opp_opposite x) as O.
  pose proof (opposite_finite _ _ O Fx) as Fo.
  rewrite eqb_R by now apply finite_not_nan.
  rewrite (opposite_R _ _ O Fx), H. apply Z.eqb_refl.
Qed.

Lemma opposite_eqb (x y : float) :
  opposite x y -> finite x -> finite x /\ finite y /\ (y =? - x)%float = true.
Proof.
  intros O Fx. pose proof (opposite_finite _ _ O Fx) as Fy.
  split; [exact Fx |]. split; [exact Fy |].
  apply eqb_opp; auto. now apply opposite_R.
Qed.

End Mirror.

Section MirrorTheorems.

Context {E : Externals}.

Local Open Scope Z_scope.

(** An index computation returns exactly when the two shapes broadcast. *)
Lemma index_raster_total (a b : ndarray float) (s : list nat) :
  broadcast_shapes (shape a) (shape b) = Some s ->
  wf_array a -> wf_array b ->
  obind (binop PrimFloat.sub a b) (fun num =>
  obind (binop PrimFloat.add a b) (fun den =>
  obind (binop PrimFloat.div num den) (fun q =>
  Ok (amap nan_to_num q)))) =
  Ok (mk_array s (zip_with index_px (bcast s a) (bcast s b))).
Proof.
  intros Hs Wa Wb.
  destruct (bcast_length a b s Hs) as [La Lb].
  specialize (La Wa). specialize (Lb Wb).
  unfold binop at 1. rewrite Hs. cbn [obind].
  unfold binop at 1. rewrite Hs. cbn [obind].
  fold (bcast s a). fold (bcast s b).
  rewrite binop_same_shape; simpl;
    try reflexivity;
    try (unfold wf_array, size; simpl; rewrite zip_with_length_min; lia).
  unfold amap; simpl. now rewrite zip_with_fuse, map_zip_with.
Qed.

Lemma Forall2_opposite_eqb (l l' : list float) :
  Forall2 opposite l l' -> Forall finite l ->
  Forall2 (fun x y => finite x /\ finite y /\ (y =? - x)%float = true) l l'.
Proof.
  induction 1 as [| x y l l' Hxy H IH]; intros F; [constructor |].
  inversion F; subst. constructor; [now apply opposite_eqb | auto].
Qed.

Lemma within_finite (k : Z) (l : list float) :
  Forall (within k) l -> Forall finite l.
Proof. apply Forall_impl. now intros x [F _]. Qed.

End MirrorTheorems.

(** X1. Whenever [calculate_ndmi(nir, swir)] returns, so does
    [calculate_ndbi(swir, nir)], on a raster of the same shape, and every
    pixel of the built-up index equals the negated pixel of the moisture
    index (as numbers: [0.0] and [-0.0] are equal). *)
Theorem ndbi_is_negated_ndmi :
  forall (nir swir : raster) (m : ndarray float),
    wf_raster nir -> wf_raster swir ->
    calculate_ndmi nir swir = Ok m ->
    exists b,
      calculate_ndbi swir nir = Ok b /\
      shape b = shape m /\
      Forall2 (fun x y => finite x /\ finite y /\ (y =? - x)%float = true)
        (data m) (data b).
Proof.
  intros nir swir m Wn Ws Hm.
  pose proof (astype_float_wf _ Wn) as Wa. pose proof (astype_float_wf _ Ws) as Wb.
  destruct (index_raster_form _ _ _ Hm Wa Wb) as [s [Hs Em]].
  rewrite broadcast_shapes_comm in Hs.
  pose proof (index_raster_total _ _ s Hs Wb Wa) as Hb.
  eexists. split; [exact Hb |].
  destruct (ndbi_mirrors_ndmi nir swir m _ Hm Hb Wn Ws) as [S F].
  split; [exact S |].
  apply Forall2_opposite_eqb; [exact F |].
  destruct (calculate_ndmi_inv _ _ _ Hm Wn Ws) as [_ Fm].
  exact (within_finite _ _ Fm).
Qed.

Lemma ndbi_is_negated_ndmi_witness :
  exists b,
    calculate_ndbi
      (u8 [2; 2] [1; 2; 3; 4]%Z) (u8 [1; 2] [10; 0]%Z) = Ok b /\
    shape b = [2; 2]%nat /\
    Forall2 (fun x y => finite x /\ finite y /\ (y =? - x)%float = true)
      [0.81818181818181823; -1; 0.53846153846153844; -1]%float (data b).
Proof.
  destruct (ndbi_is_negated_ndmi
              (u8 [1; 2] [10; 0]%Z) (u8 [2; 2] [1; 2; 3; 4]%Z)
              (mk_array [2; 2]%nat
                 [0.81818181818181823; -1; 0.53846153846153844; -1]%float))
    as [b [Hb [Hs Hf]]].
  - repeat constructor; simpl; lia.
  - repeat constructor; simpl; lia.
  - vm_compute. reflexivity.
  - exists b. split; [exact Hb |]. split; [exact Hs | exact Hf].
Defined.

(** In a run, the NDBI statistics repeat the NDMI ones. *)
Lemma ndbi_fields_mirror :
  forall (E : Externals) (bands1 bands2 st : dict) (r : results),
    rasters_wf bands1 -> rasters_wf st ->
    detect_changes_with_real_bands bands1 bands2 = (st, Ok r) ->
    let m := ndmi (statistics r) in
    let b := ndbi (statistics r) in
    shape (ndbi_change r) = shape (ndmi_change r) /\
    Forall2 (fun x y => finite x /\ finite y /\ (y =? - x)%float = true)
      (data (ndmi_change r)) (data (ndbi_change r)) /\
    NDBI.urban_expansion b = NDMI.moisture_loss m /\
    NDBI.urban_reduction b = NDMI.moisture_gain m /\
    (NDBI.max_change b =? - NDMI.min_change m)%float = true /\
    (NDBI.min_change b =? - NDMI.max_change m)%float = true.
Proof.
  intros E bands1 bands2 st r W1 W2 Hrun m b.
  destruct (detect_inv _ _ _ _ Hrun) as (dv & dm & db & Hc & Hs).
  destruct (index_changes_inv _ _ _ _ _ Hc W1 W2) as (_ & [_ Fm] & _).
  apply within_finite in Fm.
  destruct (index_changes_mirror _ _ _ _ _ Hc W1 W2) as [S F].
  destruct (index_statistics_inv _ _ _ _ Hs)
    as (_ & -> & -> & _ & (Mx & Mn & Mg & Ml) & (Bx & Bn & Be & Br)).
  fold m in Mx, Mn, Mg, Ml. fold b in Bx, Bn, Be, Br.
  destruct (count_mirror _ _ F Fm) as [C1 C2].
  destruct (extremes_mirror _ _ _ _ F Fm Mn Bx) as (F1 & F2 & R1).
  destruct (extremes_mirror' _ _ _ _ F Fm Mx Bn) as (F3 & F4 & R2).
  split; [exact S |].
  split; [now apply Forall2_opposite_eqb |].
  split; [rewrite Be, Ml, C1; reflexivity |].
  split; [rewrite Br, Mg, C2; reflexivity |].
  split; now apply eqb_opp.
Qed.

(** X2. In every run that returns, the built-up change raster is the
    negated moisture change raster, pixel by pixel, and so the NDBI
    statistics repeat the NDMI ones: [urban_expansion] equals
    [moisture_loss], [urban_reduction] equals [moisture_gain], the largest
    NDBI change is the negated smallest NDMI change and the smallest NDBI
    change the negated largest NDMI change. *)
Theorem ndbi_statistics_mirror_ndmi :
  forall (E : Externals) (bands1 bands2 st : dict) (r : results),
    rasters_wf bands1 -> rasters_wf st ->
    detect_changes_with_real_bands bands1 bands2 = (st, Ok r) ->
    let m := ndmi (statistics r) in
    let b := ndbi (statistics r) in
    shape (ndbi_change r) = shape (ndmi_change r) /\
    Forall2 (fun x y => finite x /\ finite y /\ (y =? - x)%float = true)
      (data (ndmi_change r)) (data (ndbi_change r)) /\
    NDBI.urban_expansion b = NDMI.moisture_loss m /\
    NDBI.urban_reduction b = NDMI.moisture_gain m /\
    (NDBI.max_change b =? - NDMI.min_change m)%float = true /\
    (NDBI.min_change b =? - NDMI.max_change m)%float = true.
Proof.
  intros E bands1 bands2 st r W1 W2 Hrun.
  exact (ndbi_fields_mirror E bands1 bands2 st r W1 W2 Hrun).
Qed.

(** Half of the scene dries out between T1 and T2. *)
Definition ex_dry : dict :=
  bands_of (u8 [2; 2] [10; 20; 30; 40]%Z) (u8 [2; 2] [5; 20; 3; 4]%Z)
    (u8 [2; 2] [10; 20; 3; 4]%Z).

Lemma ex_dry_rasters : rasters_wf ex_dry.
Proof.
  repeat constructor; simpl; lia.
Qed.

Lemma ndbi_statistics_mirror_ndmi_witness :
  exists r,
    detect_changes_with_real_bands (E := sample_externals) ex_bands1 ex_dry
      = (ex_dry, Ok r) /\
    NDMI.moisture_loss (ndmi (statistics r)) = 50%float /\
    NDBI.urban_expansion (ndbi (statistics r)) = 50%float /\
    NDMI.min_change (ndmi (statistics r)) = (-0.81818181818181823)%float /\
    NDBI.max_change (ndbi (statistics r)) = 0.81818181818181823%float /\
    NDBI.urban_expansion (ndbi (statistics r)) = NDMI.moisture_loss (ndmi (statistics r)) /\
    NDBI.urban_reduction (ndbi (statistics r)) = NDMI.moisture_gain (ndmi (statistics r)) /\
    (NDBI.max_change (ndbi (statistics r)) =? - NDMI.min_change (ndmi (statistics r)))%float
      = true /\
    Forall2 (fun x y => finite x /\ finite y /\ (y =? - x)%float = true)
      [-0.81818181818181823; -0.81818181818181823; 0; 0]%float
      (data (ndbi_change r)).
Proof.
  eexists. split; [vm_compute; reflexivity |].
  split; [vm_compute; reflexivity |]. split; [vm_compute; reflexivity |].
  split; [vm_compute; reflexivity |]. split; [vm_compute; reflexivity |].
  match goal with
  | |- NDBI.urban_expansion (ndbi (statistics ?r)) = _ /\ _ =>
      destruct (ndbi_statistics_mirror_ndmi sample_externals
                  ex_bands1 ex_dry ex_dry r
                  ex_bands1_rasters ex_dry_rasters eq_refl)
        as (_ & Hpx & H1 & H2 & H3 & _)
  end.
  split; [exact H1 |]. split; [exact H2 |]. split; [exact H3 | exact Hpx].
Defined.

(** * Reversing the time order *)

Lemma sub_swap (x y : float) : opposite (x - y) (y - x).
Proof.
  unfold opposite. rewrite !FloatAxioms.sub_spec. apply SFsub_swap.
Qed.

Lemma SFmul_square_mirrored (X Y : spec_float) :
  mirrored X Y -> SFmul prec emax X X = SFmul prec emax Y Y.
Proof.
  destruct X as [s | s | | s m e], Y as [s' | s' | | s' m' e']; simpl;
    try contradiction; try reflexivity.
  - now destruct s, s'.
  - intros ->. now destruct s.
  - intros [-> [-> ->]]. now destruct s.
Qed.

Lemma square_opposite (x y : float) : opposite x y -> (x * x = y * y)%float.
Proof.
  intros H. rewrite <- (SF2Prim_Prim2SF (x * x)), <- (SF2Prim_Prim2SF (y * y)).
  rewrite !FloatAxioms.mul_spec. f_equal. now apply SFmul_square_mirrored.
Qed.

Lemma map_square_opposite (l l' : list float) :
  Forall2 opposite l l' ->
  map (fun x => x * x)%float l' = map (fun x => x * x)%float l.
Proof.
  induction 1 as [| x y l l' Hxy _ IH]; simpl; [reflexivity |].
  now rewrite IH, (square_opposite x y Hxy).
Qed.

(** The two differences of two rasters. *)
Lemma change_raster_swap (a b d : ndarray float) :
  binop PrimFloat.sub a b = Ok d ->
  exists d',
    binop PrimFloat.sub b a = Ok d' /\
    shape d' = shape d /\ Forall2 opposite (data d) (data d').
Proof.
  intros H. apply binop_inv in H as [s [Hs ->]].
  unfold binop. rewrite broadcast_shapes_comm, Hs.
  eexists. split; [reflexivity |]. simpl. split; [reflexivity |].
  apply zip_with_swap_Forall2. exact sub_swap.
Qed.

Lemma reduce_returns (f : float -> float -> float) (l l' : list float) (x : float) :
  reduce f l = Ok x -> length l' = length l -> exists y, reduce f l' = Ok y.
Proof.
  destruct l as [| a l]; [discriminate |].
  destruct l' as [| b l']; [discriminate |]. simpl. eauto.
Qed.

Lemma Forall2_length_eq {A B} (P : A -> B -> Prop) (l : list A) (l' : list B) :
  Forall2 P l l' -> length l' = length l.
Proof. induction 1; simpl; congruence. Qed.

Section Reverse.

Context {E : Externals}.

Lemma index_changes_reverse (bands1 bands2 : dict) (dv dm db : ndarray float) :
  index_changes bands1 bands2 = Ok (dv, dm, db) ->
  exists dv' dm' db',
    index_changes bands2 bands1 = Ok (dv', dm', db') /\
    (shape dv' = shape dv /\ Forall2 opposite (data dv) (data dv')) /\
    (shape dm' = shape dm /\ Forall2 opposite (data dm) (data dm')) /\
    (shape db' = shape db /\ Forall2 opposite (data db) (data db')).
Proof.
  intros H. unfold index_changes in H.
  repeat step_bind H.
  injection H as <- <- <-.
  unfold index_changes.
  repeat match goal with
         | Hx : dict_get _ _ = Ok _ |- _ => rewrite Hx; clear Hx
         end.
  cbn [obind].
  repeat match goal with
         | Hx : calculate_ndvi _ _ = Ok _ |- _ => rewrite Hx; clear Hx
         | Hx : calculate_ndmi _ _ = Ok _ |- _ => rewrite Hx; clear Hx
         | Hx : calculate_ndbi _ _ = Ok _ |- _ => rewrite Hx; clear Hx
         end.
  cbn [obind].
  repeat match goal with
         | Hx : binop PrimFloat.sub _ _ = Ok _ |- _ =>
             apply change_raster_swap in Hx as (? & Hx & ? & ?);
             rewrite Hx; clear Hx; cbn [obind]
         end.
  eexists _, _, _. split; [reflexivity |]. auto.
Qed.

End Reverse.

Section ReverseStatistics.

Context {E : Externals}.

Local Open Scope Z_scope.

Definition mirror_raster (a a' : ndarray float) : Prop :=
  shape a' = shape a /\ Forall2 opposite (data a) (data a').

Lemma amap_square_mirror (a a' : ndarray float) :
  mirror_raster a a' ->
  amap (fun x => x * x)%float a' = amap (fun x => x * x)%float a.
Proof.
  intros [S F]. unfold amap. rewrite S. f_equal. now apply map_square_opposite.
Qed.

(** The extreme values and the gain and loss percentages of a raster and
    of its mirror. *)
Lemma index_fields_mirror (a a' : ndarray float) (n : nat) (hi lo : float) :
  mirror_raster a a' -> Forall finite (data a) ->
  np_max a = Ok hi -> np_min a = Ok lo ->
  exists hi' lo',
    np_max a' = Ok hi' /\ np_min a' = Ok lo' /\
    (hi' =? - lo)%float = true /\ (lo' =? - hi)%float = true /\
    percent_where (fun x => 0.1 <? x)%float a' n =
      percent_where (fun x => x <? -0.1)%float a n /\
    percent_where (fun x => x <? -0.1)%float a' n =
      percent_where (fun x => 0.1 <? x)%float a n.
Proof.
  intros [S F] Fa Hhi Hlo. unfold np_max, np_min in *.
  destruct (reduce_returns np_maximum _ (data a') _ Hhi (Forall2_length_eq _ _ _ F))
    as [hi' Hhi'].
  destruct (reduce_returns np_minimum _ (data a') _ Hlo (Forall2_length_eq _ _ _ F))
    as [lo' Hlo'].
  exists hi', lo'. split; [exact Hhi' |]. split; [exact Hlo' |].
  destruct (extremes_mirror _ _ _ _ F Fa Hlo Hhi') as (F1 & F2 & R1).
  destruct (extremes_mirror' _ _ _ _ F Fa Hhi Hlo') as (F3 & F4 & R2).
  destruct (count_mirror _ _ F Fa) as [C1 C2].
  split; [now apply eqb_opp |]. split; [now apply eqb_opp |].
  unfold percent_where. rewrite !np_sum_bool_amap, C1, C2. split; reflexivity.
Qed.

Lemma change_statistics_reverse (dv dm db dv' dm' db' : ndarray float) (r : results) :
  change_statistics dv dm db = Ok r ->
  mirror_raster dv dv' -> mirror_raster dm dm' -> mirror_raster db db' ->
  Forall finite (data dv) -> Forall finite (data dm) -> Forall finite (data db) ->
  exists r',
    change_statistics dv' dm' db' = Ok r' /\
    ndvi_change r' = dv' /\ ndmi_change r' = dm' /\ ndbi_change r' = db' /\
    cva_magnitude r' = cva_magnitude r /\
    cva (statistics r') = cva (statistics r) /\
    (NDVI.vegetation_gain (ndvi (statistics r')) = NDVI.vegetation_loss (ndvi (statistics r)) /\
     NDVI.vegetation_loss (ndvi (statistics r')) = NDVI.vegetation_gain (ndvi (statistics r)) /\
     (NDVI.max_change (ndvi (statistics r')) =? - NDVI.min_change (ndvi (statistics r)))%float = true /\
     (NDVI.min_change (ndvi (statistics r')) =? - NDVI.max_change (ndvi (statistics r)))%float = true) /\
    (NDMI.moisture_gain (ndmi (statistics r')) = NDMI.moisture_loss (ndmi (statistics r)) /\
     NDMI.moisture_loss (ndmi (statistics r')) = NDMI.moisture_gain (ndmi (statistics r)) /\
     (NDMI.max_change (ndmi (statistics r')) =? - NDMI.min_change (ndmi (statistics r)))%float = true /\
     (NDMI.min_change (ndmi (statistics r')) =? - NDMI.max_change (ndmi (statistics r)))%float = true) /\
    (NDBI.urban_expansion (ndbi (statistics r')) = NDBI.urban_reduction (ndbi (statistics r)) /\
     NDBI.urban_reduction (ndbi (statistics r')) = NDBI.urban_expansion (ndbi (statistics r)) /\
     (NDBI.max_change (ndbi (statistics r')) =? - NDBI.min_change (ndbi (statistics r)))%float = true /\
     (NDBI.min_change (ndbi (statistics r')) =? - NDBI.max_change (ndbi (statistics r)))%float = true).
Proof.
  intros H Mv Mm Mb Fv Fm Fb.
  unfold change_statistics in H |- *. cbv beta zeta in H |- *.
  rewrite (amap_square_mirror _ _ Mv), (amap_square_mirror _ _ Mm),
    (amap_square_mirror _ _ Mb).
  do 12 inv_bind H. injection H as <-.
  assert (v3 = v1) by congruence. subst v3.
  rewrite Hv; cbn [obind]. rewrite Hv0; cbn [obind].
  rewrite Hv1; cbn [obind]. rewrite Hv2; cbn [obind].
  match goal with
  | |- context [percent_where _ dv' ?n] =>
      destruct (index_fields_mirror dv dv' n _ _ Mv Fv Hv4 Hv5)
        as (vx & vn & Hvx & Hvn & V1 & V2 & V3 & V4);
      destruct (index_fields_mirror dm dm' n _ _ Mm Fm Hv6 Hv7)
        as (mx & mn & Hmx & Hmn & M1 & M2 & M3 & M4);
      destruct (index_fields_mirror db db' n _ _ Mb Fb Hv8 Hv9)
        as (bx & bn & Hbx & Hbn & B1 & B2 & B3 & B4)
  end.
  rewrite Hvx, Hvn, Hmx, Hmn, Hbx, Hbn, Hv10. cbn [obind].
  eexists. split; [reflexivity |]. cbn.
  repeat split; assumption || reflexivity.
Qed.

End ReverseStatistics.

(** A raster and its negation, pixel by pixel. *)
Definition negated (a a' : ndarray float) : Prop :=
  shape a' = shape a /\
  Forall2 (fun x y => finite x /\ finite y /\ (y =? - x)%float = true) (data a) (data a').

Lemma mirror_negated (a a' : ndarray float) :
  mirror_raster a a' -> Forall finite (data a) -> negated a a'.
Proof.
  intros [S F] Fa. split; [exact S |]. now apply Forall2_opposite_eqb.
Qed.

(** X3. With the two scenes in the other order (their 'nir' rasters of one
    shape, so that nothing is resampled), a run that returned returns again:
    the three change rasters are negated, gain and loss percentages and
    the negated extreme changes trade places, and the normalized magnitude
    raster and the change-vector statistics are the same. *)
Theorem reversing_the_scenes_swaps_gain_and_loss :
  forall (E : Externals) (bands1 bands2 : dict) (nir1 nir2 : raster) (r : results),
    rasters_wf bands1 -> rasters_wf bands2 ->
    dict_get "nir" bands1 = Ok nir1 -> dict_get "nir" bands2 = Ok nir2 ->
    rshape nir1 = rshape nir2 ->
    detect_changes_with_real_bands bands1 bands2 = (bands2, Ok r) ->
    exists r',
      detect_changes_with_real_bands bands2 bands1 = (bands1, Ok r') /\
      negated (ndvi_change r) (ndvi_change r') /\
      negated (ndmi_change r) (ndmi_change r') /\
      negated (ndbi_change r) (ndbi_change r') /\
      cva_magnitude r' = cva_magnitude r /\
      cva (statistics r') = cva (statistics r) /\
      (NDVI.vegetation_gain (ndvi (statistics r')) = NDVI.vegetation_loss (ndvi (statistics r)) /\
       NDVI.vegetation_loss (ndvi (statistics r')) = NDVI.vegetation_gain (ndvi (statistics r)) /\
       (NDVI.max_change (ndvi (statistics r')) =? - NDVI.min_change (ndvi (statistics r)))%float = true /\
       (NDVI.min_change (ndvi (statistics r')) =? - NDVI.max_change (ndvi (statistics r)))%float = true) /\
      (NDMI.moisture_gain (ndmi (statistics r')) = NDMI.moisture_loss (ndmi (statistics r)) /\
       NDMI.moisture_loss (ndmi (statistics r')) = NDMI.moisture_gain (ndmi (statistics r)) /\
       (NDMI.max_change (ndmi (statistics r')) =? - NDMI.min_change (ndmi (statistics r)))%float = true /\
       (NDMI.min_change (ndmi (statistics r')) =? - NDMI.max_change (ndmi (statistics r)))%float = true) /\
      (NDBI.urban_expansion (ndbi (statistics r')) = NDBI.urban_reduction (ndbi (statistics r)) /\
       NDBI.urban_reduction (ndbi (statistics r')) = NDBI.urban_expansion (ndbi (statistics r)) /\
       (NDBI.max_change (ndbi (statistics r')) =? - NDBI.min_change (ndbi (statistics r)))%float = true /\
       (NDBI.min_change (ndbi (statistics r')) =? - NDBI.max_change (ndbi (statistics r)))%float = true).
Proof.
  intros E bands1 bands2 nir1 nir2 r W1 W2 G1 G2 Hs Hrun.
  destruct (detect_inv _ _ _ _ Hrun) as (dv & dm & db & Hc & Hst).
  destruct (index_changes_inv _ _ _ _ _ Hc W1 W2) as ([_ Fv] & [_ Fm] & [_ Fb]).
  apply within_finite in Fv, Fm, Fb.
  destruct (index_changes_reverse _ _ _ _ _ Hc) as (dv' & dm' & db' & Hc' & Mv & Mm & Mb).
  destruct (change_statistics_reverse _ _ _ _ _ _ _ Hst Mv Mm Mb Fv Fm Fb)
    as (r' & Hst' & Ev & Em & Eb & Ec & Es & Sv & Sm & Sb).
  destruct (index_statistics_inv _ _ _ _ Hst) as (Dv & Dm & Db & _).
  exists r'. split.
  - rewrite detect_run, (ensure_same_size_equal bands2 bands1 nir2 nir1 G2 G1 (eq_sym Hs)).
    unfold compute_changes. rewrite Hc'. cbn [obind]. now rewrite Hst'.
  - rewrite Ev, Em, Eb, Dv, Dm, Db.
    split; [now apply mirror_negated |]. split; [now apply mirror_negated |].
    split; [now apply mirror_negated |].
    split; [exact Ec |]. split; [exact Es |]. split; [exact Sv |].
    split; [exact Sm | exact Sb].
Qed.

Lemma reversing_the_scenes_swaps_gain_and_loss_witness :
  exists r r',
    detect_changes_with_real_bands (E := sample_externals) ex_bands1 ex_bands2_resized
      = (ex_bands2_resized, Ok r) /\
    detect_changes_with_real_bands (E := sample_externals) ex_bands2_resized ex_bands1
      = (ex_bands1, Ok r') /\
    NDVI.vegetation_gain (ndvi (statistics r')) = NDVI.vegetation_loss (ndvi (statistics r)) /\
    cva (statistics r') = cva (statistics r).
Proof.
  assert (H : exists r,
             detect_changes_with_real_bands (E := sample_externals)
               ex_bands1 ex_bands2_resized = (ex_bands2_resized, Ok r))
    by (eexists; vm_compute; reflexivity).
  destruct H as [r H].
  destruct (reversing_the_scenes_swaps_gain_and_loss sample_externals
              ex_bands1 ex_bands2_resized _ _ r
              ex_bands1_rasters ex_bands2_resized_rasters eq_refl eq_refl eq_refl H)
    as (r' & H' & _ & _ & _ & _ & Hc & (Hg & _) & _).
  exists r, r'. split; [exact H |]. split; [exact H' |]. split; [exact Hg | exact Hc].
Defined.

Lemma change_statistics_empty {E : Externals} (s : list nat) :
  prod_shape s = 0%nat ->
  change_statistics (mk_array s []) (mk_array s []) (mk_array s []) = Raise ValueError.
Proof.
  intros H0. unfold change_statistics. cbv beta zeta.
  assert (W : wf_array (mk_array s (@nil float))) by (unfold wf_array, size; simpl; lia).
  rewrite binop_same_shape; try reflexivity; try (apply amap_wf; exact W).
  cbn [obind]. rewrite binop_same_shape; try reflexivity;
    try (apply amap_wf; exact W); try (unfold wf_array, size; simpl; lia).
Qed.

(** X4. Two band sets of one shape that holds no pixel (an extent is 0)
    are rejected: the call raises [ValueError], at the minimum of the empty
    magnitude raster, and leaves the T2 mapping as it was. *)
Theorem empty_scene_raises_value_error :
  forall (E : Externals) (s : list nat) (bands1 bands2 : dict)
         (n1 r1 s1 n2 r2 s2 : raster),
    band_set s bands1 n1 r1 s1 ->
    band_set s bands2 n2 r2 s2 ->
    prod_shape s = 0%nat ->
    detect_changes_with_real_bands bands1 bands2 = (bands2, Raise ValueError).
Proof.
  intros E s bands1 bands2 n1 r1 s1 n2 r2 s2 B1 B2 H0.
  rewrite detect_run.
  rewrite (ensure_same_size_equal bands1 bands2 n1 n2);
    try (destruct B1, B2; congruence).
  unfold compute_changes.
  rewrite (index_changes_same s _ _ _ _ _ _ _ _ B1 B2). cbn [obind].
  destruct B1 as [_ _ _ S1 S2 S3 W1 W2 W3], B2 as [_ _ _ S4 S5 S6 W4 W5 W6].
  pose proof (change_of_length s n1 r1 n2 r2 W1 W2 W4 W5 S1 S2 S4 S5) as L1.
  pose proof (change_of_length s n1 s1 n2 s2 W1 W3 W4 W6 S1 S3 S4 S6) as L2.
  pose proof (change_of_length s s1 n1 s2 n2 W3 W1 W6 W4 S3 S1 S6 S4) as L3.
  rewrite H0 in L1, L2, L3.
  apply length_zero_iff_nil in L1, L2, L3. rewrite L1, L2, L3.
  now rewrite change_statistics_empty.
Qed.

Definition ex_empty1 : dict :=
  bands_of (u8 [0; 3] []) (u8 [0; 3] []) (u8 [0; 3] []).

Definition ex_empty2 : dict :=
  bands_of (f64 [0; 3] []) (f64 [0; 3] []) (f64 [0; 3] []).

Lemma empty_scene_raises_value_error_witness :
  detect_changes_with_real_bands (E := sample_externals) ex_empty1 ex_empty2
  = (ex_empty2, Raise ValueError).
Proof.
  apply (empty_scene_raises_value_error sample_externals [0; 3]%nat ex_empty1 ex_empty2
           (u8 [0; 3] []) (u8 [0; 3] []) (u8 [0; 3] [])
           (f64 [0; 3] []) (f64 [0; 3] []) (f64 [0; 3] [])).
  - constructor; try reflexivity; (split; [reflexivity | constructor]).
  - constructor; reflexivity.
  - reflexivity.
Defined.

(** * The percentages are percentages *)

Section PercentRange.

Local Open Scope Z_scope.

(** The integers below [2^53] are floats. *)
Lemma int_representable (n : Z) : 0 < n < 2 ^ 53 -> representable (n * pow2 0).
Proof.
  intros Hn.
  pose proof (Z.log2_spec n ltac:(lia)) as [L1 L2].
  pose proof (Z.log2_nonneg n) as L0.
  assert (L3 : Z.log2 n < 53) by (apply Z.log2_lt_pow2; lia).
  set (k := 52 - Z.log2 n).
  assert (Hk : 0 <= k <= 52) by (unfold k; lia).
  assert (Hp : 0 < 2 ^ k) by (apply Z.pow_pos_nonneg; lia).
  assert (E52 : 2 ^ Z.log2 n * 2 ^ k = 2 ^ 52).
  { rewrite <- Z.pow_add_r by lia. f_equal. unfold k. lia. }
  assert (E53 : 2 ^ Z.succ (Z.log2 n) * 2 ^ k = 2 ^ 53).
  { rewrite <- Z.pow_add_r by lia. f_equal. unfold k. lia. }
  assert (Hm : 2 ^ 52 <= n * 2 ^ k < 2 ^ 53) by (split; nia).
  right. destruct (n * 2 ^ k) as [| pm | pm] eqn:Em; try lia.
  exists pm, (- k). split.
  - apply bounded_spec. rewrite (Zdigits2_53 (Zpos pm) Hm). lia.
  - unfold val. rewrite <- Em.
    replace 0 with (- k + k) at 1 by lia.
    rewrite pow2_add by (unfold bias; lia). ring.
Qed.

Lemma Z2float_le (c n : Z) :
  0 <= c -> c < n -> n < 2 ^ 53 ->
  R (Z2float c) <= R (Z2float n).
Proof.
  intros H0 Hc Hn.
  assert (H63 : 2 ^ 53 < 2 ^ 63) by (apply Z.pow_lt_mono_r; lia).
  pose proof (pow2_pos 0 ltac:(unfold bias; lia)) as Hp.
  pose proof (Z2float_sandwich c ltac:(lia)) as Sc.
  pose proof (Z2float_sandwich n ltac:(lia)) as Sn.
  destruct (Z2float_nonneg c ltac:(lia)) as [_ Pc].
  destruct (Z2float_nonneg n ltac:(lia)) as [_ Pn].
  destruct Sc as (_ & _ & _ & _ & Bc). destruct Sn as (_ & _ & _ & _ & Bn).
  assert (Hrep : representable (n * pow2 0)) by (apply int_representable; lia).
  pose proof (proj2 (Bc _ Hrep)) as U. pose proof (proj1 (Bn _ Hrep)) as L.
  rewrite Z.abs_eq in U, L by nia.
  unfold mag in U, L. fold (R (Z2float c)) in U. fold (R (Z2float n)) in L.
  rewrite Z.abs_eq in U, L by lia.
  specialize (U ltac:(nia)). specialize (L ltac:(lia)). lia.
Qed.

(** [float(count / total_pixels * 100)] for a count of at most the total. *)
Lemma percent_range (c : Z) (N : nat) :
  0 <= c <= Z.of_nat N -> 0 < Z.of_nat N < 2 ^ 53 ->
  finite (percent c N) /\ 0 <= R (percent c N) <= R 100.
Proof.
  intros Hc HN.
  assert (H63 : 2 ^ 53 < 2 ^ 63) by (apply Z.pow_lt_mono_r; lia).
  pose proof (pow2_pos 0 ltac:(unfold bias; lia)) as Hp.
  assert (F100 : finite 100) by (split; reflexivity).
  assert (Hall : percent (Z.of_nat N) N = 100%float) by (apply percent_all; lia).
  assert (H100 : finite 100 /\ 0 <= R 100 <= R 100) by (rewrite R_hundred; split; [exact F100 | lia]).
  destruct (Z2float_nonneg c ltac:(lia)) as [Fc Pc].
  destruct (Z2float_nonneg (Z.of_nat N) ltac:(lia)) as [Fn Pn].
  destruct (Z2float_pos (Z.of_nat N) ltac:(lia)) as [mn [en En]].
  assert (Rn : 0 < R (Z2float (Z.of_nat N))).
  { unfold R. rewrite En. cbn [rank cond_Zopp].
    apply finite_fin in Fn. destruct Fn as [V _]. rewrite En in V. simpl in V.
    pose proof (bounded_facts _ _ V). apply val_pos. unfold bias. lia. }
  destruct (Z.eq_dec c (Z.of_nat N)) as [-> | Hne]; [rewrite Hall; exact H100 |].
  pose proof (Z2float_le c (Z.of_nat N) ltac:(lia) ltac:(lia) ltac:(lia)) as Hle.
  destruct (Z.eq_dec (R (Z2float c)) (R (Z2float (Z.of_nat N)))) as [Heq | Hlt].
  { (* the two conversions are one float *)
    assert (Hx : Z2float c = Z2float (Z.of_nat N)).
    { apply Prim2SF_inj. apply rank_inj; try (now apply finite_fin); [exact Heq |].
      fold (R (Z2float c)). lia. }
    unfold percent. rewrite Hx. fold (percent (Z.of_nat N) N). rewrite Hall. exact H100. }
  (* the quotient is at most one *)
  pose proof Fc as Fc'. pose proof Fn as Fn'.
  apply finite_fin in Fc'. apply finite_fin in Fn'.
  destruct (SFdiv_bound _ _ Fc' Fn' ltac:(fold (R (Z2float (Z.of_nat N))); lia))
    as [V [N0 [S1 [_ B]]]].
  fold (R (Z2float c)) (R (Z2float (Z.of_nat N))) in S1, B.
  specialize (S1 ltac:(nia)).
  pose proof (proj2 (B _ (pow2_representable 0 ltac:(lia)))) as U.
  rewrite !Z.abs_eq in U by lia. rewrite pow2_0 in U.
  specialize (U ltac:(rewrite <- pow2_0 in *; nia)).
  rewrite <- pow2_0 in U.
  set (q := (Z2float c / Z2float (Z.of_nat N))%float).
  assert (Eq : Prim2SF q = SFdiv prec emax (Prim2SF (Z2float c)) (Prim2SF (Z2float (Z.of_nat N))))
    by (unfold q; now rewrite FloatAxioms.div_spec).
  rewrite <- Eq in V, N0, S1, U.
  assert (Fq : fin (Prim2SF q))
    by exact (bounded_mag_fin _ _ V N0 (pow2_representable 0 ltac:(lia)) U).
  unfold mag in U. fold (R q) in S1, U. rewrite Z.abs_eq in U by lia.
  change (percent c N) with (q * 100)%float.
  destruct (Z.eq_dec (R q) (pow2 0)) as [E1 | N1].
  { assert (Hq : q = 1%float).
    { apply Prim2SF_inj. apply rank_inj; [exact Fq | | |].
      - apply finite_fin. split; reflexivity.
      - fold (R q) (R 1). now rewrite R_one.
      - fold (R q). lia. }
    rewrite Hq. change (1 * 100)%float with 100%float. exact H100. }
  assert (Fh : fin (Prim2SF 100)) by now apply finite_fin.
  destruct (SFmul_bound _ _ Fq Fh) as [V' [N' [S' B']]].
  fold (R q) (R 100) in S', B'.
  assert (R100 : 0 < R 100) by (rewrite R_hundred; lia).
  specialize (S' ltac:(nia)).
  assert (Hrep : representable (R 100)) by (apply R_representable; [exact F100 | lia]).
  pose proof (proj2 (B' _ Hrep)) as U'.
  rewrite !Z.abs_eq in U' by lia.
  specialize (U' ltac:(rewrite <- pow2_0; nia)).
  assert (Ep : Prim2SF (q * 100) = SFmul prec emax (Prim2SF q) (Prim2SF 100))
    by now rewrite FloatAxioms.mul_spec.
  rewrite <- Ep in V', N', S', U'.
  pose proof (bounded_mag_fin _ _ V' N' Hrep U') as Fp.
  unfold mag in U'. fold (R (q * 100)) in S', U'. rewrite Z.abs_eq in U' by lia.
  split; [now apply fin_finite | lia].
Qed.

Lemma percent_range_floats (c : Z) (N : nat) :
  0 <= c <= Z.of_nat N -> 0 < Z.of_nat N < 2 ^ 53 ->
  (0 <=? percent c N)%float = true /\ (percent c N <=? 100)%float = true.
Proof.
  intros Hc HN. destruct (percent_range c N Hc HN) as [F [H0 H1]].
  pose proof (finite_not_nan _ F) as Nn.
  rewrite (leb_R 0 (percent c N)), (leb_R (percent c N) 100) by (exact Nn || reflexivity).
  change (R 0) with 0. split; apply Z.leb_le; assumption.
Qed.

End PercentRange.

(** An operand of a broadcast holds no more elements than the result,
    unless the result is empty. *)
Lemma fits_prod (t s : list nat) :
  fits t s -> prod_shape s <> 0%nat ->
  (prod_shape t <> 0 /\ prod_shape t <= prod_shape s)%nat.
Proof.
  induction 1 as [| d e t s Hde F IH]; intros Hs.
  - split; [exact Hs | lia].
  - change (prod_shape (e :: s)) with (e * prod_shape s)%nat in *.
    change (prod_shape (d :: t)) with (d * prod_shape t)%nat.
    assert (He : e <> 0%nat) by (intros ->; apply Hs; reflexivity).
    assert (Hps : prod_shape s <> 0%nat) by (intros Hz; apply Hs; rewrite Hz; lia).
    destruct (IH Hps) as [Hn Hle].
    destruct Hde as [-> | ->]; split; nia.
Qed.

Lemma binop_sizes {A B C} (f : A -> B -> C) (a : ndarray A) (b : ndarray B)
    (r : ndarray C) :
  binop f a b = Ok r -> size r <> 0%nat ->
  (size a <> 0 /\ size a <= size r)%nat /\ (size b <> 0 /\ size b <= size r)%nat.
Proof.
  intros H Hr. apply binop_inv in H as [s [Hs ->]].
  unfold size in *. simpl in Hr |- *.
  unfold broadcast_shapes in Hs.
  destruct (broadcast_dims_fits _ _ _ Hs) as [F1 F2].
  apply fits_prod in F1; [| exact Hr]. apply fits_prod in F2; [| exact Hr].
  rewrite prod_shape_pad in F1, F2. split; assumption.
Qed.

Lemma magnitude_sizes (dv dm db mag : ndarray float) :
  change_vector_magnitude dv dm db = Ok mag -> size mag <> 0%nat ->
  (size dv <= size mag /\ size dm <= size mag /\ size db <= size mag)%nat.
Proof.
  intros H Hm. unfold change_vector_magnitude in H. cbv beta zeta in H.
  do 2 inv_bind H. injection H as <-.
  change (size (amap PrimFloat.sqrt v0)) with (size v0) in *.
  destruct (binop_sizes _ _ _ _ Hv0 Hm) as [[N12 L12] [_ Lb]].
  destruct (binop_sizes _ _ _ _ Hv N12) as [[_ Lv] [_ Lm]].
  change (size (amap (fun x => x * x)%float dv)) with (size dv) in *.
  change (size (amap (fun x => x * x)%float dm)) with (size dm) in *.
  change (size (amap (fun x => x * x)%float db)) with (size db) in *.
  lia.
Qed.

(** X5. In every run that returns (on fewer than [2^53] pixels), each of the
    nine percentages of the statistics is a float between [0.0] and
    [100.0]. *)
Theorem percentages_are_between_0_and_100 :
  forall (E : Externals) (bands1 bands2 st : dict) (r : results),
    rasters_wf bands1 -> rasters_wf st ->
    detect_changes_with_real_bands bands1 bands2 = (st, Ok r) ->
    (Z.of_nat (size (cva_magnitude r)) < 2 ^ 53)%Z ->
    Forall (fun p => (0 <=? p)%float = true /\ (p <=? 100)%float = true)
      [NDVI.vegetation_gain (ndvi (statistics r));
       NDVI.vegetation_loss (ndvi (statistics r));
       NDMI.moisture_gain (ndmi (statistics r));
       NDMI.moisture_loss (ndmi (statistics r));
       NDBI.urban_expansion (ndbi (statistics r));
       NDBI.urban_reduction (ndbi (statistics r));
       CVA.no_change_percent (cva (statistics r));
       CVA.moderate_change_percent (cva (statistics r));
       CVA.significant_change_percent (cva (statistics r))].
Proof.
  intros E bands1 bands2 st r W1 W2 Hrun Hsize.
  destruct (run_spec _ _ _ _ W1 W2 Hrun)
    as (mag & lo & hi & Hmag & _ & _ & Ec & Wmag & _ & _ & _ & Ilo & _
        & _ & _ & _ & _ & P1 & P2 & P3).
  destruct (detect_inv _ _ _ _ Hrun) as (dv & dm & db & Hc & Hs).
  destruct (index_changes_inv _ _ _ _ _ Hc W1 W2) as ([Wv _] & [Wm _] & [Wb _]).
  destruct (index_statistics_inv _ _ _ _ Hs)
    as (Dv & Dm & Db & (_ & _ & Vg & Vl) & (_ & _ & Mg & Ml) & (_ & _ & Bg & Bl)).
  rewrite Dv, Dm, Db in Hmag.
  set (n := size (cva_magnitude r)) in *.
  assert (En : n = size mag) by (unfold n; rewrite Ec; reflexivity).
  assert (Hn : n <> 0%nat).
  { rewrite En. unfold wf_array in Wmag. rewrite <- Wmag.
    destruct (data mag); [contradiction | discriminate]. }
  destruct (magnitude_sizes _ _ _ _ Hmag ltac:(rewrite <- En; exact Hn)) as (Lv & Lm & Lb).
  rewrite <- En in Lv, Lm, Lb.
  unfold wf_array in Wv, Wm, Wb.
  assert (Wn : length (data (cva_magnitude r)) = n).
  { rewrite Ec. unfold amap; simpl. rewrite length_map, En. exact Wmag. }
  assert (Hp : forall (p : float -> bool) (l : list float),
             (length l <= n)%nat ->
             (0 <=? percent (count p l) n)%float = true /\
             (percent (count p l) n <=? 100)%float = true).
  { intros p l Hl. apply percent_range_floats; [| lia].
    pose proof (count_bounds p l). lia. }
  rewrite Vg, Vl, Mg, Ml, Bg, Bl, P1, P2, P3.
  repeat constructor; apply Hp; lia.
Qed.

Lemma percentages_are_between_0_and_100_witness :
  exists r,
    detect_changes_with_real_bands (E := sample_externals) ex_bands1 ex_bands2_small
      = (ex_bands2_resized, Ok r) /\
    (NDVI.vegetation_loss (ndvi (statistics r)) <=? 100)%float = true /\
    (0 <=? NDBI.urban_expansion (ndbi (statistics r)))%float = true.
Proof.
  eexists. split; [vm_compute; reflexivity |].
  match goal with
  | |- (NDVI.vegetation_loss (ndvi (statistics ?r)) <=? _)%float = true /\ _ =>
      pose proof (percentages_are_between_0_and_100 sample_externals
                    ex_bands1 ex_bands2_small ex_bands2_resized r
                    ex_bands1_rasters ex_bands2_resized_rasters eq_refl eq_refl) as H
  end.
  inversion H as [| ? ? _ H1]; subst.
  inversion H1 as [| ? ? [_ Hl] H2]; subst.
  inversion H2 as [| ? ? _ H3]; subst.
  inversion H3 as [| ? ? _ H4]; subst.
  inversion H4 as [| ? ? [He _] _]; subst.
  split; [exact Hl | exact He].
Defined.

(** * The interpretation of a result *)

(** ** [format(x, '.2f')] of a Python float

    The decimal expansion of the exact binary value, rounded to two places
    (a tie goes to the even digit). *)

Definition round_half_even (num den : Z) : Z :=
  let q := (num / den)%Z in
  let r := (num mod den)%Z in
  if (2 * r <? den)%Z then q
  else if (den <? 2 * r)%Z then (q + 1)%Z
  else if Z.even q then q else (q + 1)%Z.

(** The magnitude [m * 2^e] in hundredths. *)
Definition hundredths (m : positive) (e : Z) : Z :=
  if (0 <=? e)%Z then (Zpos m * 2 ^ e * 100)%Z
  else round_half_even (Zpos m * 100) (2 ^ (- e)).

Definition decimal (n : Z) : string := NilZero.string_of_uint (N.to_uint (Z.to_N n)).

Definition fixed2 (q : Z) : string :=
  decimal (q / 100) ++ "." ++ decimal (q mod 100 / 10) ++ decimal (q mod 10).

Definition format_2f (x : float) : string :=
  match Prim2SF x with
  | S754_zero s => (if s then "-" else "") ++ "0.00"
  | S754_infinity s => if s then "-inf" else "inf"
  | S754_nan => "nan"
  | S754_finite s m e => (if s then "-" else "") ++ fixed2 (hundredths m e)
  end.

(** [sep.join(l)] *)
Fixpoint join (sep : string) (l : list string) : string :=
  match l with
  | [] => ""
  | [x] => x
  | x :: l' => x ++ sep ++ join sep l'
  end.

Definition blank_line : string := String "010" (String "010" EmptyString).

(** The literal parts of the f-strings of lines 185-234. *)
Definition warning_prefix : string :=
  "âš ï¸ **".

Definition warning_suffix : string :=
  "**".

Definition vegetation_loss_prefix : string :=
  "âš ï¸ **Significant Vegetation Loss**: ".

Definition vegetation_loss_suffix : string :=
  "% of area shows vegetation decline".

Definition vegetation_growth_prefix : string :=
  "âœ… **Vegetation Growth**: ".

Definition vegetation_growth_suffix : string :=
  "% of area shows vegetation increase".

Definition urban_expansion_prefix : string :=
  "ðŸ—ï¸ **Urban Expansion Detected**: ".

Definition urban_expansion_suffix : string :=
  "% of area shows urban development".

Definition moisture_depletion_prefix : string :=
  "ðŸ’§ **Moisture Depletion**: ".

Definition moisture_depletion_suffix : string :=
  "% of area shows moisture loss (possible drought)".

Definition moisture_increase_prefix : string :=
  "ðŸ’§ **Moisture Increase**: ".

Definition moisture_increase_suffix : string :=
  "% of area shows moisture gain".

Definition major_change_prefix : string :=
  "ðŸ”´ **Major Environmental Change**: ".

Definition major_change_suffix : string :=
  "% of area experienced significant transformation".

Definition moderate_change_prefix : string :=
  "ðŸŸ¡ **Moderate Environmental Change**: ".

Definition moderate_change_suffix : string :=
  "% of area shows moderate changes".

Definition stable_prefix : string :=
  "ðŸŸ¢ **Stable Environment**: ".

Definition stable_suffix : string :=
  "% of area remains unchanged".

Definition line (prefix : string) (x : float) (suffix : string) : string :=
  prefix ++ format_2f x ++ suffix.

(** Lines 181-234: the list [interpretation] when the method joins it. *)
Definition interpretation_lines (results : results) : list string :=
  let stats := statistics results in
  let interpretation : list string := [] in
  let interpretation :=
    match warning results with
    | Some w => (interpretation ++ [(warning_prefix ++ w ++ warning_suffix)%string]) ++ [""%string]
    | None => interpretation
    end in
  let interpretation :=
    if (10 <? NDVI.vegetation_loss (ndvi stats))%float then
      interpretation ++
      [line vegetation_loss_prefix (NDVI.vegetation_loss (ndvi stats)) vegetation_loss_suffix]
    else if (10 <? NDVI.vegetation_gain (ndvi stats))%float then
      interpretation ++
      [line vegetation_growth_prefix (NDVI.vegetation_gain (ndvi stats)) vegetation_growth_suffix]
    else interpretation in
  let interpretation :=
    if (5 <? NDBI.urban_expansion (ndbi stats))%float then
      interpretation ++
      [line urban_expansion_prefix (NDBI.urban_expansion (ndbi stats)) urban_expansion_suffix]
    else interpretation in
  let interpretation :=
    if (15 <? NDMI.moisture_loss (ndmi stats))%float then
      interpretation ++
      [line moisture_depletion_prefix (NDMI.moisture_loss (ndmi stats)) moisture_depletion_suffix]
    else if (15 <? NDMI.moisture_gain (ndmi stats))%float then
      interpretation ++
      [line moisture_increase_prefix (NDMI.moisture_gain (ndmi stats)) moisture_increase_suffix]
    else interpretation in
  let interpretation :=
    if (20 <? CVA.significant_change_percent (cva stats))%float then
      interpretation ++
      [line major_change_prefix (CVA.significant_change_percent (cva stats)) major_change_suffix]
    else if (30 <? CVA.moderate_change_percent (cva stats))%float then
      interpretation ++
      [line moderate_change_prefix (CVA.moderate_change_percent (cva stats)) moderate_change_suffix]
    else
      interpretation ++
      [line stable_prefix (CVA.no_change_percent (cva stats)) stable_suffix] in
  interpretation.

(** [get_change_interpretation(results)] *)
Definition get_change_interpretation (results : results) : string :=
  let interpretation := interpretation_lines results in
  match interpretation with
  | [] => "No significant changes detected"
  | _ :: _ => join blank_line interpretation
  end.

(** The rounding at work: ties to even on the exact binary value. *)
Example format_2f_examples :
  map format_2f [100; 0; 0.125; 0.375; 2.675; 33.333333333333336; 0.005; 99.995;
                 -0.001; 9.995; 1e-320; 1234567.891]%float =
  ["100.00"; "0.00"; "0.12"; "0.38"; "2.67"; "33.33"; "0.01"; "100.00";
   "-0.00"; "9.99"; "0.00"; "1234567.89"].
Proof. vm_compute. reflexivity. Qed.

Lemma append_length (s t : string) :
  String.length (s ++ t) = (String.length s + String.length t)%nat.
Proof. induction s as [| c s IH]; simpl; [reflexivity | now rewrite IH]. Qed.

Lemma append_assoc (s t u : string) : ((s ++ t) ++ u = s ++ (t ++ u))%string.
Proof. induction s as [| c s IH]; simpl; [reflexivity | now rewrite IH]. Qed.

Lemma join_snoc (sep : string) (l : list string) (x : string) :
  exists pre, join sep (l ++ [x]) = (pre ++ x)%string.
Proof.
  induction l as [| y l IH]; simpl.
  - exists "". reflexivity.
  - destruct IH as [pre IH].
    destruct (l ++ [x]) as [| z l'] eqn:El.
    + destruct l; discriminate.
    + rewrite IH. exists (y ++ sep ++ pre)%string.
      now rewrite !append_assoc.
Qed.

Lemma join_app (sep : string) (l : list string) (x : string) (l' : list string) :
  exists pre, join sep (l ++ x :: l') = (pre ++ join sep (x :: l'))%string.
Proof.
  induction l as [| y l IH].
  - exists "". reflexivity.
  - destruct IH as [pre IH].
    change ((y :: l) ++ x :: l') with (y :: (l ++ x :: l')).
    destruct (l ++ x :: l') as [| z l''] eqn:El.
    + destruct l; discriminate.
    + cbn [join]. cbn [join] in IH. rewrite IH. exists (y ++ sep ++ pre)%string.
      now rewrite !append_assoc.
Qed.

(** The last line, on the overall change: always one of three. *)
Definition overall_lines (c : CVA.stats) : list string :=
  [line major_change_prefix (CVA.significant_change_percent c) major_change_suffix;
   line moderate_change_prefix (CVA.moderate_change_percent c) moderate_change_suffix;
   line stable_prefix (CVA.no_change_percent c) stable_suffix].

Lemma interpretation_lines_last (r : results) :
  exists pre last,
    interpretation_lines r = pre ++ [last] /\ In last (overall_lines (cva (statistics r))).
Proof.
  unfold interpretation_lines. cbv zeta.
  match goal with
  | |- exists pre last, (if ?c then ?l ++ [?a] else if ?d then ?l ++ [?b] else ?l ++ [?e]) = _ /\ _ =>
      exists l; destruct c; [exists a | destruct d; [exists b | exists e]];
      (split; [reflexivity | simpl; auto])
  end.
Qed.

Lemma overall_line_long (c : CVA.stats) (l : string) :
  In l (overall_lines c) -> (31 < String.length l)%nat.
Proof.
  unfold overall_lines. cbn [In].
  intros [<- | [<- | [<- | []]]]; unfold line; rewrite !append_length;
    repeat match goal with
           | |- context [String.length ?p] =>
               is_const p;
               let n := eval vm_compute in (String.length p) in
               change (String.length p) with n
           end; lia.
Qed.

(** X6. The interpretation always ends with a line on the overall change
    (major, moderate or stable), so the text is never empty and the
    fallback "No significant changes detected" is never returned. *)
Theorem interpretation_never_falls_back :
  forall (r : results),
    exists pre last,
      get_change_interpretation r = (pre ++ last)%string /\
      In last (overall_lines (cva (statistics r))) /\
      get_change_interpretation r <> "No significant changes detected".
Proof.
  intros r. unfold get_change_interpretation. cbv zeta.
  destruct (interpretation_lines_last r) as (l & last & El & Hin).
  rewrite El.
  destruct (join_snoc blank_line l last) as [pre Hj].
  destruct (l ++ [last]) as [| x l'] eqn:E; [destruct l; discriminate |].
  exists pre, last. split; [exact Hj |]. split; [exact Hin |].
  rewrite Hj. intros Heq.
  apply (f_equal String.length) in Heq. rewrite append_length in Heq.
  pose proof (overall_line_long _ _ Hin). simpl in Heq. lia.
Qed.

Lemma ltb_trans_const (a b x : float) :
  (a <? b)%float = true -> (b <? x)%float = true -> (a <? x)%float = true.
Proof.
  intros Hab Hbx.
  destruct (ltb_true_not_nan _ _ Hab) as [Na Nb].
  destruct (ltb_true_not_nan _ _ Hbx) as [_ Nx].
  rewrite ltb_R in * by assumption.
  apply Z.ltb_lt in Hab, Hbx. apply Z.ltb_lt. lia.
Qed.

(** X7. On a result of the real-band engine, the interpretation reports
    "Urban Expansion Detected" exactly when more than 5 percent of the
    pixels lost moisture, with the moisture-loss percentage as its figure;
    so a "Moisture Depletion" line never comes without an "Urban Expansion
    Detected" line carrying the same number. *)
Theorem moisture_loss_is_reported_as_urban_expansion :
  forall (E : Externals) (bands1 bands2 st : dict) (r : results),
    rasters_wf bands1 -> rasters_wf st ->
    detect_changes_with_real_bands bands1 bands2 = (st, Ok r) ->
    let p := NDMI.moisture_loss (ndmi (statistics r)) in
    let urban := line urban_expansion_prefix p urban_expansion_suffix in
    let depletion := line moisture_depletion_prefix p moisture_depletion_suffix in
    ((5 <? p)%float = true -> In urban (interpretation_lines r)) /\
    ((5 <? p)%float = false ->
       forall x, ~ In (line urban_expansion_prefix x urban_expansion_suffix)
                   (interpretation_lines r)) /\
    ((15 <? p)%float = true ->
       In depletion (interpretation_lines r) /\ In urban (interpretation_lines r)).
Proof.
  intros E bands1 bands2 st r W1 W2 Hrun p urban depletion.
  destruct (ndbi_fields_mirror E _ _ _ _ W1 W2 Hrun) as (_ & _ & He & _).
  destruct (real_bands_tags _ _ _ _ Hrun) as [_ Hw].
  subst p. cbv zeta in *.
  assert (H15 : forall x, (15 <? x)%float = true -> (5 <? x)%float = true)
    by (intros x; apply ltb_trans_const; reflexivity).
  unfold interpretation_lines. cbv zeta. rewrite Hw, He.
  subst urban depletion.
  split; [| split].
  - intros C5. rewrite C5.
    repeat match goal with
           | |- context [if ?c then _ else _] => destruct c
           end;
      rewrite !in_app_iff; simpl; tauto.
  - intros C5 x. rewrite C5.
    repeat match goal with
           | |- context [if ?c then _ else _] => destruct c
           end;
      rewrite !in_app_iff; cbn [In app]; unfold line; intros H;
      repeat match type of H with
             | _ \/ _ => destruct H as [H | H]
             | False => contradiction
             end;
      simpl in H; discriminate H.
  - intros C15. rewrite C15, (H15 _ C15).
    repeat match goal with
           | |- context [if ?c then _ else _] => destruct c
           end;
      rewrite !in_app_iff; simpl; tauto.
Qed.

Lemma moisture_loss_is_reported_as_urban_expansion_witness :
  exists r,
    detect_changes_with_real_bands (E := sample_externals) ex_bands1 ex_dry
      = (ex_dry, Ok r) /\
    NDMI.moisture_loss (ndmi (statistics r)) = 50%float /\
    In (line moisture_depletion_prefix 50 moisture_depletion_suffix)
      (interpretation_lines r) /\
    In (line urban_expansion_prefix 50 urban_expansion_suffix)
      (interpretation_lines r).
Proof.
  eexists. split; [vm_compute; reflexivity |].
  split; [vm_compute; reflexivity |].
  match goal with
  | |- In _ (interpretation_lines ?r) /\ _ =>
      destruct (moisture_loss_is_reported_as_urban_expansion sample_externals
                  ex_bands1 ex_dry ex_dry r
                  ex_bands1_rasters ex_dry_rasters eq_refl) as (_ & _ & H)
  end.
  exact (H eq_refl).
Defined.

(** The warning of the legacy path (line 173). *)
Definition legacy_warning : string :=
  "âš ï¸ Results use simulated bands and may not be scientifically accurate".

Section LegacyText.

Context {E : Externals}.

(** What the legacy path returns: the result of the real-band engine on
    the simulated bands, with its own tags. *)
Lemma detect_changes_inv (image1 image2 : raster) (r : results) :
  detect_changes image1 image2 = Ok r ->
  exists image2' bands1 bands2 r0,
    simulate_bands_from_rgb image1 = Ok bands1 /\
    simulate_bands_from_rgb image2' = Ok bands2 /\
    snd (detect_changes_with_real_bands bands1 bands2) = Ok r0 /\
    statistics r = statistics r0 /\
    warning r =
      Some legacy_warning.
Proof.
  intros H. unfold detect_changes in H.
  do 4 inv_bind H. injection H as <-.
  exists v, v0, v1, v2. repeat split; assumption.
Qed.


Lemma warned_interpretation (r : results) (w : string) :
  warning r = Some w ->
  exists rest,
    get_change_interpretation r =
      ((warning_prefix ++ w ++ warning_suffix) ++ blank_line ++ blank_line ++ rest)%string /\
    rest <> "".
Proof.
  intros Hw. unfold get_change_interpretation, interpretation_lines. cbv zeta.
  rewrite Hw. cbv beta iota.
  repeat match goal with
         | |- context [if (?a <? ?b)%float then _ else _] => destruct (a <? b)%float
         end;
    cbn [app]; cbv beta iota; cbn [join];
    match goal with
    | |- context [("" ++ ?x)%string] => change ("" ++ x)%string with x
    end;
    eexists; (split; [rewrite !append_assoc; reflexivity |]);
    unfold line; simpl; discriminate.
Qed.

End LegacyText.

(** X8. The interpretation of any result of the legacy path opens with
    the warning, between the marker and two asterisks, followed by two
    blank-line separators (the warning line and an empty line), and then
    goes on with the findings. *)
Theorem legacy_interpretation_opens_with_warning :
  forall (E : Externals) (image1 image2 : raster) (r : results),
    detect_changes image1 image2 = Ok r ->
    exists rest,
      get_change_interpretation r =
        ((warning_prefix ++ legacy_warning ++ warning_suffix)
         ++ blank_line ++ blank_line ++ rest)%string /\
      rest <> "".
Proof.
  intros E image1 image2 r H.
  destruct (detect_changes_inv _ _ _ H) as (i2 & b1 & b2 & r0 & _ & _ & _ & _ & Hw).
  exact (warned_interpretation r legacy_warning Hw).
Qed.

Lemma legacy_interpretation_opens_with_warning_witness :
  exists r rest,
    detect_changes (E := sample_externals) ex_image1 ex_image2 = Ok r /\
    get_change_interpretation r =
      ((warning_prefix ++ legacy_warning ++ warning_suffix)
       ++ blank_line ++ blank_line ++ rest)%string.
Proof.
  assert (H : exists r, detect_changes (E := sample_externals) ex_image1 ex_image2 = Ok r)
    by (eexists; vm_compute; reflexivity).
  destruct H as [r H].
  destruct (legacy_interpretation_opens_with_warning sample_externals _ _ r H)
    as [rest [Hr _]].
  exists r, rest. split; [exact H | exact Hr].
Defined.

Section SameScene.

Context {E : Externals}.

(** The statistics the interpretation reads, for one band set as T1 and T2. *)
Lemma same_scene_statistics (s : list nat) (bands : dict) (nir red swir : raster) :
  band_set s bands nir red swir ->
  prod_shape s <> 0%nat ->
  (Z.of_nat (prod_shape s) < 2 ^ 63)%Z ->
  exists r,
    detect_changes_with_real_bands bands bands = (bands, Ok r) /\
    warning r = None /\
    NDVI.vegetation_gain (ndvi (statistics r)) = 0%float /\
    NDVI.vegetation_loss (ndvi (statistics r)) = 0%float /\
    NDMI.moisture_gain (ndmi (statistics r)) = 0%float /\
    NDMI.moisture_loss (ndmi (statistics r)) = 0%float /\
    NDBI.urban_expansion (ndbi (statistics r)) = 0%float /\
    NDBI.urban_reduction (ndbi (statistics r)) = 0%float /\
    CVA.no_change_percent (cva (statistics r)) = 100%float /\
    CVA.moderate_change_percent (cva (statistics r)) = 0%float /\
    CVA.significant_change_percent (cva (statistics r)) = 0%float.
Proof.
  intros B Hne Hsize.
  rewrite (detect_same s _ _ _ _ _ _ _ _ B B Hne).
  assert (Hc : forall a b, wf_raster a -> wf_raster b -> rshape a = s -> rshape b = s ->
                 change_of a b a b = repeat 0%float (prod_shape s)).
  { intros a b Wa Wb Sa Sb. rewrite change_of_same. f_equal.
    pose proof (samples_length _ Wa). pose proof (samples_length _ Wb).
    unfold rsize in *. rewrite Sa, Sb in *. rewrite zip_with_length_min. lia. }
  destruct B as [_ _ _ S1 S2 S3 W1 W2 W3].
  rewrite (Hc nir red), (Hc nir swir), (Hc swir nir) by assumption.
  set (n := prod_shape s) in *.
  destruct (change_statistics_same s (repeat 0%float n) (repeat 0%float n)
              (repeat 0%float n))
    as [lo [hi [r [Hlo [Hhi [Hr [Ev [Em [Eb [Ec [P1 [P2 [P3 [_ Hw]]]]]]]]]]]]]];
    try (rewrite repeat_length; reflexivity); try exact Hne.
  rewrite magnitudes_zero in *.
  assert (Hlo0 : lo = 0%float).
  { destruct n as [| n']; [contradiction |]. simpl in Hlo.
    rewrite fold_minimum_zero in Hlo. congruence. }
  assert (Hhi0 : hi = 0%float).
  { destruct n as [| n']; [contradiction |]. simpl in Hhi.
    rewrite fold_maximum_zero in Hhi. congruence. }
  subst lo hi. rewrite normalize_zero in *.
  rewrite count_zero in P1, P2, P3.
  change (tier_none 0) with true in P1.
  change (tier_moderate 0) with false in P2.
  change (tier_significant 0) with false in P3.
  destruct (index_statistics_inv _ _ _ _ Hr)
    as (_ & _ & _ & (_ & _ & Vg & Vl) & (_ & _ & Mg & Ml) & (_ & _ & Bg & Bl)).
  rewrite Ec in Vg, Vl, Mg, Ml, Bg, Bl.
  change (size (mk_array s (repeat 0%float n))) with n in *.
  cbn [data] in Vg, Vl, Mg, Ml, Bg, Bl.
  assert (G : count (fun x => 0.1 <? x)%float (repeat 0%float n) = 0%Z)
    by (rewrite count_zero; reflexivity).
  assert (L : count (fun x => x <? -0.1)%float (repeat 0%float n) = 0%Z)
    by (rewrite count_zero; reflexivity).
  rewrite G in Vg, Mg, Bg. rewrite L in Vl, Ml, Bl.
  cbv iota in P1, P2, P3. fold n in P1, P2, P3.
  assert (Hn : (0 < Z.of_nat n < 2 ^ 63)%Z) by lia.
  rewrite (percent_none n Hn) in Vg, Vl, Mg, Ml, Bg, Bl, P2, P3.
  rewrite (percent_all n Hn) in P1.
  exists r. rewrite Hr. repeat split; assumption.
Qed.

End SameScene.

(** X9. One band set taken as both T1 and T2 (three bands of one non-empty
    shape) is read as stable: the interpretation is the single line
    "... **Stable Environment**: 100.00% of area remains unchanged". *)
Theorem identical_scenes_read_as_stable :
  forall (E : Externals) (s : list nat) (bands : dict) (nir red swir : raster),
    band_set s bands nir red swir ->
    prod_shape s <> 0%nat ->
    (Z.of_nat (prod_shape s) < 2 ^ 63)%Z ->
    exists r,
      detect_changes_with_real_bands bands bands = (bands, Ok r) /\
      get_change_interpretation r = (stable_prefix ++ "100.00" ++ stable_suffix)%string.
Proof.
  intros E s bands nir red swir B Hne Hsize.
  destruct (same_scene_statistics s bands nir red swir B Hne Hsize)
    as (r & Hrun & Hw & Vg & Vl & Mg & Ml & Bg & Bl & P1 & P2 & P3).
  exists r. split; [exact Hrun |].
  unfold get_change_interpretation, interpretation_lines. cbv zeta.
  rewrite Hw, Vg, Vl, Mg, Ml, Bg, P1, P2, P3.
  reflexivity.
Qed.

Lemma identical_scenes_read_as_stable_witness :
  exists r,
    detect_changes_with_real_bands (E := sample_externals) ex_bands1 ex_bands1
      = (ex_bands1, Ok r) /\
    get_change_interpretation r = (stable_prefix ++ "100.00" ++ stable_suffix)%string.
Proof.
  apply (identical_scenes_read_as_stable sample_externals [2; 2]%nat
           ex_bands1 _ _ _ ex_bands1_set).
  - discriminate.
  - reflexivity.
Defined.

Lemma index_raster_raises (a b : ndarray float) :
  broadcast_shapes (shape a) (shape b) = None ->
  obind (binop PrimFloat.sub a b) (fun num =>
  obind (binop PrimFloat.add a b) (fun den =>
  obind (binop PrimFloat.div num den) (fun q =>
  Ok (amap nan_to_num q)))) = Raise ValueError.
Proof.
  intros H. unfold binop at 1. now rewrite H.
Qed.

(** X10. An index of two rasters is computed exactly when their shapes can
    be broadcast together: if they cannot, [calculate_ndvi] raises
    [ValueError]; if they can, it returns a raster of the broadcast shape,
    each pixel the index of a sample of the first band and a sample of the
    second: the two bands are first repeated along their extents of 1 up
    to the broadcast shape. *)
Theorem index_needs_broadcastable_shapes :
  forall (nir red : raster),
    wf_raster nir -> wf_raster red ->
    match broadcast_shapes (rshape nir) (rshape red) with
    | None => calculate_ndvi nir red = Raise ValueError
    | Some s =>
        exists r,
          calculate_ndvi nir red = Ok r /\ shape r = s /\
          data r = zip_with index_px (bcast s (astype_float nir))
                     (bcast s (astype_float red)) /\
          length (data r) = prod_shape s /\
          Forall (fun v => exists x y,
                    In x (samples nir) /\ In y (samples red) /\ v = index_px x y)
            (data r)
    end.
Proof.
  intros nir red Wn Wr.
  pose proof (astype_float_wf _ Wn) as Wa. pose proof (astype_float_wf _ Wr) as Wb.
  rewrite <- (astype_float_shape nir), <- (astype_float_shape red).
  destruct (broadcast_shapes _ _) as [s |] eqn:Hs.
  - unfold calculate_ndvi. rewrite (index_raster_total _ _ s Hs Wa Wb).
    eexists. split; [reflexivity |]. split; [reflexivity |].
    split; [reflexivity |].
    destruct (bcast_length _ _ s Hs) as [La Lb].
    specialize (La Wa). specialize (Lb Wb). cbn [data].
    split; [rewrite zip_with_length_min; lia |].
    apply Forall_forall. intros v Hv.
    apply zip_with_In in Hv as [x [y [Hx [Hy ->]]]].
    exists x, y. split; [| split; [| reflexivity]].
    + exact (bcast_In _ _ _ Hx).
    + exact (bcast_In _ _ _ Hy).
  - apply index_raster_raises. exact Hs.
Qed.

Lemma index_needs_broadcastable_shapes_witness :
  calculate_ndvi (u8 [2; 2] [10; 20; 30; 40]%Z) (u8 [2; 3] [1; 2; 3; 4; 5; 6]%Z)
    = Raise ValueError /\
  exists r,
    calculate_ndvi (u8 [2; 2] [10; 20; 30; 40]%Z) (u8 [1; 2] [10; 0]%Z) = Ok r /\
    shape r = [2; 2]%nat.
Proof.
  split.
  - apply (index_needs_broadcastable_shapes
             (u8 [2; 2] [10; 20; 30; 40]%Z) (u8 [2; 3] [1; 2; 3; 4; 5; 6]%Z));
      repeat constructor; simpl; lia.
  - destruct (index_needs_broadcastable_shapes
                (u8 [2; 2] [10; 20; 30; 40]%Z) (u8 [1; 2] [10; 0]%Z))
      as (r & Hr & Hs & _ & _); try (repeat constructor; simpl; lia).
    exists r. split; [exact Hr | exact Hs].
Defined.

(** * The simulated bands *)

(** One sample of the simulated bands (lines 143-144). *)
Definition simulated_nir_px (g : float) : Z :=
  astype_uint8 (np_clip (g * 1.2 + 20) 0 255)%float.

Definition simulated_swir_px (r b : float) : Z :=
  astype_uint8 (np_clip (r * 0.8 + b * 0.3) 0 255)%float.

Definition bytes : list Z := map Z.of_nat (seq 0 256).

Lemma bytes_In (z : Z) : (0 <= z < 256)%Z -> In z bytes.
Proof.
  intros H. unfold bytes. apply in_map_iff. exists (Z.to_nat z).
  split; [lia |]. apply in_seq. lia.
Qed.

(** The formula, checked on every byte. *)
Lemma simulated_nir_bytes :
  forallb (fun g => Z.eqb (simulated_nir_px (Z2float g)) (Z.min 255 ((6 * g + 100) / 5)))
    bytes = true.
Proof. vm_compute. reflexivity. Qed.

Lemma simulated_nir_closed (g : Z) :
  (0 <= g < 256)%Z ->
  simulated_nir_px (Z2float g) = Z.min 255 ((6 * g + 100) / 5).
Proof.
  intros H. pose proof simulated_nir_bytes as C.
  rewrite forallb_forall in C. specialize (C g (bytes_In g H)).
  now apply Z.eqb_eq in C.
Qed.

(** The three planes of a colour image. *)
Lemma colour_planes (k h w : nat) (a : ndarray Z) :
  shape a = [h; w; 3%nat] -> wf_raster (U8 a) -> (k < 3)%nat ->
  channel k (U8 a) = Ok (u8 [h; w] (strided (h * w) 3 k (data a))) /\
  length (strided (h * w) 3 k (data a)) = (h * w)%nat /\
  Forall (fun z => (0 <= z < 256)%Z) (strided (h * w) 3 k (data a)).
Proof.
  intros Hs Hwf Hk.
  destruct (channel_plane k h w 3 (U8 a) Hs Hwf Hk) as [r [Hc [Sr Wr]]].
  assert (Hc' : channel k (U8 a) = Ok (u8 [h; w] (strided (h * w) 3 k (data a)))).
  { unfold channel, channel_of. rewrite Hs.
    destruct (Nat.ltb_spec k 3) as [_ | ?]; [reflexivity | lia]. }
  rewrite Hc' in Hc. injection Hc as <-.
  split; [exact Hc' |].
  destruct Wr as [Wl Wf]. unfold wf_array, size in Wl. simpl in Wl, Wf.
  split; [lia | exact Wf].
Qed.

Lemma simulated_swir_samples (red blue : list Z) :
  map (fun x => astype_uint8 (np_clip x 0 255)%float)
    (zip_with PrimFloat.add
       (map (fun r => r * 0.8)%float (map Z2float red))
       (map (fun b => b * 0.3)%float (map Z2float blue))) =
  map (fun rb => simulated_swir_px (Z2float (fst rb)) (Z2float (snd rb)))
    (combine red blue).
Proof.
  unfold zip_with. rewrite !map_map.
  revert blue. induction red as [| r red IH]; intros [| b blue]; simpl;
    try reflexivity. f_equal. apply IH.
Qed.

(** X11. From a colour image of bytes ([h] x [w] x 3, that [cv2.cvtColor]
    accepts) the simulation returns five rasters of bytes of shape
    [h] x [w], under the keys 'red', 'green', 'blue', 'nir' and 'swir' in
    this order: the three planes of the image, and the two simulated
    bands. The samples of 'nir' are [min(255, floor((6 g + 100) / 5))] of
    the green samples [g], so never below 20. *)
Theorem simulated_bands_of_a_colour_image :
  forall (E : Externals) (h w : nat) (a : ndarray Z) (gray : raster),
    shape a = [h; w; 3%nat] -> wf_raster (U8 a) ->
    cv2_cvtColor_RGB2GRAY (U8 a) = Ok gray ->
    let red := strided (h * w) 3 0 (data a) in
    let green := strided (h * w) 3 1 (data a) in
    let blue := strided (h * w) 3 2 (data a) in
    exists nir swir,
      simulate_bands_from_rgb (U8 a) =
        Ok [("red", u8 [h; w] red); ("green", u8 [h; w] green);
            ("blue", u8 [h; w] blue); ("nir", u8 [h; w] nir);
            ("swir", u8 [h; w] swir)] /\
      nir = map (fun g => Z.min 255 ((6 * g + 100) / 5))%Z green /\
      Forall (fun z => 20 <= z <= 255)%Z nir /\
      length swir = (h * w)%nat /\
      Forall (fun z => 0 <= z <= 255)%Z swir.
Proof.
  intros E h w a gray Hs Hwf Hg red green blue.
  destruct (colour_planes 0 h w a Hs Hwf ltac:(lia)) as (C0 & L0 & F0).
  destruct (colour_planes 1 h w a Hs Hwf ltac:(lia)) as (C1 & L1 & F1).
  destruct (colour_planes 2 h w a Hs Hwf ltac:(lia)) as (C2 & L2 & F2).
  fold red in C0, L0, F0. fold green in C1, L1, F1. fold blue in C2, L2, F2.
  unfold simulate_bands_from_rgb. cbn [rshape]. rewrite Hs. cbn [length Nat.eqb].
  rewrite Hg. cbn [obind]. rewrite C0, C1, C2. cbn [obind].
  unfold u8 at 1 2. cbn [astype_float].
  rewrite binop_same_shape;
    try reflexivity;
    try (unfold wf_array, size, amap; cbn [shape data prod_shape fold_right];
         rewrite !length_map; lia).
  cbn [obind].
  exists (map (fun g => simulated_nir_px (Z2float g)) green),
         (map (fun rb => simulated_swir_px (Z2float (fst rb)) (Z2float (snd rb)))
            (combine red blue)).
  assert (En : map (fun g => simulated_nir_px (Z2float g)) green =
               map (fun g => Z.min 255 ((6 * g + 100) / 5))%Z green).
  { apply map_ext_in. intros g Hin. apply simulated_nir_closed.
    rewrite Forall_forall in F1. exact (F1 g Hin). }
  split; [| split; [exact En | split; [| split]]].
  - unfold u8, amap. cbn [shape data]. repeat f_equal.
    + cbn [astype_float amap data]. now rewrite map_map.
    + apply simulated_swir_samples.
  - rewrite En. apply Forall_forall. intros z Hz.
    apply in_map_iff in Hz as [g [<- Hin]].
    rewrite Forall_forall in F1. specialize (F1 g Hin). cbv beta.
    assert (20 <= (6 * g + 100) / 5)%Z by (apply Z.div_le_lower_bound; lia). lia.
  - rewrite length_map, length_combine. lia.
  - apply Forall_forall. intros z Hz. apply in_map_iff in Hz as [rb [<- _]].
    unfold simulated_swir_px.
    pose proof (astype_uint8_range
                  (np_clip (Z2float (fst rb) * 0.8 + Z2float (snd rb) * 0.3) 0 255)%float).
    lia.
Qed.

Lemma simulated_bands_of_a_colour_image_witness :
  exists nir swir,
    simulate_bands_from_rgb (E := sample_externals) ex_image1 =
      Ok [("red", u8 [1; 2] [10; 40]%Z); ("green", u8 [1; 2] [20; 50]%Z);
          ("blue", u8 [1; 2] [30; 60]%Z); ("nir", u8 [1; 2] nir);
          ("swir", u8 [1; 2] swir)] /\
    nir = [44; 80]%Z.
Proof.
  assert (Hg : exists gray,
             cv2_cvtColor_RGB2GRAY (Externals := sample_externals) ex_image1 = Ok gray)
    by (eexists; vm_compute; reflexivity).
  destruct Hg as [gray Hg].
  destruct (simulated_bands_of_a_colour_image sample_externals 1 2
              (mk_array [1; 2; 3]%nat [10; 20; 30; 40; 50; 60]%Z) gray eq_refl)
    as (nir & swir & H & Hn & _).
  - split; [reflexivity | repeat constructor; lia].
  - exact Hg.
  - exists nir, swir. split; [exact H | exact Hn].
Defined.

(** * The range of the changes *)

(** Every raster of a band mapping holds samples in range. *)
Definition rasters_in_range (d : dict) : Prop :=
  Forall (fun kv => samples_in_range (snd kv)) d.

Lemma rasters_in_range_get (d : dict) (k : string) (v : raster) :
  rasters_in_range d -> dict_get k d = Ok v -> samples_in_range v.
Proof.
  intros W H. apply dict_get_In in H.
  unfold rasters_in_range in W. rewrite Forall_forall in W. exact (W _ H).
Qed.

Section ChangeRange.

Context {E : Externals}.

Local Open Scope Z_scope.

Lemma R_two : R 2 = pow2 1.
Proof. vm_compute. reflexivity. Qed.

Lemma R_minus_two : R (-2) = - pow2 1.
Proof. vm_compute. reflexivity. Qed.

(** The difference of two values of magnitude at most one. *)
Lemma change_px_two (i1 i2 : float) :
  within 0 i1 -> within 0 i2 -> within 1 (i2 - i1).
Proof.
  intros [F1 B1] [F2 B2].
  pose proof (pow2_pos 0 ltac:(unfold bias; lia)) as Hp.
  pose proof (pow2_double 0 ltac:(unfold bias; lia)) as Hd. simpl Z.add in Hd.
  destruct (Z_lt_le_dec (Z.abs (R i2 - R i1)) (pow2 1)) as [Hlt | Hge].
  - destruct (sub_bound i2 i1 1 F2 F1 ltac:(lia) Hlt) as (F & B & _).
    split; assumption.
  - assert (Hc : (R i2 = pow2 0 /\ R i1 = - pow2 0) \/
                 (R i2 = - pow2 0 /\ R i1 = pow2 0)) by lia.
    assert (One : forall x, finite x -> R x = pow2 0 -> x = 1%float).
    { intros x Fx Hx. apply Prim2SF_inj. apply rank_inj.
      - now apply finite_fin.
      - apply finite_fin. split; reflexivity.
      - fold (R x) (R 1). now rewrite R_one.
      - fold (R x). lia. }
    assert (Neg : forall x, finite x -> R x = - pow2 0 -> x = (-1)%float).
    { intros x Fx Hx. apply Prim2SF_inj. apply rank_inj.
      - now apply finite_fin.
      - apply finite_fin. split; reflexivity.
      - fold (R x) (R (-1)). now rewrite R_minus_one.
      - fold (R x). lia. }
    destruct Hc as [[H2 H1] | [H2 H1]].
    + rewrite (One _ F2 H2), (Neg _ F1 H1).
      change (1 - -1)%float with 2%float.
      split; [split; reflexivity | rewrite R_two; lia].
    + rewrite (Neg _ F2 H2), (One _ F1 H1).
      change (-1 - 1)%float with (-2)%float.
      split; [split; reflexivity | rewrite R_minus_two; lia].
Qed.

Lemma index_raster_unit (a b : raster) (r : ndarray float) :
  obind (binop PrimFloat.sub (astype_float a) (astype_float b)) (fun num =>
  obind (binop PrimFloat.add (astype_float a) (astype_float b)) (fun den =>
  obind (binop PrimFloat.div num den) (fun q =>
  Ok (amap nan_to_num q)))) = Ok r ->
  wf_raster a -> wf_raster b -> samples_in_range a -> samples_in_range b ->
  wf_array r /\ Forall (within 0) (data r).
Proof.
  intros H Wa Wb Ia Ib.
  destruct (index_raster_inv _ _ _ H Wa Wb) as [W _]. split; [exact W |].
  destruct (index_raster_form _ _ _ H (astype_float_wf _ Wa) (astype_float_wf _ Wb))
    as [s [_ ->]].
  pose proof (samples_of_in_range a Wa Ia) as Sa.
  pose proof (samples_of_in_range b Wb Ib) as Sb.
  unfold samples in Sa, Sb. rewrite Forall_forall in Sa, Sb.
  apply Forall_forall. intros v Hv. cbn [data] in Hv.
  apply zip_with_In in Hv as [x [y [Hx [Hy ->]]]].
  apply bcast_In in Hx. apply bcast_In in Hy.
  apply Sa in Hx. apply Sb in Hy.
  apply in_range_spec in Hx as [Fx Hx]. apply in_range_spec in Hy as [Fy Hy].
  split; [apply index_px_finite | now apply index_px_range].
Qed.

Lemma change_raster_two (i2 i1 d : ndarray float) :
  binop PrimFloat.sub i2 i1 = Ok d ->
  wf_array i2 /\ Forall (within 0) (data i2) ->
  wf_array i1 /\ Forall (within 0) (data i1) ->
  Forall (within 1) (data d).
Proof.
  intros H [W2 F2] [W1 F1].
  apply (binop_Forall _ _ _ _ _ _ _ H F2 F1).
  intros x y Hx Hy. now apply change_px_two.
Qed.

Lemma index_changes_two (bands1 bands2 : dict) (dv dm db : ndarray float) :
  index_changes bands1 bands2 = Ok (dv, dm, db) ->
  rasters_wf bands1 -> rasters_wf bands2 ->
  rasters_in_range bands1 -> rasters_in_range bands2 ->
  Forall (within 1) (data dv) /\ Forall (within 1) (data dm) /\
  Forall (within 1) (data db).
Proof.
  intros H W1 W2 I1 I2. unfold index_changes in H.
  do 21 inv_bind H.
  injection H as <- <- <-.
  repeat split;
    (eapply change_raster_two; [eassumption | |]);
    (eapply index_raster_unit; [eassumption | | | |]);
    eauto using rasters_wf_get, rasters_in_range_get.
Qed.

(** The extreme values of a non-empty raster within bounds. *)
Lemma extremes_within (k : Z) (a : ndarray float) (hi lo : float) :
  Forall (within k) (data a) ->
  np_max a = Ok hi -> np_min a = Ok lo ->
  within k hi /\ within k lo /\ R lo <= R hi.
Proof.
  intros F Hhi Hlo. unfold np_max, np_min in *.
  pose proof (within_finite _ _ F) as Ff.
  destruct (reduce_maximum_spec _ _ Ff Hhi) as (_ & Ihi & Ahi).
  destruct (reduce_minimum_spec _ _ Ff Hlo) as (_ & Ilo & _).
  rewrite Forall_forall in F, Ahi.
  split; [exact (F _ Ihi) |]. split; [exact (F _ Ilo) |]. exact (Ahi _ Ilo).
Qed.

Lemma within_one_floats (x : float) :
  within 1 x -> (-2 <=? x)%float = true /\ (x <=? 2)%float = true.
Proof.
  intros [F B]. pose proof (finite_not_nan _ F) as Hn.
  rewrite (leb_R (-2) _ eq_refl Hn), (leb_R _ 2 Hn eq_refl).
  rewrite R_minus_two, R_two. split; apply Z.leb_le; lia.
Qed.

End ChangeRange.

(** A value between -2 and 2. *)
Definition within_two (x : float) : Prop :=
  finite x /\ (-2 <=? x)%float = true /\ (x <=? 2)%float = true.

(** X12. When no sample of the two band sets is negative, infinite or a
    NaN (as in any [uint8] raster), a run that returns holds change
    rasters whose pixels all lie in [-2, 2], and so do the reported largest
    and smallest changes of the three indices, the smallest never above the
    largest. *)
Theorem changes_lie_between_minus_two_and_two :
  forall (E : Externals) (bands1 bands2 st : dict) (r : results),
    rasters_wf bands1 -> rasters_wf st ->
    rasters_in_range bands1 -> rasters_in_range st ->
    detect_changes_with_real_bands bands1 bands2 = (st, Ok r) ->
    Forall within_two (data (ndvi_change r)) /\
    Forall within_two (data (ndmi_change r)) /\
    Forall within_two (data (ndbi_change r)) /\
    Forall within_two
      [NDVI.max_change (ndvi (statistics r)); NDVI.min_change (ndvi (statistics r));
       NDMI.max_change (ndmi (statistics r)); NDMI.min_change (ndmi (statistics r));
       NDBI.max_change (ndbi (statistics r)); NDBI.min_change (ndbi (statistics r))] /\
    (NDVI.min_change (ndvi (statistics r)) <=? NDVI.max_change (ndvi (statistics r)))%float
      = true /\
    (NDMI.min_change (ndmi (statistics r)) <=? NDMI.max_change (ndmi (statistics r)))%float
      = true /\
    (NDBI.min_change (ndbi (statistics r)) <=? NDBI.max_change (ndbi (statistics r)))%float
      = true.
Proof.
  intros E bands1 bands2 st r W1 W2 I1 I2 Hrun.
  destruct (detect_inv _ _ _ _ Hrun) as (dv & dm & db & Hc & Hs).
  destruct (index_changes_two _ _ _ _ _ Hc W1 W2 I1 I2) as (Fv & Fm & Fb).
  destruct (index_statistics_inv _ _ _ _ Hs)
    as (-> & -> & -> & (Vx & Vn & _) & (Mx & Mn & _) & (Bx & Bn & _)).
  destruct (extremes_within 1 _ _ _ Fv Vx Vn) as (V1 & V2 & V3).
  destruct (extremes_within 1 _ _ _ Fm Mx Mn) as (M1 & M2 & M3).
  destruct (extremes_within 1 _ _ _ Fb Bx Bn) as (B1 & B2 & B3).
  assert (Hw : forall x, within 1 x -> within_two x).
  { intros x Hx. split; [exact (proj1 Hx) | now apply within_one_floats]. }
  assert (Hle : forall x y, within 1 x -> within 1 y -> (R x <= R y)%Z ->
                            (x <=? y)%float = true).
  { intros x y [Fx _] [Fy _] H.
    rewrite (leb_R x y) by now apply finite_not_nan. now apply Z.leb_le. }
  split; [eapply Forall_impl; [exact Hw | exact Fv] |].
  split; [eapply Forall_impl; [exact Hw | exact Fm] |].
  split; [eapply Forall_impl; [exact Hw | exact Fb] |].
  split; [repeat (apply Forall_cons; [apply Hw; assumption |]); apply Forall_nil |].
  split; [now apply Hle |]. split; now apply Hle.
Qed.

Lemma ex_bands1_in_range : rasters_in_range ex_bands1.
Proof. repeat constructor. Qed.

Lemma ex_dry_in_range : rasters_in_range ex_dry.
Proof. repeat constructor. Qed.

Lemma changes_lie_between_minus_two_and_two_witness :
  exists r,
    detect_changes_with_real_bands (E := sample_externals) ex_bands1 ex_dry
      = (ex_dry, Ok r) /\
    Forall within_two (data (ndmi_change r)) /\
    (NDMI.min_change (ndmi (statistics r)) <=? NDMI.max_change (ndmi (statistics r)))%float
      = true.
Proof.
  eexists. split; [vm_compute; reflexivity |].
  match goal with
  | |- Forall within_two (data (ndmi_change ?r)) /\ _ =>
      destruct (changes_lie_between_minus_two_and_two sample_externals
                  ex_bands1 ex_dry ex_dry r
                  ex_bands1_rasters ex_dry_rasters
                  ex_bands1_in_range ex_dry_in_range eq_refl)
        as (_ & H1 & _ & _ & _ & H2 & _)
  end.
  split; [exact H1 | exact H2].
Defined.

Lemma simulated_grey_swir_bytes :
  forallb (fun g => Z.eqb (simulated_swir_px (Z2float g) (Z2float g))
                      (Z.min 255 ((11 * g) / 10))) bytes = true.
Proof. vm_compute. reflexivity. Qed.

Lemma simulated_grey_swir_closed (g : Z) :
  (0 <= g < 256)%Z ->
  simulated_swir_px (Z2float g) (Z2float g) = Z.min 255 ((11 * g) / 10).
Proof.
  intros H. pose proof simulated_grey_swir_bytes as C.
  rewrite forallb_forall in C. specialize (C g (bytes_In g H)).
  now apply Z.eqb_eq in C.
Qed.

Lemma combine_same {A} (l : list A) : combine l l = map (fun x => (x, x)) l.
Proof. induction l as [| x l IH]; simpl; [reflexivity | now rewrite IH]. Qed.

(** X13. A grey image of bytes ([h] x [w]) stands for all three colours:
    the simulation returns it under 'red', 'green' and 'blue', without
    calling [cv2.cvtColor], next to the two simulated bands, whose samples
    are [min(255, floor((6 g + 100) / 5))] for 'nir' and
    [min(255, floor(11 g / 10))] for 'swir' of the grey samples [g]; so
    'nir' is at least 20 and 'swir' never exceeds 'nir'. *)
Theorem simulated_bands_of_a_grey_image :
  forall (E : Externals) (h w : nat) (a : ndarray Z),
    shape a = [h; w] -> wf_raster (U8 a) ->
    exists nir swir,
      simulate_bands_from_rgb (U8 a) =
        Ok [("red", U8 a); ("green", U8 a); ("blue", U8 a);
            ("nir", u8 [h; w] nir); ("swir", u8 [h; w] swir)] /\
      nir = map (fun g => Z.min 255 ((6 * g + 100) / 5))%Z (data a) /\
      swir = map (fun g => Z.min 255 ((11 * g) / 10))%Z (data a) /\
      Forall2 (fun n s => 20 <= n <= 255 /\ 0 <= s <= n)%Z nir swir.
Proof.
  intros E h w a Hs Hwf.
  destruct Hwf as [Hlen Hrange]. unfold wf_array, size in Hlen. rewrite Hs in Hlen.
  unfold simulate_bands_from_rgb. cbn [rshape]. rewrite Hs. cbn [length Nat.eqb obind].
  cbn [astype_float].
  rewrite binop_same_shape;
    try reflexivity;
    try (unfold wf_array, size, amap; cbn [shape data]; rewrite !length_map, Hs; exact Hlen).
  cbn [obind].
  assert (En : map (fun g => simulated_nir_px (Z2float g)) (data a) =
               map (fun g => Z.min 255 ((6 * g + 100) / 5))%Z (data a)).
  { apply map_ext_in. intros g Hin. apply simulated_nir_closed.
    rewrite Forall_forall in Hrange. exact (Hrange g Hin). }
  assert (Es : map (fun g => simulated_swir_px (Z2float g) (Z2float g)) (data a) =
               map (fun g => Z.min 255 ((11 * g) / 10))%Z (data a)).
  { apply map_ext_in. intros g Hin. apply simulated_grey_swir_closed.
    rewrite Forall_forall in Hrange. exact (Hrange g Hin). }
  exists (map (fun g => Z.min 255 ((6 * g + 100) / 5))%Z (data a)),
         (map (fun g => Z.min 255 ((11 * g) / 10))%Z (data a)).
  split; [| split; [reflexivity | split; [reflexivity |]]].
  - rewrite <- En, <- Es. unfold u8, amap. cbn [shape data]. rewrite Hs.
    repeat f_equal.
    + now rewrite map_map.
    + rewrite simulated_swir_samples, combine_same, map_map. reflexivity.
  - clear En Es Hlen. induction Hrange as [| g l Hg _ IH]; cbn [map]; [constructor |].
    constructor; [| exact IH].
    assert (20 <= (6 * g + 100) / 5)%Z by (apply Z.div_le_lower_bound; lia).
    assert (0 <= (11 * g) / 10)%Z by (apply Z.div_pos; lia).
    assert ((11 * g) / 10 <= (6 * g + 100) / 5)%Z.
    { apply Z.div_le_lower_bound; [lia |].
      pose proof (Z.mul_div_le (11 * g) 10 ltac:(lia)).
      pose proof (Z.mul_succ_div_gt (6 * g + 100) 5 ltac:(lia)). lia. }
    lia.
Qed.

Lemma simulated_bands_of_a_grey_image_witness :
  exists nir swir,
    simulate_bands_from_rgb (E := sample_externals) (u8 [1; 3] [0; 100; 255]%Z) =
      Ok [("red", u8 [1; 3] [0; 100; 255]%Z); ("green", u8 [1; 3] [0; 100; 255]%Z);
          ("blue", u8 [1; 3] [0; 100; 255]%Z); ("nir", u8 [1; 3] nir);
          ("swir", u8 [1; 3] swir)] /\
    nir = [20; 140; 255]%Z /\ swir = [0; 110; 255]%Z.
Proof.
  destruct (simulated_bands_of_a_grey_image sample_externals 1 3
              (mk_array [1; 3]%nat [0; 100; 255]%Z) eq_refl)
    as (nir & swir & H & Hn & Hsw & _).
  - split; [reflexivity | repeat constructor; lia].
  - exists nir, swir. split; [exact H |]. split; [exact Hn | exact Hsw].
Defined.
